(* ===== verification/_CoqProject ===== *)
-Q . S2P
Prelude.v
Alloc.v
Arena.v
Layout.v
Stack.v
Store.v
CString.v
Memory.v
Protocol.v
Os.v
Log.v
Config.v
Net.v
Client.v
Frame.v
EndToEnd.v
Ini.v
IniSpec.v
IniFile.v
Task.v
Server.v
ServerLogic.v
Answer.v
ServerFrame.v
ServerSpec.v
Reply.v
ServerLive.v
Lifecycle.v
Main.v
MainSpec.v
Startup.v
