(* ===== verification/Prelude.v ===== *)
(** dpatch: a verification development.

    dpatch (src/src/) is a task runner in C.  One process, the agent, keeps a workspace
    file that describes tasks; a client sends it a command over TCP, and the agent loads
    the task, runs it as a child process or queues it behind another.  The program is
    one translation unit of header files:

      arena.h      bump allocator in front of malloc; main.c puts it under everything
      stack.h      fixed-capacity stack of raw cells: the agent's client sockets
      store.h      fixed-capacity table with a free list: its tasks and its processes
      ini.h        parser of the workspace files
      protocol.h   token streams and their image on the wire
      config.h     command line and settings
      net.h        sockets and connections, shared by client and agent
      client.h     the client: command line to message, answer to terminal, watch mode
      server.h     the agent: clients, tasks, child processes, queue
      log.h        log lines
      main.c       start, choice of the mode, end

    ** How the code is modelled

    Code that can fail runs in [res]: a value or a [fault].  A fault is what C leaves
    undefined (an access outside an array, a NULL pointer), an access to another part of
    the same allocation, which is not followed ([Elsewhere], in Store.v), or the end of
    the process by [exit] or [execve]; [OutOfFuel] is the artefact of a bounded loop.  Arrays are lists of bytes with checked accesses
    ([rd], [wr], [memcpy]), so every overrun of the source is visible as a fault.
    [int]s wrap at 32 bits and sizes at 64 where the code can get there.  Memory.v adds
    blocks and pointers for the parts that point into each other's buffers.  Os.v has
    the rest of the machine: a system call is a request to a kernel, which is a
    parameter ([Kernel]); the world is the kernel's state, the memory and the trace of
    all requests with their results; [KernelOk] states what send and read promise about
    their results, where a theorem needs it.

    ** Files

      Prelude     faults, checked arrays, byte encodings, tactics, lemmas on lists
      Alloc       interfaces [Libc] (malloc and free, with their laws) and [Allocator]
      Arena       arena.h; discharges [Allocator]
      Layout      interface of a C type to the bytes it is stored as
      Stack       stack.h over an [Allocator]; refinement of a bounded list
      Store       store.h over an [Allocator]; refinement of [slots], a table of options
      CString     C strings, strcmp, strncmp, atoi
      Memory      blocks and pointers
      Protocol    protocol.h
      Os          kernel, world, the monad of effects
      Log         log.h
      Config      config.h
      Net         net.h
      Client      client.h
      Frame       relations between worlds kept by every operation of net.h and client.h
      EndToEnd    a command from the client's argv to the agent's argument arrays
      Ini         ini.h
      IniSpec     ini.h against a line-by-line reference
      IniFile     printer, round trip, termination, the inputs it fails on
      Task        Task and task_write, workspace_task_get of server.h
      Server      the rest of server.h
      ServerLogic postconditions and symbolic runs of the agent's operations
      Answer      what the agent sends, what a message asks for and what it comes to
      ServerFrame Frame.v for the agent
      ServerSpec  the agent's invariant, messages, queue, launch, child, output
      Reply       an answer from the agent to the client's terminal
      ServerLive  one pass over the clients
      Lifecycle   a request to run a task, a finished process, setting the workspace
      Main        main.c, and print_help of config.h
      MainSpec    the memory of the whole program, from start to end
      Startup     the agent comes up

    A component's definitions carry the names of the C functions; a loop inside a
    function is a definition of its own next to it ([queue_loop], [collect_loop],
    [parse_loop]).  The agent's client stack and its two stores appear in Server.v by
    the contracts that Stack.v and Store.v prove of the code on bytes: a list of sockets
    of bounded length, and [slots].

    ** What the theorems show

    - Memory: allocations are disjoint, equal to a first-fit reference, and bounded
      in a locked arena (Arena); the program as a whole stays inside its two pages,
      gives them back when it finishes, and connects at most 128 times (MainSpec);
      the agent's start never lacks memory (Startup).
    - Containers: any sequence of operations behaves as a bounded list or a table of
      options, with the errors the code has (Stack, Store).
    - Text and wire: the parser delivers exactly the entries of a well-formed file, and
      ends on every input (IniSpec, IniFile); serialising and reading a stream gives it
      back (Protocol); a command arrives at the agent as it was typed (EndToEnd), and the
      agent's answer is what the client prints (Reply).
    - Command line: what is collected from well-formed lines, and that any line gives a
      well-formed configuration or a fault (Config).
    - Agent: its invariant in every reachable state; every message is answered by one
      message whose type and text say what was done; what is loaded, launched, recorded,
      executed, queued and started next (ServerSpec, Lifecycle); one pass serves every
      ready client once (ServerLive).
    - Faults of the code are theorems too: the inputs on which a buffer is left, a
      pointer is NULL or a string has no end.

    ** Bounds and fuel

    The loops of the parser, of the protocol, of the arena and of the command line run
    on fuel computed from the sizes of their arrays; that it is enough is proved
    ([ini_parse_terminates], [arena_alloc_first_fit], [config_init_wf], the [_spec] lemmas of
    the other loops).  [socket_send] is shown to end by the number of bytes left.  Two loops
    do not end by themselves: the agent's, of which [server_loop n] is n iterations, and
    [poll_watch n], n polls of a watching client; the theorems hold for every n, and [None]
    or [inr] stands for a process that still runs.

    ** Not modelled

    - Signal handlers: main.c installs finish and pipe_out; that they may interrupt the
      program at any point is not modelled, [finish] as the end of main is.
    - The log lines of the agent are not part of its traces, except the output of tasks;
      log.h itself is in Log.v.  Messages of perror are left out.
    - strftime and localtime are a parameter; select, poll, fork and the other system
      calls are what the kernel makes of them.  A child process is followed up to an execve that
      succeeds, or to its exit.
    - The contents of fds other than their results: files are read as the bytes that
      [fopen] delivers.
    - The agent runs over the contracts of the containers rather than over their bytes.
    - Tests, build files and documentation. *)

From Stdlib Require Export ZArith Lia.
From Stdlib Require Strings.Byte.
From coqutil Require Export Byte Word.LittleEndianList.
From stdpp Require Export base option list list_numbers gmap strings numbers.

Export stdpp.list_basics.list stdpp.list_relations.list stdpp.list_misc.list stdpp.list_monad.list.

(** [rewrite] only matches subterms with the lemma's head symbol. *)
#[export] Set Keyed Unification.
Open Scope Z_scope.

(** ** Outcomes of a C call *)

(** What ends a call without a return value.  [OutOfBounds] and [NullDeref]
    are the undefined accesses of C; [Elsewhere] is an access that leaves its array but
    not the allocation the array is a part of, which the model does not follow;
    [Exit c] is a call of [exit(c)]; [Replaced] is a process that [execve] has made
    another program; [OutOfFuel] is the artefact of a bounded loop and is shown
    unreachable. *)
Inductive fault : Type :=
| OutOfBounds
| NullDeref
| Elsewhere
| Exit (code : Z)
| Replaced
| OutOfFuel.

Inductive res (A : Type) : Type :=
| Ok (a : A)
| Fault (f : fault).
Arguments Ok {A} a.
Arguments Fault {A} f.

#[export] Instance fault_eq_dec : EqDecision fault.
Proof. solve_decision. Defined.

#[export] Instance res_eq_dec {A} `{EqDecision A} : EqDecision (res A).
Proof. solve_decision. Defined.

#[export] Instance res_ret : MRet res := fun A a => Ok a.
#[export] Instance res_bind : MBind res := fun A B k m =>
  match m with Ok a => k a | Fault f => Fault f end.
#[export] Instance res_fmap : FMap res := fun A B g m =>
  match m with Ok a => Ok (g a) | Fault f => Fault f end.

Definition of_option {A} (f : fault) (o : option A) : res A :=
  match o with Some a => Ok a | None => Fault f end.

Lemma bind_ok {A B} (m : res A) (k : A → res B) b :
  (m ≫= k) = Ok b ↔ ∃ a, m = Ok a ∧ k a = Ok b.
Proof. destruct m; cbn; naive_solver. Qed.

Lemma bind_ret_l {A B} (a : A) (k : A → res B) : (Ok a ≫= k) = k a.
Proof. done. Qed.

Lemma bind_assoc {A B C} (m : res A) (k : A → res B) (h : B → res C) :
  ((m ≫= k) ≫= h) = (m ≫= λ a, k a ≫= h).
Proof. by destruct m. Qed.

(** [inv_ok] turns a hypothesis [m ≫= k = Ok b] into the successful steps. *)
Ltac inv_ok :=
  repeat match goal with
  | H : (_ ≫= _) = Ok _ |- _ => apply bind_ok in H; destruct H as (? & ? & H)
  | H : Ok _ = Ok _ |- _ => injection H as H; subst
  | H : Fault _ = Ok _ |- _ => discriminate H
  | H : mret _ = Ok _ |- _ => unfold mret, res_ret in H
  | H : (_, _) = (_, _) |- _ => injection H as ?; subst
  end.

(** ** Machine integers *)

(** [int] is 32 bits, two's complement; [size_t] is 64 bits, unsigned. *)
Definition INT_MAX : Z := 2147483647.
Definition INT_MIN : Z := -2147483648.
Definition wrap32 (z : Z) : Z := (z + 2 ^ 31) mod 2 ^ 32 - 2 ^ 31.
Definition size_t (z : Z) : Z := z mod 2 ^ 64.
Definition is_int (z : Z) : Prop := INT_MIN ≤ z ≤ INT_MAX.

(** A [size_t] added to a pointer: the distance it moves the pointer by. *)
Definition ptrdiff (z : Z) : Z := (z + 2 ^ 63) mod 2 ^ 64 - 2 ^ 63.

Lemma wrap32_id z : is_int z → wrap32 z = z.
Proof. unfold is_int, INT_MIN, INT_MAX, wrap32. intros. rewrite Z.mod_small; lia. Qed.

Lemma wrap32_int z : is_int (wrap32 z).
Proof.
  unfold is_int, INT_MIN, INT_MAX, wrap32.
  pose proof (Z.mod_pos_bound (z + 2 ^ 31) (2 ^ 32)). lia.
Qed.

Lemma size_t_id z : 0 ≤ z < 2 ^ 64 → size_t z = z.
Proof. intros. by apply Z.mod_small. Qed.

Lemma size_t_neg z : - 2 ^ 64 ≤ z < 0 → size_t z = z + 2 ^ 64.
Proof.
  intros. unfold size_t.
  rewrite <- (Z.mod_add _ 1) by lia. apply Z.mod_small. lia.
Qed.

(** [size_t] arithmetic on what does not leave the range of a distance. *)
Lemma ptrdiff_mul a b :
  - 2 ^ 63 ≤ a * b < 2 ^ 63 → ptrdiff (size_t a * size_t b) = a * b.
Proof.
  intros. unfold ptrdiff, size_t.
  by rewrite Zplus_mod, <- Zmult_mod, <- Zplus_mod, Z.mod_small by lia; lia.
Qed.

(** Little-endian images of the integer types (x86-64, the repository's target). *)
Definition int_le (z : Z) : list byte := le_split 4 z.
Definition int_of_le (bs : list byte) : Z := wrap32 (le_combine bs).
Definition size_le (z : Z) : list byte := le_split 8 z.
Definition size_of_le (bs : list byte) : Z := le_combine bs.

Lemma length_int_le z : length (int_le z) = 4%nat.
Proof. apply length_le_split. Qed.

Lemma length_size_le z : length (size_le z) = 8%nat.
Proof. apply length_le_split. Qed.

Lemma wrap32_mod z : wrap32 (z mod 2 ^ 32) = wrap32 z.
Proof. unfold wrap32. by rewrite Zplus_mod_idemp_l. Qed.

Lemma int_of_int_le z : is_int z → int_of_le (int_le z) = z.
Proof.
  intros. unfold int_of_le, int_le. rewrite le_combine_split.
  change (Z.of_nat 4 * 8) with 32. rewrite wrap32_mod. by apply wrap32_id.
Qed.

Lemma size_of_size_le z : 0 ≤ z < 2 ^ 64 → size_of_le (size_le z) = z.
Proof.
  intros. unfold size_of_le, size_le. rewrite le_combine_split.
  by apply Z.mod_small.
Qed.

(** ** Byte arrays with checked access *)

Abbreviation NUL := Byte.x00.
Definition zlen {A} (l : list A) : Z := Z.of_nat (length l).
Definition zeros (n : Z) : list byte := replicate (Z.to_nat n) NUL.
Definition bytes_of_string (s : string) : list byte := String.list_byte_of_string s.

#[export] Instance byte_eq_dec : EqDecision byte := Byte.byte_eq_dec.

(** [sub a i n] is the [n] elements from [i]; [upd a i l] overwrites from [i]. *)
Definition sub {A} (a : list A) (i n : Z) : list A :=
  take (Z.to_nat n) (drop (Z.to_nat i) a).
Definition upd {A} (a : list A) (i : Z) (l : list A) : list A :=
  take (Z.to_nat i) a ++ l ++ drop (Z.to_nat i + length l) a.

(** [in_range a i n]: the [n] elements from [i] are inside [a]. *)
Definition in_range {A} (a : list A) (i n : Z) : bool :=
  (0 <=? i) && (0 <=? n) && (i + n <=? zlen a).

(** The C accesses: [a[i]], [a[i] = x], reading [n] bytes, [memcpy] into [a]
    and [memset(a + i, b, n)].  An access outside [a] is [OutOfBounds]. *)
Definition rd {A} (a : list A) (i : Z) : res A :=
  if 0 <=? i then of_option OutOfBounds (a !! Z.to_nat i) else Fault OutOfBounds.
Definition rd_n {A} (a : list A) (i n : Z) : res (list A) :=
  if in_range a i n then Ok (sub a i n) else Fault OutOfBounds.
Definition memcpy {A} (a : list A) (i : Z) (l : list A) : res (list A) :=
  if in_range a i (zlen l) then Ok (upd a i l) else Fault OutOfBounds.
Definition wr {A} (a : list A) (i : Z) (x : A) : res (list A) := memcpy a i [x].
Definition memset (a : list byte) (i : Z) (b : byte) (n : Z) : res (list byte) :=
  memcpy a i (replicate (Z.to_nat n) b).

(** *** Lemmas on [sub] and [upd] *)

Lemma in_range_spec {A} (a : list A) i n :
  in_range a i n = true ↔ 0 ≤ i ∧ 0 ≤ n ∧ i + n ≤ zlen a.
Proof. unfold in_range. rewrite !andb_true_iff, !Z.leb_le. lia. Qed.

Lemma in_range_false {A} (a : list A) i n :
  in_range a i n = false ↔ ¬ (0 ≤ i ∧ 0 ≤ n ∧ i + n ≤ zlen a).
Proof. rewrite <- in_range_spec. by destruct (in_range a i n). Qed.

Lemma zlen_nil {A} : zlen (@nil A) = 0.
Proof. done. Qed.
Lemma zlen_cons {A} (x : A) l : zlen (x :: l) = 1 + zlen l.
Proof. unfold zlen. cbn [length]. lia. Qed.
Lemma zlen_app {A} (l k : list A) : zlen (l ++ k) = zlen l + zlen k.
Proof. unfold zlen. rewrite length_app. lia. Qed.
Lemma zlen_nonneg {A} (l : list A) : 0 ≤ zlen l.
Proof. unfold zlen. lia. Qed.
Lemma zlen_replicate {A} n (x : A) : zlen (replicate n x) = Z.of_nat n.
Proof. unfold zlen. by rewrite length_replicate. Qed.
Lemma zlen_zeros n : 0 ≤ n → zlen (zeros n) = n.
Proof. intros. unfold zeros. rewrite zlen_replicate. lia. Qed.
Lemma zlen_int_le z : zlen (int_le z) = 4.
Proof. unfold zlen. by rewrite length_int_le. Qed.
Lemma zlen_size_le z : zlen (size_le z) = 8.
Proof. unfold zlen. by rewrite length_size_le. Qed.

Lemma zlen_sub {A} (a : list A) i n :
  0 ≤ i → 0 ≤ n → i + n ≤ zlen a → zlen (sub a i n) = n.
Proof. unfold zlen, sub. rewrite length_take, length_drop. lia. Qed.

Lemma zlen_upd {A} (a : list A) i l :
  0 ≤ i → i + zlen l ≤ zlen a → zlen (upd a i l) = zlen a.
Proof.
  unfold zlen, upd. intros. rewrite !length_app, length_take, length_drop. lia.
Qed.

Lemma lookup_sub {A} (a : list A) i n k :
  (k < Z.to_nat n)%nat → sub a i n !! k = a !! (Z.to_nat i + k)%nat.
Proof. intros. unfold sub. by rewrite lookup_take_lt, lookup_drop by done. Qed.

Lemma lookup_upd_in {A} (a : list A) i l k :
  0 ≤ i → i + zlen l ≤ zlen a →
  (Z.to_nat i ≤ k < Z.to_nat i + length l)%nat →
  upd a i l !! k = l !! (k - Z.to_nat i)%nat.
Proof.
  unfold zlen, upd. intros.
  rewrite lookup_app_r by (rewrite length_take; lia).
  rewrite length_take, Nat.min_l by lia.
  by rewrite lookup_app_l by lia.
Qed.

Lemma lookup_upd_out {A} (a : list A) i l k :
  0 ≤ i → i + zlen l ≤ zlen a →
  (k < Z.to_nat i ∨ Z.to_nat i + length l ≤ k)%nat →
  upd a i l !! k = a !! k.
Proof.
  unfold zlen, upd. intros ? ? [?|?].
  - rewrite lookup_app_l by (rewrite length_take; lia). by rewrite lookup_take_lt.
  - rewrite lookup_app_r by (rewrite length_take; lia).
    rewrite length_take, Nat.min_l by lia.
    rewrite lookup_app_r by lia. rewrite lookup_drop. f_equal. lia.
Qed.

Lemma sub_upd_same {A} (a : list A) i l :
  0 ≤ i → i + zlen l ≤ zlen a → sub (upd a i l) i (zlen l) = l.
Proof.
  intros. unfold sub, upd, zlen in *.
  rewrite drop_app_length' by (rewrite length_take; lia).
  by rewrite Nat2Z.id, take_app_length.
Qed.

Lemma sub_upd_other {A} (a : list A) i l j n :
  0 ≤ i → i + zlen l ≤ zlen a → 0 ≤ j → 0 ≤ n →
  j + n ≤ i ∨ i + zlen l ≤ j → sub (upd a i l) j n = sub a j n.
Proof.
  intros. apply list_eq. intros k.
  destruct (decide (k < Z.to_nat n)%nat).
  - rewrite !lookup_sub by done. unfold zlen in *. apply lookup_upd_out; unfold zlen; lia.
  - rewrite !lookup_ge_None_2; [done| |]; unfold sub; rewrite length_take; lia.
Qed.

Lemma sub_upd_append {A} (a : list A) i n l :
  0 ≤ i → 0 ≤ n → i + n + zlen l ≤ zlen a →
  sub (upd a (i + n) l) i (n + zlen l) = sub a i n ++ l.
Proof.
  intros. pose proof (zlen_nonneg l). apply list_eq. intros k.
  assert (length (sub a i n) = Z.to_nat n) as Hn.
  { pose proof (zlen_sub a i n). unfold zlen in *. lia. }
  destruct (decide (k < Z.to_nat n)%nat).
  - rewrite lookup_app_l, !lookup_sub, lookup_upd_out by lia. done.
  - rewrite lookup_app_r, Hn by lia.
    destruct (decide (k < Z.to_nat (n + zlen l))%nat).
    + rewrite lookup_sub, lookup_upd_in by (unfold zlen in *; lia). f_equal. lia.
    + rewrite !lookup_ge_None_2; [done|unfold zlen in *; lia|].
      pose proof (zlen_sub (upd a (i + n) l) i (n + zlen l)).
      pose proof (zlen_upd a (i + n) l). unfold zlen in *. lia.
Qed.

(** Consecutive writes are one write. *)
Lemma upd_upd_app {A} (a : list A) i x y :
  0 ≤ i → i + zlen x + zlen y ≤ zlen a →
  upd (upd a i x) (i + zlen x) y = upd a i (x ++ y).
Proof.
  intros Hi Hl. pose proof (zlen_nonneg x). pose proof (zlen_nonneg y).
  assert (Hx : zlen (upd a i x) = zlen a) by (apply zlen_upd; lia).
  apply list_eq. intros k.
  destruct (decide (Z.to_nat i ≤ k < Z.to_nat i + (length x + length y))%nat).
  - rewrite (lookup_upd_in a i (x ++ y)) by (rewrite ?zlen_app, ?length_app; lia).
    destruct (decide (k < Z.to_nat i + length x)%nat).
    + rewrite lookup_upd_out by (rewrite ?Hx; unfold zlen in *; lia).
      rewrite lookup_upd_in by (unfold zlen in *; lia). by rewrite lookup_app_l by lia.
    + rewrite lookup_upd_in by (rewrite ?Hx; unfold zlen in *; lia).
      rewrite lookup_app_r by lia. f_equal. unfold zlen. lia.
  - rewrite (lookup_upd_out a i (x ++ y)) by (rewrite ?zlen_app, ?length_app; lia).
    rewrite lookup_upd_out by (rewrite ?Hx; unfold zlen in *; lia).
    by rewrite lookup_upd_out by (unfold zlen in *; lia).
Qed.

Lemma upd_nil {A} (a : list A) i : upd a i [] = a.
Proof. unfold upd. by rewrite Nat.add_0_r, app_nil_l, take_drop. Qed.

Lemma upd_twice {A} (a : list A) i x y :
  0 ≤ i → i + zlen x ≤ zlen a → zlen y = zlen x → upd (upd a i x) i y = upd a i y.
Proof.
  intros Hi Hx Hy. apply list_eq. intros k.
  assert (zlen (upd a i x) = zlen a) as Hz by by apply zlen_upd.
  destruct (decide (Z.to_nat i ≤ k < Z.to_nat i + length y)%nat).
  - rewrite !lookup_upd_in by (rewrite ?Hz; lia). done.
  - rewrite !lookup_upd_out by (rewrite ?Hz; unfold zlen in *; lia). done.
Qed.

Lemma upd_0 {A} (a x : list A) : upd a 0 x = x ++ drop (length x) a.
Proof. done. Qed.

Lemma sub_prefix {A} (a : list A) i n m :
  0 ≤ m ≤ n → sub a i m = take (Z.to_nat m) (sub a i n).
Proof. intros. unfold sub. rewrite take_take. f_equal. lia. Qed.

Lemma sub_shift {A} (a : list A) i n j m :
  0 ≤ i → 0 ≤ j → 0 ≤ m → j + m ≤ n → sub (sub a i n) j m = sub a (i + j) m.
Proof.
  intros. apply list_eq. intros k. destruct (decide (k < Z.to_nat m)%nat).
  - rewrite !lookup_sub by lia. f_equal. lia.
  - unfold sub. rewrite !lookup_take_ge by lia. done.
Qed.

Lemma sub_app {A} (p t q : list A) : sub (p ++ t ++ q) (zlen p) (zlen t) = t.
Proof.
  unfold sub, zlen. by rewrite !Nat2Z.id, drop_app_length, take_app_length.
Qed.

Lemma sub_all {A} (a : list A) : sub a 0 (zlen a) = a.
Proof. unfold sub, zlen. rewrite Nat2Z.id, drop_0. by apply take_ge. Qed.

(** *** Lemmas on the checked accesses *)

Lemma rd_ok {A} (a : list A) i x : 0 ≤ i → a !! Z.to_nat i = Some x → rd a i = Ok x.
Proof. intros Hi Hx. unfold rd. rewrite (proj2 (Z.leb_le 0 i) Hi), Hx. done. Qed.

Lemma rd_inv {A} (a : list A) i x : rd a i = Ok x → 0 ≤ i ∧ a !! Z.to_nat i = Some x.
Proof.
  unfold rd. destruct (Z.leb_spec 0 i); [|done].
  destruct (a !! Z.to_nat i) eqn:?; cbn; intros; simplify_eq; auto.
Qed.

Lemma rd_total {A} (a : list A) i : 0 ≤ i < zlen a → ∃ x, rd a i = Ok x ∧ a !! Z.to_nat i = Some x.
Proof.
  unfold zlen. intros. destruct (lookup_lt_is_Some_2 a (Z.to_nat i)) as [x Hx]; [lia|].
  exists x. split; [|done]. apply rd_ok; [lia|done].
Qed.

Lemma rd_oob {A} (a : list A) i : ¬ 0 ≤ i < zlen a → rd a i = Fault OutOfBounds.
Proof.
  unfold rd, zlen. intros. destruct (Z.leb_spec 0 i); [|done].
  by rewrite lookup_ge_None_2 by lia.
Qed.

Lemma rd_n_ok {A} (a : list A) i n :
  0 ≤ i → 0 ≤ n → i + n ≤ zlen a → rd_n a i n = Ok (sub a i n).
Proof. intros. unfold rd_n. by rewrite (proj2 (in_range_spec a i n)). Qed.

Lemma rd_n_inv {A} (a : list A) i n x : rd_n a i n = Ok x → 0 ≤ i ∧ 0 ≤ n ∧ i + n ≤ zlen a.
Proof. unfold rd_n. destruct (in_range a i n) eqn:E; [|done]. by apply in_range_spec in E. Qed.

Lemma memcpy_ok {A} (a : list A) i l :
  0 ≤ i → i + zlen l ≤ zlen a → memcpy a i l = Ok (upd a i l).
Proof.
  intros. unfold memcpy. rewrite (proj2 (in_range_spec a i (zlen l))); [done|].
  pose proof (zlen_nonneg l). lia.
Qed.

Lemma memcpy_oob {A} (a : list A) i l :
  ¬ (0 ≤ i ∧ i + zlen l ≤ zlen a) → memcpy a i l = Fault OutOfBounds.
Proof.
  intros. unfold memcpy. rewrite (proj2 (in_range_false a i (zlen l))); [done|].
  lia.
Qed.

Lemma memcpy_inv {A} (a : list A) i l a' :
  memcpy a i l = Ok a' → 0 ≤ i ∧ i + zlen l ≤ zlen a ∧ a' = upd a i l.
Proof.
  unfold memcpy. destruct (in_range a i (zlen l)) eqn:E; [|done].
  apply in_range_spec in E. intros. simplify_eq. naive_solver lia.
Qed.

Lemma wr_ok {A} (a : list A) i x : 0 ≤ i < zlen a → wr a i x = Ok (upd a i [x]).
Proof. intros. apply memcpy_ok; unfold zlen in *; cbn [length]; lia. Qed.

Lemma wr_oob {A} (a : list A) i x : ¬ 0 ≤ i < zlen a → wr a i x = Fault OutOfBounds.
Proof. intros. apply memcpy_oob. unfold zlen in *. cbn [length]. lia. Qed.

Lemma upd_single {A} (a : list A) i x : 0 ≤ i < zlen a → upd a i [x] = <[Z.to_nat i := x]> a.
Proof.
  unfold upd, zlen. intros. rewrite insert_take_drop by lia. cbn [length app].
  by rewrite Nat.add_1_r.
Qed.

Lemma memset_ok a i b n :
  0 ≤ i → 0 ≤ n → i + n ≤ zlen a →
  memset a i b n = Ok (upd a i (replicate (Z.to_nat n) b)).
Proof. intros. apply memcpy_ok; [done|]. rewrite zlen_replicate. lia. Qed.

(** ** Generic list lemmas *)

Lemma filter_all {A} (P : A → Prop) `{!∀ x, Decision (P x)} l :
  Forall P l → filter P l = l.
Proof. induction 1; [done|]. rewrite filter_cons_True by done. by f_equal. Qed.

Lemma Forall_filter {A} (P Q : A → Prop) `{!∀ x, Decision (P x)} l :
  Forall Q l → Forall Q (filter P l).
Proof.
  rewrite !Forall_forall. intros HQ x Hx. apply HQ. by apply list_elem_of_filter in Hx as [_ ?].
Qed.

Lemma delete_ge {A} (l : list A) i : (length l ≤ i)%nat → delete i l = l.
Proof.
  intros. apply list_eq. intros k. rewrite list_lookup_delete.
  case_decide; [done|]. by rewrite !lookup_ge_None_2 by lia.
Qed.

Create HintDb dpatch discriminated.
Create Rewrite HintDb dlen.
#[export] Hint Rewrite @length_app @length_replicate @length_take @length_drop @length_insert
  length_int_le length_size_le @length_map @length_fmap : dlen.
#[export] Hint Resolve wrap32_int zlen_nonneg : dpatch.

(** A closed decidable goal, by evaluation. *)
Ltac decided := apply (bool_decide_unpack _); vm_compute; exact I.

(** [zlia]: linear arithmetic on the lengths of arrays and their parts. *)
Ltac zlia :=
  unfold zlen, zeros, sub, upd in *;
  autorewrite with dlen in *; cbn [length] in *; lia.

(** *** Programs that come to an end *)

(** The result satisfies [Q], or there is a fault, but not for want of fuel. *)
Definition settles {A} (m : res A) (Q : A → Prop) : Prop :=
  match m with Ok a => Q a | Fault f => f ≠ OutOfFuel end.

Lemma settles_bind {A B} (m : res A) (k : A → res B) P Q :
  settles m P → (∀ a, P a → settles (k a) Q) → settles (m ≫= k) Q.
Proof. destruct m as [a|f]; cbn; [by auto|done]. Qed.

Lemma settles_rd {A} (a : list A) i : settles (rd a i) (λ x, rd a i = Ok x).
Proof.
  destruct (rd a i) as [x|f] eqn:E; [done|]. unfold rd in E. destruct (0 <=? i); [|by simplify_eq/=].
  destruct (a !! Z.to_nat i); by simplify_eq/=.
Qed.

Lemma settles_wr {A} (a : list A) i x : settles (wr a i x) (λ l, wr a i x = Ok l).
Proof. destruct (decide (0 ≤ i < zlen a)); [by rewrite wr_ok|by rewrite wr_oob]. Qed.

(** For a goal about the result of a closed run: the run succeeds, and [E] says so. *)
Ltac run_demo E :=
  match goal with |- match ?m with _ => _ end => destruct m as [[? [? ?]]|?] eqn:E; [|by vm_compute in E] end.
