(* ===== verification/Alloc.v ===== *)
(** Memory allocation interfaces.

    [Libc] is the C library's [malloc]/[free], which the arena calls and which
    is not part of the repository: a state, its two operations and the laws the
    C standard gives them.  [Allocator] is what [MMALLOC] is to the rest of the
    program (src/main.c defines [ALLOC_FUNC] as [arena_alloc]): Arena.v
    discharges it, and Stack.v and Store.v are proved against it.  The parts that
    run in the world of Os.v ask the kernel for memory; Main.v puts the arena there. *)

From S2P Require Import Prelude.

(** A half-open range of addresses: base and length. *)
Abbreviation extent := (Z * Z)%type.

Definition disjoint_ext (a b : extent) : Prop :=
  a.1 + a.2 ≤ b.1 ∨ b.1 + b.2 ≤ a.1.

Definition inside (a b : extent) : Prop :=
  b.1 ≤ a.1 ∧ a.1 + a.2 ≤ b.1 + b.2.

Fixpoint pairwise_disjoint (l : list extent) : Prop :=
  match l with
  | [] => True
  | a :: l' => Forall (disjoint_ext a) l' ∧ pairwise_disjoint l'
  end.

#[export] Instance disjoint_ext_sym : Symmetric disjoint_ext.
Proof. intros a b [?|?]; [right|left]; done. Qed.

Lemma pairwise_disjoint_app l k :
  pairwise_disjoint (l ++ k) ↔
  pairwise_disjoint l ∧ pairwise_disjoint k ∧ Forall (λ a, Forall (disjoint_ext a) k) l.
Proof.
  induction l as [|a l IH]; cbn.
  - naive_solver.
  - rewrite Forall_app, Forall_cons. naive_solver.
Qed.

#[export] Instance pairwise_disjoint_perm : Proper ((≡ₚ) ==> iff) pairwise_disjoint.
Proof.
  assert (∀ l k, l ≡ₚ k → pairwise_disjoint l → pairwise_disjoint k) as Hgo.
  { intros l k Hp. induction Hp as [|a l k Hp IH|a b l|l1 l2 l3 _ IH1 _ IH2]; cbn; auto.
    - intros [Ha Hl]. split; [|auto]. rewrite Forall_forall in *.
      intros x Hx. apply Ha. by rewrite Hp.
    - rewrite !Forall_cons. intros [[Hab ?] [? ?]].
      split_and!; auto. by symmetry. }
  intros l k Hp. split; apply Hgo; [done|by symmetry].
Qed.

Lemma inside_disjoint a b a' b' :
  inside a a' → inside b b' → disjoint_ext a' b' → disjoint_ext a b.
Proof. unfold inside, disjoint_ext. lia. Qed.

Lemma pairwise_disjoint_lookup l i j a b :
  pairwise_disjoint l → i ≠ j → l !! i = Some a → l !! j = Some b → disjoint_ext a b.
Proof.
  assert (∀ l i j a b, pairwise_disjoint l → (i < j)%nat →
            l !! i = Some a → l !! j = Some b → disjoint_ext a b) as Hlt.
  { clear. induction l as [|x l IH]; [done|]. intros [|i] [|j] a b [Hx Hl] ? Ha Hb; try lia; simplify_eq/=.
    - rewrite Forall_forall in Hx. by eapply Hx, list_elem_of_lookup_2.
    - apply (IH i j a b); [done|lia|done..]. }
  intros ? ? ? ?. destruct (decide (i < j)%nat); [by eauto|].
  symmetry. apply (Hlt l j i b a); [done|lia|done..].
Qed.

(** ** The C library's allocator *)

Class Libc (heap : Type) := {
  malloc : Z → heap → option Z * heap;
  free : Z → heap → heap;
  (** the blocks allocated and not yet freed, as [(address, size)] *)
  live : heap → list extent;
  (** the library's own consistency *)
  libc_inv : heap → Prop;
}.

Class LibcOk (heap : Type) `{!Libc heap} : Prop := {
  libc_disjoint h : libc_inv h → pairwise_disjoint (live h);
  malloc_some n h p h' :
    libc_inv h → malloc n h = (Some p, h') →
    libc_inv h' ∧ live h' = (p, n) :: live h ∧ 0 < p ∧ n < 2 ^ 63 ∧ p + n < 2 ^ 64;
  malloc_none n h h' :
    libc_inv h → malloc n h = (None, h') → libc_inv h' ∧ live h' = live h;
  free_live p n h :
    libc_inv h → (p, n) ∈ live h →
    libc_inv (free p h) ∧ live h ≡ₚ (p, n) :: live (free p h);
}.

(** ** The allocator the program is written against *)

(** An allocated object: its address and its initial bytes. *)
Record block := Block { b_addr : Z; b_bytes : list byte }.

Class Allocator (S : Type) := {
  mmalloc : Z → S → res (option block * S);
  (** the allocator's own consistency *)
  alloc_inv : S → Prop;
  (** the addresses already handed out *)
  in_use : S → Z → Prop;
}.

(** A block is zeroed, has the size asked for, and takes only addresses that
    were not in use; a failing call takes none. *)
Definition alloc_post {S} `{!Allocator S} (n : Z) (s : S) (r : option block) (s' : S) : Prop :=
  alloc_inv s' ∧
  match r with
  | None => ∀ a, in_use s' a ↔ in_use s a
  | Some b =>
      b_bytes b = zeros n ∧
      (0 < b_addr b ∧ b_addr b + n < 2 ^ 64) ∧
      (∀ a, b_addr b ≤ a < b_addr b + n → ¬ in_use s a) ∧
      (∀ a, in_use s' a ↔ in_use s a ∨ b_addr b ≤ a < b_addr b + n)
  end.

Class AllocatorOk (S : Type) `{!Allocator S} : Prop := {
  mmalloc_ok n s r s' :
    alloc_inv s → 0 ≤ n < 2 ^ 64 → mmalloc n s = Ok (r, s') → alloc_post n s r s'
}.

(** ** Sequences of allocations *)

Section AllocSeq.
Context {S : Type} `{!Allocator S} `{!AllocatorOk S}.

Fixpoint mmalloc_all (ns : list Z) (s : S) : res (list (option block) * S) :=
  match ns with
  | [] => Ok ([], s)
  | n :: ns' =>
      '(r, s1) ← mmalloc n s;
      '(rs, s2) ← mmalloc_all ns' s1;
      Ok (r :: rs, s2)
  end.

Definition block_extent (b : block) : extent := (b_addr b, zlen (b_bytes b)).
Definition block_extents (rs : list (option block)) : list extent :=
  omap (fmap block_extent) rs.

Definition ext_mem (x : Z) (e : extent) : Prop := e.1 ≤ x < e.1 + e.2.

Lemma ext_mem_disjoint e1 e2 :
  0 < e1.2 → 0 < e2.2 → (∀ x, ext_mem x e1 → ext_mem x e2 → False) → disjoint_ext e1 e2.
Proof.
  unfold ext_mem, disjoint_ext. intros H1 H2 Hx.
  destruct (decide (e1.1 + e1.2 ≤ e2.1)); [by left|].
  destruct (decide (e2.1 + e2.2 ≤ e1.1)); [by right|].
  exfalso. apply (Hx (Z.max e1.1 e2.1)); lia.
Qed.

Lemma mmalloc_all_spec ns s rs s' :
  alloc_inv s → Forall (λ n, 0 < n < 2 ^ 64) ns → mmalloc_all ns s = Ok (rs, s') →
  alloc_inv s' ∧ (∀ x, in_use s x → in_use s' x) ∧
  Forall (λ e, 0 < e.2 ∧ ∀ x, ext_mem x e → ¬ in_use s x ∧ in_use s' x) (block_extents rs) ∧
  pairwise_disjoint (block_extents rs).
Proof.
  revert s rs. induction ns as [|n ns IH]; intros s rs Hinv Hns Hall; cbn in Hall.
  { simplify_eq. cbn. naive_solver. }
  apply Forall_cons in Hns as [Hn Hns].
  apply bind_ok in Hall as ([r s1] & Hr & Hall). cbn in Hall.
  apply bind_ok in Hall as ([rs' s2] & Hrs & Hall). cbn in Hall. simplify_eq.
  apply mmalloc_ok in Hr as [Hinv1 Hr]; [|done|lia].
  apply IH in Hrs as (Hinv2 & Hmono & Hrs & Hd); [|done..]. clear IH.
  destruct r as [b|]; cbn.
  - destruct Hr as (Hb & _ & Hfresh & Huse). assert (block_extent b = (b_addr b, n)) as ->
      by (unfold block_extent; by rewrite Hb, zlen_zeros by lia).
    split; [done|]. split; [naive_solver|]. split.
    + constructor; cbn.
      * split; [lia|]. unfold ext_mem. cbn. naive_solver.
      * eapply Forall_impl; [done|]. cbn. intros e [? He]. split; [done|]. naive_solver.
    + split; [|done]. eapply Forall_impl; [done|]. cbn. intros e [? He].
      apply ext_mem_disjoint; cbn; [lia|done|]. unfold ext_mem at 1. cbn. intros x Hx Hxe.
      destruct (He x Hxe) as [Hnot _]. apply Hnot, Huse. by right.
  - split; [done|]. split; [naive_solver|]. split; [|done].
    eapply Forall_impl; [done|]. cbn. naive_solver.
Qed.

End AllocSeq.

(** ** An allocator of the C library that evaluates

    Fresh addresses upwards from [4096], up to [limit] bytes in all: the
    instance the examples and witnesses run on. *)
Module BumpHeap.

Record heap := Heap { brk : Z; limit : Z; blocks : list extent }.
Definition empty (limit : Z) : heap := Heap 4096 limit [].

Definition bump_malloc (n : Z) (h : heap) : option Z * heap :=
  if (0 <? n) && (n <=? limit h) && (brk h + n <? 2 ^ 63) then
    (Some (brk h), Heap (brk h + n) (limit h - n) ((brk h, n) :: blocks h))
  else (None, h).

Definition bump_free (p : Z) (h : heap) : heap :=
  Heap (brk h) (limit h) (filter (λ e, e.1 ≠ p) (blocks h)).

Definition bump_inv (h : heap) : Prop :=
  0 < brk h ∧ Forall (λ e, 0 < e.2 ∧ e.1 + e.2 ≤ brk h) (blocks h) ∧ pairwise_disjoint (blocks h).

#[global] Instance bump_libc : Libc heap := {
  malloc := bump_malloc; free := bump_free; live := blocks; libc_inv := bump_inv;
}.

Lemma filter_other p n l :
  pairwise_disjoint l → Forall (λ e : extent, 0 < e.2) l → (p, n) ∈ l →
  l ≡ₚ (p, n) :: filter (λ e, e.1 ≠ p) l.
Proof.
  induction l as [|[q m] l IH]; [by intros _ _ ?%elem_of_nil|].
  intros [Hd Hl] [Hm Hp]%Forall_cons [Heq|Hin]%elem_of_cons; cbn in Hm.
  - injection Heq as <- <-. rewrite filter_cons_False by naive_solver.
    f_equiv. rewrite Forall_forall in Hd, Hp.
    rewrite filter_all; [done|]. apply Forall_forall. intros [q' k] Hq. cbn. intros ->.
    specialize (Hd _ Hq). specialize (Hp _ Hq). unfold disjoint_ext in Hd. cbn in *. lia.
  - rewrite filter_cons_True.
    + rewrite (IH Hl Hp Hin) at 1. by rewrite Permutation_swap.
    + cbn. intros ->. rewrite Forall_forall in Hd, Hp.
      specialize (Hd _ Hin). specialize (Hp _ Hin). unfold disjoint_ext in Hd. cbn in *. lia.
Qed.

#[global] Instance bump_libc_ok : LibcOk heap.
Proof.
  constructor; cbn.
  - by intros h (_ & _ & ?).
  - unfold bump_malloc. intros n h p h' (Hb & Hl & Hd) Hm.
    destruct (Z.ltb_spec 0 n), (Z.leb_spec n (limit h)), (Z.ltb_spec (brk h + n) (2 ^ 63));
      simplify_eq/=. split; [|repeat split; lia].
    split; [cbn; lia|]. cbn. split; [|split; [|done]].
    + apply Forall_cons. cbn. split; [lia|]. eapply Forall_impl; [done|]. cbn. lia.
    + eapply Forall_impl; [done|]. cbn. intros [q k] [??]. right. cbn in *. lia.
  - unfold bump_malloc. intros n h h' Hi Hm. by destruct (_ && _); simplify_eq.
  - intros p n h (Hb & Hl & Hd) Hin. split.
    + unfold bump_inv, bump_free. cbn. split_and!; [done| |].
      * by apply Forall_filter.
      * clear -Hd. induction (blocks h) as [|e l IH]; [done|]. destruct Hd as [He Hd].
        rewrite filter_cons. destruct (decide _); [|auto]. cbn. split; [|auto].
        by apply Forall_filter.
    + apply filter_other; [done| |done]. eapply Forall_impl; [done|]. cbn. naive_solver.
Qed.

End BumpHeap.
