(* ===== verification/Arena.v ===== *)
(** The arena allocator (src/arena.h): a singly linked list of regions, each a
    [malloc]ed header followed by [size] zeroed bytes, bumped by [arena_alloc]. *)

From S2P Require Import Prelude Alloc.

Definition ARENA_OK : Z := 0.
Definition ARENA_NULL : Z := -1.

(** [sizeof(ArenaAllocator)] on x86-64: two [size_t], a padded [char], two pointers. *)
Definition ARENA_HEADER : Z := 40.

(** [struct ArenaAllocator_st]; the [next] link is the position in the list.
    [r_self] is the address of the struct and [r_bytes] the memory it leads. *)
Record region := Region {
  r_self : Z;
  r_size : Z;
  r_current : Z;
  r_eom : Z;
  r_region : Z;
  r_bytes : list byte;
}.

Definition set_current (r : region) (c : Z) : region :=
  Region (r_self r) (r_size r) c (r_eom r) (r_region r) (r_bytes r).
Definition set_eom (r : region) (e : Z) : region :=
  Region (r_self r) (r_size r) (r_current r) e (r_region r) (r_bytes r).

Section Arena.
Context {heap : Type} `{!Libc heap}.

(** [__arena_root] ([[]] is NULL) and the state of the C library. *)
Record arena := Arena { root : list region; libc : heap }.

Definition _arena_create (size : Z) (h : heap) : option region * heap :=
  match malloc (size_t (ARENA_HEADER + size)) h with
  | (None, h') => (None, h')
  | (Some p, h') =>
      (Some {| r_self := p; r_size := size; r_current := 0; r_eom := 0;
               r_region := p + ARENA_HEADER; r_bytes := zeros size |}, h')
  end.

(** The [while (next)] loop of [arena_init], from page number [i]. *)
Fixpoint prealloc (fuel : nat) (size prealloc_count lock i : Z) (next : region) (h : heap)
  : res (list region * heap) :=
  if i >=? prealloc_count then
    Ok ([if lock =? 0 then next else set_eom next 1], h)
  else
    match fuel with
    | O => Fault OutOfFuel
    | S fuel' =>
        match _arena_create size h with
        | (None, _) => Fault (Exit (-1))
        | (Some r, h') =>
            '(rest, h'') ← prealloc fuel' size prealloc_count lock (i + 1) r h';
            Ok (next :: rest, h'')
        end
    end.

Definition arena_init (size prealloc_count lock : Z) (a : arena) : res (Z * arena) :=
  match _arena_create size (libc a) with
  | (None, _) => Fault (Exit (-1))
  | (Some r, h) =>
      if prealloc_count >? 0 then
        '(rs, h') ← prealloc (Z.to_nat prealloc_count) size prealloc_count lock 1 r h;
        Ok (ARENA_OK, Arena rs h')
      else Ok (ARENA_OK, Arena [r] h)
  end.

Definition arena_free (a : arena) : Z * arena :=
  match root a with
  | [] => (ARENA_NULL, a)
  | rs => (ARENA_OK, Arena [] (foldl (λ h r, free (r_self r) h) (libc a) rs))
  end.

(** The [while (cur)] loop of [arena_alloc]. *)
Fixpoint arena_alloc_loop (fuel : nat) (size : Z) (rs : list region) (h : heap)
  : res (option block * list region * heap) :=
  match fuel, rs with
  | O, _ => Fault OutOfFuel
  | S _, [] => Ok (None, [], h)
  | S fuel', cur :: next =>
      if size_t (r_current cur + size) <=? r_size cur then
        bytes ← rd_n (r_bytes cur) (r_current cur) size;
        Ok (Some (Block (r_region cur + r_current cur) bytes),
            set_current cur (size_t (r_current cur + size)) :: next, h)
      else
        match next with
        | [] =>
            if negb (r_eom cur =? 0) then Ok (None, [cur], h)
            else
              match _arena_create size h with
              | (None, _) => Fault (Exit (-1))
              | (Some new, h') =>
                  '(p, rs', h'') ← arena_alloc_loop fuel' size [new] h';
                  Ok (p, cur :: rs', h'')
              end
        | _ =>
            '(p, rs', h'') ← arena_alloc_loop fuel' size next h;
            Ok (p, cur :: rs', h'')
        end
  end.

Definition arena_alloc (size : Z) (a : arena) : res (option block * arena) :=
  match root a with
  | [] => Ok (None, a)
  | r :: _ =>
      if size >? r_size r then Ok (None, a)
      else
        '(p, rs, h) ← arena_alloc_loop (2 + length (root a)) size (root a) (libc a);
        Ok (p, Arena rs h)
  end.

(** ** First fit *)

(** A region has room when the bump stays inside it. *)
Definition has_room (size : Z) (r : region) : Prop := r_current r + size ≤ r_size r.
#[global] Instance has_room_dec size r : Decision (has_room size r).
Proof. unfold has_room. apply _. Defined.

Definition block_in (r : region) (size : Z) : block :=
  Block (r_region r + r_current r) (zeros size).
Definition bump (r : region) (size : Z) : region := set_current r (r_current r + size).

(** The reference: the first region with room serves the request; when none
    has, a locked arena refuses and an open one grows by a region of exactly
    the requested size. *)
Definition first_fit (size : Z) (rs : list region) (h : heap)
  : res (option block * list region * heap) :=
  match list_find (has_room size) rs with
  | Some (i, r) => Ok (Some (block_in r size), <[i := bump r size]> rs, h)
  | None =>
      match last rs with
      | None => Ok (None, rs, h)
      | Some r =>
          if negb (r_eom r =? 0) then Ok (None, rs, h)
          else match _arena_create size h with
               | (None, _) => Fault (Exit (-1))
               | (Some new, h') => Ok (Some (block_in new size), rs ++ [bump new size], h')
               end
      end
  end.

(** ** Invariant *)

Record region_ok (r : region) : Prop := {
  ro_current : 0 ≤ r_current r ≤ r_size r;
  ro_size : ARENA_HEADER + r_size r < 2 ^ 63;
  ro_region : r_region r = r_self r + ARENA_HEADER;
  ro_bytes : r_bytes r = zeros (r_size r);
  ro_addr : 0 < r_self r ∧ r_self r + ARENA_HEADER + r_size r < 2 ^ 64;
}.

(** The extent [malloc] returned for a region. *)
Definition region_extent (r : region) : extent := (r_self r, ARENA_HEADER + r_size r).

(** Every region is in order and is a live, non-overlapping [malloc] block. *)
Record arena_wf (a : arena) : Prop := {
  aw_regions : Forall region_ok (root a);
  aw_live : ∃ other, live (libc a) ≡ₚ map region_extent (root a) ++ other;
  aw_libc : libc_inv (libc a);
}.

Definition region_used (r : region) (x : Z) : Prop :=
  r_region r ≤ x < r_region r + r_current r.
Definition arena_in_use (a : arena) (x : Z) : Prop := Exists (λ r, region_used r x) (root a).

(** ** Lemmas *)

Context `{!LibcOk heap}.

Lemma create_some size h r h' :
  libc_inv h → 0 ≤ size < 2 ^ 64 - ARENA_HEADER →
  _arena_create size h = (Some r, h') →
  libc_inv h' ∧ region_ok r ∧ r_current r = 0 ∧ r_size r = size ∧ r_eom r = 0 ∧
  live h' = region_extent r :: live h.
Proof.
  unfold _arena_create, region_extent, ARENA_HEADER. intros Hi Hs Hc.
  rewrite size_t_id in Hc by lia.
  destruct (malloc _ h) as [[p|] h1] eqn:E; simplify_eq/=.
  apply malloc_some in E as (? & ? & ? & ? & ?); [|done].
  split_and!; try done. constructor; cbn; unfold ARENA_HEADER; first [done|lia].
Qed.

Lemma room_size_t r size :
  region_ok r → 0 ≤ size < 2 ^ 63 → size_t (r_current r + size) = r_current r + size.
Proof. intros [? ? _ _ _] ?. unfold ARENA_HEADER in *. apply size_t_id. lia. Qed.

Lemma room_bytes r size :
  region_ok r → 0 ≤ size → has_room size r →
  rd_n (r_bytes r) (r_current r) size = Ok (zeros size).
Proof.
  intros [? ? _ -> _] ? Hr. unfold has_room in *.
  rewrite rd_n_ok by (try apply zlen_nonneg; rewrite ?zlen_zeros; lia).
  f_equal. unfold sub, zeros. rewrite drop_replicate, take_replicate. f_equal. lia.
Qed.

(** The loop computes the first fit whenever its fuel covers the list. *)
Lemma alloc_loop_first_fit fuel size rs h :
  libc_inv h → (length rs + 2 ≤ fuel)%nat → Forall region_ok rs → 0 ≤ size < 2 ^ 63 - ARENA_HEADER →
  arena_alloc_loop fuel size rs h = first_fit size rs h.
Proof.
  revert fuel h. induction rs as [|cur next IH]; intros fuel h Hi Hf Hok Hs.
  { by destruct fuel; cbn in Hf; [lia|]. }
  destruct fuel as [|fuel]; cbn in Hf; [lia|].
  apply Forall_cons in Hok as [Hcur Hnext]. unfold ARENA_HEADER in *.
  unfold first_fit. cbn [arena_alloc_loop list_find].
  rewrite room_size_t by (done || lia).
  destruct (Z.leb_spec (r_current cur + size) (r_size cur)) as [Hr|Hr].
  - rewrite decide_True by done. by rewrite room_bytes by (done || lia).
  - rewrite decide_False by (unfold has_room; lia).
    destruct next as [|r2 next'].
    + cbn. destruct (negb _); [done|].
      destruct (_arena_create size h) as [[new|] h'] eqn:Hc; [|done].
      apply create_some in Hc as (_ & Hnew & Hc0 & Hcs & _); [|done|unfold ARENA_HEADER; lia].
      destruct fuel as [|fuel]; [cbn in Hf; lia|]. cbn [arena_alloc_loop].
      rewrite room_size_t, Hc0, Hcs by (done || lia).
      rewrite (proj2 (Z.leb_le (0 + size) size)) by lia.
      assert (has_room size new) by (unfold has_room; lia).
      pose proof (room_bytes new size Hnew ltac:(lia) ltac:(done)) as Hb.
      rewrite Hc0 in Hb. rewrite Hb. unfold block_in, bump. by rewrite Hc0.
    + rewrite IH by (done || lia). unfold first_fit.
      destruct (list_find _ (r2 :: next')) as [[i r]|]; [done|].
      change (last (cur :: r2 :: next')) with (last (r2 :: next')).
      destruct (last (r2 :: next')) as [l|]; [|done]. cbn.
      destruct (negb _); [done|].
      by destruct (_arena_create size h) as [[new|] h'].
Qed.

Lemma bump_ok r size :
  region_ok r → 0 ≤ size → has_room size r → region_ok (bump r size).
Proof. intros [? ? ? ? ?] ? Hr. unfold has_room in Hr. constructor; cbn; lia || done. Qed.

Lemma used_bump r size x :
  0 ≤ size → 0 ≤ r_current r →
  region_used (bump r size) x ↔
  region_used r x ∨ b_addr (block_in r size) ≤ x < b_addr (block_in r size) + size.
Proof. unfold region_used. cbn. lia. Qed.

(** The addresses a region hands out lie in its [malloc] block. *)
Lemma used_extent r x :
  region_ok r → region_used r x → (region_extent r).1 ≤ x < (region_extent r).1 + (region_extent r).2.
Proof. intros [? ? Hr ? ?]. unfold region_used, region_extent, ARENA_HEADER in *. cbn. lia. Qed.

Lemma map_extent_insert rs i r r' :
  rs !! i = Some r → region_extent r' = region_extent r →
  map region_extent (<[i := r']> rs) = map region_extent rs.
Proof.
  intros Hi He. change (map region_extent) with (fmap (M := list) region_extent).
  rewrite list_fmap_insert, He. apply list_insert_id.
  by rewrite list_lookup_fmap, Hi.
Qed.

Lemma regions_disjoint a i j ri rj :
  arena_wf a → i ≠ j → root a !! i = Some ri → root a !! j = Some rj →
  disjoint_ext (region_extent ri) (region_extent rj).
Proof.
  intros [_ [other Hl] Hd%libc_disjoint] Hij Hi Hj. rewrite Hl, pairwise_disjoint_app in Hd.
  destruct Hd as [Hd _]. eapply (pairwise_disjoint_lookup _ i j); [done..| |].
  all: change (map region_extent) with (fmap (M := list) region_extent);
    by rewrite list_lookup_fmap, ?Hi, ?Hj.
Qed.

Lemma in_use_lookup a x :
  arena_in_use a x ↔ ∃ i r, root a !! i = Some r ∧ region_used r x.
Proof.
  unfold arena_in_use. rewrite Exists_exists. setoid_rewrite list_elem_of_lookup. naive_solver.
Qed.

Lemma wf_lookup a i r : arena_wf a → root a !! i = Some r → region_ok r.
Proof. intros [H _ _]. by apply Forall_lookup_1. Qed.

(** A block of a region has a valid address. *)
Lemma block_addr r size :
  region_ok r → 0 ≤ size → has_room size r →
  0 < b_addr (block_in r size) ∧ b_addr (block_in r size) + size < 2 ^ 64.
Proof.
  intros [? ? Hr _ ?] ? Hroom. unfold has_room, ARENA_HEADER in *. cbn. rewrite Hr. lia.
Qed.

(** Bumping region [i] keeps the arena in order and takes unused addresses. *)
Lemma wf_bump a i r size :
  arena_wf a → 0 ≤ size → root a !! i = Some r → has_room size r →
  arena_wf (Arena (<[i := bump r size]> (root a)) (libc a)).
Proof.
  intros Hwf Hs Hi Hr. pose proof (wf_lookup _ _ _ Hwf Hi). destruct Hwf as [Hok [o Ho] Hd].
  constructor; cbn; [|exists o|done].
  - apply Forall_insert; [done|]. by apply bump_ok.
  - by rewrite (map_extent_insert _ _ r) by done.
Qed.

Lemma bump_unused a i r size x :
  arena_wf a → root a !! i = Some r → 0 ≤ size → has_room size r →
  b_addr (block_in r size) ≤ x < b_addr (block_in r size) + size → ¬ arena_in_use a x.
Proof.
  intros Hwf Hi Hs Hr Hx (j & rj & Hj & Hu)%in_use_lookup.
  pose proof (wf_lookup _ _ _ Hwf Hi) as Hri. pose proof (wf_lookup _ _ _ Hwf Hj) as Hrj.
  destruct (decide (i = j)) as [<-|Hne].
  - simplify_eq. unfold region_used in Hu. cbn in Hx. lia.
  - pose proof (regions_disjoint _ _ _ _ _ Hwf Hne Hi Hj) as Hd.
    apply used_extent in Hu; [|done]. destruct Hri as [? _ Hrr _ _].
    unfold disjoint_ext, has_room, region_extent, ARENA_HEADER in *. cbn in *. lia.
Qed.

Lemma bump_in_use a i r size x :
  arena_wf a → root a !! i = Some r → 0 ≤ size →
  arena_in_use (Arena (<[i := bump r size]> (root a)) (libc a)) x ↔
  arena_in_use a x ∨ b_addr (block_in r size) ≤ x < b_addr (block_in r size) + size.
Proof.
  intros Hwf Hi Hs. pose proof (wf_lookup _ _ _ Hwf Hi) as [? _ _ _ _].
  pose proof (lookup_lt_Some _ _ _ Hi).
  rewrite !in_use_lookup. cbn [root]. split.
  - intros (j & rj & Hj & Hu). destruct (decide (i = j)) as [<-|].
    + rewrite list_lookup_insert_eq in Hj by done. simplify_eq.
      apply used_bump in Hu; [|lia..]. naive_solver.
    + rewrite list_lookup_insert_ne in Hj by done. naive_solver.
  - intros [(j & rj & Hj & Hu)|Hx].
    + destruct (decide (i = j)) as [<-|].
      * exists i, (bump r size). rewrite list_lookup_insert_eq by done. simplify_eq.
        split; [done|]. apply used_bump; [lia..|by left].
      * exists j, rj. by rewrite list_lookup_insert_ne.
    + exists i, (bump r size). rewrite list_lookup_insert_eq by done.
      split; [done|]. apply used_bump; [lia..|by right].
Qed.

(** Growing the list keeps the arena in order; the page starts unused. *)
Lemma wf_grow a size r h' :
  arena_wf a → 0 ≤ size < 2 ^ 64 - ARENA_HEADER →
  _arena_create size (libc a) = (Some r, h') →
  arena_wf (Arena (root a ++ [r]) h').
Proof.
  intros [Hok [o Ho] Hd] Hs Hc. apply create_some in Hc as (Hi & Hr & _ & _ & _ & Hl); [|done..].
  constructor; cbn.
  - by apply Forall_app_2, Forall_singleton.
  - exists o. rewrite Hl, Ho, map_app, <- app_assoc. cbn. by rewrite Permutation_middle.
  - done.
Qed.

Lemma grow_in_use a r h' x :
  r_current r = 0 → arena_in_use (Arena (root a ++ [r]) h') x ↔ arena_in_use a x.
Proof.
  intros Hc. unfold arena_in_use. cbn. rewrite Exists_app, Exists_cons, Exists_nil.
  unfold region_used. rewrite Hc. split; [|by left]. intros [?|[?|[]]]; [done|lia].
Qed.

(** ** [arena_alloc] *)

Definition arena_alloc_spec (size : Z) (a : arena) : res (option block * arena) :=
  match root a with
  | [] => Ok (None, a)
  | r :: _ =>
      if size >? r_size r then Ok (None, a)
      else '(p, rs, h) ← first_fit size (root a) (libc a); Ok (p, Arena rs h)
  end.

Lemma arena_alloc_eq size a :
  arena_wf a → 0 ≤ size → arena_alloc size a = arena_alloc_spec size a.
Proof.
  intros [Hok _ Hi] Hs. unfold arena_alloc, arena_alloc_spec.
  destruct (root a) as [|r rs] eqn:Hr; [done|].
  destruct (Z.gtb_spec size (r_size r)); [done|].
  rewrite alloc_loop_first_fit; [done|done|cbn; lia|done|].
  apply Forall_cons in Hok as [[? ? _ _ _] _]. lia.
Qed.

Lemma arena_alloc_post size a r a' :
  arena_wf a → 0 ≤ size → arena_alloc size a = Ok (r, a') →
  arena_wf a' ∧
  match r with
  | None => ∀ x, arena_in_use a' x ↔ arena_in_use a x
  | Some b =>
      b_bytes b = zeros size ∧
      (0 < b_addr b ∧ b_addr b + size < 2 ^ 64) ∧
      (∀ x, b_addr b ≤ x < b_addr b + size → ¬ arena_in_use a x) ∧
      (∀ x, arena_in_use a' x ↔ arena_in_use a x ∨ b_addr b ≤ x < b_addr b + size)
  end.
Proof.
  intros Hwf Hs. rewrite arena_alloc_eq by done. unfold arena_alloc_spec, first_fit.
  destruct (root a) as [|r0 rs] eqn:Hroot; [by intros; simplify_eq|].
  destruct (Z.gtb_spec size (r_size r0)) as [|Hsz]; [by intros; simplify_eq|]. rewrite <- Hroot.
  pose proof (wf_lookup a 0 r0 Hwf ltac:(by rewrite Hroot)) as [_ Hr0 _ _ _].
  destruct (list_find _ (root a)) as [[i ri]|] eqn:Hfind.
  - apply list_find_Some in Hfind as (Hi & Hroom & _).
    intros [= <- <-]. split; [by apply wf_bump|]. split; [done|].
    split; [apply block_addr; [by eapply wf_lookup|done|done]|]. split.
    + intros x Hx. by apply (bump_unused a i ri size x).
    + intros x. by apply bump_in_use.
  - assert (Heta : Arena (root a) (libc a) = a) by by destruct a.
    destruct (last (root a)) as [l|]; cbn; [|rewrite Heta; by intros [= <- <-]].
    destruct (negb _); cbn; [rewrite Heta; by intros [= <- <-]|].
    destruct (_arena_create size (libc a)) as [[new|] h'] eqn:Hc; [|done].
    intros [= <- <-].
    assert (0 ≤ size < 2 ^ 64 - ARENA_HEADER) as Hs' by (unfold ARENA_HEADER in *; lia).
    pose proof (wf_grow _ _ _ _ Hwf Hs' Hc) as Hwf'.
    apply create_some in Hc as (_ & _ & Hc0 & Hcs & _); [|by destruct Hwf|done].
    set (g := Arena (root a ++ [new]) h') in *.
    assert (Hg : root g !! length (root a) = Some new).
    { cbn. by rewrite lookup_app_r, Nat.sub_diag by done. }
    assert (has_room size new) as Hroom by (unfold has_room; lia).
    assert (Arena (root a ++ [bump new size]) h' =
            Arena (<[length (root a) := bump new size]> (root g)) (libc g)) as ->.
    { cbn. rewrite insert_app_r_alt by lia. rewrite Nat.sub_diag. done. }
    split; [by apply wf_bump|]. split; [done|].
    split; [apply block_addr; [exact (wf_lookup g _ _ Hwf' Hg)|done|done]|]. split.
    + intros x Hx Hu. eapply (bump_unused g _ new size x); [done..|].
      by apply grow_in_use.
    + intros x. rewrite (bump_in_use g) by done. unfold g. by rewrite grow_in_use.
Qed.

#[global] Instance arena_allocator : Allocator arena := {
  mmalloc := arena_alloc;
  alloc_inv := arena_wf;
  in_use := arena_in_use;
}.

#[global] Instance arena_allocator_ok : AllocatorOk arena.
Proof. constructor. intros n s r s' Hinv Hn Hm. apply (arena_alloc_post n s r s'); [done|lia|done]. Qed.

(** ** [arena_init] *)

Definition page (size : Z) (r : region) : Prop := r_size r = size ∧ r_current r = 0.

Lemma set_eom_wf pre r e h :
  arena_wf (Arena (pre ++ [r]) h) → arena_wf (Arena (pre ++ [set_eom r e]) h).
Proof.
  intros [Hok [o Ho] Hd]. cbn in *. constructor; cbn; [|exists o|done].
  - apply Forall_app in Hok as [? [[? ? ? ? ?] _]%Forall_cons].
    apply Forall_app_2; [done|]. apply Forall_singleton. by constructor.
  - rewrite map_app in *. done.
Qed.

Lemma prealloc_spec fuel size count lock i pre next h rs h' :
  0 ≤ size < 2 ^ 64 - ARENA_HEADER → i ≤ count →
  arena_wf (Arena (pre ++ [next]) h) → page size next → r_eom next = 0 →
  prealloc fuel size count lock i next h = Ok (rs, h') →
  arena_wf (Arena (pre ++ rs) h') ∧ Forall (page size) rs ∧ zlen rs = count - i + 1 ∧
  ∃ r, last rs = Some r ∧ (r_eom r = 0 ↔ lock = 0).
Proof.
  revert i pre next h rs. induction fuel as [|fuel IH];
    intros i pre next h rs Hs Hi Hwf Hp He Hrun; cbn in Hrun;
    destruct (Z.geb_spec i count) as [Hge|Hlt]; try done.
  1,2: simplify_eq;
    destruct (Z.eqb_spec lock 0); cbn;
    (split_and!; [by try apply set_eom_wf|by apply Forall_singleton|zlia|naive_solver]).
  destruct (_arena_create size h) as [[r|] h1] eqn:Hc; [|done].
  apply bind_ok in Hrun as ([rest h2] & Hrun & [= <- <-]).
  pose proof (wf_grow _ _ _ _ Hwf Hs Hc) as Hwf1. cbn in Hwf1.
  apply create_some in Hc as (_ & Hr & Hr0 & Hrs & Hre & _); [|by destruct Hwf|done].
  apply (IH _ (pre ++ [next])) in Hrun as (Hwf2 & Hpages & Hlen & rl & Hl & Hle);
    [|done|lia|done|done|done].
  rewrite <- app_assoc in Hwf2. rewrite zlen_cons.
  split_and!; [done|by apply Forall_cons|lia|]. exists rl. split; [|done].
  destruct rest; [done|]. done.
Qed.

Lemma arena_init_spec size count lock a c a' :
  libc_inv (libc a) → 0 ≤ size < 2 ^ 64 - ARENA_HEADER →
  arena_init size count lock a = Ok (c, a') →
  c = ARENA_OK ∧ arena_wf a' ∧ Forall (page size) (root a') ∧
  zlen (root a') = Z.max 1 count ∧
  ∃ r, last (root a') = Some r ∧ (r_eom r = 0 ↔ lock = 0 ∨ count ≤ 0).
Proof.
  unfold arena_init. intros Hh Hs Hi.
  destruct (_arena_create size (libc a)) as [[r|] h] eqn:Hc; [|done].
  assert (Hwf0 : arena_wf (Arena [] (libc a))).
  { constructor; cbn; [constructor|by exists (live (libc a))|done]. }
  pose proof (wf_grow _ _ _ _ Hwf0 Hs Hc) as Hwf1. cbn in Hwf1.
  apply create_some in Hc as (_ & Hr & Hr0 & Hrs & Hre & _); [|done..].
  destruct (Z.gtb_spec count 0).
  - apply bind_ok in Hi as ([rs h2] & Hi & [= <- <-]).
    apply (prealloc_spec _ _ _ _ _ []) in Hi as (? & ? & Hlen & rl & ? & ?);
      [|done|lia|done|done|done]. cbn [root] in *.
    split_and!; [done..|lia|]. exists rl. split; [done|]. naive_solver lia.
  - simplify_eq. cbn. split_and!; try done; [by apply Forall_singleton|zlia|].
    exists r. split; [done|]. naive_solver lia.
Qed.

(** ** Locked arenas *)

Definition locked (a : arena) : Prop := ∃ r, last (root a) = Some r ∧ r_eom r ≠ 0.

(** Bytes handed out, and the bytes the regions have in all. *)
Definition used_bytes (rs : list region) : Z := foldr (λ r n, r_current r + n) 0 rs.
Definition total_bytes (rs : list region) : Z := foldr (λ r n, r_size r + n) 0 rs.

Lemma used_insert rs i r r' :
  rs !! i = Some r → used_bytes (<[i := r']> rs) = used_bytes rs - r_current r + r_current r'.
Proof.
  unfold used_bytes. revert i. induction rs as [|x rs IH]; intros [|i] Hi; simplify_eq/=; [lia|].
  rewrite (IH i Hi). lia.
Qed.

Lemma total_insert rs i r r' :
  rs !! i = Some r → r_size r' = r_size r → total_bytes (<[i := r']> rs) = total_bytes rs.
Proof.
  unfold total_bytes. revert i. induction rs as [|x rs IH]; intros [|i] Hi Hr; simplify_eq/=; [lia|].
  rewrite (IH i Hi Hr). lia.
Qed.

Lemma used_le_total rs : Forall region_ok rs → used_bytes rs ≤ total_bytes rs.
Proof. unfold used_bytes, total_bytes. induction 1 as [|r rs [? _ _ _ _] _ IH]; cbn; lia. Qed.

Lemma last_insert_eom rs i r size :
  rs !! i = Some r → r_eom <$> last (<[i := bump r size]> rs) = r_eom <$> last rs.
Proof.
  intros Hi. rewrite !last_lookup, length_insert.
  destruct (decide (i = Nat.pred (length rs))) as [->|].
  - rewrite list_lookup_insert_eq, Hi by (by eapply lookup_lt_Some). done.
  - by rewrite list_lookup_insert_ne.
Qed.

Definition block_size (o : option block) : Z := from_option (λ b, zlen (b_bytes b)) 0 o.

(** One allocation of a locked arena: it answers, never calls [malloc], and
    accounts for what it hands out. *)
Lemma locked_alloc size a :
  arena_wf a → locked a → 0 ≤ size →
  ∃ r a', arena_alloc size a = Ok (r, a') ∧ locked a' ∧ libc a' = libc a ∧
    length (root a') = length (root a) ∧ total_bytes (root a') = total_bytes (root a) ∧
    used_bytes (root a') = used_bytes (root a) + block_size r.
Proof.
  intros Hwf [l [Hl He]] Hs. rewrite arena_alloc_eq by done. unfold arena_alloc_spec, first_fit.
  assert (Hstay : ∃ r a', Ok (None, a) = Ok (r, a') ∧ locked a' ∧ libc a' = libc a ∧
    length (root a') = length (root a) ∧ total_bytes (root a') = total_bytes (root a) ∧
    used_bytes (root a') = used_bytes (root a) + block_size r).
  { exists None, a. cbn. split_and!; try done; [by exists l|lia]. }
  destruct (root a) as [|r0 rs] eqn:Hroot; [done|].
  destruct (size >? r_size r0); [done|]. rewrite <- Hroot in *.
  destruct (list_find _ (root a)) as [[i ri]|] eqn:Hfind.
  - apply list_find_Some in Hfind as (Hi & _ & _). cbn [mbind res_bind].
    eexists _, _. split; [reflexivity|]. cbn [root libc block_size from_option block_in b_bytes].
    rewrite length_insert, (used_insert _ _ _ _ Hi), (total_insert _ _ _ _ Hi), zlen_zeros by done.
    split_and!; try done; [|cbn; lia].
    pose proof (last_insert_eom (root a) i ri size Hi) as Hlast. rewrite Hl in Hlast.
    unfold locked. cbn [root]. destruct (last (<[i:=bump ri size]> (root a))) as [l'|]; [|done].
    exists l'. split; [done|]. cbn in Hlast. simplify_eq. congruence.
  - rewrite Hl. rewrite (proj2 (Z.eqb_neq _ _) He). cbn. by destruct a.
Qed.

Definition sum_sizes (rs : list (option block)) : Z := foldr (λ o n, block_size o + n) 0 rs.

Lemma locked_alloc_all ns a :
  arena_wf a → locked a → Forall (λ n, 0 ≤ n) ns →
  ∃ rs a', mmalloc_all ns a = Ok (rs, a') ∧ arena_wf a' ∧ libc a' = libc a ∧
    length (root a') = length (root a) ∧ total_bytes (root a') = total_bytes (root a) ∧
    used_bytes (root a') = used_bytes (root a) + sum_sizes rs.
Proof.
  revert a. induction ns as [|n ns IH]; intros a Hwf Hlk Hns.
  { exists [], a. cbn. split_and!; try done. lia. }
  apply Forall_cons in Hns as [Hn Hns].
  destruct (locked_alloc n a Hwf Hlk Hn) as (r & a1 & Hr & Hlk1 & Hc1 & Hl1 & Ht1 & Hu1).
  destruct (arena_alloc_post n a r a1 Hwf Hn Hr) as [Hwf1 _].
  destruct (IH a1 Hwf1 Hlk1 Hns) as (rs & a2 & Hrs & Hwf2 & Hc2 & Hl2 & Ht2 & Hu2).
  exists (r :: rs), a2. cbn [mmalloc_all mmalloc arena_allocator].
  rewrite Hr. cbn. rewrite Hrs. cbn. unfold sum_sizes in *. cbn. split_and!; try done; congruence || lia.
Qed.

Lemma pages_bytes size rs :
  Forall (page size) rs → used_bytes rs = 0 ∧ total_bytes rs = zlen rs * size.
Proof.
  unfold used_bytes, total_bytes. induction 1 as [|r rs [Hs Hc] _ [IH1 IH2]]; cbn; [done|].
  rewrite IH1, IH2, Hs, Hc, zlen_cons. lia.
Qed.

Lemma free_all rs h other :
  libc_inv h → live h ≡ₚ map region_extent rs ++ other →
  live (foldl (λ h r, free (r_self r) h) h rs) ≡ₚ other.
Proof.
  revert h. induction rs as [|r rs IH]; intros h Hi Hl; cbn in *; [done|].
  destruct (free_live (r_self r) (ARENA_HEADER + r_size r) h) as [Hi' Hl']; [done| |].
  { rewrite Hl. by apply list_elem_of_here. }
  apply IH; [done|]. rewrite Hl' in Hl. by apply Permutation_cons_inv in Hl.
Qed.

(** ** What the arena promises *)

(** C23: [arena_alloc] is first-fit bump allocation.  On an arena in order it
    terminates and equals the reference: a request larger than the root region
    is refused, otherwise the first region with room serves it, and when none
    has room a locked arena answers NULL and an open one appends a region. *)
Theorem arena_alloc_first_fit (size : Z) (a : arena) :
  arena_wf a → 0 ≤ size → arena_alloc size a = arena_alloc_spec size a.
Proof. exact (arena_alloc_eq size a). Qed.

(** C10: any sequence of allocations hands out pairwise disjoint
    blocks, none of whose bytes was in use before, and keeps the arena in order. *)
Theorem arena_allocs_disjoint (ns : list Z) (a a' : arena) (rs : list (option block)) :
  arena_wf a → Forall (λ n, 0 < n < 2 ^ 64) ns → mmalloc_all ns a = Ok (rs, a') →
  arena_wf a' ∧ pairwise_disjoint (block_extents rs) ∧
  Forall (λ e, ∀ x, ext_mem x e → ¬ arena_in_use a x ∧ arena_in_use a' x) (block_extents rs).
Proof.
  intros Hwf Hns Hrun. pose proof (mmalloc_all_spec (S := arena) ns a rs a') as Hspec.
  destruct (Hspec Hwf Hns Hrun) as (? & _ & Hf & ?).
  split_and!; [done..|]. eapply Forall_impl; [done|]. by intros e [_ He].
Qed.

(** C31: a pre-allocated and locked arena ([arena_init(size, count, 1)], as
    main.c makes it) answers every request without calling [malloc] again, keeps
    its [count] pages and never hands out more than [count * size] bytes. *)
Theorem arena_locked_capacity (size count lock : Z) (a a0 : arena) (c : Z) (ns : list Z) :
  libc_inv (libc a) → 0 ≤ size < 2 ^ 64 - ARENA_HEADER → 0 < count → lock ≠ 0 →
  arena_init size count lock a = Ok (c, a0) → Forall (λ n, 0 ≤ n) ns →
  ∃ rs a', mmalloc_all ns a0 = Ok (rs, a') ∧ libc a' = libc a0 ∧
    zlen (root a') = count ∧ sum_sizes rs ≤ count * size.
Proof.
  intros Hi Hs Hc Hl Hinit Hns.
  destruct (arena_init_spec _ _ _ _ _ _ Hi Hs Hinit) as (_ & Hwf & Hp & Hlen & r & Hr & He).
  assert (Hlk : locked a0) by (exists r; split; [done|naive_solver lia]).
  destruct (locked_alloc_all ns a0 Hwf Hlk Hns) as (rs & a' & Hrun & Hwf' & ? & Hlen' & Ht & Hu).
  exists rs, a'. apply pages_bytes in Hp as [Hu0 Ht0].
  destruct Hwf' as [Hok _ _]. apply used_le_total in Hok. unfold zlen in *.
  split_and!; [done..|lia|nia].
Qed.

(** [arena_free] gives every page back to the C library exactly once, leaves
    the other live blocks alone, and a second call reports [ARENA_NULL]. *)
Lemma arena_free_releases (a : arena) :
  arena_wf a → root a ≠ [] →
  ∃ a', arena_free a = (ARENA_OK, a') ∧ root a' = [] ∧
    live (libc a) ≡ₚ map region_extent (root a) ++ live (libc a') ∧
    arena_free a' = (ARENA_NULL, a').
Proof.
  intros [_ [o Ho] Hi] Hne. unfold arena_free at 1. destruct (root a) as [|r rs] eqn:Hr; [done|].
  eexists. split; [done|]. split; [done|]. split; [|done]. cbn [libc].
  rewrite <- Hr in *. by rewrite (free_all _ _ o).
Qed.

End Arena.
Arguments arena : clear implicits.

(** ** The arena of main.c on a concrete C library *)

Section Examples.
Import BumpHeap.

Definition h0 : BumpHeap.heap := BumpHeap.empty 1000000.

(** tests/test_arena.c, first case: [arena_init(32, 1, 1)]. *)
Example locked_arena_test :
  ('(c, a) ← arena_init 32 1 1 (Arena [] h0);
   '(r1, a) ← arena_alloc 64 a;
   '(r2, a) ← arena_alloc 32 a;
   '(r3, a) ← arena_alloc 32 a;
   Ok (c, r1, option_map b_addr r2, r3, (arena_free a).1, root (arena_free a).2)) =
  Ok (ARENA_OK, None, Some 4136, None, ARENA_OK, []).
Proof. reflexivity. Qed.

(** Second case: [arena_init(1024, 0, 0)] grows on demand. *)
Example open_arena_test :
  ('(_, a) ← arena_init 1024 0 0 (Arena [] h0);
   '(r1, a) ← arena_alloc 1025 a;
   '(r2, a) ← arena_alloc 512 a;
   '(r3, a) ← arena_alloc 512 a;
   let n := length (root a) in
   '(r4, a) ← arena_alloc 512 a;
   Ok (bool_decide (r1 = None), bool_decide (r4 = None), n, length (root a))) =
  Ok (true, false, 1%nat, 2%nat).
Proof. vm_compute. reflexivity. Qed.

Definition empty_arena : arena BumpHeap.heap := Arena [] h0.
Definition demo : arena BumpHeap.heap :=
  match arena_init 32 2 1 empty_arena with Ok (_, a) => a | Fault _ => empty_arena end.

Lemma h0_inv : libc_inv h0.
Proof. split; [cbn; lia|]. cbn. split; [constructor|done]. Qed.

Lemma demo_init : arena_init 32 2 1 empty_arena = Ok (ARENA_OK, demo).
Proof. reflexivity. Qed.

Lemma demo_wf : arena_wf demo.
Proof.
  apply (arena_init_spec 32 2 1 empty_arena ARENA_OK demo);
    [exact h0_inv|unfold ARENA_HEADER; lia|exact demo_init].
Qed.

Lemma arena_alloc_first_fit_witness :
  arena_wf demo ∧ arena_alloc 20 demo = arena_alloc_spec 20 demo.
Proof. split; [exact demo_wf|]. apply (arena_alloc_first_fit 20 demo demo_wf). lia. Defined.

Lemma arena_allocs_disjoint_witness :
  match mmalloc_all [20; 8; 20; 32; 4] demo with
  | Ok (rs, a') =>
      length (block_extents rs) = 4%nat ∧
      arena_wf a' ∧ pairwise_disjoint (block_extents rs) ∧
      Forall (λ e, ∀ x, ext_mem x e → ¬ arena_in_use demo x ∧ arena_in_use a' x) (block_extents rs)
  | Fault _ => False
  end.
Proof.
  destruct (mmalloc_all [20; 8; 20; 32; 4] demo) as [[rs a']|f] eqn:E;
    [|vm_compute in E; discriminate E].
  split; [vm_compute in E; injection E as <- _; reflexivity|].
  apply (arena_allocs_disjoint [20; 8; 20; 32; 4] demo a' rs demo_wf); [|exact E].
  repeat constructor; lia.
Defined.

Lemma arena_locked_capacity_witness :
  ∃ rs a', mmalloc_all [20; 20; 20; 12] demo = Ok (rs, a') ∧ libc a' = libc demo ∧
    zlen (root a') = 2 ∧ sum_sizes rs ≤ 2 * 32.
Proof.
  apply (arena_locked_capacity 32 2 1 empty_arena demo ARENA_OK [20; 20; 20; 12]);
    [exact h0_inv|unfold ARENA_HEADER; lia|lia|lia|exact demo_init|repeat constructor; lia].
Defined.

Lemma arena_free_releases_witness :
  ∃ a', arena_free demo = (ARENA_OK, a') ∧ root a' = [] ∧
    live (libc demo) ≡ₚ map region_extent (root demo) ++ live (libc a') ∧
    arena_free a' = (ARENA_NULL, a').
Proof. apply (arena_free_releases demo demo_wf). discriminate. Defined.

End Examples.
