(* ===== verification/Layout.v ===== *)
(** Arrays of fixed-width cells, and the interface between a C type and the
    bytes it is stored as.

    Stack.v and Store.v keep their items as raw bytes ([void* data] plus an item
    size), while their clients read those bytes back as [int], [Task] or
    [TaskProcess].  [Layout] is what a type owes a container to be stored in it. *)

From S2P Require Import Prelude.

(** ** Cells *)

(** The [j]-th cell of width [w] of the array [d]. *)
Definition cell (w : Z) (d : list byte) (j : Z) : list byte := sub d (j * w) w.
Definition cells (w : Z) (d : list byte) (n : Z) : list (list byte) :=
  cell w d <$> seqZ 0 n.

Section Cells.
Context (w : Z) (d : list byte) (n : Z).
Context (Hw : 0 ≤ w) (Hd : zlen d = n * w).

Lemma cell_range j : 0 ≤ j < n → 0 ≤ j * w ∧ j * w + w ≤ zlen d.
Proof. intros. nia. Qed.

Lemma zlen_cell j : 0 ≤ j < n → zlen (cell w d j) = w.
Proof. intros. apply zlen_sub; [nia|done|rewrite Hd; nia]. Qed.

Lemma cell_upd_same j x : 0 ≤ j < n → zlen x = w → cell w (upd d (j * w) x) j = x.
Proof.
  intros Hj Hx. destruct (cell_range j Hj). unfold cell. 
  pose proof (sub_upd_same d (j * w) x) as Hs. rewrite Hx in Hs. apply Hs; lia.
Qed.

Lemma cell_upd_other i j x :
  0 ≤ i < n → 0 ≤ j < n → i ≠ j → zlen x = w → cell w (upd d (j * w) x) i = cell w d i.
Proof.
  intros Hi Hj Hij Hx. destruct (cell_range i Hi), (cell_range j Hj).
  unfold cell. apply sub_upd_other; [lia|lia|lia|lia|].
  rewrite Hx. destruct (decide (i < j)); [left|right]; nia.
Qed.

(** Writing inside cell [j] is writing inside that cell only. *)
Lemma cell_upd_within j k x :
  0 ≤ j < n → 0 ≤ k → k + zlen x ≤ w →
  cell w (upd d (j * w + k) x) j = upd (cell w d j) k x.
Proof.
  intros Hj Hk Hx. destruct (cell_range j Hj). pose proof (zlen_cell j Hj) as Hc.
  pose proof (zlen_nonneg x). apply list_eq. intros i. unfold cell at 1.
  destruct (decide (i < Z.to_nat w)%nat).
  - rewrite lookup_sub by done.
    destruct (decide (Z.to_nat k ≤ i < Z.to_nat k + length x)%nat).
    + rewrite !lookup_upd_in by (rewrite ?Hc; unfold zlen in *; lia). f_equal. lia.
    + rewrite !lookup_upd_out by (rewrite ?Hc; unfold zlen in *; lia).
      unfold cell. by rewrite lookup_sub by done.
  - rewrite !lookup_ge_None_2; [done| |].
    + pose proof (zlen_upd (cell w d j) k x Hk ltac:(lia)). unfold zlen in *. lia.
    + unfold sub. rewrite length_take. lia.
Qed.

Lemma cell_upd_within_other i j k x :
  0 ≤ i < n → 0 ≤ j < n → i ≠ j → 0 ≤ k → k + zlen x ≤ w →
  cell w (upd d (j * w + k) x) i = cell w d i.
Proof.
  intros Hi Hj Hij Hk Hx. destruct (cell_range i Hi), (cell_range j Hj).
  pose proof (zlen_nonneg x). unfold cell. apply sub_upd_other; [lia|lia|lia|lia|].
  destruct (decide (i < j)); [left|right]; nia.
Qed.

Lemma rd_cell j : 0 ≤ j < n → rd_n d (j * w) w = Ok (cell w d j).
Proof. intros Hj. destruct (cell_range j Hj). by apply rd_n_ok. Qed.

Lemma wr_cell j x : 0 ≤ j < n → zlen x = w → memcpy d (j * w) x = Ok (upd d (j * w) x).
Proof. intros Hj Hx. destruct (cell_range j Hj). apply memcpy_ok; lia. Qed.

End Cells.

Lemma length_cells w d n : length (cells w d n) = Z.to_nat n.
Proof. unfold cells. by rewrite length_fmap, length_seqZ. Qed.

Lemma lookup_cells w d n k :
  (k < Z.to_nat n)%nat → cells w d n !! k = Some (cell w d (Z.of_nat k)).
Proof.
  intros Hk. unfold cells. rewrite list_lookup_fmap, lookup_seqZ_lt by lia. done.
Qed.

(** Two arrays with the same cells have the same list of cells. *)
Lemma cells_ext w d d' n n' :
  n = n' → (∀ j, 0 ≤ j < n → cell w d j = cell w d' j) → cells w d n = cells w d' n'.
Proof.
  intros <- H. apply list_eq. intros k. destruct (decide (k < Z.to_nat n)%nat).
  - rewrite !lookup_cells by done. f_equal. apply H. lia.
  - by rewrite !lookup_ge_None_2 by (rewrite length_cells; lia).
Qed.

Lemma cells_snoc w d n : 0 ≤ n → cells w d (n + 1) = cells w d n ++ [cell w d n].
Proof. intros. unfold cells. rewrite seqZ_app by lia. rewrite fmap_app. done. Qed.

(** ** The interface of a stored type *)

Class Layout (A : Type) := {
  sizeof : Z;
  enc : A → list byte;
  dec : list byte → A;
  (** the values the C type can hold *)
  storable : A → Prop;
}.
Arguments sizeof A {_}.

Class LayoutOk (A : Type) `{!Layout A} : Prop := {
  sizeof_nonneg : 0 ≤ sizeof A;
  zlen_enc a : zlen (enc a) = sizeof A;
  dec_enc a : storable a → dec (enc a) = a;
}.

(** [int]: four little-endian bytes. *)
#[export] Instance int_layout : Layout Z := {
  sizeof := 4; enc := int_le; dec := int_of_le; storable := is_int;
}.

#[export] Instance int_layout_ok : LayoutOk Z.
Proof. constructor; [done|exact zlen_int_le|exact int_of_int_le]. Qed.
