(* ===== verification/Stack.v ===== *)
(** The fixed-capacity stack (src/stack.h): a header followed, in the same
    allocation, by [capacity] cells of [item_size] bytes. *)

From S2P Require Import Prelude Alloc Layout.

(** [sizeof(Stack)]: three [size_t] and a pointer. *)
Definition STACK_HEADER : Z := 32.

(** [struct Stack_st] at address [s_addr]; [s_payload] is the memory behind the header. *)
Record Stack := mkStack {
  s_addr : Z;
  s_count : Z;
  s_capacity : Z;
  s_item_size : Z;
  s_data : Z;
  s_payload : list byte;
}.

Definition set_count (s : Stack) (c : Z) : Stack :=
  mkStack (s_addr s) c (s_capacity s) (s_item_size s) (s_data s) (s_payload s).
Definition set_payload (s : Stack) (d : list byte) : Stack :=
  mkStack (s_addr s) (s_count s) (s_capacity s) (s_item_size s) (s_data s) d.

(** [STACK_ITEM(s, i)]: an address; [size_t] arithmetic. *)
Definition STACK_ITEM (s : Stack) (i : Z) : Z :=
  size_t (s_data s + size_t (size_t i * s_item_size s)).

(** Where an address of the payload is in [s_payload]. *)
Definition payload_off (s : Stack) (p : Z) : Z := p - (s_addr s + STACK_HEADER).

Definition stack_load (s : Stack) (p n : Z) : res (list byte) :=
  rd_n (s_payload s) (payload_off s p) n.
Definition stack_memcpy (s : Stack) (p : Z) (x : list byte) : res Stack :=
  set_payload s <$> memcpy (s_payload s) (payload_off s p) x.
Definition stack_memset (s : Stack) (p n : Z) : res Stack := stack_memcpy s p (zeros n).

Definition stack_new {S} `{!Allocator S} (capacity item_size : Z) (a : S)
  : res (option Stack * S) :=
  '(r, a') ← mmalloc (size_t (STACK_HEADER + item_size * capacity)) a;
  match r with
  | None => Ok (None, a')
  | Some b =>
      Ok (Some {| s_addr := b_addr b; s_count := 0; s_capacity := capacity;
                  s_item_size := item_size; s_data := b_addr b + STACK_HEADER;
                  s_payload := drop (Z.to_nat STACK_HEADER) (b_bytes b) |}, a')
  end.

Definition stack_push (s : Stack) (item : list byte) : res (Z * Stack) :=
  if s_count s >=? s_capacity s then Ok (size_t (-1), s)
  else
    x ← rd_n item 0 (s_item_size s);
    s ← stack_memcpy s (STACK_ITEM s (s_count s)) x;
    let s := set_count s (size_t (s_count s + 1)) in
    Ok (size_t (s_count s - 1), s).

(** Pointer results: [None] is NULL. *)
Definition stack_push_new (s : Stack) : res (option Z * Stack) :=
  if s_count s >=? s_capacity s then Ok (None, s)
  else
    let ptr := STACK_ITEM s (s_count s) in
    s ← stack_memset s ptr (s_item_size s);
    Ok (Some ptr, set_count s (size_t (s_count s + 1))).

Definition stack_pop (s : Stack) : option Z * Stack :=
  if s_count s <? 1 then (None, s)
  else (Some (STACK_ITEM s (s_count s - 1)), set_count s (s_count s - 1)).

(** [i] is an [int] and [count] a [size_t]: the comparison converts [i]. *)
Definition stack_get (s : Stack) (i : Z) : option Z :=
  if size_t i >=? s_count s then None else Some (STACK_ITEM s i).

(** The [for] loop of [stack_remove_at]; answers where [i] ends. *)
Fixpoint shift_down (fuel : nat) (s : Stack) (i : Z) : res (Z * Stack) :=
  if size_t i <? size_t (s_count s - 1) then
    match fuel with
    | O => Fault OutOfFuel
    | S fuel' =>
        x ← stack_load s (STACK_ITEM s (i + 1)) (s_item_size s);
        s ← stack_memcpy s (STACK_ITEM s i) x;
        shift_down fuel' s (i + 1)
    end
  else Ok (i, s).

Definition stack_remove_at (s : Stack) (i : Z) : res (Z * Stack) :=
  if size_t i >=? s_count s then Ok (0, s)
  else
    '(i, s) ← shift_down (Z.to_nat (s_count s)) s i;
    s ← stack_memset s (STACK_ITEM s i) (s_item_size s);
    Ok (1, set_count s (s_count s - 1)).

Definition stack_remove_at_fast (s : Stack) (i : Z) : res (Z * Stack) :=
  if size_t i >=? s_count s then Ok (0, s)
  else
    let last := STACK_ITEM s (s_count s - 1) in
    s ← (if s_count s >? 1 then
           x ← stack_load s last (s_item_size s);
           stack_memcpy s (STACK_ITEM s i) x
         else Ok s);
    s ← stack_memset s last (s_item_size s);
    Ok (1, set_count s (s_count s - 1)).

(** The memory image of the object: [stack_reset] clears it from the header on. *)
Definition stack_image (s : Stack) : list byte :=
  size_le (s_count s) ++ size_le (s_capacity s) ++ size_le (s_item_size s) ++
  size_le (s_data s) ++ s_payload s.
Definition stack_of_image (addr : Z) (m : list byte) : Stack :=
  {| s_addr := addr;
     s_count := size_of_le (sub m 0 8); s_capacity := size_of_le (sub m 8 8);
     s_item_size := size_of_le (sub m 16 8); s_data := size_of_le (sub m 24 8);
     s_payload := drop (Z.to_nat STACK_HEADER) m |}.

Definition stack_reset (o : option Stack) : res (Z * option Stack) :=
  match o with
  | None => Ok (0, None)
  | Some s =>
      m ← memset (stack_image s) 0 NUL (size_t (s_item_size s * s_count s));
      Ok (1, Some (set_count (stack_of_image (s_addr s) m) 0))
  end.

(** ** Invariant and abstraction *)

Record stack_wf (s : Stack) : Prop := {
  sw_count : 0 ≤ s_count s ≤ s_capacity s;
  sw_capacity : s_capacity s ≤ INT_MAX;
  sw_item_size : 0 ≤ s_item_size s;
  sw_payload : zlen (s_payload s) = s_capacity s * s_item_size s;
  sw_addr : 0 < s_addr s;
  sw_end : s_addr s + STACK_HEADER + s_capacity s * s_item_size s < 2 ^ 64;
  sw_data : s_data s = s_addr s + STACK_HEADER;
}.

(** What the stack holds: its first [count] cells. *)
Definition items (s : Stack) : list (list byte) :=
  cells (s_item_size s) (s_payload s) (s_count s).

(** ** Lemmas *)

Section Wf.
Context (s : Stack) (Hwf : stack_wf s).

Lemma sw_bound j : 0 ≤ j ≤ s_capacity s → 0 ≤ j * s_item_size s ≤ s_capacity s * s_item_size s.
Proof. destruct Hwf. intros. nia. Qed.

Lemma sw_size_t : 0 ≤ s_capacity s < 2 ^ 64 ∧ size_t (s_count s) = s_count s.
Proof. destruct Hwf. unfold INT_MAX in *. split; [lia|]. apply size_t_id. lia. Qed.

Lemma stack_item_addr j :
  0 ≤ j < s_capacity s → STACK_ITEM s j = s_data s + j * s_item_size s.
Proof.
  intros Hj. pose proof (sw_bound j ltac:(lia)). destruct Hwf. unfold STACK_ITEM, STACK_HEADER, INT_MAX in *.
  rewrite (size_t_id j) by lia. rewrite (size_t_id (j * _)) by lia. apply size_t_id. lia.
Qed.

Lemma stack_item_off j :
  0 ≤ j < s_capacity s → payload_off s (STACK_ITEM s j) = j * s_item_size s.
Proof.
  intros Hj. rewrite stack_item_addr by done. destruct Hwf. unfold payload_off. lia.
Qed.

Lemma load_item j :
  0 ≤ j < s_capacity s →
  stack_load s (STACK_ITEM s j) (s_item_size s) = Ok (cell (s_item_size s) (s_payload s) j).
Proof.
  intros Hj. unfold stack_load. rewrite stack_item_off by done. destruct Hwf.
  by apply (rd_cell _ _ (s_capacity s)).
Qed.

Lemma store_item j x :
  0 ≤ j < s_capacity s → zlen x = s_item_size s →
  stack_memcpy s (STACK_ITEM s j) x =
  Ok (set_payload s (upd (s_payload s) (j * s_item_size s) x)).
Proof.
  intros Hj Hx. unfold stack_memcpy. rewrite stack_item_off by done. destruct Hwf.
  by rewrite (wr_cell _ _ (s_capacity s)).
Qed.

(** Overwriting cell [j] keeps the stack in order. *)
Lemma wf_set_item j x :
  0 ≤ j < s_capacity s → zlen x = s_item_size s →
  stack_wf (set_payload s (upd (s_payload s) (j * s_item_size s) x)).
Proof.
  intros Hj Hx. pose proof (cell_range (s_item_size s) (s_payload s) (s_capacity s)
    (sw_item_size _ Hwf) (sw_payload _ Hwf) j Hj).
  destruct Hwf. constructor; cbn; try done. rewrite zlen_upd; lia.
Qed.

Lemma wf_set_count c : 0 ≤ c ≤ s_capacity s → stack_wf (set_count s c).
Proof. destruct Hwf. constructor; cbn; done. Qed.

Lemma items_set_last x :
  s_count s < s_capacity s → zlen x = s_item_size s →
  items (set_count (set_payload s (upd (s_payload s) (s_count s * s_item_size s) x)) (s_count s + 1)) =
  items s ++ [x].
Proof.
  intros Hc Hx. destruct Hwf. unfold items. cbn. rewrite cells_snoc by lia. f_equal.
  - apply cells_ext; [done|]. intros j Hj.
    apply (cell_upd_other _ _ (s_capacity s)); lia || done.
  - rewrite (cell_upd_same _ _ (s_capacity s)); lia || done.
Qed.

Lemma int_index_ge i : is_int i → (size_t i >=? s_count s) = negb ((0 <=? i) && (i <? s_count s)).
Proof.
  unfold is_int, INT_MAX, INT_MIN in *. intros Hi.
  assert (s_count s ≤ 2147483647) by (destruct Hwf; unfold INT_MAX in *; lia).
  destruct (Z.leb_spec 0 i).
  - rewrite size_t_id by lia. cbn. destruct (Z.geb_spec i (s_count s)), (Z.ltb_spec i (s_count s)); lia || done.
  - rewrite size_t_neg by lia. cbn. destruct (Z.geb_spec (i + 2 ^ 64) (s_count s)); lia || done.
Qed.

End Wf.

(** *** [stack_remove_at]'s loop *)

Lemma shift_down_spec fuel s i :
  stack_wf s → 0 ≤ i < s_count s → s_count s - 1 - i ≤ Z.of_nat fuel →
  ∃ d, shift_down fuel s i = Ok (s_count s - 1, set_payload s d) ∧
    stack_wf (set_payload s d) ∧
    ∀ j, 0 ≤ j < s_count s - 1 →
      cell (s_item_size s) d j =
      cell (s_item_size s) (s_payload s) (if decide (j < i) then j else j + 1).
Proof.
  revert s i. induction fuel as [|fuel IH]; intros s i Hwf Hi Hf; cbn [shift_down].
  all: pose proof (sw_size_t s Hwf) as [Hcap _]; pose proof (sw_count s Hwf) as Hcnt.
  all: rewrite !size_t_id by lia; destruct (Z.ltb_spec i (s_count s - 1)); try lia.
  1,3: exists (s_payload s); assert (i = s_count s - 1) as -> by lia;
    (split; [by destruct s|split; [by destruct s|]]); intros j Hj; by rewrite decide_True by lia.
  rewrite load_item by (done || lia). cbn [mbind res_bind].
  pose proof (zlen_cell _ _ _ (sw_item_size _ Hwf) (sw_payload _ Hwf) (i + 1) ltac:(lia)) as Hx.
  rewrite store_item by (done || lia). cbn [mbind res_bind].
  set (s1 := set_payload s _).
  assert (Hwf1 : stack_wf s1) by (apply wf_set_item; done || lia).
  destruct (IH s1 (i + 1) Hwf1 ltac:(cbn; lia) ltac:(cbn; lia)) as (d & Hd & Hwfd & Hcell).
  exists d. split; [done|]. split; [done|]. intros j Hj. rewrite Hcell by done. cbn.
  destruct (decide (j < i)).
  - rewrite decide_True by lia.
    apply (cell_upd_other _ _ (s_capacity s)); destruct Hwf; done || lia.
  - destruct (decide (j = i)) as [->|].
    + rewrite decide_True by lia. apply (cell_upd_same _ _ (s_capacity s)); destruct Hwf; done || lia.
    + rewrite decide_False by lia. apply (cell_upd_other _ _ (s_capacity s)); destruct Hwf; done || lia.
Qed.

(** Clearing the last cell and dropping it. *)
Lemma drop_last s :
  stack_wf s → 0 < s_count s →
  ∃ s', (s ← stack_memset s (STACK_ITEM s (s_count s - 1)) (s_item_size s);
         Ok (1, set_count s (s_count s - 1))) = Ok (1, s') ∧ stack_wf s' ∧
    items s' = cells (s_item_size s) (s_payload s) (s_count s - 1).
Proof.
  intros Hwf Hc. pose proof (sw_count s Hwf). pose proof (sw_item_size s Hwf) as Hi.
  unfold stack_memset. rewrite store_item by (rewrite ?zlen_zeros; done || lia).
  eexists. split; [reflexivity|]. split.
  - apply wf_set_count; [apply wf_set_item; rewrite ?zlen_zeros; done || lia|cbn; lia].
  - unfold items. cbn. apply cells_ext; [done|]. intros j Hj.
    apply (cell_upd_other _ _ (s_capacity s)); destruct Hwf; rewrite ?zlen_zeros; done || lia.
Qed.

(** *** One operation at a time *)

Lemma length_items s : length (items s) = Z.to_nat (s_count s).
Proof. apply length_cells. Qed.

Lemma push_spec s item :
  stack_wf s → s_count s < s_capacity s → s_item_size s ≤ zlen item →
  ∃ s', stack_push s item = Ok (s_count s, s') ∧ stack_wf s' ∧
    s_capacity s' = s_capacity s ∧ s_item_size s' = s_item_size s ∧
    items s' = items s ++ [sub item 0 (s_item_size s)].
Proof.
  intros Hwf Hc Hl. pose proof (sw_count s Hwf). pose proof (sw_item_size s Hwf) as Hi.
  pose proof (sw_size_t s Hwf). unfold stack_push.
  destruct (Z.geb_spec (s_count s) (s_capacity s)); [lia|].
  rewrite rd_n_ok by lia. cbn [mbind res_bind].
  pose proof (zlen_sub item 0 (s_item_size s) ltac:(lia) Hi ltac:(lia)) as Hx.
  rewrite store_item by (done || lia). cbn [mbind res_bind set_count set_payload s_count].
  rewrite !size_t_id by (rewrite ?size_t_id by lia; lia).
  replace (s_count s + 1 - 1) with (s_count s) by lia.
  eexists. split; [reflexivity|]. split_and!; [|done|done|by apply items_set_last].
  apply (wf_set_count (set_payload s _)); [apply wf_set_item; done || lia|cbn; lia].
Qed.

Lemma push_full s item :
  s_capacity s ≤ s_count s → stack_push s item = Ok (2 ^ 64 - 1, s).
Proof. intros. unfold stack_push. by destruct (Z.geb_spec (s_count s) (s_capacity s)); [|lia]. Qed.

Lemma push_new_spec s :
  stack_wf s → s_count s < s_capacity s →
  ∃ s', stack_push_new s = Ok (Some (STACK_ITEM s (s_count s)), s') ∧ stack_wf s' ∧
    s_capacity s' = s_capacity s ∧ s_item_size s' = s_item_size s ∧
    items s' = items s ++ [zeros (s_item_size s)].
Proof.
  intros Hwf Hc. pose proof (sw_count s Hwf). pose proof (sw_item_size s Hwf) as Hi.
  pose proof (sw_size_t s Hwf). unfold stack_push_new, stack_memset.
  destruct (Z.geb_spec (s_count s) (s_capacity s)); [lia|].
  rewrite store_item by (rewrite ?zlen_zeros; done || lia).
  cbn [mbind res_bind set_count set_payload s_count]. rewrite size_t_id by lia.
  eexists. split; [reflexivity|].
  split_and!; [|done|done|apply items_set_last; rewrite ?zlen_zeros; done].
  apply (wf_set_count (set_payload s _));
    [apply wf_set_item; rewrite ?zlen_zeros; done || lia|cbn; lia].
Qed.

Lemma push_new_full s : s_capacity s ≤ s_count s → stack_push_new s = Ok (None, s).
Proof. intros. unfold stack_push_new. by destruct (Z.geb_spec (s_count s) (s_capacity s)); [|lia]. Qed.

Lemma pop_spec s :
  stack_wf s → 0 < s_count s →
  ∃ p s' x, stack_pop s = (Some p, s') ∧ stack_wf s' ∧
    s_capacity s' = s_capacity s ∧ s_item_size s' = s_item_size s ∧
    stack_load s' p (s_item_size s') = Ok x ∧ items s = items s' ++ [x].
Proof.
  intros Hwf Hc. pose proof (sw_count s Hwf). unfold stack_pop.
  destruct (Z.ltb_spec (s_count s) 1); [lia|].
  eexists _, _, _. split; [reflexivity|].
  assert (Hwf' : stack_wf (set_count s (s_count s - 1))) by (apply wf_set_count; done || lia).
  split_and!; [done..| |].
  - change (STACK_ITEM s (s_count s - 1)) with
      (STACK_ITEM (set_count s (s_count s - 1)) (s_count s - 1)).
    apply load_item; [done|cbn; lia].
  - unfold items. cbn. rewrite <- cells_snoc by lia. by rewrite Z.sub_add.
Qed.

Lemma pop_empty s : s_count s < 1 → stack_pop s = (None, s).
Proof. intros. unfold stack_pop. by destruct (Z.ltb_spec (s_count s) 1); [|lia]. Qed.

Lemma get_spec s i :
  stack_wf s → is_int i →
  match stack_get s i with
  | Some p => ∃ x, 0 ≤ i ∧ stack_load s p (s_item_size s) = Ok x ∧ items s !! Z.to_nat i = Some x
  | None => ¬ 0 ≤ i < s_count s
  end.
Proof.
  intros Hwf Hi. unfold stack_get. rewrite int_index_ge by done. pose proof (sw_count s Hwf).
  destruct (Z.leb_spec 0 i), (Z.ltb_spec i (s_count s)); cbn; try lia.
  eexists. split; [done|]. split; [apply load_item; done || lia|].
  unfold items. rewrite lookup_cells, Z2Nat.id by lia. done.
Qed.

Lemma remove_out s i :
  stack_wf s → is_int i → ¬ 0 ≤ i < s_count s →
  stack_remove_at s i = Ok (0, s) ∧ stack_remove_at_fast s i = Ok (0, s).
Proof.
  intros Hwf Hi Hout. unfold stack_remove_at, stack_remove_at_fast. rewrite int_index_ge by done.
  by destruct (Z.leb_spec 0 i), (Z.ltb_spec i (s_count s)); cbn; try lia.
Qed.

Lemma remove_at_spec s i :
  stack_wf s → is_int i → 0 ≤ i < s_count s →
  ∃ s', stack_remove_at s i = Ok (1, s') ∧ stack_wf s' ∧
    s_capacity s' = s_capacity s ∧ s_item_size s' = s_item_size s ∧
    items s' = delete (Z.to_nat i) (items s).
Proof.
  intros Hwf Hint Hi. unfold stack_remove_at. rewrite int_index_ge by done.
  destruct (Z.leb_spec 0 i), (Z.ltb_spec i (s_count s)); try lia. cbn [andb negb].
  destruct (shift_down_spec (Z.to_nat (s_count s)) s i Hwf Hi ltac:(lia)) as (d & -> & Hwf1 & Hcell).
  cbn [mbind res_bind].
  destruct (drop_last (set_payload s d) Hwf1 ltac:(cbn; lia)) as (s' & Hrun & Hwf' & Hitems).
  cbn [s_count set_payload] in Hrun. exists s'. split; [exact Hrun|]. split; [done|].
  unfold stack_memset, stack_memcpy in Hrun. cbn in Hrun.
  destruct (memcpy _ _ _) in Hrun; [|done]. cbn in Hrun. injection Hrun as <-.
  split; [done|]. split; [done|]. rewrite Hitems. cbn.
  apply list_eq. intros k. rewrite list_lookup_delete.
  destruct (decide (k < Z.to_nat (s_count s - 1))%nat).
  - rewrite lookup_cells, Hcell by lia. unfold items.
    destruct (decide (k < Z.to_nat i)%nat).
    + rewrite decide_True by lia. by rewrite lookup_cells by lia.
    + rewrite decide_False by lia. rewrite lookup_cells by lia. do 2 f_equal. lia.
  - rewrite lookup_ge_None_2 by (rewrite length_cells; lia).
    case_decide; by rewrite lookup_ge_None_2 by (rewrite length_items; lia).
Qed.

(** The last element takes the place of the [i]-th. *)
Definition swap_remove {A} (i : nat) (l : list A) : list A :=
  match last l with
  | None => l
  | Some x => take (length l - 1) (<[i := x]> l)
  end.

(** The last cell copied over cell [i]. *)
Lemma copy_last s i :
  stack_wf s → 0 ≤ i < s_count s →
  let x := cell (s_item_size s) (s_payload s) (s_count s - 1) in
  ∃ d, (if s_count s >? 1 then
          x ← stack_load s (STACK_ITEM s (s_count s - 1)) (s_item_size s);
          stack_memcpy s (STACK_ITEM s i) x
        else Ok s) = Ok (set_payload s d) ∧ stack_wf (set_payload s d) ∧
    ∀ j, 0 ≤ j < s_count s - 1 → cell (s_item_size s) d j =
      if decide (j = i) then x else cell (s_item_size s) (s_payload s) j.
Proof.
  intros Hwf Hi x. pose proof (sw_count s Hwf).
  assert (Hx : zlen x = s_item_size s).
  { apply (zlen_cell _ _ (s_capacity s)); destruct Hwf; done || lia. }
  destruct (Z.gtb_spec (s_count s) 1).
  - rewrite load_item by (done || lia). cbn [mbind res_bind]. fold x.
    rewrite store_item by (done || lia). eexists. split; [reflexivity|].
    split; [by apply wf_set_item; [|lia|]|]. intros j Hj. case_decide.
    + subst j. apply (cell_upd_same _ _ (s_capacity s)); destruct Hwf; done || lia.
    + apply (cell_upd_other _ _ (s_capacity s)); destruct Hwf; done || lia.
  - exists (s_payload s). split; [by destruct s|]. split; [by destruct s|]. intros; lia.
Qed.

Lemma remove_at_fast_spec s i :
  stack_wf s → is_int i → 0 ≤ i < s_count s →
  ∃ s', stack_remove_at_fast s i = Ok (1, s') ∧ stack_wf s' ∧
    s_capacity s' = s_capacity s ∧ s_item_size s' = s_item_size s ∧
    items s' = swap_remove (Z.to_nat i) (items s).
Proof.
  intros Hwf Hint Hi. unfold stack_remove_at_fast. rewrite int_index_ge by done.
  pose proof (sw_count s Hwf).
  destruct (Z.leb_spec 0 i), (Z.ltb_spec i (s_count s)); try lia. cbn [andb negb].
  destruct (copy_last s i Hwf Hi) as (d & -> & Hwf2 & Hcell). cbn [mbind res_bind].
  destruct (drop_last (set_payload s d) Hwf2 ltac:(cbn; lia)) as (s' & Hrun & Hwf' & Hitems).
  exists s'. split; [exact Hrun|]. split; [done|].
  unfold stack_memset, stack_memcpy in Hrun. destruct (memcpy _ _ _) in Hrun; [|done].
  cbn in Hrun. injection Hrun as <-. split; [done|]. split; [done|]. rewrite Hitems. cbn.
  set (x := cell _ (s_payload s) (s_count s - 1)) in *.
  assert (Hlast : last (items s) = Some x).
  { rewrite last_lookup, length_items. unfold items. rewrite lookup_cells by lia.
    unfold x. do 2 f_equal. lia. }
  unfold swap_remove. rewrite Hlast, length_items. apply list_eq. intros k.
  destruct (decide (k < Z.to_nat (s_count s) - 1)%nat).
  - rewrite lookup_take_lt, lookup_cells, Hcell by lia. case_decide.
    + subst i. by rewrite Nat2Z.id, list_lookup_insert_eq by (rewrite length_items; lia).
    + rewrite list_lookup_insert_ne by lia. unfold items. by rewrite lookup_cells by lia.
  - rewrite !lookup_ge_None_2; [done|rewrite length_take; lia|rewrite length_cells; lia].
Qed.

(** ** The contract: a bounded list *)

(** A call of the interface, with the bytes of the item it passes. *)
Inductive stack_op : Type :=
| Push (item : list byte)
| PushNew
| Pop
| Get (i : Z)
| RemoveAt (i : Z)
| RemoveAtFast (i : Z).

(** What a caller observes: an index or flag, or the item behind the pointer. *)
Inductive stack_obs : Type :=
| Num (z : Z)
| Item (x : option (list byte)).

(** A pointer result is observed by loading the item it points to. *)
Definition observe (s : Stack) (p : option Z) : res stack_obs :=
  match p with
  | None => Ok (Item None)
  | Some p => x ← stack_load s p (s_item_size s); Ok (Item (Some x))
  end.

Definition exec_op (op : stack_op) (s : Stack) : res (stack_obs * Stack) :=
  match op with
  | Push item => '(n, s) ← stack_push s item; Ok (Num n, s)
  | PushNew => '(p, s) ← stack_push_new s; o ← observe s p; Ok (o, s)
  | Pop => let '(p, s) := stack_pop s in o ← observe s p; Ok (o, s)
  | Get i => o ← observe s (stack_get s i); Ok (o, s)
  | RemoveAt i => '(n, s) ← stack_remove_at s i; Ok (Num n, s)
  | RemoveAtFast i => '(n, s) ← stack_remove_at_fast s i; Ok (Num n, s)
  end.

Fixpoint exec_ops (ops : list stack_op) (s : Stack) : res (list stack_obs * Stack) :=
  match ops with
  | [] => Ok ([], s)
  | op :: ops => '(o, s) ← exec_op op s; '(os, s) ← exec_ops ops s; Ok (o :: os, s)
  end.

(** The specification: a list of at most [cap] items of [w] bytes. *)
Definition spec_op (cap w : Z) (op : stack_op) (l : list (list byte))
  : stack_obs * list (list byte) :=
  let full := zlen l >=? cap in
  let inside i := (0 <=? i) && (i <? zlen l) in
  match op with
  | Push item => if full then (Num (2 ^ 64 - 1), l) else (Num (zlen l), l ++ [sub item 0 w])
  | PushNew => if full then (Item None, l) else (Item (Some (zeros w)), l ++ [zeros w])
  | Pop => (Item (last l), removelast l)
  | Get i => (Item (if inside i then l !! Z.to_nat i else None), l)
  | RemoveAt i => if inside i then (Num 1, delete (Z.to_nat i) l) else (Num 0, l)
  | RemoveAtFast i => if inside i then (Num 1, swap_remove (Z.to_nat i) l) else (Num 0, l)
  end.

Fixpoint spec_ops (cap w : Z) (ops : list stack_op) (l : list (list byte))
  : list stack_obs * list (list byte) :=
  match ops with
  | [] => ([], l)
  | op :: ops =>
      let '(o, l) := spec_op cap w op l in
      let '(os, l) := spec_ops cap w ops l in (o :: os, l)
  end.

(** What a caller owes: an item is as wide as the cells, an index is an [int]. *)
Definition op_ok (w : Z) (op : stack_op) : Prop :=
  match op with
  | Push item => w ≤ zlen item
  | Get i | RemoveAt i | RemoveAtFast i => is_int i
  | _ => True
  end.

Lemma zlen_items s : stack_wf s → zlen (items s) = s_count s.
Proof. intros [? _ _ _ _ _ _]. unfold zlen. rewrite length_items. lia. Qed.

Lemma observe_some s p x :
  stack_load s p (s_item_size s) = Ok x → observe s (Some p) = Ok (Item (Some x)).
Proof. intros H. unfold observe. by rewrite H. Qed.

Lemma observe_pushed s s' x :
  stack_wf s → stack_wf s' → s_count s < s_capacity s → s_capacity s' = s_capacity s →
  s_item_size s' = s_item_size s → STACK_ITEM s' (s_count s) = STACK_ITEM s (s_count s) →
  items s' = items s ++ [x] → observe s' (Some (STACK_ITEM s (s_count s))) = Ok (Item (Some x)).
Proof.
  intros Hwf Hwf' Hc Hcap Hw Ha Hi. pose proof (sw_count s Hwf). rewrite <- Ha.
  apply observe_some. rewrite load_item by (done || lia). f_equal.
  assert (Hx : items s' !! Z.to_nat (s_count s) = Some x).
  { rewrite Hi, lookup_app_r by (rewrite length_items; lia).
    by rewrite length_items, Nat.sub_diag. }
  apply (f_equal length) in Hi. rewrite length_app, !length_items in Hi. cbn in Hi.
  unfold items in Hx. rewrite lookup_cells, Z2Nat.id in Hx by lia. by simplify_eq.
Qed.

(** Decides the range test of the specification. *)
Ltac index_case i s :=
  destruct (Z.leb_spec 0 i), (Z.ltb_spec i (s_count s)); done || lia.

(** One call of the interface is one step of the bounded list. *)
Lemma exec_op_refines op s :
  stack_wf s → op_ok (s_item_size s) op →
  ∃ o s', exec_op op s = Ok (o, s') ∧ stack_wf s' ∧ s_capacity s' = s_capacity s ∧
    s_item_size s' = s_item_size s ∧
    spec_op (s_capacity s) (s_item_size s) op (items s) = (o, items s').
Proof.
  intros Hwf Hop. pose proof (sw_count s Hwf). unfold spec_op. rewrite !zlen_items by done.
  destruct op as [item| | |i|i|i]; cbn [exec_op op_ok] in *.
  - destruct (Z.geb_spec (s_count s) (s_capacity s)).
    + rewrite push_full by done. by exists (Num (2 ^ 64 - 1)), s.
    + destruct (push_spec s item) as (s' & -> & ? & ? & ? & Hi); [done..|].
      exists (Num (s_count s)), s'. by rewrite Hi.
  - destruct (Z.geb_spec (s_count s) (s_capacity s)).
    + rewrite push_new_full by done. by exists (Item None), s.
    + destruct (push_new_spec s) as (s' & Hrun & ? & ? & ? & Hi); [done..|].
      rewrite Hrun. cbn [mbind res_bind]. exists (Item (Some (zeros (s_item_size s)))), s'.
      rewrite (observe_pushed s s' (zeros (s_item_size s))), Hi; try done.
      unfold stack_push_new, stack_memset, stack_memcpy in Hrun.
      destruct (_ >=? _); [done|]. destruct (memcpy _ _ _) in Hrun; [|done].
      cbn in Hrun. by injection Hrun as <-.
  - destruct (decide (0 < s_count s)).
    + destruct (pop_spec s) as (p & s' & x & -> & ? & ? & ? & Hl & Hi); [done..|].
      rewrite (observe_some _ _ _ Hl), Hi, last_snoc, removelast_last. by exists (Item (Some x)), s'.
    + rewrite pop_empty by lia. exists (Item None), s. split_and!; try done.
      assert (items s = []) as ->; [|done]. apply nil_length_inv. rewrite length_items. lia.
  - pose proof (get_spec s i Hwf Hop) as Hg. destruct (stack_get s i) as [p|].
    + destruct Hg as (x & ? & Hl & Hx). rewrite (observe_some _ _ _ Hl).
      exists (Item (Some x)), s. split_and!; try done.
      apply lookup_lt_Some in Hx as Hlt. rewrite length_items in Hlt. rewrite Hx. index_case i s.
    + exists (Item None), s. split_and!; try done. index_case i s.
  - destruct (decide (0 ≤ i < s_count s)) as [Hin|Hout].
    + destruct (remove_at_spec s i) as (s' & -> & ? & ? & ? & Hi); [done..|].
      exists (Num 1), s'. rewrite Hi. split_and!; try done. index_case i s.
    + destruct (remove_out s i Hwf Hop Hout) as [-> _]. exists (Num 0), s.
      split_and!; try done. index_case i s.
  - destruct (decide (0 ≤ i < s_count s)) as [Hin|Hout].
    + destruct (remove_at_fast_spec s i) as (s' & -> & ? & ? & ? & Hi); [done..|].
      exists (Num 1), s'. rewrite Hi. split_and!; try done. index_case i s.
    + destruct (remove_out s i Hwf Hop Hout) as [_ ->]. exists (Num 0), s.
      split_and!; try done. index_case i s.
Qed.

(** A fresh stack from an allocator that keeps its promises is empty and in order. *)
Lemma stack_new_spec {S} `{!Allocator S} `{!AllocatorOk S} cap w a r a' :
  alloc_inv a → 0 ≤ cap ≤ INT_MAX → 0 ≤ w → STACK_HEADER + w * cap < 2 ^ 63 →
  stack_new cap w a = Ok (r, a') →
  alloc_inv a' ∧
  match r with
  | None => True
  | Some s => s_capacity s = cap ∧ s_item_size s = w ∧ items s = [] ∧ stack_wf s
  end.
Proof.
  intros Ha Hc Hw Hsz Hrun. unfold stack_new, STACK_HEADER in *. rewrite size_t_id in Hrun by nia.
  destruct (mmalloc _ a) as [[[b|] a1]|] eqn:Hm; try done; cbn in Hrun; injection Hrun as <- <-;
    (apply mmalloc_ok in Hm as [Ha1 Hb]; [|done|nia]); (split; [done|]); [|done].
  destruct Hb as (Hb & Haddr & _). cbn. split_and!; [done..|]. constructor; cbn; try done; try lia.
  - rewrite Hb. unfold zlen, zeros. rewrite length_drop, length_replicate. nia.
  - unfold STACK_HEADER. lia.
Qed.

Lemma sub_cleared (m : list byte) n j k :
  0 ≤ j → 0 ≤ k → j + k ≤ n → n ≤ zlen m →
  sub (upd m 0 (replicate (Z.to_nat n) NUL)) j k = zeros k.
Proof.
  intros. apply list_eq. intros i. unfold zeros.
  destruct (decide (i < Z.to_nat k)%nat).
  - rewrite lookup_sub, lookup_upd_in by zlia. by rewrite !lookup_replicate_2 by lia.
  - rewrite !lookup_ge_None_2; [done| |]; zlia.
Qed.

Lemma zlen_image s : zlen (stack_image s) = STACK_HEADER + zlen (s_payload s).
Proof. unfold stack_image, STACK_HEADER. zlia. Qed.

(** ** What the stack promises *)

(** C15: the byte-level stack refines a bounded list.  Whatever sequence of calls
    a client makes, no access leaves the allocation, every index, flag and item
    it observes (the items by loading through the returned pointers) is the one
    the bounded list of [capacity] items gives, and the contents agree at the end. *)
Theorem stack_refines_bounded_list (ops : list stack_op) (s : Stack) :
  stack_wf s → Forall (op_ok (s_item_size s)) ops →
  ∃ os s', exec_ops ops s = Ok (os, s') ∧ stack_wf s' ∧
    spec_ops (s_capacity s) (s_item_size s) ops (items s) = (os, items s').
Proof.
  revert s. induction ops as [|op ops IH]; intros s Hwf Hops; cbn [exec_ops spec_ops].
  { by exists [], s. }
  apply Forall_cons in Hops as [Hop Hops].
  destruct (exec_op_refines op s Hwf Hop) as (o & s1 & -> & Hwf1 & Hc & Hw & ->).
  cbn [mbind res_bind].
  destruct (IH s1 Hwf1) as (os & s2 & -> & Hwf2 & Hspec); [by rewrite Hw|].
  exists (o :: os), s2. rewrite Hc, Hw in Hspec. by rewrite Hspec.
Qed.

(** [stack_remove_at] deletes one item and preserves the order of the
    others; an index outside the stack, negative ones included, changes nothing. *)
Lemma stack_remove_at_order (s : Stack) (i : Z) :
  stack_wf s → is_int i →
  ∃ s', stack_remove_at s i = Ok (if (0 <=? i) && (i <? s_count s) then 1 else 0, s') ∧
    stack_wf s' ∧ items s' = (if 0 <=? i then delete (Z.to_nat i) (items s) else items s).
Proof.
  intros Hwf Hi. pose proof (sw_count s Hwf). destruct (decide (0 ≤ i < s_count s)) as [Hin|Hout].
  - destruct (remove_at_spec s i Hwf Hi Hin) as (s' & -> & ? & _ & _ & Hd). exists s'. rewrite Hd.
    index_case i s.
  - destruct (remove_out s i Hwf Hi Hout) as [-> _]. exists s.
    destruct (Z.leb_spec 0 i), (Z.ltb_spec i (s_count s)); try lia; split_and!; try done.
    symmetry. apply delete_ge. rewrite length_items. lia.
Qed.

(** C37: [stack_reset] clears the object from its header on, not its items.  Once
    the items in use take 32 bytes or more, the capacity, the item size and the
    data pointer are wiped with them and the stack refuses every later push. *)
Theorem stack_reset_wipes_header (s : Stack) :
  stack_wf s → STACK_HEADER ≤ s_item_size s * s_count s →
  ∃ s', stack_reset (Some s) = Ok (1, Some s') ∧
    s_count s' = 0 ∧ s_capacity s' = 0 ∧ s_item_size s' = 0 ∧ s_data s' = 0 ∧
    ∀ item, stack_push s' item = Ok (2 ^ 64 - 1, s').
Proof.
  intros Hwf Hh. pose proof (sw_bound s Hwf (s_count s) ltac:(destruct Hwf; lia)) as Hb.
  pose proof (zlen_image s) as Himg. destruct Hwf as [? ? ? Hp ? ? ?]. unfold STACK_HEADER in *.
  unfold stack_reset. rewrite size_t_id by lia. rewrite memset_ok by lia.
  cbn [mbind res_bind]. unfold stack_of_image. rewrite !sub_cleared by lia.
  eexists. split; [reflexivity|]. unfold set_count. cbn [s_count s_capacity s_item_size s_data].
  split_and!; done.
Qed.

(** ** A stack of sockets, as server.h makes it: [stack_new(max_clients, sizeof(int))] *)

Definition sockets_stack (capacity : Z) : Stack :=
  mkStack 4096 0 capacity 4 (4096 + STACK_HEADER) (zeros (capacity * 4)).

Lemma sockets_stack_wf capacity : 0 ≤ capacity ≤ INT_MAX → stack_wf (sockets_stack capacity).
Proof.
  intros. unfold INT_MAX in *.
  constructor; unfold STACK_HEADER, INT_MAX; cbn; try done; try lia. rewrite zlen_zeros; lia.
Qed.

Definition demo_ops : list stack_op :=
  [Push (int_le 7); Push (int_le 8); Push (int_le 9); RemoveAtFast 0; Get 0; Get (-1);
   RemoveAt 5; Push (int_le 10); Push (int_le 11); Pop; Pop; Pop; Pop].

Lemma stack_refines_bounded_list_witness :
  ∃ os s', exec_ops demo_ops (sockets_stack 3) = Ok (os, s') ∧ stack_wf s' ∧
    spec_ops 3 4 demo_ops [] = (os, items s').
Proof.
  apply (stack_refines_bounded_list demo_ops (sockets_stack 3)).
  - apply sockets_stack_wf. unfold INT_MAX. lia.
  - repeat constructor; cbn; try (unfold is_int, INT_MIN, INT_MAX; lia); vm_compute; discriminate.
Defined.

(** The sequence observed: the third socket takes the place of the first. *)
Example demo_ops_run :
  (exec_ops demo_ops (sockets_stack 3) ≫= λ '(os, _), Ok os) =
  Ok [Num 0; Num 1; Num 2; Num 1; Item (Some (int_le 9)); Item None; Num 0; Num 2; Num (2 ^ 64 - 1);
      Item (Some (int_le 10)); Item (Some (int_le 8)); Item (Some (int_le 9)); Item None].
Proof. vm_compute. reflexivity. Qed.

Definition three_sockets : Stack :=
  mkStack 4096 3 8 4 (4096 + STACK_HEADER) (int_le 7 ++ int_le 8 ++ int_le 9 ++ zeros 20).

Lemma three_sockets_wf : stack_wf three_sockets.
Proof. constructor; unfold STACK_HEADER, INT_MAX; cbn; try done; try lia. Qed.

Lemma stack_remove_at_order_witness :
  ∃ s', stack_remove_at three_sockets 1 = Ok (1, s') ∧ stack_wf s' ∧
    items s' = [int_le 7; int_le 9].
Proof.
  apply (stack_remove_at_order three_sockets 1 three_sockets_wf).
  unfold is_int, INT_MIN, INT_MAX. lia.
Defined.

(** Eight connected clients fill 32 bytes. *)
Definition eight_sockets : Stack :=
  mkStack 4096 8 30 4 (4096 + STACK_HEADER) (mjoin (replicate 8 (int_le 5)) ++ zeros 88).

Lemma eight_sockets_wf : stack_wf eight_sockets.
Proof. constructor; unfold STACK_HEADER, INT_MAX; cbn; try done; try lia. Qed.

Lemma stack_reset_wipes_header_witness :
  ∃ s', stack_reset (Some eight_sockets) = Ok (1, Some s') ∧
    s_count s' = 0 ∧ s_capacity s' = 0 ∧ s_item_size s' = 0 ∧ s_data s' = 0 ∧
    ∀ item, stack_push s' item = Ok (2 ^ 64 - 1, s').
Proof.
  apply (stack_reset_wipes_header eight_sockets eight_sockets_wf).
  unfold STACK_HEADER. cbn. lia.
Defined.
