(* ===== verification/Store.v ===== *)
(** The slot store (src/store.h): [capacity] slots, each a used flag followed by
    [item_size] bytes, and a stack [open] of the indices that are free.

    Header, [open] and [data] are one allocation.  The model keeps them apart; an access
    that reaches in front of [data] is [Elsewhere] as long as it stays inside the
    allocation.

    The first half is the code on bytes; the second states the contract,
    a table of optional items with a free list, and proves that the code
    implements it.  The server is modelled on top of that contract. *)

From S2P Require Import Prelude Alloc Layout.

(** [sizeof(Store)] with its padding. *)
Definition STORE_HEADER : Z := 40.
Definition SIZEOF_INT : Z := 4.

(** [struct Store_st]; [st_open] is the [int] array and [st_data] the bytes
    behind the header. *)
Record Store := mkStore {
  st_capacity : Z;
  st_item_size : Z;
  st_open_cnt : Z;
  st_open : list Z;
  st_data : list byte;
}.

Definition set_open_cnt (s : Store) (n : Z) : Store :=
  mkStore (st_capacity s) (st_item_size s) n (st_open s) (st_data s).
Definition set_open (s : Store) (o : list Z) : Store :=
  mkStore (st_capacity s) (st_item_size s) (st_open_cnt s) o (st_data s).
Definition set_data (s : Store) (d : list byte) : Store :=
  mkStore (st_capacity s) (st_item_size s) (st_open_cnt s) (st_open s) d.

(** [value] is an offset into [st_data]; [None] is NULL. *)
Record KeyValue := mkKV { key : Z; value : option Z }.
Definition KEYVALUE_NONE : KeyValue := mkKV (size_t (-1)) None.

(** [ITEM_IDX]: where slot [idx] is, from [data].  The product is one of [size_t]s. *)
Definition ITEM_IDX (s : Store) (idx : Z) : Z := ptrdiff (size_t idx * size_t (st_item_size s + 1)).

(** Header, [open] and [data] are one allocation, in this order: an access just before
    [data] is one to the others. *)
Definition before_data (s : Store) : Z := STORE_HEADER + SIZEOF_INT * st_capacity s.
Definition at_data {A} (s : Store) (ptr : Z) (m : res A) : res A :=
  if (- before_data s <=? ptr) && (ptr <? 0) then Fault Elsewhere else m.

Definition ITEM_USED (s : Store) (ptr : Z) : res byte := at_data s ptr (rd (st_data s) ptr).
Definition ITEM_VALUE (ptr : Z) : Z := ptr + 1.
Definition KEYVALUE (s : Store) (idx : Z) : KeyValue :=
  mkKV (size_t idx) (Some (ITEM_VALUE (ITEM_IDX s idx))).

Definition set_used (s : Store) (ptr : Z) (b : byte) : res Store :=
  set_data s <$> at_data s ptr (wr (st_data s) ptr b).
Definition store_memcpy (s : Store) (ptr : Z) (x : list byte) : res Store :=
  set_data s <$> at_data s ptr (memcpy (st_data s) ptr x).

(** What a client reads and writes through a returned [value]. *)
Definition store_load (s : Store) (p : Z) : res (list byte) :=
  at_data s p (rd_n (st_data s) p (st_item_size s)).

Definition get_push_index (s : Store) : res (Z * Store) :=
  if st_open_cnt s >? 0 then
    idx ← rd (st_open s) (st_open_cnt s - 1);
    Ok (idx, set_open_cnt s (st_open_cnt s - 1))
  else Ok (-1, s).

(** The [for] loop of [reset_open], from [i]. *)
Fixpoint reset_open_loop (fuel : nat) (i : Z) (s : Store) : res Store :=
  if i <? st_capacity s then
    match fuel with
    | O => Fault OutOfFuel
    | S fuel' =>
        o ← wr (st_open s) i (st_capacity s - 1 - i);
        reset_open_loop fuel' (i + 1) (set_open s o)
    end
  else Ok s.

Definition reset_open (s : Store) : res Store :=
  let s := set_open_cnt s (st_capacity s) in
  reset_open_loop (Z.to_nat (st_capacity s)) 0 s.

Definition store_new {S} `{!Allocator S} (capacity item_size : Z) (a : S)
  : res (option Store * S) :=
  '(r, a') ← mmalloc (size_t (STORE_HEADER + SIZEOF_INT * capacity + (item_size + 1) * capacity)) a;
  match r with
  | None => Ok (None, a')
  | Some b =>
      let data := drop (Z.to_nat (STORE_HEADER + SIZEOF_INT * capacity)) (b_bytes b) in
      data ← memset data 0 NUL (size_t ((item_size + 1) * capacity));
      let s := {| st_capacity := capacity; st_item_size := item_size;
                  st_open_cnt := capacity; st_open := replicate (Z.to_nat capacity) 0;
                  st_data := data |} in
      s ← reset_open s;
      Ok (Some s, a')
  end.

(** The operations on a non-NULL store. *)

(** [store_push] and [store_push_empty] differ in the bytes they put in the slot. *)
Definition store_push_item (item : Store → res (list byte)) (s : Store) : res (KeyValue * Store) :=
  '(idx, s) ← get_push_index s;
  if idx <? 0 then Ok (KEYVALUE_NONE, s)
  else
    let ptr := ITEM_IDX s idx in
    s ← set_used s ptr Byte.x01;
    x ← item s;
    s ← store_memcpy s (ITEM_VALUE ptr) x;
    Ok (KEYVALUE s idx, s).

Definition store_push (data : list byte) : Store → res (KeyValue * Store) :=
  store_push_item (λ s, rd_n data 0 (st_item_size s)).

Definition store_push_empty : Store → res (KeyValue * Store) :=
  store_push_item (λ s, Ok (zeros (st_item_size s))).

Definition store_get (s : Store) (idx : Z) : res KeyValue :=
  u ← ITEM_USED s (ITEM_IDX s idx);
  if decide (u = NUL) then Ok KEYVALUE_NONE else Ok (KEYVALUE s idx).

Definition store_is_used (s : Store) (idx : Z) : res byte := ITEM_USED s (ITEM_IDX s idx).

Definition store_replace (idx : Z) (data : list byte) (s : Store) : res (Z * Store) :=
  if idx >=? st_capacity s then Ok (0, s)
  else
    let ptr := ITEM_IDX s idx in
    u ← ITEM_USED s ptr;
    if decide (u = NUL) then Ok (0, s)
    else
      x ← rd_n data 0 (st_item_size s);
      s ← store_memcpy s (ITEM_VALUE ptr) x;
      s ← set_used s ptr Byte.x01;
      Ok (1, s).

Definition store_remove_at (idx : Z) (s : Store) : res (Z * Store) :=
  if idx >=? st_capacity s then Ok (0, s)
  else
    let ptr := ITEM_IDX s idx in
    u ← ITEM_USED s ptr;
    if decide (u = NUL) then Ok (0, s)
    else
      s ← set_used s ptr NUL;
      o ← wr (st_open s) (st_open_cnt s) idx;
      Ok (1, set_open_cnt (set_open s o) (st_open_cnt s + 1)).

Definition store_length (s : Store) : Z := st_capacity s - st_open_cnt s.

Definition store_reset (s : Store) : res Store :=
  d ← memset (st_data s) 0 NUL (size_t ((st_item_size s + 1) * st_capacity s));
  reset_open (set_data s d).

(** The guards [if (!store) return ...]: an operation on a possibly NULL pointer. *)
Definition null_guard {R} (dflt : R) (f : Store → res (R * Store)) (p : option Store)
  : res (R * option Store) :=
  match p with
  | None => Ok (dflt, None)
  | Some s => '(r, s) ← f s; Ok (r, Some s)
  end.

Definition store_push_p (data : list byte) := null_guard KEYVALUE_NONE (store_push data).
Definition store_push_empty_p := null_guard KEYVALUE_NONE store_push_empty.
Definition store_get_p (idx : Z) :=
  null_guard KEYVALUE_NONE (λ s, kv ← store_get s idx; Ok (kv, s)).
Definition store_replace_p (idx : Z) (data : list byte) := null_guard 0 (store_replace idx data).
Definition store_remove_at_p (idx : Z) := null_guard 0 (store_remove_at idx).
Definition store_length_p := null_guard (-1) (λ s, Ok (store_length s, s)).
Definition store_reset_p := null_guard tt (λ s, s ← store_reset s; Ok (tt, s)).

(** ** The contract: a table of optional items *)

(** [sl_free] lists the free indices, the next one to be used first. *)
Record slots (A : Type) := Slots { sl_cells : list (option A); sl_free : list Z }.
Arguments Slots {A} _ _.
Arguments sl_cells {A} _.
Arguments sl_free {A} _.

Section Contract.
Context {A : Type}.
Implicit Types (t : slots A) (x : A) (i : Z).

Definition sl_get t i : option A :=
  if 0 <=? i then mjoin (sl_cells t !! Z.to_nat i) else None.

Definition sl_new (capacity : Z) : slots A :=
  Slots (replicate (Z.to_nat capacity) None) (seqZ 0 capacity).

Definition sl_push x t : option Z * slots A :=
  match sl_free t with
  | [] => (None, t)
  | i :: f => (Some i, Slots (<[Z.to_nat i := Some x]> (sl_cells t)) f)
  end.

(** Writing through the pointer to a used slot. *)
Definition sl_update i (f : A → A) t : slots A :=
  Slots (alter (fmap f) (Z.to_nat i) (sl_cells t)) (sl_free t).

Definition sl_replace i x t : Z * slots A :=
  match sl_get t i with
  | None => (0, t)
  | Some _ => (1, Slots (<[Z.to_nat i := Some x]> (sl_cells t)) (sl_free t))
  end.

Definition sl_remove_at i t : Z * slots A :=
  match sl_get t i with
  | None => (0, t)
  | Some _ => (1, Slots (<[Z.to_nat i := None]> (sl_cells t)) (i :: sl_free t))
  end.

Definition sl_length t : Z := zlen (sl_cells t) - zlen (sl_free t).

Definition sl_reset t : slots A := sl_new (zlen (sl_cells t)).

(** The free list is exactly the set of empty slots. *)
Record slots_wf t : Prop := {
  sl_nodup : NoDup (sl_free t);
  sl_free_iff i : i ∈ sl_free t ↔ 0 ≤ i ∧ sl_cells t !! Z.to_nat i = Some None;
}.

End Contract.

Lemma sl_get_Some {A} (t : slots A) i x :
  sl_get t i = Some x ↔ 0 ≤ i ∧ sl_cells t !! Z.to_nat i = Some (Some x).
Proof.
  unfold sl_get. destruct (Z.leb_spec 0 i); [|naive_solver lia].
  destruct (sl_cells t !! Z.to_nat i) as [[y|]|]; cbn; naive_solver.
Qed.

Lemma sl_push_wf {A} (x : A) t : slots_wf t → slots_wf (sl_push x t).2.
Proof.
  intros Hwf. unfold sl_push. destruct (sl_free t) as [|i f] eqn:E; [done|].
  destruct Hwf as [Hnd Hf]. rewrite E in Hnd, Hf.
  apply NoDup_cons in Hnd as [Hi Hnd]. split; [done|]. cbn. intros j.
  destruct (Hf i) as [[Hi0 Hii] _]; [by left|]. apply lookup_lt_Some in Hii as Hlt.
  specialize (Hf j). rewrite elem_of_cons in Hf.
  destruct (decide (Z.to_nat i = Z.to_nat j)) as [He|He].
  - rewrite <- He, list_lookup_insert_eq by done. split; [|naive_solver].
    intros Hj. assert (0 ≤ j) by (apply Hf; by right). assert (i = j) as <- by lia. done.
  - rewrite list_lookup_insert_ne by done. naive_solver.
Qed.

Lemma sl_remove_wf {A} i (t : slots A) : slots_wf t → slots_wf (sl_remove_at i t).2.
Proof.
  intros [Hnd Hf]. unfold sl_remove_at. destruct (sl_get t i) as [x|] eqn:E; [|by split].
  apply sl_get_Some in E as [Hi Hx]. apply lookup_lt_Some in Hx as Hlt. split; cbn.
  - apply NoDup_cons. split; [|done]. intros [_ ?]%Hf. congruence.
  - intros j. rewrite elem_of_cons, Hf.
    destruct (decide (Z.to_nat i = Z.to_nat j)) as [He|He].
    + rewrite <- He, list_lookup_insert_eq by done. split; [naive_solver lia|].
      intros [? _]. left. lia.
    + rewrite list_lookup_insert_ne by done. naive_solver.
Qed.

Lemma sl_update_wf {A} i f (t : slots A) : slots_wf t → slots_wf (sl_update i f t).
Proof.
  intros [Hnd Hf]. split; [done|]. cbn. intros j. rewrite Hf.
  destruct (decide (Z.to_nat i = Z.to_nat j)) as [He|He].
  - rewrite <- He, list_lookup_alter_eq. destruct (sl_cells t !! Z.to_nat i) as [[]|]; naive_solver.
  - by rewrite list_lookup_alter_ne.
Qed.

Lemma sl_replace_wf {A} i x (t : slots A) : slots_wf t → slots_wf (sl_replace i x t).2.
Proof.
  intros [Hnd Hf]. unfold sl_replace. destruct (sl_get t i) as [y|] eqn:E; [|by split].
  apply sl_get_Some in E as [Hi Hx]. apply lookup_lt_Some in Hx as Hlt. split; [done|]. cbn.
  intros j. rewrite Hf. destruct (decide (Z.to_nat i = Z.to_nat j)) as [He|He].
  - rewrite <- He, list_lookup_insert_eq by done. naive_solver.
  - by rewrite list_lookup_insert_ne.
Qed.

Lemma sl_new_wf {A} cap : 0 ≤ cap → slots_wf (A := A) (sl_new cap).
Proof.
  intros Hc. split; cbn; [apply NoDup_seqZ|]. intros i. rewrite elem_of_seqZ, lookup_replicate.
  naive_solver lia.
Qed.

(** As many free indices as empty slots. *)
Lemma sl_free_le {A} (t : slots A) : slots_wf t → (length (sl_free t) ≤ length (sl_cells t))%nat.
Proof.
  intros [Hnd Hf]. assert (sl_free t ⊆+ seqZ 0 (zlen (sl_cells t))) as Hs.
  { apply NoDup_submseteq; [done|]. intros i [? Hi]%Hf. apply lookup_lt_Some in Hi.
    apply elem_of_seqZ. unfold zlen. lia. }
  apply submseteq_length in Hs. rewrite length_seqZ in Hs. unfold zlen in Hs. lia.
Qed.

(** ** The abstraction *)

(** A slot's bytes: the flag, then the item when the flag is set. *)
Definition slot_of (c : list byte) : option (list byte) :=
  match c with
  | [] => None
  | u :: x => if decide (u = NUL) then None else Some x
  end.

Definition slot (s : Store) (i : Z) : list byte := cell (st_item_size s + 1) (st_data s) i.

Definition abs (s : Store) : slots (list byte) :=
  Slots (slot_of <$> cells (st_item_size s + 1) (st_data s) (st_capacity s))
        (reverse (take (Z.to_nat (st_open_cnt s)) (st_open s))).

Record store_wf (s : Store) : Prop := {
  wf_capacity : 0 ≤ st_capacity s ≤ INT_MAX;
  wf_item_size : 0 ≤ st_item_size s;
  wf_size : (st_item_size s + 1) * st_capacity s < 2 ^ 63;
  wf_open : zlen (st_open s) = st_capacity s;
  wf_open_cnt : 0 ≤ st_open_cnt s ≤ st_capacity s;
  wf_data : zlen (st_data s) = st_capacity s * (st_item_size s + 1);
  wf_slots : slots_wf (abs s);
}.

(** The part of [store_wf] that holds between two writes of one operation. *)
Record store_shape (s : Store) : Prop := {
  sh_capacity : 0 ≤ st_capacity s ≤ INT_MAX;
  sh_item_size : 0 ≤ st_item_size s;
  sh_size : (st_item_size s + 1) * st_capacity s < 2 ^ 63;
  sh_open : zlen (st_open s) = st_capacity s;
  sh_open_cnt : 0 ≤ st_open_cnt s ≤ st_capacity s;
  sh_data : zlen (st_data s) = st_capacity s * (st_item_size s + 1);
}.

Lemma wf_shape s : store_wf s ↔ store_shape s ∧ slots_wf (abs s).
Proof.
  split; [intros [? ? ? ? ? ? ?]; split; [by constructor|done]|].
  intros [[? ? ? ? ? ?] ?]. by constructor.
Qed.

Section Shape.
Context (s : Store) (Hs : store_shape s).
Let w := st_item_size s + 1.

Lemma at_data_in {A} ptr (m : res A) : 0 ≤ ptr → at_data s ptr m = m.
Proof. intros. unfold at_data. by rewrite (proj2 (Z.ltb_ge ptr 0)), andb_false_r by done. Qed.

Lemma sh_width : 0 ≤ w.
Proof. destruct Hs. unfold w. lia. Qed.

Lemma slot_len i : 0 ≤ i < st_capacity s → zlen (slot s i) = w.
Proof. intros. apply (zlen_cell _ _ (st_capacity s)); [apply sh_width|apply Hs|done]. Qed.

Lemma slot_head i : 0 ≤ i < st_capacity s → ∃ u x, slot s i = u :: x ∧ zlen x = st_item_size s.
Proof.
  intros Hi. pose proof (slot_len i Hi) as Hl. destruct Hs. unfold w in Hl.
  destruct (slot s i) as [|u x] eqn:E; [rewrite zlen_nil in Hl; lia|].
  rewrite zlen_cons in Hl. exists u, x. split; [done|lia].
Qed.

(** Index arithmetic: an index of the table does not wrap. *)
Lemma item_idx_in i : 0 ≤ i < st_capacity s → ITEM_IDX s i = i * w.
Proof. intros. destruct Hs. unfold ITEM_IDX. apply ptrdiff_mul. nia. Qed.

Lemma item_idx_range i : 0 ≤ i < st_capacity s → 0 ≤ ITEM_IDX s i < zlen (st_data s).
Proof.
  intros Hi. rewrite item_idx_in by done. destruct Hs. rewrite sh_data0. unfold w. nia.
Qed.

Lemma used_lookup i u x :
  0 ≤ i < st_capacity s → slot s i = u :: x → ITEM_USED s (ITEM_IDX s i) = Ok u.
Proof.
  intros Hi Hsl. apply item_idx_range in Hi as Hr. unfold ITEM_USED. rewrite at_data_in by lia.
  apply rd_ok; [lia|]. rewrite item_idx_in by done.
  assert (H0 : slot s i !! 0%nat = Some u) by by rewrite Hsl.
  unfold slot, cell in H0. rewrite lookup_sub, Nat.add_0_r in H0; [done|].
  destruct Hs. lia.
Qed.

Lemma value_load i u x :
  0 ≤ i < st_capacity s → slot s i = u :: x → store_load s (ITEM_VALUE (ITEM_IDX s i)) = Ok x.
Proof.
  intros Hi Hsl. destruct (cell_range w (st_data s) (st_capacity s) sh_width (sh_data s Hs) i Hi).
  unfold store_load, ITEM_VALUE. rewrite item_idx_in by done. destruct Hs. unfold w in *.
  rewrite at_data_in by lia. rewrite rd_n_ok by lia. f_equal. unfold slot, cell in Hsl.
  apply (f_equal (drop 1)) in Hsl. change (drop 1 (u :: x)) with x in Hsl. rewrite <- Hsl. unfold sub.
  replace (Z.to_nat (st_item_size s + 1)) with (1 + Z.to_nat (st_item_size s))%nat by lia.
  rewrite <- take_drop_commute, drop_drop. do 2 f_equal. lia.
Qed.

(** Overwriting part of slot [i]. *)
Lemma slot_write i k x :
  0 ≤ i < st_capacity s → 0 ≤ k → k + zlen x ≤ w →
  ∃ d, memcpy (st_data s) (ITEM_IDX s i + k) x = Ok d ∧ store_shape (set_data s d) ∧
    slot (set_data s d) i = upd (slot s i) k x ∧
    ∀ j, 0 ≤ j < st_capacity s → j ≠ i → slot (set_data s d) j = slot s j.
Proof.
  intros Hi Hk Hx. pose proof sh_width. pose proof (sh_data s Hs) as Hd.
  destruct (cell_range w (st_data s) (st_capacity s) sh_width Hd i Hi).
  pose proof (zlen_nonneg x).
  rewrite item_idx_in by done. rewrite memcpy_ok by lia. eexists. split; [done|].
  split; [|split].
  - destruct Hs. constructor; cbn; try done. rewrite zlen_upd by lia. done.
  - by apply (cell_upd_within _ _ (st_capacity s)).
  - intros j Hj Hji. by apply (cell_upd_within_other _ _ (st_capacity s)).
Qed.

Lemma abs_cells i :
  0 ≤ i < st_capacity s → sl_cells (abs s) !! Z.to_nat i = Some (slot_of (slot s i)).
Proof.
  intros Hi. cbn. rewrite list_lookup_fmap, lookup_cells, Z2Nat.id by lia. done.
Qed.

Lemma abs_cells_none i : ¬ 0 ≤ i < st_capacity s → 0 ≤ i → sl_cells (abs s) !! Z.to_nat i = None.
Proof.
  intros. cbn. rewrite list_lookup_fmap, lookup_ge_None_2; [done|]. rewrite length_cells. lia.
Qed.

Lemma abs_get i : 0 ≤ i < st_capacity s → sl_get (abs s) i = slot_of (slot s i).
Proof.
  intros Hi. unfold sl_get. rewrite (proj2 (Z.leb_le 0 i)) by lia. by rewrite abs_cells.
Qed.

End Shape.

Lemma abs_eq s c f : sl_cells (abs s) = c → sl_free (abs s) = f → abs s = Slots c f.
Proof. by intros <- <-. Qed.

(** Two stores whose slots differ at [i] only. *)
Lemma abs_cells_insert s s' i o :
  0 ≤ i < st_capacity s → st_capacity s' = st_capacity s → store_shape s → store_shape s' →
  slot_of (slot s' i) = o →
  (∀ j, 0 ≤ j < st_capacity s → j ≠ i → slot s' j = slot s j) →
  sl_cells (abs s') = <[Z.to_nat i := o]> (sl_cells (abs s)).
Proof.
  intros Hi Hc Hs Hs' Ho Hj. apply list_eq. intros k.
  destruct (decide (k < Z.to_nat (st_capacity s))%nat).
  - replace k with (Z.to_nat (Z.of_nat k)) by lia. rewrite abs_cells by (done || lia).
    destruct (decide (Z.of_nat k = i)) as [<-|Hne].
    + rewrite list_lookup_insert_eq; [by rewrite Ho|].
      cbn. rewrite length_fmap, length_cells. lia.
    + rewrite list_lookup_insert_ne by lia. rewrite abs_cells by (done || lia). by rewrite Hj by lia.
  - rewrite !lookup_ge_None_2; [done| |]; cbn; rewrite ?length_insert, length_fmap, length_cells; lia.
Qed.

(** ** The operations implement the contract *)

Lemma free_top s :
  zlen (st_open s) = st_capacity s → 0 < st_open_cnt s ≤ st_capacity s →
  ∃ i, rd (st_open s) (st_open_cnt s - 1) = Ok i ∧
    reverse (take (Z.to_nat (st_open_cnt s)) (st_open s)) =
    i :: reverse (take (Z.to_nat (st_open_cnt s - 1)) (st_open s)).
Proof.
  intros Hl Hc. destruct (rd_total (st_open s) (st_open_cnt s - 1)) as (i & Hi & Hlk); [lia|].
  exists i. split; [done|].
  replace (Z.to_nat (st_open_cnt s)) with (S (Z.to_nat (st_open_cnt s - 1))) by lia.
  by rewrite (take_S_r _ _ _ Hlk), reverse_snoc.
Qed.

Lemma get_push_index_spec s :
  store_wf s →
  match sl_free (abs s) with
  | [] => get_push_index s = Ok (-1, s)
  | i :: f =>
      get_push_index s = Ok (i, set_open_cnt s (st_open_cnt s - 1)) ∧
      0 < st_open_cnt s ∧ 0 ≤ i < st_capacity s ∧
      f = reverse (take (Z.to_nat (st_open_cnt s - 1)) (st_open s))
  end.
Proof.
  intros [? ? ? Ho Hc ? [_ Hf]]. unfold get_push_index.
  destruct (Z.gtb_spec (st_open_cnt s) 0) as [Hpos|].
  - destruct (free_top s Ho ltac:(lia)) as (i & Hrd & Hrev).
    cbn [abs sl_free] in *. rewrite Hrev in *. rewrite Hrd. cbn [mbind res_bind].
    split_and!; try done; destruct (Hf i) as [[Hi Hl] _]; try (by left); try done.
    apply lookup_lt_Some in Hl. cbn in Hl. rewrite length_fmap, length_cells in Hl. lia.
  - cbn [abs sl_free]. replace (Z.to_nat (st_open_cnt s)) with 0%nat by lia. done.
Qed.

Lemma upd_head {A} (u b : A) y : upd (u :: y) 0 [b] = b :: y.
Proof. done. Qed.

Lemma upd_tail {A} (u : A) y x : zlen x = zlen y → upd (u :: y) 1 x = u :: x.
Proof.
  unfold upd, zlen. change (Z.to_nat 1) with 1%nat. intros. cbn.
  rewrite drop_ge by lia. by rewrite app_nil_r.
Qed.

(** The two writes of an insertion: the flag, then the item. *)
Lemma fill_slot s i x :
  store_shape s → 0 ≤ i < st_capacity s → zlen x = st_item_size s →
  ∃ s1 s2, set_used s (ITEM_IDX s i) Byte.x01 = Ok s1 ∧
    store_memcpy s1 (ITEM_VALUE (ITEM_IDX s i)) x = Ok s2 ∧ s1 = set_data s (st_data s1) ∧
    s2 = set_data s (st_data s2) ∧ store_shape s2 ∧ slot s2 i = Byte.x01 :: x ∧
    ∀ j, 0 ≤ j < st_capacity s → j ≠ i → slot s2 j = slot s j.
Proof.
  intros Hs Hi Hx. destruct (slot_head s Hs i Hi) as (u & y & Hsl & Hy).
  pose proof (sh_item_size s Hs).
  destruct (slot_write s Hs i 0 [Byte.x01] Hi ltac:(lia)) as (d1 & Hd1 & Hs1 & Hsl1 & Ho1);
    [zlia|].
  rewrite Z.add_0_r in Hd1. rewrite Hsl in Hsl1.
  destruct (slot_write (set_data s d1) Hs1 i 1 x Hi ltac:(lia)) as (d2 & Hd2 & Hs2 & Hsl2 & Ho2);
    [cbn; lia|].
  destruct (item_idx_range s Hs i Hi).
  exists (set_data s d1), (set_data s d2). unfold set_used, wr, store_memcpy, ITEM_VALUE.
  rewrite !at_data_in by lia. rewrite Hd1. change (ITEM_IDX (set_data s d1) i) with (ITEM_IDX s i) in Hd2.
  split_and!; try done.
  - by rewrite Hd2.
  - cbn in Hsl2. change (slot (set_data s d2) i = upd (slot (set_data s d1) i) 1 x) in Hsl2.
    rewrite Hsl2, Hsl1, upd_head. apply upd_tail. lia.
  - intros j Hj Hji. rewrite <- (Ho1 j Hj Hji). by apply (Ho2 j).
Qed.

(** [store_push] and [store_push_empty]: the next free slot, or nothing when full. *)
Lemma push_item_spec s item x :
  store_wf s → (∀ s', st_item_size s' = st_item_size s → item s' = Ok x) →
  zlen x = st_item_size s →
  ∃ s', store_push_item item s =
      Ok (match (sl_push x (abs s)).1 with Some i => KEYVALUE s' i | None => KEYVALUE_NONE end, s') ∧
    store_wf s' ∧ abs s' = (sl_push x (abs s)).2 ∧
    st_capacity s' = st_capacity s ∧ st_item_size s' = st_item_size s.
Proof.
  intros Hwf Hitem Hx. pose proof (get_push_index_spec s Hwf) as Hg.
  pose proof (sl_push_wf x (abs s) (wf_slots s Hwf)) as Hsl.
  unfold store_push_item, sl_push in *. destruct (sl_free (abs s)) as [|i f].
  { rewrite Hg. cbn. by exists s. }
  destruct Hg as (-> & Hpos & Hi & ->). cbn [mbind res_bind].
  rewrite (proj2 (Z.ltb_ge i 0)) by lia.
  set (s0 := set_open_cnt s (st_open_cnt s - 1)).
  assert (Hs0 : store_shape s0) by (destruct Hwf; constructor; cbn; done || lia).
  destruct (fill_slot s0 i x Hs0 Hi Hx) as (s1 & s2 & -> & Hrun & He1 & He2 & Hs2 & Hfill & Hother).
  cbn [mbind res_bind]. rewrite (Hitem s1) by (rewrite He1; done). cbn [mbind res_bind].
  rewrite Hrun. cbn [mbind res_bind fst snd].
  assert (Habs : abs s2 = Slots (<[Z.to_nat i:=Some x]> (sl_cells (abs s)))
            (reverse (take (Z.to_nat (st_open_cnt s - 1)) (st_open s)))).
  { apply abs_eq; [|by rewrite He2].
    apply (abs_cells_insert s0 s2 i (Some x)); try done; [by rewrite He2|by rewrite Hfill]. }
  exists s2. split; [by rewrite He2|]. split; [|split; [by rewrite Habs|by rewrite He2]].
  apply wf_shape. split; [done|]. by rewrite Habs.
Qed.

(** [store_get] of an index of the table. *)
Lemma get_in_range s i :
  store_wf s → 0 ≤ i < st_capacity s →
  match sl_get (abs s) i with
  | None => store_get s i = Ok KEYVALUE_NONE
  | Some x => ∃ p, store_get s i = Ok (mkKV (size_t i) (Some p)) ∧ store_load s p = Ok x
  end.
Proof.
  intros [Hs _]%wf_shape Hi. destruct (slot_head s Hs i Hi) as (u & x & Hsl & _).
  rewrite abs_get, Hsl by done. unfold store_get. rewrite (used_lookup s Hs i u x) by done.
  cbn. case_decide; [done|]. eexists. split; [done|]. by eapply value_load.
Qed.

Lemma replace_spec s i data :
  store_wf s → 0 ≤ i < st_capacity s → st_item_size s ≤ zlen data →
  ∃ s', store_replace i data s = Ok ((sl_replace i (sub data 0 (st_item_size s)) (abs s)).1, s') ∧
    store_wf s' ∧ abs s' = (sl_replace i (sub data 0 (st_item_size s)) (abs s)).2 ∧
    st_capacity s' = st_capacity s ∧ st_item_size s' = st_item_size s.
Proof.
  intros Hwf Hi Hd. set (x := sub data 0 (st_item_size s)).
  pose proof (sl_replace_wf i x (abs s) (wf_slots s Hwf)) as Hsl.
  apply wf_shape in Hwf as Hsh. destruct Hsh as [Hs _]. pose proof (sh_item_size s Hs) as Hz.
  assert (Hx : zlen x = st_item_size s) by (apply zlen_sub; lia).
  destruct (slot_head s Hs i Hi) as (u & y & Hslot & Hy).
  unfold store_replace. destruct (Z.geb_spec i (st_capacity s)); [lia|].
  rewrite (used_lookup s Hs i u y) by done. cbn [mbind res_bind].
  unfold sl_replace in *. rewrite abs_get, Hslot in * by done. cbn [slot_of] in *.
  destruct (decide (u = NUL)); [by exists s|].
  rewrite rd_n_ok by lia. cbn [mbind res_bind]. fold x.
  destruct (slot_write s Hs i 1 x Hi ltac:(lia) ltac:(lia)) as (d1 & Hd1 & Hs1 & Hsl1 & Ho1).
  destruct (slot_write (set_data s d1) Hs1 i 0 [Byte.x01] Hi ltac:(lia))
    as (d2 & Hd2 & Hs2 & Hsl2 & Ho2); [cbn; zlia|].
  destruct (item_idx_range s Hs i Hi). unfold store_memcpy, ITEM_VALUE, set_used, wr.
  rewrite !at_data_in by lia. rewrite Hd1. cbn [fmap res_fmap mbind res_bind].
  rewrite Z.add_0_r in Hd2. change (ITEM_IDX (set_data s d1) i) with (ITEM_IDX s i) in Hd2.
  rewrite at_data_in, Hd2 by lia. cbn [fmap res_fmap mbind res_bind fst snd].
  set (s2 := set_data (set_data s d1) d2) in *.
  assert (Hnew : slot s2 i = Byte.x01 :: x).
  { rewrite Hsl2, Hsl1, Hslot, upd_tail by lia. apply upd_head. }
  assert (Habs : abs s2 = Slots (<[Z.to_nat i:=Some x]> (sl_cells (abs s))) (sl_free (abs s))).
  { apply abs_eq; [|done]. apply abs_cells_insert; try done; [by rewrite Hnew|].
    intros j Hj Hji. rewrite (Ho2 j Hj Hji). by apply Ho1. }
  exists s2. split; [done|]. split; [|done]. apply wf_shape. split; [done|]. by rewrite Habs.
Qed.

Lemma remove_spec s i :
  store_wf s → 0 ≤ i < st_capacity s →
  ∃ s', store_remove_at i s = Ok ((sl_remove_at i (abs s)).1, s') ∧ store_wf s' ∧
    abs s' = (sl_remove_at i (abs s)).2 ∧
    st_capacity s' = st_capacity s ∧ st_item_size s' = st_item_size s.
Proof.
  intros Hwf Hi. pose proof (sl_remove_wf i (abs s) (wf_slots s Hwf)) as Hsl.
  apply wf_shape in Hwf as Hsh. destruct Hsh as [Hs _]. pose proof (sh_item_size s Hs).
  destruct (slot_head s Hs i Hi) as (u & y & Hslot & Hy).
  unfold store_remove_at. destruct (Z.geb_spec i (st_capacity s)); [lia|].
  rewrite (used_lookup s Hs i u y) by done. cbn [mbind res_bind].
  unfold sl_remove_at in *. rewrite abs_get, Hslot in * by done. cbn [slot_of] in *.
  destruct (decide (u = NUL)); [by exists s|].
  pose proof (sh_open_cnt s Hs). pose proof (sh_open s Hs).
  assert (Hroom : st_open_cnt s < st_capacity s).
  { pose proof (sl_free_le _ Hsl) as Hle. cbn in Hle.
    rewrite length_insert, length_fmap, length_cells, length_reverse, length_take in Hle.
    unfold zlen in *. lia. }
  destruct (slot_write s Hs i 0 [NUL] Hi ltac:(lia)) as (d & Hd & Hsd & Hsld & Hod); [zlia|].
  destruct (item_idx_range s Hs i Hi).
  unfold set_used. rewrite Z.add_0_r in Hd. rewrite at_data_in by lia. change (memcpy ?a ?k [NUL]) with (wr a k NUL) in Hd.
  rewrite Hd. cbn [fmap res_fmap mbind res_bind].
  cbn [set_data st_open st_open_cnt]. rewrite wr_ok, upd_single by lia. cbn [mbind res_bind fst snd].
  eexists. split; [reflexivity|].
  match goal with |- store_wf ?x ∧ _ => set (s2 := x) end.
  assert (Hs2 : store_shape s2).
  { destruct Hsd. constructor; cbn in *; try done; [|lia]. unfold zlen. by rewrite length_insert. }
  assert (Habs : abs s2 = Slots (<[Z.to_nat i:=None]> (sl_cells (abs s))) (i :: sl_free (abs s))).
  { apply abs_eq.
    - apply abs_cells_insert; try done. change (slot s2 i) with (slot (set_data s d) i).
      rewrite Hsld, Hslot, upd_head. by cbn.
    - cbn. replace (Z.to_nat (st_open_cnt s + 1)) with (S (Z.to_nat (st_open_cnt s))) by lia.
      erewrite take_S_r by (apply list_lookup_insert_eq; unfold zlen in *; lia).
      rewrite reverse_snoc. by rewrite take_insert_ge by lia. }
  split; [|by split]. apply wf_shape. split; [done|]. by rewrite Habs.
Qed.

Lemma remove_above s i : st_capacity s ≤ i → store_remove_at i s = Ok (0, s).
Proof. intros. unfold store_remove_at. by destruct (Z.geb_spec i (st_capacity s)); [|lia]. Qed.

(** The flag of a slot outside the table, as far as the product does not wrap. *)
Definition stray_flag (s : Store) (i : Z) : fault :=
  if (- before_data s <=? i * (st_item_size s + 1)) && (i <? 0) then Elsewhere else OutOfBounds.

Lemma used_stray s i :
  store_shape s → - 2 ^ 63 ≤ i * (st_item_size s + 1) < 2 ^ 63 → ¬ 0 ≤ i < st_capacity s →
  ITEM_USED s (ITEM_IDX s i) = Fault (stray_flag s i).
Proof.
  intros Hs Hw Hi. unfold ITEM_USED, ITEM_IDX. rewrite ptrdiff_mul by done.
  unfold at_data, stray_flag. rewrite rd_oob by (destruct Hs as [? ? ? ? ? ->]; nia).
  replace (i * (st_item_size s + 1) <? 0) with (i <? 0); [by destruct (_ && _)|].
  destruct Hs. destruct (Z.ltb_spec i 0), (Z.ltb_spec (i * (st_item_size s + 1)) 0); done || nia.
Qed.

(** *** Resetting *)

Lemma reset_open_loop_spec fuel i s :
  zlen (st_open s) = st_capacity s → 0 ≤ i ≤ st_capacity s → st_capacity s - i ≤ Z.of_nat fuel →
  ∃ o, reset_open_loop fuel i s = Ok (set_open s o) ∧ zlen o = st_capacity s ∧
    (∀ k, (k < Z.to_nat i)%nat → o !! k = st_open s !! k) ∧
    (∀ k, (Z.to_nat i ≤ k < Z.to_nat (st_capacity s))%nat →
       o !! k = Some (st_capacity s - 1 - Z.of_nat k)).
Proof.
  revert i s. induction fuel as [|fuel IH]; intros i s Ho Hi Hf; cbn [reset_open_loop];
    destruct (Z.ltb_spec i (st_capacity s)); try lia.
  1,3: exists (st_open s); split; [by destruct s|]; split; [done|]; split; [done|lia].
  rewrite wr_ok, upd_single by lia. cbn [mbind res_bind].
  set (s1 := set_open s _).
  destruct (IH (i + 1) s1) as (o & Hrun & Hl & Hlow & Hhigh);
    [unfold zlen in *; cbn; rewrite length_insert; lia|cbn; lia|cbn; lia|].
  exists o. split; [exact Hrun|]. split; [done|]. split.
  - intros k Hk. rewrite Hlow by lia. cbn. by rewrite list_lookup_insert_ne by lia.
  - intros k Hk. destruct (decide (k = Z.to_nat i)) as [->|].
    + rewrite Hlow by lia. cbn. rewrite list_lookup_insert_eq by (unfold zlen in *; lia).
      f_equal. lia.
    + apply Hhigh. cbn. lia.
Qed.

(** [reset_open] lists every index, the lowest to be used first. *)
Lemma reset_open_spec s :
  zlen (st_open s) = st_capacity s →
  ∃ o, reset_open s = Ok (set_open (set_open_cnt s (st_capacity s)) o) ∧ zlen o = st_capacity s ∧
    reverse (take (Z.to_nat (st_capacity s)) o) = seqZ 0 (st_capacity s).
Proof.
  intros Ho. unfold reset_open. set (s1 := set_open_cnt s _). pose proof (zlen_nonneg (st_open s)).
  destruct (reset_open_loop_spec (Z.to_nat (st_capacity s)) 0 s1) as (o & Hrun & Hl & _ & Hall);
    [done|cbn; lia|cbn; lia|].
  exists o. split; [exact Hrun|]. split; [done|]. cbn in *. unfold zlen in *.
  rewrite take_ge by lia. apply list_eq. intros k.
  destruct (decide (k < Z.to_nat (st_capacity s))%nat).
  - rewrite reverse_lookup, lookup_seqZ_lt, Hall by lia. f_equal. lia.
  - by rewrite !lookup_ge_None_2 by (rewrite ?length_reverse, ?length_seqZ; lia).
Qed.

Lemma cells_zero w n : 0 ≤ w → 0 ≤ n → cells (w + 1) (zeros (n * (w + 1))) n = replicate (Z.to_nat n) (zeros (w + 1)).
Proof.
  intros Hw Hn. apply list_eq. intros k. destruct (decide (k < Z.to_nat n)%nat).
  - rewrite lookup_cells, lookup_replicate_2 by lia. f_equal.
    unfold cell, sub, zeros. rewrite drop_replicate, take_replicate. f_equal. nia.
  - by rewrite !lookup_ge_None_2 by (rewrite ?length_cells, ?length_replicate; lia).
Qed.

Lemma cleared_slots w n : 0 ≤ w → slot_of <$> replicate n (zeros (w + 1)) = replicate n None.
Proof.
  intros. rewrite fmap_replicate. f_equal. unfold zeros.
  replace (Z.to_nat (w + 1)) with (S (Z.to_nat w)) by lia. done.
Qed.

(** A zeroed data array with a reset free list is the empty table. *)
Lemma fresh_store s :
  0 ≤ st_capacity s ≤ INT_MAX → 0 ≤ st_item_size s →
  (st_item_size s + 1) * st_capacity s < 2 ^ 63 → zlen (st_open s) = st_capacity s →
  st_data s = zeros (st_capacity s * (st_item_size s + 1)) →
  ∃ s', reset_open s = Ok s' ∧ store_wf s' ∧ abs s' = sl_new (st_capacity s) ∧
    st_capacity s' = st_capacity s ∧ st_item_size s' = st_item_size s.
Proof.
  intros Hc Hw Hsz Ho Hd. destruct (reset_open_spec s Ho) as (o & -> & Hlo & Hrev).
  eexists. split; [reflexivity|]. set (s' := set_open _ o).
  assert (Habs : abs s' = sl_new (st_capacity s)).
  { apply abs_eq; [|done]. cbn. rewrite Hd, cells_zero by lia. by apply cleared_slots. }
  split; [|done]. constructor; cbn; try done; [lia| |].
  - rewrite Hd, zlen_zeros; [done|nia].
  - rewrite Habs. apply sl_new_wf. lia.
Qed.

Lemma store_new_spec {S} `{!Allocator S} `{!AllocatorOk S} cap w a r a' :
  alloc_inv a → 0 ≤ cap ≤ INT_MAX → 0 ≤ w →
  STORE_HEADER + SIZEOF_INT * cap + (w + 1) * cap < 2 ^ 63 →
  store_new cap w a = Ok (r, a') →
  alloc_inv a' ∧
  match r with
  | None => True
  | Some s => store_wf s ∧ abs s = sl_new cap ∧ st_capacity s = cap ∧ st_item_size s = w
  end.
Proof.
  intros Ha Hc Hw Hsz. assert (0 ≤ (w + 1) * cap) by nia.
  assert (cap * (w + 1) = (w + 1) * cap) as Hcomm by ring. unfold store_new, STORE_HEADER, SIZEOF_INT in *.
  rewrite !size_t_id by lia. intros Hrun.
  destruct (mmalloc _ a) as [[[b|] a1]|] eqn:Hm; try done; cbn [mbind res_bind] in Hrun;
    (apply mmalloc_ok in Hm as [Ha1 Hb]; [|done|lia]); [|by simplify_eq].
  destruct Hb as [Hb _]. rewrite Hb in Hrun.
  unfold zeros in Hrun. rewrite drop_replicate in Hrun.
  rewrite memset_ok in Hrun by (rewrite ?zlen_replicate; lia). cbn [mbind res_bind] in Hrun.
  match type of Hrun with (reset_open ?x ≫= _) = _ => set (s0 := x) in Hrun end.
  destruct (fresh_store s0) as (s' & Hs' & ? & ? & ? & ?); cbn; try done; try lia.
  { rewrite zlen_replicate. lia. }
  { unfold zeros, upd. change (Z.to_nat 0) with 0%nat. cbn [take app].
    rewrite length_replicate, drop_ge by (rewrite length_replicate; lia).
    rewrite take_0, app_nil_r. cbn. f_equal. lia. }
  rewrite Hs' in Hrun. cbn in Hrun. simplify_eq. split; [done|]. done.
Qed.

Lemma reset_spec s :
  store_wf s →
  ∃ s', store_reset s = Ok s' ∧ store_wf s' ∧ abs s' = sl_reset (abs s) ∧
    st_capacity s' = st_capacity s ∧ st_item_size s' = st_item_size s.
Proof.
  intros [Hc Hw Hsz Ho Hoc Hd _]. unfold store_reset. rewrite size_t_id by nia.
  rewrite memset_ok by nia. cbn [mbind res_bind].
  match goal with |- context [reset_open ?x] => set (s0 := x) end.
  destruct (fresh_store s0) as (s' & -> & ? & Habs & ? & ?); cbn; try done; try lia.
  { unfold zeros, upd. change (Z.to_nat 0) with 0%nat.
    rewrite take_0, length_replicate, drop_ge by (unfold zlen in *; nia).
    rewrite app_nil_r. cbn. f_equal. nia. }
  exists s'. split_and!; try done. rewrite Habs. unfold sl_reset. cbn.
  unfold zlen. rewrite length_fmap, length_cells. by rewrite Z2Nat.id by lia.
Qed.

(** *** Sequences of calls *)

Inductive store_op : Type :=
| SPush (data : list byte)
| SPushEmpty
| SGet (idx : Z)
| SReplace (idx : Z) (data : list byte)
| SRemoveAt (idx : Z)
| SLength
| SReset.

(** A key-value pair is observed as its key and the item behind [value]. *)
Inductive store_obs : Type :=
| ONum (z : Z)
| OPair (k : Z) (x : option (list byte)).

Definition observe_kv (s : Store) (kv : KeyValue) : res store_obs :=
  match value kv with
  | None => Ok (OPair (key kv) None)
  | Some p => x ← store_load s p; Ok (OPair (key kv) (Some x))
  end.

Definition exec_store (op : store_op) (s : Store) : res (store_obs * Store) :=
  match op with
  | SPush d => '(kv, s) ← store_push d s; o ← observe_kv s kv; Ok (o, s)
  | SPushEmpty => '(kv, s) ← store_push_empty s; o ← observe_kv s kv; Ok (o, s)
  | SGet i => kv ← store_get s i; o ← observe_kv s kv; Ok (o, s)
  | SReplace i d => '(z, s) ← store_replace i d s; Ok (ONum z, s)
  | SRemoveAt i => '(z, s) ← store_remove_at i s; Ok (ONum z, s)
  | SLength => Ok (ONum (store_length s), s)
  | SReset => s ← store_reset s; Ok (ONum 0, s)
  end.

Definition spec_push {A} (show : A → list byte) (x : A) (t : slots A) : store_obs * slots A :=
  let '(o, t) := sl_push x t in
  (match o with Some i => OPair i (Some (show x)) | None => OPair (2 ^ 64 - 1) None end, t).

Definition spec_store (w : Z) (op : store_op) (t : slots (list byte)) : store_obs * slots (list byte) :=
  match op with
  | SPush d => spec_push id (sub d 0 w) t
  | SPushEmpty => spec_push id (zeros w) t
  | SGet i => (match sl_get t i with Some x => OPair i (Some x) | None => OPair (2 ^ 64 - 1) None end, t)
  | SReplace i d => let '(z, t) := sl_replace i (sub d 0 w) t in (ONum z, t)
  | SRemoveAt i => let '(z, t) := sl_remove_at i t in (ONum z, t)
  | SLength => (ONum (sl_length t), t)
  | SReset => (ONum 0, sl_reset t)
  end.

(** What a caller owes: whole items, indices that are not negative, and for
    [store_get] indices below the capacity. *)
Definition store_op_ok (cap w : Z) (op : store_op) : Prop :=
  match op with
  | SPush d => w ≤ zlen d
  | SGet i => 0 ≤ i < cap
  | SReplace i d => 0 ≤ i ∧ w ≤ zlen d
  | SRemoveAt i => 0 ≤ i
  | _ => True
  end.

Fixpoint exec_stores (ops : list store_op) (s : Store) : res (list store_obs * Store) :=
  match ops with
  | [] => Ok ([], s)
  | op :: ops => '(o, s) ← exec_store op s; '(os, s) ← exec_stores ops s; Ok (o :: os, s)
  end.

Fixpoint spec_stores (w : Z) (ops : list store_op) (t : slots (list byte))
  : list store_obs * slots (list byte) :=
  match ops with
  | [] => ([], t)
  | op :: ops =>
      let '(o, t) := spec_store w op t in
      let '(os, t) := spec_stores w ops t in (o :: os, t)
  end.

Lemma size_t_key s i : store_wf s → 0 ≤ i < st_capacity s → size_t i = i.
Proof. intros [? _ _ _ _ _ _] ?. unfold INT_MAX in *. apply size_t_id. lia. Qed.

Lemma sl_get_above s i : store_wf s → st_capacity s ≤ i → sl_get (abs s) i = None.
Proof.
  intros [? _ _ _ _ _ _] Hi. unfold sl_get. rewrite (proj2 (Z.leb_le 0 i)) by lia.
  by rewrite abs_cells_none by lia.
Qed.

(** Observing a freshly pushed pair. *)
Lemma observe_push s s' x i :
  store_wf s → store_wf s' → st_capacity s' = st_capacity s →
  sl_push x (abs s) = (Some i, abs s') → observe_kv s' (KEYVALUE s' i) = Ok (OPair i (Some x)).
Proof.
  intros Hwf Hwf' Hc Hp. unfold sl_push in Hp. destruct (sl_free (abs s)) as [|k f] eqn:Hf; [done|].
  apply pair_equal_spec in Hp as [[= ->] Hp]. pose proof (sl_free_iff _ (wf_slots s Hwf) i) as [Hi _].
  destruct Hi as [Hi0 Hi]; [rewrite Hf; by left|]. apply lookup_lt_Some in Hi as Hlt.
  assert (Hin : 0 ≤ i < st_capacity s') by (cbn in Hlt; rewrite length_fmap, length_cells in Hlt; lia).
  pose proof (get_in_range s' i Hwf' Hin) as Hg.
  assert (Hx : sl_get (abs s') i = Some x).
  { apply sl_get_Some. split; [done|]. rewrite <- Hp. cbn. by rewrite list_lookup_insert_eq. }
  rewrite Hx in Hg. destruct Hg as (p & Hg & Hl). unfold store_get in Hg.
  destruct (ITEM_USED _ _); [|done]. cbn in Hg. case_decide; [done|]. injection Hg as Hp'.
  unfold observe_kv, KEYVALUE. cbn. rewrite Hp', Hl. cbn. by rewrite (size_t_key s').
Qed.

Lemma exec_push_refines item x s :
  store_wf s → (∀ s', st_item_size s' = st_item_size s → item s' = Ok x) →
  zlen x = st_item_size s →
  ∃ o s', ('(kv, s) ← store_push_item item s; o ← observe_kv s kv; Ok (o, s)) = Ok (o, s') ∧
    store_wf s' ∧ st_capacity s' = st_capacity s ∧ st_item_size s' = st_item_size s ∧
    spec_push id x (abs s) = (o, abs s').
Proof.
  intros Hwf Hitem Hx.
  destruct (push_item_spec s item x Hwf Hitem Hx) as (s' & -> & Hwf' & Habs & Hc & Hw).
  cbn [mbind res_bind]. unfold spec_push. destruct (sl_push x (abs s)) as [[i|] t] eqn:Hp; cbn in Habs; subst t.
  - cbn [fst]. rewrite (observe_push s s' x i) by done. cbn. by eexists _, _.
  - cbn. by eexists _, _.
Qed.

Lemma exec_store_refines op s :
  store_wf s → store_op_ok (st_capacity s) (st_item_size s) op →
  ∃ o s', exec_store op s = Ok (o, s') ∧ store_wf s' ∧ st_capacity s' = st_capacity s ∧
    st_item_size s' = st_item_size s ∧ spec_store (st_item_size s) op (abs s) = (o, abs s').
Proof.
  intros Hwf Hop. destruct op as [d| |i|i d|i| |]; cbn [exec_store spec_store store_op_ok] in *.
  - apply exec_push_refines; [done| |apply zlen_sub; destruct Hwf; lia].
    intros s' ->. apply rd_n_ok; destruct Hwf; lia.
  - apply exec_push_refines; [done|by intros s' ->|apply zlen_zeros; by destruct Hwf].
  - pose proof (get_in_range s i Hwf Hop) as Hg. destruct (sl_get (abs s) i) as [x|].
    + destruct Hg as (p & -> & Hl). cbn. unfold observe_kv. cbn. rewrite Hl. cbn.
      rewrite (size_t_key s) by done. by eexists _, s.
    + rewrite Hg. cbn. by eexists _, s.
  - destruct Hop as [Hi Hd]. destruct (decide (i < st_capacity s)).
    + destruct (replace_spec s i d) as (s' & -> & ? & Ha & ? & ?); [done..|].
      destruct (sl_replace _ _ _) as [z t]. cbn in Ha. subst t. by eexists _, s'.
    + unfold store_replace. destruct (Z.geb_spec i (st_capacity s)); [|lia].
      unfold sl_replace. rewrite sl_get_above by (done || lia). by eexists _, s.
  - destruct (decide (i < st_capacity s)).
    + destruct (remove_spec s i) as (s' & -> & ? & Ha & ? & ?); [done..|].
      destruct (sl_remove_at _ _) as [z t]. cbn in Ha. subst t. by eexists _, s'.
    + rewrite remove_above by lia. unfold sl_remove_at.
      rewrite sl_get_above by (done || lia). by eexists _, s.
  - eexists _, s. split_and!; try done. f_equal. f_equal. unfold sl_length, store_length. cbn.
    destruct Hwf. unfold zlen in *.
    rewrite length_fmap, length_cells, length_reverse, length_take. lia.
  - destruct (reset_spec s Hwf) as (s' & -> & ? & Ha & ? & ?).
    eexists _, s'. by rewrite Ha.
Qed.

Definition is_empty_slot {A} (t : slots A) (i : Z) : bool :=
  match sl_cells t !! Z.to_nat i with Some None => true | _ => false end.

Lemma free_permutation {A} (t : slots A) :
  slots_wf t → sl_free t ≡ₚ filter (is_empty_slot t) (seqZ 0 (zlen (sl_cells t))).
Proof.
  intros [Hnd Hf]. apply NoDup_Permutation; [done|apply NoDup_filter, NoDup_seqZ|].
  intros i. rewrite Hf, list_elem_of_filter, elem_of_seqZ. unfold is_empty_slot. split.
  - intros [Hi He]. rewrite He. split; [done|]. apply lookup_lt_Some in He. unfold zlen. lia.
  - intros [He Hi]. split; [lia|]. by destruct (sl_cells t !! Z.to_nat i) as [[]|].
Qed.

Lemma filter_partition {B} (p : B → bool) (l : list B) :
  (length (filter p l) + length (filter (λ x, ¬ p x) l))%nat = length l.
Proof.
  induction l as [|x l IH]; [done|]. rewrite !filter_cons.
  destruct (p x) eqn:E; repeat case_decide; cbn in *; lia || naive_solver.
Qed.

(** The indices in use. *)
Definition used_slots {A} (t : slots A) : list Z :=
  filter (λ i, ¬ is_empty_slot t i) (seqZ 0 (zlen (sl_cells t))).

Lemma sl_length_used {A} (t : slots A) : slots_wf t → sl_length t = zlen (used_slots t).
Proof.
  intros Hwf. unfold sl_length. pose proof (free_permutation t Hwf) as Hp.
  apply Permutation_length in Hp.
  pose proof (filter_partition (is_empty_slot t) (seqZ 0 (zlen (sl_cells t)))) as Hf.
  rewrite length_seqZ in Hf. fold (used_slots t) in Hf. unfold zlen in *. lia.
Qed.

(** ** What the store promises *)

(** C5: the byte-level store refines a table of optional items.  For every
    sequence of calls that passes whole items and indices of the table, no access
    leaves the allocation, every key, flag, length and item observed (the items
    by loading through [value]) is the one the table gives, and the contents and
    the free list agree at the end. *)
Theorem store_refines_slots (ops : list store_op) (s : Store) :
  store_wf s → Forall (store_op_ok (st_capacity s) (st_item_size s)) ops →
  ∃ os s', exec_stores ops s = Ok (os, s') ∧ store_wf s' ∧
    spec_stores (st_item_size s) ops (abs s) = (os, abs s').
Proof.
  revert s. induction ops as [|op ops IH]; intros s Hwf Hops; cbn [exec_stores spec_stores].
  { by exists [], s. }
  apply Forall_cons in Hops as [Hop Hops].
  destruct (exec_store_refines op s Hwf Hop) as (o & s1 & -> & Hwf1 & Hc & Hw & ->).
  cbn [mbind res_bind].
  destruct (IH s1 Hwf1) as (os & s2 & -> & Hwf2 & Hspec); [by rewrite Hc, Hw|].
  exists (o :: os), s2. rewrite Hw in Hspec. by rewrite Hspec.
Qed.

(** C27: in any state reached from a new store, the free list holds every unused
    index exactly once, so [store_length] counts the slots in use and a push
    fails exactly when all [capacity] slots are used. *)
Theorem store_free_list_invariant (ops : list store_op) (s s' : Store) (os : list store_obs) :
  store_wf s → Forall (store_op_ok (st_capacity s) (st_item_size s)) ops →
  exec_stores ops s = Ok (os, s') →
  NoDup (sl_free (abs s')) ∧
  (∀ i, i ∈ sl_free (abs s') ↔ 0 ≤ i < st_capacity s ∧ sl_get (abs s') i = None) ∧
  store_length s' = zlen (used_slots (abs s')) ∧
  ((store_push_empty s' ≫= λ '(kv, _), Ok (value kv)) = Ok None ↔
   zlen (used_slots (abs s')) = st_capacity s).
Proof.
  intros Hwf Hops Hrun.
  assert (Hinv : store_wf s' ∧ st_capacity s' = st_capacity s).
  { revert s os Hwf Hops Hrun. induction ops as [|op ops IH]; intros s os Hwf Hops Hrun; cbn in Hrun;
      [by simplify_eq|].
    apply Forall_cons in Hops as [Hop Hops].
    destruct (exec_store_refines op s Hwf Hop) as (o & s1 & Hr & Hwf1 & Hc & Hw & _).
    rewrite Hr in Hrun. cbn in Hrun. apply bind_ok in Hrun as ([os2 s2] & Hrun & Heq). cbn in Heq.
    simplify_eq. rewrite <- Hc. eapply IH; [done| |done]. by rewrite Hc, Hw. }
  destruct Hinv as [Hwf' Hc]. rewrite <- Hc. clear Hc Hwf Hops Hrun s.
  pose proof (wf_slots s' Hwf') as Hsl. pose proof (sl_length_used (abs s') Hsl) as Hused.
  assert (Hlen : store_length s' = sl_length (abs s')).
  { unfold store_length, sl_length. cbn. destruct Hwf'. unfold zlen in *.
    rewrite length_fmap, length_cells, length_reverse, length_take. lia. }
  split; [apply Hsl|]. split; [|split; [by rewrite Hlen|]].
  - intros i. rewrite (sl_free_iff _ Hsl). unfold sl_get.
    destruct (Z.leb_spec 0 i); [|naive_solver lia].
    destruct (decide (i < st_capacity s')).
    + rewrite abs_cells by (try lia; by apply wf_shape).
      destruct (slot_of _); cbn; naive_solver lia.
    + rewrite abs_cells_none by lia. naive_solver lia.
  - destruct (push_item_spec s' (λ s, Ok (zeros (st_item_size s))) (zeros (st_item_size s')) Hwf')
      as (s2 & Hrun & _); [by intros ? ->|apply zlen_zeros; by destruct Hwf'|].
    unfold store_push_empty. rewrite Hrun. cbn [mbind res_bind]. rewrite <- Hused, <- Hlen.
    unfold store_length. pose proof (get_push_index_spec s' Hwf') as Hg. unfold sl_push.
    destruct (sl_free (abs s')) as [|i f] eqn:Hf; cbn.
    + split; [|done]. intros _. apply (f_equal length) in Hf. cbn in Hf.
      destruct Hwf'. unfold zlen in *. rewrite length_reverse, length_take in Hf. lia.
    + destruct Hg as (_ & Hpos & _). split; [done|lia].
Qed.

(** C38: what happens outside the table, as long as the product [idx * (item_size + 1)]
    does not wrap.  [store_get] and [store_is_used] have no range check: from the capacity
    on they read the flag behind the allocation, below 0 before [data], which is in
    front of the allocation once the distance is more than the header and [open].
    [store_remove_at] and [store_replace] answer 0 at or above the capacity, but
    a negative index passes their guard and reads the same flag. *)
Theorem store_index_errors (s : Store) (i : Z) (data : list byte) :
  store_wf s → - 2 ^ 63 ≤ i * (st_item_size s + 1) < 2 ^ 63 →
  (st_capacity s ≤ i →
   store_get s i = Fault OutOfBounds ∧ store_is_used s i = Fault OutOfBounds ∧
   store_remove_at i s = Ok (0, s) ∧ store_replace i data s = Ok (0, s)) ∧
  (i < 0 →
   let f := if decide (- i * (st_item_size s + 1) ≤ STORE_HEADER + SIZEOF_INT * st_capacity s)
            then Elsewhere else OutOfBounds in
   store_get s i = Fault f ∧ store_is_used s i = Fault f ∧
   store_remove_at i s = Fault f ∧ store_replace i data s = Fault f).
Proof.
  intros [Hs _]%wf_shape Hw. pose proof (used_stray s i Hs Hw) as Hu. split; intros Hi.
  - assert (stray_flag s i = OutOfBounds) as Hf.
    { unfold stray_flag. destruct Hs. by rewrite (proj2 (Z.ltb_ge i 0)), andb_false_r by lia. }
    rewrite Hf in Hu. unfold store_get, store_is_used, store_replace. rewrite Hu by lia.
    rewrite remove_above by done. by destruct (Z.geb_spec i (st_capacity s)); [|lia].
  - intros f. assert (stray_flag s i = f) as Hf.
    { unfold stray_flag, f, before_data. rewrite (proj2 (Z.ltb_lt i 0)), andb_true_r by done.
      case_decide; [rewrite (proj2 (Z.leb_le _ _))|rewrite (proj2 (Z.leb_gt _ _))]; done || lia. }
    rewrite Hf in Hu. unfold store_get, store_is_used, store_remove_at, store_replace.
    rewrite Hu by lia. destruct Hs. by destruct (Z.geb_spec i (st_capacity s)); [lia|].
Qed.

(** Where the product wraps, the range check is all there is: one slot of [2^33] bytes,
    index [-2^31], and the flag read is that of slot 0. *)
Example item_idx_wraps :
  ITEM_IDX (mkStore 1 (2 ^ 33 - 1) 1 [0] []) (- 2 ^ 31) = 0.
Proof. vm_compute. reflexivity. Qed.

(** ** A store of three four-byte items *)

Definition raw_store : Store := mkStore 3 4 3 [0; 0; 0] (zeros 15).
Definition demo_store : Store := mkStore 3 4 3 [2; 1; 0] (zeros 15).

Lemma demo_store_wf : store_wf demo_store.
Proof.
  destruct (fresh_store raw_store) as (s & Hr & Hwf & _); unfold INT_MAX; cbn; try done; try lia.
  vm_compute in Hr. injection Hr as <-. exact Hwf.
Qed.

(** tests/test_store.c: fill, remove and reuse slot 1, then slot 0, overflow, reset. *)
Definition test_ops : list store_op :=
  [SLength; SPushEmpty; SLength; SPush (int_le 12); SPush (int_le 13); SLength;
   SRemoveAt 1; SGet 1; SLength; SPush (int_le 14); SGet 1; SRemoveAt 0; SPush (int_le 15);
   SPush (int_le 16); SReplace 2 (int_le 17); SGet 2; SRemoveAt 7; SReset; SLength].

Example test_ops_run :
  (exec_stores test_ops demo_store ≫= λ '(os, _), Ok os) =
  Ok [ONum 0; OPair 0 (Some (zeros 4)); ONum 1; OPair 1 (Some (int_le 12));
      OPair 2 (Some (int_le 13)); ONum 3; ONum 1; OPair (2 ^ 64 - 1) None; ONum 2;
      OPair 1 (Some (int_le 14)); OPair 1 (Some (int_le 14)); ONum 1; OPair 0 (Some (int_le 15));
      OPair (2 ^ 64 - 1) None; ONum 1; OPair 2 (Some (int_le 17)); ONum 0; ONum 0; ONum 0].
Proof. vm_compute. reflexivity. Qed.

Lemma test_ops_ok : Forall (store_op_ok 3 4) test_ops.
Proof. repeat constructor; try lia; vm_compute; discriminate. Qed.

Lemma store_refines_slots_witness :
  ∃ os s', exec_stores test_ops demo_store = Ok (os, s') ∧ store_wf s' ∧
    spec_stores 4 test_ops (abs demo_store) = (os, abs s').
Proof. apply (store_refines_slots test_ops demo_store demo_store_wf test_ops_ok). Defined.

Definition fill_ops : list store_op := [SPushEmpty; SPush (int_le 1); SRemoveAt 0; SPushEmpty; SPushEmpty].

Lemma store_free_list_invariant_witness :
  match exec_stores fill_ops demo_store with
  | Ok (_, s') =>
      store_length s' = 3 ∧ NoDup (sl_free (abs s')) ∧
      (∀ i, i ∈ sl_free (abs s') ↔ 0 ≤ i < 3 ∧ sl_get (abs s') i = None) ∧
      store_length s' = zlen (used_slots (abs s')) ∧
      ((store_push_empty s' ≫= λ '(kv, _), Ok (value kv)) = Ok None ↔
       zlen (used_slots (abs s')) = 3)
  | Fault _ => False
  end.
Proof.
  destruct (exec_stores fill_ops demo_store) as [[os s']|f] eqn:E; [|vm_compute in E; discriminate E].
  split; [vm_compute in E; injection E as _ <-; reflexivity|].
  apply (store_free_list_invariant fill_ops demo_store s' os demo_store_wf); [|exact E].
  repeat constructor; try lia; vm_compute; discriminate.
Defined.

Lemma store_index_errors_witness :
  (store_get demo_store 3 = Fault OutOfBounds ∧ store_is_used demo_store 3 = Fault OutOfBounds ∧
   store_remove_at 3 demo_store = Ok (0, demo_store) ∧
   store_replace 3 (int_le 5) demo_store = Ok (0, demo_store)) ∧
  (store_get demo_store (-1) = Fault Elsewhere ∧ store_is_used demo_store (-1) = Fault Elsewhere ∧
   store_remove_at (-1) demo_store = Fault Elsewhere ∧
   store_replace (-1) (int_le 5) demo_store = Fault Elsewhere) ∧
  (store_get demo_store (-11) = Fault OutOfBounds ∧
   store_is_used demo_store (-11) = Fault OutOfBounds ∧
   store_remove_at (-11) demo_store = Fault OutOfBounds ∧
   store_replace (-11) (int_le 5) demo_store = Fault OutOfBounds).
Proof.
  split_and!.
  all: try apply (store_index_errors demo_store 3 (int_le 5) demo_store_wf); try (cbn; lia).
  all: try apply (store_index_errors demo_store (-1) (int_le 5) demo_store_wf); try (cbn; lia).
  all: apply (store_index_errors demo_store (-11) (int_le 5) demo_store_wf); cbn; lia.
Defined.
