(* ===== verification/CString.v ===== *)
(** C strings over byte arrays, and the string functions of the C library the
    program uses: [strlen], [strcmp], [strncmp], [atoi].

    A C string is modelled by its bytes without the terminating NUL; [cstr]
    reads the one that starts at an offset of an array. *)

From S2P Require Import Prelude.

(** ** Reading a string out of an array *)

Fixpoint until_nul (l : list byte) : option (list byte) :=
  match l with
  | [] => None
  | b :: l' => if decide (b = NUL) then Some [] else (b ::.) <$> until_nul l'
  end.

Definition cstr (a : list byte) (i : Z) : res (list byte) :=
  if 0 <=? i then of_option OutOfBounds (until_nul (drop (Z.to_nat i) a)) else Fault OutOfBounds.

(** A string has no NUL inside. *)
Definition no_nul (s : list byte) : Prop := NUL ∉ s.
#[export] Instance no_nul_dec s : Decision (no_nul s).
Proof. unfold no_nul. apply _. Defined.

Lemma until_nul_app s l : no_nul s → until_nul (s ++ NUL :: l) = Some s.
Proof.
  unfold no_nul. induction s as [|b s IH]; cbn; [by rewrite decide_True|].
  rewrite elem_of_cons. intros Hn. rewrite decide_False by naive_solver.
  rewrite IH by naive_solver. done.
Qed.

Lemma until_nul_no_nul l s : until_nul l = Some s → no_nul s.
Proof.
  unfold no_nul. revert s. induction l as [|b l IH]; intros s; cbn; [done|].
  case_decide; [intros; simplify_eq; apply not_elem_of_nil|].
  destruct (until_nul l) as [s'|]; [|done]. intros [= <-].
  rewrite elem_of_cons. intros [?|?]; [by subst|]. by eapply IH.
Qed.

Lemma cstr_at a i s l :
  0 ≤ i → no_nul s → drop (Z.to_nat i) a = s ++ NUL :: l → cstr a i = Ok s.
Proof.
  intros Hi Hs Hd. unfold cstr. rewrite (proj2 (Z.leb_le 0 i)) by done.
  by rewrite Hd, until_nul_app.
Qed.

Lemma cstr_no_nul a i s : cstr a i = Ok s → no_nul s.
Proof.
  unfold cstr. destruct (0 <=? i); [|done].
  destruct (until_nul _) eqn:E; cbn; [|done]. intros. simplify_eq. by eapply until_nul_no_nul.
Qed.

(** A string followed by its NUL, stored at [i]. *)
Lemma cstr_sub a i s :
  0 ≤ i → no_nul s → sub a i (zlen s + 1) = s ++ [NUL] → cstr a i = Ok s.
Proof.
  intros Hi Hs Hsub. unfold sub in Hsub.
  apply (cstr_at _ _ _ (drop (Z.to_nat (zlen s + 1)) (drop (Z.to_nat i) a))); [done..|].
  rewrite <- (take_drop (Z.to_nat (zlen s + 1)) (drop (Z.to_nat i) a)) at 1.
  rewrite Hsub. by rewrite <- app_assoc.
Qed.

Lemma until_nul_split l s : until_nul l = Some s → ∃ l', l = s ++ NUL :: l'.
Proof.
  revert s. induction l as [|b l IH]; intros s; cbn; [done|].
  case_decide as Hb; [intros; simplify_eq; by exists l|].
  destruct (until_nul l) as [s'|]; [|done]. intros [= <-].
  destruct (IH s' eq_refl) as [l' ->]. by exists l'.
Qed.

Lemma cstr_inv a i s : cstr a i = Ok s → 0 ≤ i ∧ no_nul s ∧ sub a i (zlen s + 1) = s ++ [NUL].
Proof.
  intros Hc. pose proof (cstr_no_nul _ _ _ Hc) as Hn. unfold cstr in Hc.
  destruct (Z.leb_spec 0 i); [|done]. destruct (until_nul _) as [s'|] eqn:E; cbn in Hc; [|done].
  simplify_eq. split_and!; [done..|]. apply until_nul_split in E as [l' E].
  unfold sub. rewrite E. unfold zlen. replace (Z.to_nat _) with (length s + 1)%nat by lia.
  rewrite take_app_add. done.
Qed.

Lemma no_nul_app v w : no_nul (v ++ w) ↔ no_nul v ∧ no_nul w.
Proof. unfold no_nul. rewrite elem_of_app. naive_solver. Qed.

(** ** Writing strings into an array *)

Lemma cstr_upd_same a i s :
  0 ≤ i → i + zlen s + 1 ≤ zlen a → no_nul s → cstr (upd a i (s ++ [NUL])) i = Ok s.
Proof.
  intros Hi Hr Hs. apply cstr_sub; [done..|].
  pose proof (sub_upd_same a i (s ++ [NUL])) as H. rewrite zlen_app, zlen_cons, zlen_nil in H.
  apply H; lia.
Qed.

Lemma cstr_upd_other a i s j x :
  cstr a i = Ok s → 0 ≤ j → j + zlen x ≤ zlen a →
  i + zlen s + 1 ≤ j ∨ j + zlen x ≤ i → cstr (upd a j x) i = Ok s.
Proof.
  intros (Hi & Hn & Hs)%cstr_inv Hj Hx Hd. apply cstr_sub; [done..|].
  pose proof (zlen_nonneg s). by rewrite sub_upd_other by lia.
Qed.

(** Appending after the string at [i]. *)
Lemma cstr_upd_append a i s x :
  cstr a i = Ok s → i + zlen s + zlen x + 1 ≤ zlen a → no_nul x →
  cstr (upd a (i + zlen s) (x ++ [NUL])) i = Ok (s ++ x).
Proof.
  intros (Hi & Hn & Hs)%cstr_inv Hr Hx. unfold no_nul in *.
  pose proof (zlen_nonneg s). pose proof (zlen_nonneg x). apply cstr_sub; [done| |].
  { unfold no_nul. rewrite elem_of_app. naive_solver. }
  pose proof (sub_upd_append a i (zlen s) (x ++ [NUL])) as Ha.
  rewrite zlen_app, zlen_cons, zlen_nil in Ha. rewrite zlen_app.
  replace (zlen s + zlen x + 1) with (zlen s + (zlen x + (1 + 0))) by lia.
  rewrite Ha by lia. rewrite (sub_prefix a i (zlen s + 1)) by lia. rewrite Hs.
  unfold zlen at 1. rewrite Nat2Z.id, take_app_length. by rewrite app_assoc.
Qed.

(** ** Comparison *)

Definition byte_val (b : byte) : Z := byte.unsigned b.

(** [strncmp]: at most [n] bytes, as [unsigned char], up to and including a NUL. *)
Fixpoint strncmp (s t : list byte) (n : nat) : Z :=
  match n with
  | O => 0
  | S n' =>
      let a := default NUL (head s) in
      let b := default NUL (head t) in
      if decide (a = b) then
        if decide (a = NUL) then 0 else strncmp (tail s) (tail t) n'
      else byte_val a - byte_val b
  end.

Definition strcmp (s t : list byte) : Z := strncmp s t (S (Nat.max (length s) (length t))).

Lemma byte_val_inj a b : byte_val a - byte_val b = 0 → a = b.
Proof. intros. apply byte.unsigned_inj. unfold byte_val in *. lia. Qed.

Lemma strncmp_zero n s t :
  no_nul s → no_nul t → strncmp s t n = 0 ↔ take n s = take n t.
Proof.
  unfold no_nul. revert s t. induction n as [|n IH]; intros s t Hs Ht; [done|].
  destruct s as [|a s], t as [|b t]; cbn -[byte_val]; try done.
  - case_decide; [subst; set_solver|]. split; [|done]. intros ?%byte_val_inj. congruence.
  - case_decide; [subst; set_solver|]. split; [|done]. intros ?%byte_val_inj. congruence.
  - case_decide as Hab.
    + subst b. rewrite decide_False by set_solver. rewrite IH by set_solver.
      split; [by intros ->|by intros [= ->]].
    + split; [|by intros [=]]. intros ?%byte_val_inj. congruence.
Qed.

Lemma strcmp_zero s t : no_nul s → no_nul t → strcmp s t = 0 ↔ s = t.
Proof.
  intros. unfold strcmp. rewrite strncmp_zero by done. by rewrite !take_ge by lia.
Qed.

(** The comparisons the program makes are all tests against 0. *)
Definition str_eq (s t : list byte) : bool := strcmp s t =? 0.

Lemma str_eq_spec s t : no_nul s → no_nul t → str_eq s t = bool_decide (s = t).
Proof.
  intros. unfold str_eq. apply eq_bool_prop_intro. rewrite bool_decide_spec.
  rewrite Is_true_true, Z.eqb_eq. by apply strcmp_zero.
Qed.

(** [strncmp(s, p, strlen(p)) == 0]: [p] is a prefix of [s]. *)
Lemma strncmp_prefix s p :
  no_nul s → no_nul p → strncmp s p (length p) = 0 ↔ p `prefix_of` s.
Proof.
  intros. rewrite strncmp_zero by done. rewrite (take_ge p) by done. split.
  - intros Ht. exists (drop (length p) s). rewrite <- Ht at 1. by rewrite take_drop.
  - intros [k ->]. by rewrite take_app_length.
Qed.

(** ** [atoi] *)

Definition digit (b : byte) : option Z :=
  let v := byte_val b - 48 in if (0 <=? v) && (v <=? 9) then Some v else None.
Definition is_blank (b : byte) : bool :=
  let v := byte_val b in (v =? 32) || ((9 <=? v) && (v <=? 13)).

Fixpoint digits (acc : Z) (s : list byte) : Z :=
  match s with
  | b :: s' => match digit b with Some d => digits (acc * 10 + d) s' | None => acc end
  | [] => acc
  end.

(** [(int)strtol(s)], which saturates at the range of [long]. *)
Definition int_of_long (z : Z) : Z := wrap32 (Z.max (- 2 ^ 63) (Z.min z (2 ^ 63 - 1))).

Fixpoint atoi (s : list byte) : Z :=
  match s with
  | [] => 0
  | b :: s' =>
      if is_blank b then atoi s'
      else if byte_val b =? 45 then int_of_long (- digits 0 s')
      else if byte_val b =? 43 then int_of_long (digits 0 s')
      else int_of_long (digits 0 s)
  end.
