(* ===== verification/Memory.v ===== *)
(** Memory as a set of blocks and the pointers into it, for the parts of the
    program that keep pointers to each other's buffers: argument strings, network
    buffers, the storage of tasks. *)

From S2P Require Import Prelude CString.

(** A pointer is a block and an offset; NULL is [None] of [option addr]. *)
Definition addr : Type := positive * Z.
Definition addr_add (p : addr) (n : Z) : addr := (p.1, p.2 + n).
Definition mem : Type := gmap positive (list byte).

Definition block (m : mem) (b : positive) : res (list byte) := of_option OutOfBounds (m !! b).

Definition load (m : mem) (p : addr) : res byte := a ← block m p.1; rd a p.2.
Definition load_n (m : mem) (p : addr) (n : Z) : res (list byte) := a ← block m p.1; rd_n a p.2 n.
Definition load_int (m : mem) (p : addr) : res Z := int_of_le <$> load_n m p 4.
Definition load_str (m : mem) (p : addr) : res (list byte) := a ← block m p.1; cstr a p.2.

Definition store_n (m : mem) (p : addr) (x : list byte) : res mem :=
  a ← block m p.1; a ← memcpy a p.2 x; Ok (<[p.1 := a]> m).
Definition store (m : mem) (p : addr) (c : byte) : res mem := store_n m p [c].
Definition store_int (m : mem) (p : addr) (z : Z) : res mem := store_n m p (int_le z).
Definition store_zeros (m : mem) (p : addr) (n : Z) : res mem := store_n m p (zeros n).

(** A bound for loops that advance through the block of [p]. *)
Definition block_fuel (m : mem) (p : addr) : nat := S (length (default [] (m !! p.1))).

(** ** What an array holds at an offset *)

Record holds {A} (a : list A) (i : Z) (x : list A) : Prop := {
  ho_lo : 0 ≤ i;
  ho_hi : i + zlen x ≤ zlen a;
  ho_sub : sub a i (zlen x) = x;
}.

Lemma holds_upd {A} (a : list A) i x : 0 ≤ i → i + zlen x ≤ zlen a → holds (upd a i x) i x.
Proof. intros. split; [done|by rewrite zlen_upd|by apply sub_upd_same]. Qed.

Lemma holds_upd_other {A} (a : list A) i x j y :
  holds a i x → 0 ≤ j → j + zlen y ≤ zlen a → i + zlen x ≤ j ∨ j + zlen y ≤ i →
  holds (upd a j y) i x.
Proof.
  intros [Hl Hh Hs] ? ? ?. pose proof (zlen_nonneg x).
  split; [done|by rewrite zlen_upd|]. by rewrite sub_upd_other.
Qed.

Lemma holds_app {A} (a : list A) i x y : holds a i (x ++ y) ↔ holds a i x ∧ holds a (i + zlen x) y.
Proof.
  pose proof (zlen_nonneg x). pose proof (zlen_nonneg y). split.
  - intros [Hl Hh Hs]. rewrite zlen_app in *. split; split; try lia.
    + rewrite (sub_prefix a i (zlen x + zlen y)) by lia. rewrite Hs.
      unfold zlen. by rewrite Nat2Z.id, take_app_length.
    + rewrite <- (sub_shift a i (zlen x + zlen y)) by lia. rewrite Hs.
      unfold sub, zlen. rewrite !Nat2Z.id, drop_app_length. apply take_ge. lia.
  - intros [[Hl Hh Hs] [Hl2 Hh2 Hs2]]. split; [done|rewrite zlen_app; lia|].
    rewrite zlen_app. apply list_eq. intros k.
    assert (length (sub a i (zlen x + zlen y)) = length (x ++ y)) as Hlen.
    { pose proof (zlen_sub a i (zlen x + zlen y)) as Hz. unfold zlen in *. rewrite length_app. lia. }
    destruct (decide (k < length (x ++ y))%nat) as [Hk|Hk].
    2: { by rewrite !lookup_ge_None_2 by lia. }
    rewrite length_app in Hk. rewrite lookup_sub by (unfold zlen; lia).
    destruct (decide (k < length x)%nat).
    + rewrite lookup_app_l by done. rewrite <- Hs. rewrite lookup_sub by (unfold zlen; lia). done.
    + rewrite lookup_app_r by lia. rewrite <- Hs2. rewrite lookup_sub by (unfold zlen; lia).
      f_equal. unfold zlen in *. lia.
Qed.

Lemma holds_cons {A} (a : list A) i c x : holds a i (c :: x) ↔ holds a i [c] ∧ holds a (i + 1) x.
Proof. change (c :: x) with ([c] ++ x). by rewrite holds_app, zlen_cons, zlen_nil. Qed.

Lemma holds_rd {A} (a : list A) i c : holds a i [c] → rd a i = Ok c.
Proof.
  intros [Hl Hh Hs]. apply rd_ok; [done|].
  assert (sub a i 1 !! 0%nat = Some c) as H by (by rewrite zlen_cons, zlen_nil in Hs; rewrite Hs).
  by rewrite lookup_sub, Nat.add_0_r in H by lia.
Qed.

Lemma holds_rd_n {A} (a : list A) i x : holds a i x → rd_n a i (zlen x) = Ok x.
Proof. intros [Hl Hh Hs]. pose proof (zlen_nonneg x). by rewrite rd_n_ok, Hs by lia. Qed.

Lemma holds_cstr a i s : holds a i (s ++ [NUL]) → no_nul s → cstr a i = Ok s.
Proof. intros [Hl Hh Hs] Hn. apply cstr_sub; [done..|]. by rewrite zlen_app in Hs. Qed.

Lemma cstr_holds a i s : cstr a i = Ok s → holds a i (s ++ [NUL]).
Proof.
  intros (Hi & Hn & Hs)%cstr_inv. pose proof (zlen_nonneg s).
  assert (Hz : zlen (sub a i (zlen s + 1)) = zlen s + 1) by (rewrite Hs, zlen_app; done).
  split; [done| |by rewrite zlen_app].
  rewrite zlen_app, zlen_cons, zlen_nil. unfold sub, zlen in *.
  rewrite length_take, length_drop in Hz. lia.
Qed.

Lemma holds_zeros a i n k :
  holds a i (zeros n) → 0 ≤ k ≤ n → holds a i (zeros k) ∧ holds a (i + k) (zeros (n - k)).
Proof.
  intros H Hk. replace (zeros n) with (zeros k ++ zeros (n - k)) in H.
  - rewrite holds_app, zlen_zeros in H by lia. done.
  - unfold zeros. rewrite <- replicate_add. f_equal. lia.
Qed.

(** ** Accesses to memory *)

Lemma load_ok m b i a c : m !! b = Some a → holds a i [c] → load m (b, i) = Ok c.
Proof. intros Hb Hh. unfold load, block. cbn. rewrite Hb. by apply holds_rd. Qed.

Lemma load_n_ok m b i a x : m !! b = Some a → holds a i x → load_n m (b, i) (zlen x) = Ok x.
Proof. intros Hb Hh. unfold load_n, block. cbn. rewrite Hb. by apply holds_rd_n. Qed.

Lemma load_int_ok m b i a z :
  m !! b = Some a → holds a i (int_le z) → load_int m (b, i) = Ok (wrap32 z).
Proof.
  intros Hb Hh. unfold load_int. pose proof (load_n_ok _ _ _ _ _ Hb Hh) as H.
  rewrite zlen_int_le in H. rewrite H. cbn. f_equal. unfold int_of_le, int_le.
  rewrite le_combine_split. change (Z.of_nat 4 * 8) with 32. by rewrite wrap32_mod.
Qed.

Lemma load_str_ok m b i a s :
  m !! b = Some a → holds a i (s ++ [NUL]) → no_nul s → load_str m (b, i) = Ok s.
Proof. intros Hb Hh Hs. unfold load_str, block. cbn. rewrite Hb. by apply holds_cstr. Qed.

Lemma settles_load_str m p : settles (load_str m p) (λ _, True).
Proof.
  unfold load_str, block, cstr. destruct (m !! p.1) as [a|]; [|done]. cbn [of_option mbind res_bind].
  destruct (0 <=? p.2); [|done]. by destruct (until_nul _).
Qed.

Lemma load_str_inv m p s :
  load_str m p = Ok s → ∃ a, m !! p.1 = Some a ∧ holds a p.2 (s ++ [NUL]) ∧ no_nul s.
Proof.
  unfold load_str, block. destruct (m !! p.1) as [a|]; [|done]. cbn. intros H.
  exists a. split_and!; [done|by apply cstr_holds|by eapply cstr_no_nul].
Qed.

Lemma store_n_ok m b i a x :
  m !! b = Some a → 0 ≤ i → i + zlen x ≤ zlen a → store_n m (b, i) x = Ok (<[b := upd a i x]> m).
Proof. intros Hb ? ?. unfold store_n, block. cbn. rewrite Hb. cbn. by rewrite memcpy_ok. Qed.

(** Writing two adjacent pieces. *)
Lemma store_n_app m b i a x y :
  m !! b = Some a → 0 ≤ i → i + zlen x + zlen y ≤ zlen a →
  (m ← store_n m (b, i) x; store_n m (b, i + zlen x) y) = Ok (<[b := upd a i (x ++ y)]> m).
Proof.
  intros Hb Hi Hsz. pose proof (zlen_nonneg y). pose proof (zlen_nonneg x).
  rewrite (store_n_ok _ _ _ a) by (done || lia). cbn [mbind res_bind].
  rewrite (store_n_ok _ _ _ (upd a i x)); [|by rewrite lookup_insert_eq|lia|rewrite zlen_upd; lia].
  by rewrite upd_upd_app, insert_insert_eq by lia.
Qed.

Lemma load_str_other m b a p s :
  load_str m p = Ok s → p.1 ≠ b → load_str (<[b := a]> m) p = Ok s.
Proof. intros H Hb. unfold load_str, block in *. by rewrite lookup_insert_ne. Qed.
