(* ===== verification/Protocol.v ===== *)
(** The wire protocol (src/protocol.h): token streams, their image in a byte
    buffer, and the split of a stream into arguments and variables. *)

From S2P Require Import Prelude CString Memory.

(** [ProtocolMsgType]; without negative members, its type is [unsigned int]. *)
Definition PROTOCOL_MSG_NONE : Z := 0.
Definition PROTOCOL_MSG_PING : Z := 1.
Definition PROTOCOL_MSG_TASK_RUN : Z := 2.
Definition PROTOCOL_MSG_TASK_INFO : Z := 3.
Definition PROTOCOL_MSG_WORKSPACE_SET : Z := 4.
Definition PROTOCOL_MSG_WORKSPACE_INFO : Z := 5.
Definition PROTOCOL_MSG_PROC_INFO : Z := 6.
Definition PROTOCOL_MSG_SUCCESS : Z := 7.
Definition PROTOCOL_MSG_ERR : Z := 8.
Definition msg_type (z : Z) : Z := z mod 2 ^ 32.

(** [ProtocolTokenType], kept in an [unsigned char]. *)
Definition PROTOCOL_TOKEN_NONE : byte := Byte.x00.
Definition PROTOCOL_TOKEN_ARG : byte := Byte.x01.
Definition PROTOCOL_TOKEN_VAR : byte := Byte.x02.

Record ProtocolToken := mkToken { t_type : byte; t_value : option addr }.

(** The tokens' array, of the length it was allocated with, is part of the stream. *)
Record ProtocolTokenStream := mkStream {
  ts_type : Z;
  ts_length : Z;
  ts_tokens : list ProtocolToken;
}.

Definition zero_token : ProtocolToken := mkToken PROTOCOL_TOKEN_NONE None.
Definition set_ts_type (z : Z) (ts : ProtocolTokenStream) : ProtocolTokenStream :=
  mkStream z (ts_length ts) (ts_tokens ts).
Definition set_ts_length (n : Z) (ts : ProtocolTokenStream) : ProtocolTokenStream :=
  mkStream (ts_type ts) n (ts_tokens ts).
Definition set_ts_tokens (toks : list ProtocolToken) (ts : ProtocolTokenStream) : ProtocolTokenStream :=
  mkStream (ts_type ts) (ts_length ts) toks.

(** [memset(token_stream->tokens, 0, sizeof(ProtocolToken) * n)] *)
Definition clear_tokens (n : Z) (ts : ProtocolTokenStream) : res ProtocolTokenStream :=
  toks ← memcpy (ts_tokens ts) 0 (replicate (Z.to_nat n) zero_token);
  Ok (set_ts_tokens toks ts).

(** [ok] is whether the allocation succeeded; [type] is the field the allocated
    memory came with. *)
Definition protocol_tokenstream_alloc (ok : bool) (type token_length : Z) : res (option ProtocolTokenStream) :=
  if ok then
    ts ← clear_tokens token_length
           (mkStream type 0 (replicate (Z.to_nat token_length) zero_token));
    Ok (Some ts)
  else Ok None.

Definition protocol_tokenstream_reset (ts : ProtocolTokenStream) : res ProtocolTokenStream :=
  ts ← clear_tokens (ts_length ts) ts;
  Ok (set_ts_length 0 ts).

Definition protocol_tokenstream_add_token (ts : ProtocolTokenStream) (type : byte) (value : option addr)
  : res ProtocolTokenStream :=
  toks ← wr (ts_tokens ts) (ts_length ts) (mkToken type value);
  Ok (set_ts_length (ts_length ts + 1) (set_ts_tokens toks ts)).

(** ** Reading a buffer *)

(** [while (p[c] != 0) c++] *)
Fixpoint scan_nul (fuel : nat) (m : mem) (p : addr) (c : Z) : res Z :=
  b ← load m (addr_add p c);
  if decide (b = NUL) then Ok c
  else match fuel with O => Fault OutOfFuel | S fuel' => scan_nul fuel' m p (c + 1) end.

(** The [for] loop of [protocol_buf_to_tokenstream]; [n] is the number of
    iterations left. *)
Fixpoint read_tokens (n : nat) (i cur : Z) (m : mem) (in_buf : addr) (ts : ProtocolTokenStream)
  : res ProtocolTokenStream :=
  match n with
  | O => Ok ts
  | S n' =>
      type ← load m (addr_add in_buf cur);
      let cur := cur + 1 in
      c ← scan_nul (block_fuel m in_buf) m (addr_add in_buf cur) 0;
      toks ← wr (ts_tokens ts) i (mkToken type (Some (addr_add in_buf cur)));
      read_tokens n' (i + 1) (cur + (c + 1)) m in_buf (set_ts_tokens toks ts)
  end.

Definition protocol_buf_to_tokenstream (m : mem) (in_buf : option addr) (in_buf_len start_loc : Z)
    (token_stream : option ProtocolTokenStream) : res (Z * option ProtocolTokenStream) :=
  match in_buf, token_stream with
  | Some p, Some ts =>
      stream_type ← load_int m (addr_add p start_loc);
      token_len ← load_int m (addr_add p (start_loc + 4));
      if token_len <? 1 then Ok (-1, Some ts)
      else
        ts ← clear_tokens token_len (set_ts_length token_len (set_ts_type (msg_type stream_type) ts));
        ts ← read_tokens (Z.to_nat token_len) 0 (start_loc + 8) m p ts;
        Ok (0, Some ts)
  | _, _ => Ok (-1, token_stream)
  end.

(** ** Writing a buffer *)

(** [while (value[c] != 0) { out[c] = value[c]; c++; }] *)
Fixpoint copy_nul (fuel : nat) (m : mem) (src dst : addr) (c : Z) : res (Z * mem) :=
  b ← load m (addr_add src c);
  if decide (b = NUL) then Ok (c, m)
  else
    match fuel with
    | O => Fault OutOfFuel
    | S fuel' => m ← store m (addr_add dst c) b; copy_nul fuel' m src dst (c + 1)
    end.

(** The [for] loop of [protocol_tokenstream_to_buf]. *)
Fixpoint write_tokens (n : nat) (i cur : Z) (ts : ProtocolTokenStream) (out_buf : addr) (m : mem)
  : res (Z * mem) :=
  match n with
  | O => Ok (cur, m)
  | S n' =>
      token ← rd (ts_tokens ts) i;
      match t_value token with
      | Some value =>
          if decide (t_type token = PROTOCOL_TOKEN_NONE) then write_tokens n' (i + 1) cur ts out_buf m
          else
            m ← store m (addr_add out_buf cur) (t_type token);
            let cur := cur + 1 in
            '(c, m) ← copy_nul (block_fuel m out_buf) m value (addr_add out_buf cur) 0;
            m ← store m (addr_add out_buf (cur + c)) NUL;
            write_tokens n' (i + 1) (cur + (c + 1)) ts out_buf m
      | None => write_tokens n' (i + 1) cur ts out_buf m
      end
  end.

Definition protocol_tokenstream_to_buf (token_stream : option ProtocolTokenStream) (out_buf : option addr)
    (out_buf_len start_loc : Z) (m : mem) : res (Z * mem) :=
  match out_buf, token_stream with
  | Some p, Some ts =>
      m ← store_int m (addr_add p start_loc) (ts_type ts);
      m ← store_int m (addr_add p (start_loc + 4)) (ts_length ts);
      write_tokens (Z.to_nat (ts_length ts)) 0 (start_loc + 8) ts p m
  | _, _ => Ok (-1, m)
  end.

(** ** Splitting a stream *)

(** The arrays [args] and [vars] of the caller. *)
Fixpoint split_tokens (n : nat) (i argc varc : Z) (ts : ProtocolTokenStream)
    (args vars : list (option addr)) : res (Z * Z * list (option addr) * list (option addr)) :=
  match n with
  | O => Ok (argc, varc, args, vars)
  | S n' =>
      token ← rd (ts_tokens ts) i;
      if decide (t_type token = PROTOCOL_TOKEN_ARG) then
        args ← wr args argc (t_value token);
        split_tokens n' (i + 1) (argc + 1) varc ts args vars
      else if decide (t_type token = PROTOCOL_TOKEN_VAR) then
        vars ← wr vars varc (t_value token);
        split_tokens n' (i + 1) argc (varc + 1) ts args vars
      else split_tokens n' (i + 1) argc varc ts args vars
  end.

Definition protocol_parse_token_stream (ts : ProtocolTokenStream) (args vars : list (option addr))
  : res (Z * (Z * list (option addr) * list (option addr))) :=
  let type := ts_type ts mod 256 in
  '(argc, varc, args, vars) ← split_tokens (Z.to_nat (ts_length ts)) 0 0 0 ts args vars;
  args ← wr args argc None;
  vars ← wr vars varc None;
  Ok (0, (type, args, vars)).

(** ** Messages *)

Section Messages.
(** [socket_send] of net.h, which has an effect on [W] and returns the number of
    bytes sent. *)
Context {W : Type} (socket_send : Z → list byte → W → res (Z * W)).

Definition protocol_send (socket : Z) (data_buf : addr) (buf_len : Z) (ts : ProtocolTokenStream)
    (m : mem) (w : W) : res (Z * mem * W) :=
  '(length, m) ← protocol_tokenstream_to_buf (Some ts) (Some data_buf) buf_len 4 m;
  if length <? 1 then Ok (-1, m, w)
  else
    let length := length + 4 in
    m ← store_int m data_buf length;
    data ← load_n m data_buf length;
    '(sent, w) ← socket_send socket data w;
    Ok (sent, m, w).
End Messages.

Definition protocol_read (data_buf : addr) (buf_len : Z) (ts : ProtocolTokenStream) (m : mem)
  : res (Z * ProtocolTokenStream) :=
  msg_len ← load_int m data_buf;
  '(r, ts') ← protocol_buf_to_tokenstream m (Some data_buf) (msg_len - 4) 4 (Some ts);
  let ts' := default ts ts' in
  if decide (r = 0) then Ok (0, ts') else Ok (-1, ts').

(** ** The wire format *)

(** A token as data, its image, and the image of a message body: type, count,
    tokens. *)
Abbreviation wtoken := (byte * list byte)%type.
Definition enc (t : wtoken) : list byte := t.1 :: t.2 ++ [NUL].
Definition payload (l : list wtoken) : list byte := concat (map enc l).
Definition wire (type length : Z) (l : list wtoken) : list byte :=
  int_le type ++ int_le length ++ payload l.

Definition wtoken_ok (t : wtoken) : Prop := no_nul t.2.
#[export] Instance wtoken_ok_dec t : Decision (wtoken_ok t).
Proof. unfold wtoken_ok. apply _. Defined.

Lemma payload_cons t l : payload (t :: l) = t.1 :: t.2 ++ [NUL] ++ payload l.
Proof. unfold payload, enc. cbn. by rewrite <- app_assoc. Qed.

Lemma payload_app l l' : payload (l ++ l') = payload l ++ payload l'.
Proof. unfold payload. by rewrite map_app, concat_app. Qed.

(** A token of the stream stands for a token as data. *)
Definition means (m : mem) (t : ProtocolToken) (wt : wtoken) : Prop :=
  t_type t = wt.1 ∧ ∃ p, t_value t = Some p ∧ load_str m p = Ok wt.2.

(** *** Deserialising *)

(** The tokens found at offset [pos] of block [b]. *)
Fixpoint tokens_at (b : positive) (pos : Z) (l : list wtoken) : list ProtocolToken :=
  match l with
  | [] => []
  | t :: l => mkToken t.1 (Some (b, pos + 1)) :: tokens_at b (pos + 1 + (zlen t.2 + 1)) l
  end.

Lemma length_tokens_at b pos l : length (tokens_at b pos l) = length l.
Proof. revert pos. induction l as [|t l IH]; intros pos; [done|]. cbn. by rewrite IH. Qed.

Lemma tokens_at_mean m b a pos l :
  m !! b = Some a → holds a pos (payload l) → Forall wtoken_ok l →
  Forall2 (means m) (tokens_at b pos l) l.
Proof.
  intros Hb Hh Hok. revert pos Hh. induction Hok as [|[ty s] l Hs Hok IH]; intros pos Hh; [constructor|].
  rewrite payload_cons, holds_cons, app_assoc, holds_app in Hh. cbn [fst snd] in Hh.
  destruct Hh as (Ht & Hstr & Hrest). cbn. constructor.
  - split; [done|]. eexists. split; [done|]. by eapply load_str_ok.
  - apply IH. rewrite zlen_app, zlen_cons, zlen_nil in Hrest.
    by replace (pos + 1 + (zlen s + 1)) with (pos + 1 + (zlen s + (1 + 0))) by lia.
Qed.

Lemma scan_nul_spec fuel m b a i c s :
  m !! b = Some a → holds a (i + c) (s ++ [NUL]) → no_nul s → (length s ≤ fuel)%nat →
  scan_nul fuel m (b, i) c = Ok (c + zlen s).
Proof.
  intros Hb. revert fuel c. induction s as [|x s IH]; intros fuel c Hh Hn Hf.
  - destruct fuel; cbn; rewrite (load_ok _ _ _ a NUL) by done; cbn; f_equal; rewrite zlen_nil; lia.
  - apply not_elem_of_cons in Hn as [Hx Hn]. cbn [app] in Hh.
    apply holds_cons in Hh as [Hx1 Hh]. destruct fuel as [|fuel]; [cbn in Hf; lia|]. cbn [scan_nul].
    unfold addr_add. cbn [fst snd]. rewrite (load_ok _ _ _ a x) by done. cbn [mbind res_bind].
    rewrite decide_False by done. rewrite IH; [rewrite zlen_cons; f_equal; lia| |done|cbn in Hf; lia].
    by rewrite Z.add_assoc.
Qed.

Lemma holds_length {A} (a : list A) i x : holds a i x → (length x ≤ length a)%nat.
Proof. intros [? ? _]. unfold zlen in *. lia. Qed.

Lemma read_tokens_spec m b a off l i cur ts :
  m !! b = Some a → holds a (off + cur) (payload l) → Forall wtoken_ok l →
  0 ≤ i → i + zlen l ≤ zlen (ts_tokens ts) →
  read_tokens (length l) i cur m (b, off) ts =
  Ok (set_ts_tokens (upd (ts_tokens ts) i (tokens_at b (off + cur) l)) ts).
Proof.
  intros Hb Hh Hok. revert i cur ts Hh. induction Hok as [|[ty s] l Hs Hok IH]; intros i cur ts Hh Hi Hsz.
  { cbn. rewrite upd_nil. by destruct ts. }
  rewrite payload_cons, holds_cons, app_assoc, holds_app in Hh. cbn [fst snd] in Hh.
  destruct Hh as (Ht & Hstr & Hrest). rewrite zlen_cons in Hsz. pose proof (zlen_nonneg l).
  cbn [length read_tokens]. unfold addr_add. cbn [fst snd].
  rewrite (load_ok _ _ _ a ty) by done. cbn [mbind res_bind].
  rewrite (scan_nul_spec _ m b a (off + (cur + 1)) 0 s); [|done| |done|].
  2: { by replace (off + (cur + 1) + 0) with (off + cur + 1) by lia. }
  2: { unfold block_fuel. cbn [fst]. rewrite Hb. cbn. apply holds_length in Hstr.
       rewrite length_app in Hstr. lia. }
  cbn [mbind res_bind]. rewrite wr_ok by lia. cbn [mbind res_bind].
  assert (Hz : zlen (upd (ts_tokens ts) i [mkToken ty (Some (b, off + (cur + 1)))]) = zlen (ts_tokens ts)).
  { rewrite zlen_upd; rewrite ?zlen_cons, ?zlen_nil; lia. }
  rewrite IH.
  - unfold set_ts_tokens. cbn [ts_tokens ts_type ts_length]. do 2 f_equal.
    replace (i + 1) with (i + zlen [mkToken ty (Some (b, off + (cur + 1)))]) by done.
    assert (zlen (tokens_at b (off + (cur + 1 + (0 + zlen s + 1))) l) = zlen l) as Hl
      by (unfold zlen; by rewrite length_tokens_at).
    rewrite upd_upd_app by (rewrite ?Hl, ?zlen_cons, ?zlen_nil; lia).
    cbn. do 2 f_equal; [by rewrite Z.add_assoc|f_equal; lia].
  - rewrite zlen_app, zlen_cons, zlen_nil in Hrest.
    by replace (off + (cur + 1 + (0 + zlen s + 1))) with (off + cur + 1 + (zlen s + (1 + 0))) by lia.
  - lia.
  - cbn [ts_tokens set_ts_tokens]. rewrite Hz. lia.
Qed.

Lemma msg_type_wrap z : msg_type (wrap32 z) = msg_type z.
Proof.
  unfold msg_type, wrap32. rewrite Zminus_mod, Zmod_mod, <- Zminus_mod. f_equal. lia.
Qed.

Lemma wrap32_small n : 0 ≤ n ≤ INT_MAX → wrap32 n = n.
Proof. intros. apply wrap32_id. unfold is_int, INT_MAX, INT_MIN in *. lia. Qed.

(** The stream read from [wire type (zlen l) l]. *)
Definition stream_at (b : positive) (pos : Z) (type : Z) (l : list wtoken) (ts : ProtocolTokenStream)
  : ProtocolTokenStream :=
  mkStream (msg_type type) (zlen l) (tokens_at b pos l ++ drop (length l) (ts_tokens ts)).

Section Deserialise.
Context (m : mem) (b : positive) (a : list byte) (off start len : Z) (ts : ProtocolTokenStream).
Hypothesis Hb : m !! b = Some a.
Hypothesis Hcap : zlen (ts_tokens ts) ≤ INT_MAX.

(** The header's two integers. *)
Lemma header_loads type n rest :
  holds a (off + start) (int_le type ++ int_le n ++ rest) →
  load_int m (addr_add (b, off) start) = Ok (wrap32 type) ∧
  load_int m (addr_add (b, off) (start + 4)) = Ok (wrap32 n) ∧
  holds a (off + start + 8) rest.
Proof.
  rewrite !holds_app, !zlen_int_le. intros (H1 & H2 & H3). unfold addr_add. cbn [fst snd]. split_and!.
  - by apply (load_int_ok _ _ _ a).
  - rewrite Z.add_assoc. by apply (load_int_ok _ _ _ a).
  - by replace (off + start + 8) with (off + start + 4 + 4) by lia.
Qed.

Lemma buf_to_tokenstream_spec type l rest :
  holds a (off + start) (wire type (zlen l) l ++ rest) → Forall wtoken_ok l →
  1 ≤ zlen l ≤ zlen (ts_tokens ts) →
  protocol_buf_to_tokenstream m (Some (b, off)) len start (Some ts) =
  Ok (0, Some (stream_at b (off + start + 8) type l ts)).
Proof.
  intros Hh Hok Hl. unfold wire in Hh. rewrite <- !app_assoc in Hh.
  destruct (header_loads _ _ _ Hh) as (E1 & E2 & Hp). apply holds_app in Hp as [Hp _].
  unfold protocol_buf_to_tokenstream. rewrite E1, E2. cbn [mbind res_bind].
  rewrite wrap32_small by lia. destruct (Z.ltb_spec (zlen l) 1); [lia|].
  unfold clear_tokens. cbn [ts_tokens set_ts_length set_ts_type].
  assert (Hz : zlen (replicate (Z.to_nat (zlen l)) zero_token) = zlen l) by (rewrite zlen_replicate; lia).
  rewrite memcpy_ok by lia. cbn [mbind res_bind].
  replace (Z.to_nat (zlen l)) with (length l) by (unfold zlen; lia).
  rewrite (read_tokens_spec m b a off l 0 (start + 8)); [|done| |done|done|].
  - unfold set_ts_tokens, stream_at. cbn [mbind res_bind ts_tokens ts_type ts_length set_ts_length set_ts_type].
    assert (length (tokens_at b (off + (start + 8)) l) = length l) as Ht by apply length_tokens_at.
    assert (zlen (replicate (length l) zero_token) = zlen l) as Hz' by by rewrite zlen_replicate.
    rewrite upd_twice; [|done|lia|unfold zlen in *; lia].
    rewrite upd_0, Ht, msg_type_wrap. by rewrite Z.add_assoc.
  - by rewrite Z.add_assoc.
  - cbn [ts_tokens set_ts_tokens]. rewrite zlen_upd by (rewrite ?zlen_replicate; unfold zlen in *; lia). lia.
Qed.

Lemma buf_to_tokenstream_count type n rest :
  holds a (off + start) (int_le type ++ int_le n ++ rest) → is_int n → n < 1 ∨ zlen (ts_tokens ts) < n →
  protocol_buf_to_tokenstream m (Some (b, off)) len start (Some ts) =
  if n <? 1 then Ok (-1, Some ts) else Fault OutOfBounds.
Proof.
  intros Hh Hn Hc. destruct (header_loads _ _ _ Hh) as (E1 & E2 & _).
  unfold protocol_buf_to_tokenstream. rewrite E1, E2. cbn [mbind res_bind].
  rewrite wrap32_id by done. destruct (Z.ltb_spec n 1); [done|].
  unfold clear_tokens. cbn [ts_tokens set_ts_length set_ts_type].
  rewrite memcpy_oob; [done|]. rewrite zlen_replicate. lia.
Qed.

End Deserialise.

(** *** Serialising *)

(** The tokens that get written: [stands b m toks l]: outside block [b], the live
    tokens of [toks] are [l]. *)
Inductive stands (b : positive) (m : mem) : list ProtocolToken → list wtoken → Prop :=
| stands_nil : stands b m [] []
| stands_live t p wt toks l :
    t_type t = wt.1 → wt.1 ≠ PROTOCOL_TOKEN_NONE → t_value t = Some p → p.1 ≠ b →
    load_str m p = Ok wt.2 → stands b m toks l → stands b m (t :: toks) (wt :: l)
| stands_dead t toks l :
    t_type t = PROTOCOL_TOKEN_NONE ∨ t_value t = None →
    stands b m toks l → stands b m (t :: toks) l.

Lemma stands_insert b m a toks l : stands b m toks l → stands b (<[b := a]> m) toks l.
Proof. induction 1; econstructor; eauto using load_str_other. Qed.

Lemma copy_nul_spec fuel m p b o a c s :
  load_str m (addr_add p c) = Ok s → p.1 ≠ b → m !! b = Some a →
  0 ≤ o + c → o + c + zlen s ≤ zlen a → (length s ≤ fuel)%nat →
  copy_nul fuel m p (b, o) c = Ok (c + zlen s, <[b := upd a (o + c) s]> m).
Proof.
  intros Hs Hpb. revert fuel m a c Hs. induction s as [|x s IH]; intros fuel m a c Hs Hb Hlo Hhi Hf;
    (destruct (load_str_inv _ _ _ Hs) as (src & Hsrc & Hh & Hn)); cbn [fst snd addr_add] in *.
  - assert (load m (addr_add p c) = Ok NUL) as E by by apply (load_ok _ _ _ src).
    destruct fuel; cbn [copy_nul]; rewrite E; cbn; rewrite upd_nil, insert_id by done;
      do 2 f_equal; unfold zlen; cbn; lia.
  - apply not_elem_of_cons in Hn as [Hx Hn]. cbn [app] in Hh. apply holds_cons in Hh as [Hx1 Hh].
    rewrite zlen_cons in Hhi. pose proof (zlen_nonneg s).
    destruct fuel as [|fuel]; [cbn in Hf; lia|]. cbn [copy_nul]. unfold addr_add at 1.
    rewrite (load_ok _ _ _ src x) by done. cbn [mbind res_bind]. rewrite decide_False by done.
    unfold store, addr_add. cbn [fst snd].
    rewrite (store_n_ok _ _ _ a) by (rewrite ?zlen_cons, ?zlen_nil; done || lia). cbn [mbind res_bind].
    assert (Hz : zlen (upd a (o + c) [x]) = zlen a) by (rewrite zlen_upd; rewrite ?zlen_cons, ?zlen_nil; lia).
    rewrite (IH _ _ (upd a (o + c) [x])).
    + rewrite insert_insert_eq, zlen_cons. replace (o + (c + 1)) with (o + c + zlen [x]) by (rewrite zlen_cons, zlen_nil; lia).
      rewrite upd_upd_app by (rewrite ?zlen_cons, ?zlen_nil; lia). do 2 f_equal. lia.
    + apply load_str_other; [|done]. cbn. eapply load_str_ok; [exact Hsrc| |done]. by rewrite Z.add_assoc.
    + by rewrite lookup_insert_eq.
    + lia.
    + rewrite Hz. lia.
    + cbn in Hf. lia.
Qed.

(** The three writes of a token. *)
Lemma upd_token (a : list byte) o ty s :
  0 ≤ o → o + (zlen s + 2) ≤ zlen a →
  upd (upd (upd a o [ty]) (o + 1) s) (o + (1 + zlen s)) [NUL] = upd a o (ty :: s ++ [NUL]).
Proof.
  intros Ho Ha. pose proof (zlen_nonneg s). replace (o + 1) with (o + zlen [ty]) by (rewrite zlen_cons, zlen_nil; lia).
  rewrite upd_upd_app by (rewrite ?zlen_cons, ?zlen_nil; lia).
  replace (o + (1 + zlen s)) with (o + zlen ([ty] ++ s)) by (rewrite zlen_app, zlen_cons, zlen_nil; lia).
  by rewrite upd_upd_app by (rewrite ?zlen_app, ?zlen_cons, ?zlen_nil; lia).
Qed.

Lemma rd_middle {A} (pre : list A) t post : rd (pre ++ t :: post) (zlen pre) = Ok t.
Proof. apply rd_ok; [apply zlen_nonneg|]. unfold zlen. rewrite Nat2Z.id. by apply list_lookup_middle. Qed.

Lemma write_tokens_spec toks l pre post ts b off cur m a :
  stands b m toks l → ts_tokens ts = pre ++ toks ++ post → m !! b = Some a →
  0 ≤ off + cur → off + cur + zlen (payload l) ≤ zlen a →
  write_tokens (length toks) (zlen pre) cur ts (b, off) m =
  Ok (cur + zlen (payload l), <[b := upd a (off + cur) (payload l)]> m).
Proof.
  intros Hst. revert pre cur m a Hst.
  assert (Hpre : ∀ pre (t : ProtocolToken), zlen pre + 1 = zlen (pre ++ [t]))
    by (intros; rewrite zlen_app, zlen_cons, zlen_nil; lia).
  revert l. induction toks as [|t toks IH]; intros l pre cur m a Hst Hts Hb Hlo Hhi.
  { inversion Hst. cbn. rewrite upd_nil, insert_id by done. do 2 f_equal. unfold zlen. cbn. lia. }
  cbn [length write_tokens]. rewrite Hts at 1. rewrite (rd_middle pre t). cbn [mbind res_bind].
  inversion Hst as [|? p [ty s] ? l' Hty Hlive Hval Hpb Hstr Hst'|? ? ? Hdead Hst']; subst.
  - cbn [fst snd] in *. rewrite Hval, Hty, decide_False by done.
    rewrite payload_cons in *. cbn [fst snd] in *. rewrite zlen_cons, !zlen_app, zlen_cons, zlen_nil in Hhi.
    pose proof (zlen_nonneg s). pose proof (zlen_nonneg (payload l')).
    unfold store, addr_add. cbn [fst snd].
    rewrite (store_n_ok _ _ _ a) by (rewrite ?zlen_cons, ?zlen_nil; done || lia). cbn [mbind res_bind].
    set (a1 := upd a (off + cur) [ty]).
    assert (Hz1 : zlen a1 = zlen a) by (apply zlen_upd; rewrite ?zlen_cons, ?zlen_nil; lia).
    rewrite (copy_nul_spec _ _ p b (off + (cur + 1)) a1 0 s); cycle 1.
    { apply load_str_other; [|done]. unfold addr_add. rewrite Z.add_0_r. by destruct p. }
    { done. } { by rewrite lookup_insert_eq. } { lia. } { lia. }
    { unfold block_fuel. cbn [fst]. rewrite lookup_insert_eq. cbn. unfold zlen in *. lia. }
    cbn [mbind res_bind]. rewrite insert_insert_eq, Z.add_0_r, Z.add_0_l.
    set (a2 := upd a1 (off + (cur + 1)) s).
    assert (Hz2 : zlen a2 = zlen a) by (unfold a2; rewrite zlen_upd; lia).
    rewrite (store_n_ok _ _ _ a2); [|by rewrite lookup_insert_eq|lia|rewrite zlen_cons, zlen_nil; lia].
    cbn [mbind res_bind]. rewrite insert_insert_eq, (Hpre pre t).
    set (a3 := upd a2 (off + (cur + 1 + zlen s)) [NUL]).
    assert (Ha3 : a3 = upd a (off + cur) (ty :: s ++ [NUL])).
    { unfold a3, a2, a1. rewrite <- upd_token by lia.
      by replace (off + (cur + 1 + zlen s)) with (off + cur + (1 + zlen s)) by lia; replace (off + (cur + 1)) with (off + cur + 1) by lia. }
    rewrite (IH l' _ _ _ a3).
    + rewrite insert_insert_eq, Ha3.
      replace (off + (cur + 1 + (zlen s + 1))) with (off + cur + zlen (ty :: s ++ [NUL]))
        by (rewrite zlen_cons, zlen_app, zlen_cons, zlen_nil; lia).
      rewrite upd_upd_app by (rewrite ?zlen_app, ?zlen_cons, ?zlen_app, ?zlen_cons, ?zlen_nil; lia).
      cbn [app]. rewrite <- app_assoc. do 2 f_equal.
      rewrite zlen_cons, ?zlen_app, ?zlen_cons, ?zlen_nil. lia.
    + by apply stands_insert.
    + by rewrite <- app_assoc.
    + by rewrite lookup_insert_eq.
    + lia.
    + unfold a3. rewrite zlen_upd by (rewrite ?zlen_cons, ?zlen_nil; lia). lia.
  - assert (write_tokens (length toks) (zlen pre + 1) cur ts (b, off) m =
      Ok (cur + zlen (payload l), <[b:=upd a (off + cur) (payload l)]> m)) as E.
    { rewrite (Hpre pre t). apply IH; [done|by rewrite <- app_assoc|done..]. }
    destruct Hdead as [->| ->]; [|done]. destruct (t_value t); [by rewrite decide_True|done].
Qed.

Lemma zlen_wire type n l : zlen (wire type n l) = 8 + zlen (payload l).
Proof. unfold wire. rewrite !zlen_app, !zlen_int_le. lia. Qed.

Lemma take_split {A} (l : list A) n : 0 ≤ n ≤ zlen l → l = take (Z.to_nat n) l ++ drop (Z.to_nat n) l.
Proof. intros. by rewrite take_drop. Qed.

(** The live tokens of a stream, as data. *)
Definition stream_stands (b : positive) (m : mem) (ts : ProtocolTokenStream) (l : list wtoken) : Prop :=
  0 ≤ ts_length ts ≤ zlen (ts_tokens ts) ∧ stands b m (take (Z.to_nat (ts_length ts)) (ts_tokens ts)) l.

Lemma to_buf_spec ts l b off start len m a :
  stream_stands b m ts l → m !! b = Some a → 0 ≤ off + start →
  off + start + 8 + zlen (payload l) ≤ zlen a →
  protocol_tokenstream_to_buf (Some ts) (Some (b, off)) len start m =
  Ok (start + 8 + zlen (payload l), <[b := upd a (off + start) (wire (ts_type ts) (ts_length ts) l)]> m).
Proof.
  intros [Hlen Hst] Hb Hlo Hhi. pose proof (zlen_nonneg (payload l)).
  unfold protocol_tokenstream_to_buf, store_int, addr_add. cbn [fst snd].
  rewrite (store_n_ok _ _ _ a); [|done|done|rewrite zlen_int_le; lia]. cbn [mbind res_bind].
  set (a1 := upd a (off + start) (int_le (ts_type ts))).
  assert (Hz1 : zlen a1 = zlen a) by (apply zlen_upd; rewrite ?zlen_int_le; lia).
  rewrite (store_n_ok _ _ _ a1); [|by rewrite lookup_insert_eq|lia|rewrite zlen_int_le; lia].
  cbn [mbind res_bind]. rewrite insert_insert_eq.
  set (a2 := upd a1 (off + (start + 4)) (int_le (ts_length ts))).
  assert (Ha2 : a2 = upd a (off + start) (int_le (ts_type ts) ++ int_le (ts_length ts))).
  { unfold a2, a1. replace (off + (start + 4)) with (off + start + zlen (int_le (ts_type ts)))
      by (rewrite zlen_int_le; lia).
    by rewrite upd_upd_app by (rewrite ?zlen_int_le; lia). }
  assert (Hz2 : zlen a2 = zlen a) by (rewrite Ha2; apply zlen_upd; rewrite ?zlen_app, ?zlen_int_le; lia).
  replace (Z.to_nat (ts_length ts)) with (length (take (Z.to_nat (ts_length ts)) (ts_tokens ts))).
  2: { rewrite length_take. unfold zlen in Hlen. lia. }
  change 0 with (zlen (@nil ProtocolToken)).
  rewrite (write_tokens_spec _ l [] (drop (Z.to_nat (ts_length ts)) (ts_tokens ts)) ts b off _ _ a2).
  - rewrite insert_insert_eq, Ha2.
    replace (off + (start + 8)) with (off + start + zlen (int_le (ts_type ts) ++ int_le (ts_length ts)))
      by (rewrite zlen_app, !zlen_int_le; lia).
    rewrite upd_upd_app by (rewrite ?zlen_app, ?zlen_int_le; lia). unfold wire. by rewrite <- app_assoc.
  - by apply stands_insert.
  - cbn. by rewrite take_drop.
  - by rewrite lookup_insert_eq.
  - lia.
  - lia.
Qed.

Lemma holds_app_l {A} (a : list A) i x y : holds a i (x ++ y) → holds a i x.
Proof. by intros [? _]%holds_app. Qed.

(** All tokens of the stream are live. *)
Lemma stands_wtokens b m toks l : stands b m toks l → Forall wtoken_ok l.
Proof.
  induction 1 as [|t p wt toks l _ _ _ _ Hstr _ IH|]; [constructor| |done].
  constructor; [|done]. by apply load_str_inv in Hstr as (? & ? & ? & ?).
Qed.

Lemma take_tokens_at b pos l (rest : list ProtocolToken) : take (length l) (tokens_at b pos l ++ rest) = tokens_at b pos l.
Proof. rewrite <- (length_tokens_at b pos l). apply take_app_length. Qed.

(** C6: a stream of live tokens that is written into a buffer and read back gives
    a stream of the same type and length whose tokens have the same kinds and
    strings, for every position in the buffer. *)
Theorem protocol_roundtrip ts l ts0 b off start len len0 m a :
  stream_stands b m ts l → zlen l = ts_length ts → 1 ≤ ts_length ts → 0 ≤ ts_type ts < 2 ^ 32 →
  m !! b = Some a → 0 ≤ off + start → off + start + 8 + zlen (payload l) ≤ zlen a →
  ts_length ts ≤ zlen (ts_tokens ts0) ≤ INT_MAX →
  ∃ n m' ts',
    protocol_tokenstream_to_buf (Some ts) (Some (b, off)) len start m = Ok (n, m') ∧
    protocol_buf_to_tokenstream m' (Some (b, off)) len0 start (Some ts0) = Ok (0, Some ts') ∧
    n = start + 8 + zlen (payload l) ∧
    ts_type ts' = ts_type ts ∧ ts_length ts' = ts_length ts ∧
    Forall2 (means m') (take (Z.to_nat (ts_length ts')) (ts_tokens ts')) l.
Proof.
  intros Hst Hl H1 Hty Hb Hlo Hhi Hcap. pose proof (stands_wtokens _ _ _ _ (proj2 Hst)) as Hok.
  assert (Hz : zlen (wire (ts_type ts) (ts_length ts) l) = 8 + zlen (payload l)) by apply zlen_wire.
  assert (Hh : holds (upd a (off + start) (wire (ts_type ts) (ts_length ts) l)) (off + start)
    (wire (ts_type ts) (zlen l) l ++ [])) by (rewrite app_nil_r, Hl; apply holds_upd; lia).
  do 3 eexists. split; [by eapply to_buf_spec|].
  split; [eapply buf_to_tokenstream_spec; [by rewrite lookup_insert_eq|lia|exact Hh|done|lia]|].
  cbn [stream_at ts_type ts_length ts_tokens]. split_and!; [done|by apply Z.mod_small|done|].
  unfold zlen at 1. rewrite Nat2Z.id, take_tokens_at.
  eapply tokens_at_mean; [by rewrite lookup_insert_eq| |done].
  unfold wire in Hh. rewrite <- !app_assoc, !holds_app, !zlen_int_le in Hh.
  replace (off + start + 8) with (off + start + 4 + 4) by lia. apply Hh.
Qed.

(** ** What goes over the network *)

(** The bytes [protocol_send] hands to the socket: a length that counts its own
    four bytes twice, the message, and the four bytes behind it. *)
Definition sent_message (type n : Z) (l : list wtoken) (behind : list byte) : list byte :=
  int_le (16 + zlen (payload l)) ++ wire type n l ++ behind.

Lemma sub_upd_behind {A} (a : list A) i x n :
  0 ≤ i → 0 ≤ n → i + zlen x + n ≤ zlen a → sub (upd a i x) i (zlen x + n) = x ++ sub a (i + zlen x) n.
Proof.
  intros Hi Hn Hsz. pose proof (zlen_nonneg x).
  assert (holds (upd a i x) i (x ++ sub a (i + zlen x) n)) as [_ _ Hs].
  { apply holds_app. split; [apply holds_upd; lia|].
    split; [lia|rewrite zlen_upd, zlen_sub by lia; lia|].
    rewrite zlen_sub by lia. apply sub_upd_other; lia. }
  rewrite zlen_app, zlen_sub in Hs by lia. done.
Qed.

(** [protocol_send] hands the socket a length field of 16 plus the size of the
    tokens, although the message has 12 bytes besides them: four bytes that lie
    behind the message in the buffer are sent with it. *)
Lemma protocol_send_message {W} (socket_send : Z → list byte → W → res (Z * W)) sock ts l b off len m a w :
  stream_stands b m ts l → m !! b = Some a → 0 ≤ off →
  off + 16 + zlen (payload l) ≤ zlen a → zlen a ≤ INT_MAX →
  ∃ m',
    protocol_send socket_send sock (b, off) len ts m w =
    ('(sent, w') ← socket_send sock (sent_message (ts_type ts) (ts_length ts) l
           (sub a (off + 12 + zlen (payload l)) 4)) w; Ok (sent, m', w')).
Proof.
  intros Hst Hb Hlo Hhi Hmax. pose proof (zlen_nonneg (payload l)).
  unfold protocol_send. rewrite (to_buf_spec ts l b off 4 len m a) by (done || lia).
  cbn [mbind res_bind]. destruct (Z.ltb_spec (4 + 8 + zlen (payload l)) 1); [lia|].
  set (x := wire (ts_type ts) (ts_length ts) l).
  assert (Hx : zlen x = 8 + zlen (payload l)) by apply zlen_wire.
  set (a1 := upd a (off + 4) x).
  assert (Hz1 : zlen a1 = zlen a) by (apply zlen_upd; lia).
  unfold store_int. rewrite (store_n_ok _ _ _ a1); [|by rewrite lookup_insert_eq|done|rewrite zlen_int_le; lia].
  cbn [mbind res_bind]. rewrite insert_insert_eq.
  set (h := int_le (4 + 8 + zlen (payload l) + 4)). set (a2 := upd a1 off h).
  assert (Hh : zlen h = 4) by apply zlen_int_le.
  assert (Hz2 : zlen a2 = zlen a) by (unfold a2; rewrite zlen_upd; lia).
  unfold load_n, block. cbn [fst snd]. rewrite lookup_insert_eq. cbn [of_option mbind res_bind].
  rewrite rd_n_ok by lia. cbn [mbind res_bind].
  assert (sub a2 off (4 + 8 + zlen (payload l) + 4) =
    sent_message (ts_type ts) (ts_length ts) l (sub a (off + 12 + zlen (payload l)) 4)) as ->; [|eauto].
  unfold sent_message. fold x. replace (16 + zlen (payload l)) with (4 + 8 + zlen (payload l) + 4) by lia.
  fold h. replace (4 + 8 + zlen (payload l) + 4) with (zlen h + (12 + zlen (payload l))) by lia.
  unfold a2. rewrite sub_upd_behind by lia. f_equal. rewrite Hh. unfold a1.
  replace (12 + zlen (payload l)) with (zlen x + 4) by lia.
  rewrite sub_upd_behind by lia. f_equal. f_equal. lia.
Qed.

(** Writing keeps the sizes of the blocks, and the strings of other blocks. *)
Definition same_sizes (m m' : mem) : Prop := ∀ b, zlen <$> m' !! b = zlen <$> m !! b.

#[export] Instance same_sizes_preorder : PreOrder same_sizes.
Proof. split; [by intros m b|]. intros m1 m2 m3 H1 H2 b. by rewrite H2, H1. Qed.

Lemma store_n_inv m p x m' :
  store_n m p x = Ok m' → same_sizes m m' ∧ ∀ q s, q.1 ≠ p.1 → load_str m q = Ok s → load_str m' q = Ok s.
Proof.
  unfold store_n, block. intros H. destruct (m !! p.1) as [a|] eqn:Ha; [|done]. cbn in H.
  apply bind_ok in H as (a' & (H1 & H2 & ->)%memcpy_inv & [= <-]). split.
  - intros b. destruct (decide (p.1 = b)) as [<-|]; [|by rewrite lookup_insert_ne].
    rewrite lookup_insert_eq, Ha. cbn. by rewrite zlen_upd.
  - intros q s Hq Hs. by apply load_str_other.
Qed.

(** [copy_nul] copies the string, however much room there is. *)
Lemma copy_nul_inv fuel m src dst c s c' m' :
  copy_nul fuel m src dst c = Ok (c', m') → src.1 ≠ dst.1 → load_str m (addr_add src c) = Ok s →
  c' = c + zlen s ∧ same_sizes m m'.
Proof.
  assert (Hnil : ∀ m c, load_str m (addr_add src c) = Ok [] → load m (addr_add src c) = Ok NUL).
  { intros m0 c0 (a & Ha & Hh & _)%load_str_inv. by apply (load_ok _ _ _ a). }
  assert (Hcons : ∀ m c x s, load_str m (addr_add src c) = Ok (x :: s) →
    load m (addr_add src c) = Ok x ∧ x ≠ NUL ∧ load_str m (addr_add src (c + 1)) = Ok s).
  { intros m0 c0 x s0 (a & Ha & Hh & Hn)%load_str_inv. apply not_elem_of_cons in Hn as [Hx Hn].
    apply holds_cons in Hh as [Hx1 Hh]. split; [by apply (load_ok _ _ _ a)|]. split; [done|].
    apply (load_str_ok _ _ _ a); [done| |done]. cbn [fst snd addr_add] in Hh. by rewrite Z.add_assoc. }
  revert m c s. induction fuel as [|fuel IH]; intros m c [|x s] H Hne Hs; cbn [copy_nul] in H;
    [rewrite (Hnil _ _ Hs) in H| |rewrite (Hnil _ _ Hs) in H|];
    try (cbn [mbind res_bind] in H; rewrite decide_True in H by done; injection H as <- <-; by rewrite zlen_nil, Z.add_0_r);
    destruct (Hcons _ _ _ _ Hs) as (Hl & Hx & Hrest); rewrite Hl in H; cbn [mbind res_bind] in H;
    rewrite decide_False in H by done; [done|].
  apply bind_ok in H as (m1 & Hst & H). destruct (store_n_inv _ _ _ _ Hst) as [Hz Hk].
  apply IH with (s := s) in H as [-> Hz2]; [|done|by apply Hk].
  split; [rewrite zlen_cons; lia|]. by transitivity m1.
Qed.

(** A message of one argument that was sent had room in its buffer. *)
Lemma protocol_send_fits {W} (socket_send : Z → list byte → W → res (Z * W)) sock ts b len m a w msg text r :
  protocol_send socket_send sock (b, 0) len ts m w = Ok r →
  ts_length ts = 1 → rd (ts_tokens ts) 0 = Ok (mkToken PROTOCOL_TOKEN_ARG (Some msg)) →
  load_str m msg = Ok text → msg.1 ≠ b → m !! b = Some a → zlen text + 18 ≤ zlen a.
Proof.
  intros H Hl Ht Hmsg Hne Ha. unfold protocol_send in H. apply bind_ok in H as ([n m'] & Hn & H).
  unfold protocol_tokenstream_to_buf in Hn. apply bind_ok in Hn as (m1 & [Z1 K1]%store_n_inv & Hn).
  apply bind_ok in Hn as (m2 & [Z2 K2]%store_n_inv & Hn). rewrite Hl in Hn.
  change (Z.to_nat 1) with 1%nat in Hn. cbn [write_tokens] in Hn. rewrite Ht in Hn. cbn [mbind res_bind t_value t_type] in Hn.
  rewrite decide_False in Hn by done. apply bind_ok in Hn as (m3 & [Z3 K3]%store_n_inv & Hn).
  apply bind_ok in Hn as ([c m4] & Hc & Hn). apply bind_ok in Hn as (m5 & [Z5 _]%store_n_inv & [= <- <-]).
  apply copy_nul_inv with (s := text) in Hc as [-> Z4]; [|done|].
  2: { unfold addr_add. rewrite Z.add_0_r. destruct msg. by apply K3, K2, K1. }
  pose proof (zlen_nonneg text). destruct (Z.ltb_spec (4 + 8 + 1 + (0 + zlen text + 1)) 1); [lia|].
  apply bind_ok in H as (m6 & [Z6 _]%store_n_inv & H). apply bind_ok in H as (data & Hd & _).
  assert (Hz : zlen <$> m6 !! b = Some (zlen a)) by (by rewrite Z6, Z5, Z4, Z3, Z2, Z1, Ha).
  unfold load_n, block in Hd. cbn [fst snd] in Hd. destruct (m6 !! b) as [a6|]; [|done]. cbn in Hz, Hd.
  injection Hz as <-. apply rd_n_inv in Hd. lia.
Qed.

(** Tokens that a stream's length counts but that were not written are read from
    the zeros behind the message. *)
Definition phantom : wtoken := (PROTOCOL_TOKEN_NONE, []).

Lemma payload_phantoms j : payload (replicate j phantom) = zeros (2 * Z.of_nat j).
Proof.
  induction j as [|j IH]; [done|]. cbn [replicate]. rewrite payload_cons, IH. cbn [fst snd phantom app].
  unfold zeros. replace (Z.to_nat (2 * Z.of_nat (S j))) with (S (S (Z.to_nat (2 * Z.of_nat j)))) by lia. done.
Qed.

Lemma Forall_phantoms j : Forall wtoken_ok (replicate j phantom).
Proof. apply Forall_replicate, not_elem_of_nil. Qed.

(** A message of [n] tokens, of which the first are on the wire and the
    remaining ones fall on zeros of the receive buffer, is read as those tokens
    followed by empty tokens of kind NONE. *)
Lemma protocol_read_padded type n l ts b off len m a x k :
  m !! b = Some a → holds a off (int_le x ++ wire type n l ++ zeros k) →
  Forall wtoken_ok l → zlen l ≤ n → 1 ≤ n →
  2 * (n - zlen l) ≤ k → n ≤ zlen (ts_tokens ts) ≤ INT_MAX →
  ∃ ts', protocol_read (b, off) len ts m = Ok (0, ts') ∧
    ts_type ts' = msg_type type ∧ ts_length ts' = n ∧
    Forall2 (means m) (take (Z.to_nat n) (ts_tokens ts'))
      (l ++ replicate (Z.to_nat (n - zlen l)) phantom).
Proof.
  intros Hb Hh Hok Hn H1 Hk Hcap. set (j := Z.to_nat (n - zlen l)) in *.
  set (l' := l ++ replicate j phantom).
  assert (Hl' : zlen l' = n) by (unfold l'; rewrite zlen_app, zlen_replicate; lia).
  assert (Hok' : Forall wtoken_ok l') by (apply Forall_app; split; [done|apply Forall_phantoms]).
  assert (Hw : holds a (off + 4) (wire type (zlen l') l')).
  { apply holds_app in Hh as [_ Hh]. rewrite zlen_int_le in Hh.
    unfold wire in *. rewrite Hl'. unfold l'. rewrite payload_app, payload_phantoms.
    rewrite !holds_app in Hh. rewrite !holds_app. destruct Hh as ((H2 & H3 & H4) & H5).
    split_and!; [done..|]. rewrite !zlen_app, !zlen_int_le in *.
    replace (off + 4 + 4 + 4 + zlen (payload l)) with (off + 4 + (4 + (4 + zlen (payload l)))) by lia.
    apply (holds_zeros _ _ k); [done|lia]. }
  unfold protocol_read.
  destruct (load_int m (b, off)) as [msg_len|f] eqn:E.
  2: { apply holds_app_l in Hh. by rewrite (load_int_ok _ _ _ a x) in E. }
  cbn [mbind res_bind].
  rewrite (buf_to_tokenstream_spec m b a off 4 (msg_len - 4) ts Hb) with (type := type) (l := l') (rest := []);
    [|lia|by rewrite app_nil_r|done|lia].
  cbn [mbind res_bind default]. rewrite decide_True by done. eexists. split; [done|].
  cbn [stream_at ts_type ts_length ts_tokens]. split_and!; [done|done|].
  rewrite <- Hl'. unfold zlen at 1. rewrite Nat2Z.id, take_tokens_at.
  eapply tokens_at_mean; [done| |done].
  unfold wire in Hw. rewrite !holds_app, !zlen_int_le in Hw.
  replace (off + 4 + 8) with (off + 4 + 4 + 4) by lia. apply Hw.
Qed.

(** C36: the token count of a received message: below one, the message is refused
    and the stream kept; above the stream's capacity, clearing the tokens writes
    behind their array, since the count is never compared with it. *)
Theorem protocol_read_count type n rest ts b off len m a x :
  m !! b = Some a → holds a off (int_le x ++ int_le type ++ int_le n ++ rest) → is_int n →
  zlen (ts_tokens ts) ≤ INT_MAX → n < 1 ∨ zlen (ts_tokens ts) < n →
  protocol_read (b, off) len ts m = if n <? 1 then Ok (-1, ts) else Fault OutOfBounds.
Proof.
  intros Hb Hh Hn Hcap Hc. unfold protocol_read.
  rewrite (load_int_ok _ _ _ a x) by (done || by eapply holds_app_l). cbn [mbind res_bind].
  apply holds_app in Hh as [_ Hh]. rewrite zlen_int_le in Hh.
  rewrite (buf_to_tokenstream_count m b a off 4 _ ts Hb type n rest) by done.
  by destruct (n <? 1).
Qed.

(** ** Arguments and variables *)

Definition values_of (ty : byte) (toks : list ProtocolToken) : list (option addr) :=
  map t_value (filter (λ t, t_type t = ty) toks).

Lemma values_of_cons ty t toks :
  values_of ty (t :: toks) = if decide (t_type t = ty) then t_value t :: values_of ty toks else values_of ty toks.
Proof. unfold values_of. rewrite filter_cons. by case_decide. Qed.

Lemma zlen_values_of ty toks : zlen (values_of ty toks) ≤ zlen toks.
Proof.
  unfold values_of, zlen. rewrite length_map. pose proof (length_filter (λ t, t_type t = ty) toks). lia.
Qed.

Lemma split_tokens_spec toks pre post ts argc varc args vars :
  ts_tokens ts = pre ++ toks ++ post → 0 ≤ argc → 0 ≤ varc →
  argc + zlen (values_of PROTOCOL_TOKEN_ARG toks) ≤ zlen args →
  varc + zlen (values_of PROTOCOL_TOKEN_VAR toks) ≤ zlen vars →
  split_tokens (length toks) (zlen pre) argc varc ts args vars =
  Ok (argc + zlen (values_of PROTOCOL_TOKEN_ARG toks), varc + zlen (values_of PROTOCOL_TOKEN_VAR toks),
      upd args argc (values_of PROTOCOL_TOKEN_ARG toks), upd vars varc (values_of PROTOCOL_TOKEN_VAR toks)).
Proof.
  revert pre argc varc args vars. induction toks as [|t toks IH]; intros pre argc varc args vars Hts Ha Hv Hna Hnv.
  { cbn. rewrite !upd_nil. unfold zlen. cbn. repeat f_equal; lia. }
  assert (rd (ts_tokens ts) (zlen pre) = Ok t) as Hrd.
  { rewrite Hts. apply rd_ok; [apply zlen_nonneg|]. unfold zlen. rewrite Nat2Z.id. by apply list_lookup_middle. }
  cbn [length split_tokens]. rewrite Hrd. cbn [mbind res_bind].
  rewrite !values_of_cons in *.
  replace (zlen pre + 1) with (zlen (pre ++ [t])) by (rewrite zlen_app, zlen_cons, zlen_nil; lia).
  assert (Hts' : ts_tokens ts = (pre ++ [t]) ++ toks ++ post) by (by rewrite <- app_assoc).
  pose proof (zlen_nonneg (values_of PROTOCOL_TOKEN_ARG toks)).
  pose proof (zlen_nonneg (values_of PROTOCOL_TOKEN_VAR toks)).
  destruct (decide (t_type t = PROTOCOL_TOKEN_ARG)) as [Ht|Ht].
  - rewrite Ht, (decide_False (P := PROTOCOL_TOKEN_ARG = PROTOCOL_TOKEN_VAR)) in * by done.
    rewrite zlen_cons in *. rewrite wr_ok by lia. cbn [mbind res_bind].
    assert (Hz : zlen (upd args argc [t_value t]) = zlen args) by (apply zlen_upd; rewrite ?zlen_cons, ?zlen_nil; lia).
    rewrite IH by (done || lia). replace (argc + 1) with (argc + zlen [t_value t]) by done.
    rewrite upd_upd_app by (rewrite ?zlen_cons, ?zlen_nil; lia). change (zlen [t_value t]) with 1.
    by rewrite <- Z.add_assoc.
  - destruct (decide (t_type t = PROTOCOL_TOKEN_VAR)) as [Ht2|Ht2]; [|by rewrite IH].
    rewrite zlen_cons in *. rewrite wr_ok by lia. cbn [mbind res_bind].
    assert (Hz : zlen (upd vars varc [t_value t]) = zlen vars) by (apply zlen_upd; rewrite ?zlen_cons, ?zlen_nil; lia).
    rewrite IH by (done || lia). replace (varc + 1) with (varc + zlen [t_value t]) by done.
    rewrite upd_upd_app by (rewrite ?zlen_cons, ?zlen_nil; lia). change (zlen [t_value t]) with 1.
    by rewrite <- (Z.add_assoc varc).
Qed.

(** The list [y] and the NULL behind it, in an array with room for both. *)
Lemma upd_null {A} (x : list (option A)) y : zlen y < zlen x →
  upd (upd x 0 y) (zlen y) [None] = y ++ None :: drop (S (length y)) x.
Proof.
  intros Hy. pose proof (zlen_nonneg y). change (zlen y) with (0 + zlen y) at 1.
  rewrite upd_upd_app by (rewrite ?zlen_cons, ?zlen_nil; lia). rewrite upd_0, <- app_assoc.
  rewrite length_app. cbn [length app]. by rewrite Nat.add_1_r.
Qed.

Section Split.
Context (ts : ProtocolTokenStream) (args vars : list (option addr)).
Hypothesis Hlen : 0 ≤ ts_length ts ≤ zlen (ts_tokens ts).
Hypothesis Hargs : zlen args = ts_length ts.
Hypothesis Hvars : zlen vars = ts_length ts.
Let toks := take (Z.to_nat (ts_length ts)) (ts_tokens ts).
Let A := values_of PROTOCOL_TOKEN_ARG toks.
Let V := values_of PROTOCOL_TOKEN_VAR toks.

Lemma split_tokens_all :
  protocol_parse_token_stream ts args vars =
  (args ← wr (upd args 0 A) (zlen A) None; vars ← wr (upd vars 0 V) (zlen V) None;
   Ok (0, (ts_type ts mod 256, args, vars))) ∧ zlen A ≤ ts_length ts ∧ zlen V ≤ ts_length ts.
Proof.
  assert (Ht : length toks = Z.to_nat (ts_length ts)) by (unfold toks, zlen in *; rewrite length_take; lia).
  assert (HA : zlen A ≤ ts_length ts) by (pose proof (zlen_values_of PROTOCOL_TOKEN_ARG toks); unfold A, zlen in *; lia).
  assert (HV : zlen V ≤ ts_length ts) by (pose proof (zlen_values_of PROTOCOL_TOKEN_VAR toks); unfold V, zlen in *; lia).
  split; [|done]. unfold protocol_parse_token_stream. rewrite <- Ht.
  pose proof (split_tokens_spec toks [] (drop (Z.to_nat (ts_length ts)) (ts_tokens ts)) ts 0 0 args vars) as Hs.
  rewrite zlen_nil in Hs. rewrite Hs by (done || (by cbn; rewrite take_drop) || (fold A V; lia)).
  cbn [mbind res_bind]. fold A V. by rewrite !Z.add_0_l.
Qed.

Lemma split_tokens_fit :
  zlen A < ts_length ts → zlen V < ts_length ts →
  protocol_parse_token_stream ts args vars =
  Ok (0, (ts_type ts mod 256, A ++ None :: drop (S (length A)) args, V ++ None :: drop (S (length V)) vars)).
Proof.
  intros. destruct split_tokens_all as (-> & _ & _). pose proof (zlen_nonneg A). pose proof (zlen_nonneg V).
  rewrite (wr_ok (upd args 0 A)) by (rewrite ?zlen_upd; lia). cbn [mbind res_bind].
  rewrite (wr_ok (upd vars 0 V)) by (rewrite ?zlen_upd; lia). cbn [mbind res_bind]. by rewrite !upd_null by lia.
Qed.
End Split.

(** C26: with argument arrays as long as the stream, as [server_eval_packet] makes
    them, the split puts the values of the ARG tokens and of the VAR tokens in
    order, each followed by NULL; when all tokens are of one of the two kinds, that
    NULL is written behind the array. *)
Theorem protocol_parse_split ts args vars :
  0 ≤ ts_length ts ≤ zlen (ts_tokens ts) → zlen args = ts_length ts → zlen vars = ts_length ts →
  let toks := take (Z.to_nat (ts_length ts)) (ts_tokens ts) in
  let A := values_of PROTOCOL_TOKEN_ARG toks in
  let V := values_of PROTOCOL_TOKEN_VAR toks in
  protocol_parse_token_stream ts args vars =
  if decide (zlen A < ts_length ts ∧ zlen V < ts_length ts) then
    Ok (0, (ts_type ts mod 256, A ++ None :: drop (S (length A)) args, V ++ None :: drop (S (length V)) vars))
  else Fault OutOfBounds.
Proof.
  intros Hlen Hargs Hvars toks A V.
  destruct (split_tokens_all ts args vars Hlen Hargs Hvars) as (Heq & HA & HV). fold toks A V in Heq, HA, HV.
  case_decide as Hc; [by destruct Hc; apply split_tokens_fit|]. rewrite Heq.
  pose proof (zlen_nonneg A). pose proof (zlen_nonneg V).
  destruct (decide (zlen A < ts_length ts)).
  - rewrite (wr_ok (upd args 0 A)) by (rewrite ?zlen_upd; lia). cbn [mbind res_bind].
    by rewrite wr_oob by (rewrite ?zlen_upd; lia).
  - by rewrite (wr_oob (upd args 0 A)) by (rewrite ?zlen_upd; lia).
Qed.

(** ** Building a stream *)

(** Successive [protocol_tokenstream_add_token]s. *)
Fixpoint add_tokens (l : list ProtocolToken) (ts : ProtocolTokenStream) : res ProtocolTokenStream :=
  match l with
  | [] => Ok ts
  | t :: l => ts ← protocol_tokenstream_add_token ts (t_type t) (t_value t); add_tokens l ts
  end.

Lemma add_tokens_spec l ts :
  0 ≤ ts_length ts ≤ zlen (ts_tokens ts) →
  add_tokens l ts =
  if ts_length ts + zlen l <=? zlen (ts_tokens ts) then
    Ok (mkStream (ts_type ts) (ts_length ts + zlen l) (upd (ts_tokens ts) (ts_length ts) l))
  else Fault OutOfBounds.
Proof.
  revert ts. induction l as [|[ty v] l IH]; intros ts Hl.
  { cbn. rewrite zlen_nil, Z.add_0_r, upd_nil. destruct (Z.leb_spec (ts_length ts) (zlen (ts_tokens ts))); [|lia].
    by destruct ts. }
  pose proof (zlen_nonneg l). cbn [add_tokens t_type t_value]. unfold protocol_tokenstream_add_token. rewrite zlen_cons.
  destruct (decide (ts_length ts < zlen (ts_tokens ts))) as [Hlt|Hge].
  - rewrite wr_ok by lia. cbn [mbind res_bind].
    assert (Hz : zlen (upd (ts_tokens ts) (ts_length ts) [mkToken ty v]) = zlen (ts_tokens ts))
      by (apply zlen_upd; rewrite ?zlen_cons, ?zlen_nil; lia).
    rewrite IH; cbn [ts_type ts_length ts_tokens set_ts_length set_ts_tokens]; [|lia].
    rewrite Hz. replace (ts_length ts + 1 + zlen l) with (ts_length ts + (1 + zlen l)) by lia.
    destruct (Z.leb_spec (ts_length ts + (1 + zlen l)) (zlen (ts_tokens ts))); [|done].
    replace (ts_length ts + 1) with (ts_length ts + zlen [mkToken ty v]) by done.
    by rewrite upd_upd_app by (rewrite ?zlen_cons, ?zlen_nil; lia).
  - rewrite wr_oob by lia. destruct (Z.leb_spec (ts_length ts + (1 + zlen l)) (zlen (ts_tokens ts))); [lia|done].
Qed.

(** C32: a stream allocated for [n] tokens, and any stream after a reset within its
    capacity, takes up to [n] tokens, in order; one more is written behind the array. *)
Theorem protocol_tokenstream_build n ty l ts :
  0 ≤ n → 0 ≤ ts_length ts ≤ zlen (ts_tokens ts) →
  (ts ← protocol_tokenstream_alloc true ty n; add_tokens l (default (mkStream 0 0 []) ts)) =
    (if zlen l <=? n then Ok (mkStream ty (zlen l) (l ++ replicate (Z.to_nat n - length l) zero_token))
     else Fault OutOfBounds) ∧
  (ts ← protocol_tokenstream_reset ts; add_tokens l ts) =
    (if zlen l <=? zlen (ts_tokens ts) then
       Ok (mkStream (ts_type ts) (zlen l)
             (l ++ drop (length l) (replicate (Z.to_nat (ts_length ts)) zero_token ++
                                    drop (Z.to_nat (ts_length ts)) (ts_tokens ts))))
     else Fault OutOfBounds).
Proof.
  intros Hn Hts. split.
  - unfold protocol_tokenstream_alloc, clear_tokens. cbn [ts_tokens].
    rewrite memcpy_ok by (rewrite ?zlen_replicate; lia). cbn [mbind res_bind default set_ts_tokens ts_type ts_length].
    rewrite upd_0, length_replicate, drop_replicate, Nat.sub_diag, app_nil_r.
    rewrite add_tokens_spec by (cbn; rewrite zlen_replicate; lia). cbn [ts_tokens ts_length ts_type].
    rewrite zlen_replicate, Z2Nat.id, Z.add_0_l by done. destruct (zlen l <=? n); [|done].
    by rewrite upd_0, drop_replicate.
  - unfold protocol_tokenstream_reset, clear_tokens.
    rewrite memcpy_ok by (rewrite ?zlen_replicate; lia). cbn [mbind res_bind].
    rewrite add_tokens_spec; cbn [ts_tokens ts_length ts_type set_ts_tokens set_ts_length];
      rewrite zlen_upd by (rewrite ?zlen_replicate; lia); [|lia].
    rewrite Z.add_0_l, !upd_0, length_replicate. done.
Qed.

(** ** Instances *)

Definition demo_mem : mem :=
  <[1%positive := bytes_of_string "do_stuff" ++ [NUL] ++ bytes_of_string "A=1" ++ [NUL]]>
  (<[2%positive := zeros 64]> ∅).
Definition demo_stream : ProtocolTokenStream :=
  mkStream PROTOCOL_MSG_TASK_RUN 2
    [mkToken PROTOCOL_TOKEN_ARG (Some (1%positive, 0)); mkToken PROTOCOL_TOKEN_VAR (Some (1%positive, 9)); zero_token].
Definition demo_tokens : list wtoken :=
  [(PROTOCOL_TOKEN_ARG, bytes_of_string "do_stuff"); (PROTOCOL_TOKEN_VAR, bytes_of_string "A=1")].
Definition empty_stream (n : nat) : ProtocolTokenStream := mkStream 0 0 (replicate n zero_token).

Lemma demo_stands : stream_stands 2 demo_mem demo_stream demo_tokens.
Proof.
  split; [by vm_compute|]. change (take _ _) with (take 2 (ts_tokens demo_stream)).
  eapply (stands_live _ _ _ (1%positive, 0)); [reflexivity|done|reflexivity|done|reflexivity|].
  eapply (stands_live _ _ _ (1%positive, 9)); [reflexivity|done|reflexivity|done|reflexivity|].
  constructor.
Qed.

Lemma protocol_roundtrip_witness :
  ∃ n m' ts',
    protocol_tokenstream_to_buf (Some demo_stream) (Some (2%positive, 4)) 64 4 demo_mem = Ok (n, m') ∧
    protocol_buf_to_tokenstream m' (Some (2%positive, 4)) 64 4 (Some (empty_stream 2)) = Ok (0, Some ts') ∧
    n = 4 + 8 + zlen (payload demo_tokens) ∧ ts_type ts' = 2 ∧ ts_length ts' = 2 ∧
    Forall2 (means m') (take (Z.to_nat (ts_length ts')) (ts_tokens ts')) demo_tokens.
Proof.
  apply (protocol_roundtrip demo_stream demo_tokens (empty_stream 2) 2 4 4 64 64 demo_mem (zeros 64));
    [apply demo_stands|..]; by vm_compute.
Defined.

Lemma protocol_send_message_witness :
  ∃ m',
    protocol_send (λ _ data w, Ok (zlen data, w ++ data)) 5 (2%positive, 0) 64 demo_stream demo_mem [] =
    Ok (31, m', sent_message 2 2 demo_tokens (zeros 4)).
Proof.
  destruct (protocol_send_message (λ _ data w, Ok (zlen data, w ++ data)) 5 demo_stream demo_tokens 2 0 64
    demo_mem (zeros 64) []) as [m' E]; [apply demo_stands|by vm_compute..|].
  exists m'. rewrite E. by vm_compute.
Defined.

(** The message as it arrives in a buffer of 64 zeros, its stream's length 3. *)
Definition demo_inbox : mem :=
  <[2%positive := int_le 31 ++ wire PROTOCOL_MSG_TASK_RUN 3 demo_tokens ++ zeros 33]> ∅.

Lemma holds_all {A} (x : list A) : holds x 0 x.
Proof. split; [done|lia|apply sub_all]. Qed.

Lemma protocol_read_padded_witness :
  ∃ ts', protocol_read (2%positive, 0) 64 (empty_stream 30) demo_inbox = Ok (0, ts') ∧
    ts_type ts' = 2 ∧ ts_length ts' = 3 ∧
    Forall2 (means demo_inbox) (take 3 (ts_tokens ts')) (demo_tokens ++ [phantom]).
Proof.
  apply (protocol_read_padded 2 3 demo_tokens (empty_stream 30) 2 0 64 demo_inbox
    (int_le 31 ++ wire PROTOCOL_MSG_TASK_RUN 3 demo_tokens ++ zeros 33) 31 33);
    [reflexivity|apply holds_all|decided|by vm_compute..].
Defined.

Lemma protocol_read_count_witness :
  protocol_read (2%positive, 0) 64 (empty_stream 30) (<[2%positive := int_le 31 ++ int_le 2 ++ int_le 31 ++ zeros 20]> ∅)
    = Fault OutOfBounds.
Proof.
  apply (protocol_read_count 2 31 (zeros 20) (empty_stream 30) 2 0 64 _
    (int_le 31 ++ int_le 2 ++ int_le 31 ++ zeros 20) 31);
    [reflexivity|apply holds_all|by vm_compute|by vm_compute|right; by vm_compute].
Defined.

Lemma protocol_parse_split_witness :
  protocol_parse_token_stream demo_stream [None; None] [None; None] =
    Ok (0, (2, [Some (1%positive, 0); None], [Some (1%positive, 9); None])) ∧
  protocol_parse_token_stream (set_ts_length 1 demo_stream) [None] [None] = Fault OutOfBounds.
Proof.
  split.
  - apply (protocol_parse_split demo_stream [None; None] [None; None]); by vm_compute.
  - apply (protocol_parse_split (set_ts_length 1 demo_stream) [None] [None]); by vm_compute.
Defined.

Lemma protocol_tokenstream_build_witness :
  (ts ← protocol_tokenstream_reset demo_stream; add_tokens [zero_token] ts) =
    Ok (mkStream 2 1 [zero_token; zero_token; zero_token]).
Proof. apply (protocol_tokenstream_build 3 0 [zero_token] demo_stream); by vm_compute. Defined.
