(* ===== verification/Os.v ===== *)
(** The program's environment: system calls as requests to a kernel, the memory,
    the record of what was requested, and the monad of code that runs in it. *)

From S2P Require Import Prelude CString Memory.

(** ** State and faults *)

Definition ST (S A : Type) : Type := S → res (A * S).

#[export] Instance st_ret {S} : MRet (ST S) := λ A a s, Ok (a, s).
#[export] Instance st_bind {S} : MBind (ST S) := λ A B k m s,
  match m s with Ok (a, s) => k a s | Fault f => Fault f end.

Definition lift {S A} (m : res A) : ST S A := λ s, a ← m; Ok (a, s).
Definition get {S A} (f : S → A) : ST S A := λ s, Ok (f s, s).
Definition modify {S} (f : S → S) : ST S unit := λ s, Ok (tt, f s).
Definition modify_res {S} (f : S → res S) : ST S unit := λ s, s ← f s; Ok (tt, s).

Lemma st_bind_ok {S A B} (m : ST S A) (k : A → ST S B) s a s' :
  m s = Ok (a, s') → (m ≫= k) s = k a s'.
Proof. intros H. unfold mbind, st_bind. by rewrite H. Qed.

Lemma st_bind_inv {S A B} (m : ST S A) (k : A → ST S B) s b s'' :
  (m ≫= k) s = Ok (b, s'') ↔ ∃ a s', m s = Ok (a, s') ∧ k a s' = Ok (b, s'').
Proof.
  unfold mbind, st_bind. destruct (m s) as [[a s']|f]; naive_solver.
Qed.

(** ** System calls *)

Inductive output : Type := stdout | stderr.

(** The calls the program makes, with the arguments that matter to it. *)
Inductive syscall : Type :=
| Socket
| Setsockopt (fd opt value : Z)
| Bind (fd port : Z)
| Listen (fd backlog : Z)
| Connect (fd port : Z)
| Accept (fd : Z)
| Getfl (fd : Z)
| Setfl_nonblock (fd flags : Z)
| Send (fd : Z) (data : list byte)
| Read (fd count : Z)
| Close (fd : Z)
| Select (nfds : Z) (fds : list Z)
| Poll (fd timeout_ms : Z)
| Pipe
| Fork
| Dup2 (fd target : Z)
| Chdir (dir : list byte)
| Execve (path : list byte) (args env : list (list byte))
| Waitpid (pid : Z)
| Access (path : list byte)
| Fopen (path : list byte)
| Fopen_write (path : list byte)
| Fwrite (fd : Z) (text : list byte)
| Signal (sig : Z)
| Time
| Errno
| Malloc (size : Z)
| Inotify_init
| Inotify_add_watch (fd : Z) (path : list byte)
| Print (out : output) (text : list byte).

(** A call's return value, the bytes it delivers, the descriptors it delivers. *)
Record sysres := mkRes { r_ret : Z; r_data : list byte; r_fds : list Z }.

(** The kernel is a parameter: any function of its own state. *)
Class Kernel (W : Type) := kcall : syscall → W → sysres * W.

(** What the program relies on: the return values of [send] and [read] are within
    the requested sizes, and [read] delivers as many bytes as it says. *)
Class KernelOk (W : Type) `{!Kernel W} : Prop := {
  k_send fd data (w : W) : r_ret (kcall (Send fd data) w).1 ≤ zlen data;
  k_read fd n (w : W) : 0 ≤ n →
    let r := (kcall (Read fd n) w).1 in r_ret r ≤ n ∧ (0 < r_ret r → zlen (r_data r) = r_ret r);
}.

(** ** The world *)

Record world (W : Type) := mkWorld {
  w_os : W;
  w_mem : mem;
  w_trace : list (syscall * sysres);
}.
Arguments mkWorld {W}.
Arguments w_os {W}.
Arguments w_mem {W}.
Arguments w_trace {W}.

Section World.
Context {W : Type} `{!Kernel W}.

Definition set_mem (m : mem) (w : world W) : world W := mkWorld (w_os w) m (w_trace w).

Definition call (c : syscall) : ST (world W) sysres := λ w,
  let '(r, os) := kcall c (w_os w) in Ok (r, mkWorld os (w_mem w) (w_trace w ++ [(c, r)])).

(** A call of which only the return value is used. *)
Definition call_ret (c : syscall) : ST (world W) Z := r ← call c; mret (r_ret r).

(** Memory accesses. *)
Definition with_mem {A} (f : mem → res A) : ST (world W) A := λ w, a ← f (w_mem w); Ok (a, w).
Definition on_mem (f : mem → res mem) : ST (world W) unit := modify_res (λ w, m ← f (w_mem w); Ok (set_mem m w)).

(** [MMALLOC]: NULL, or a block of its own ([arena_allocs_disjoint]), with
    whatever bytes were there. *)
Definition mmalloc_block (size : Z) : ST (world W) (option addr) :=
  r ← call (Malloc size);
  if decide (r_ret r = 0) then mret None
  else
    m ← get w_mem;
    let b := fresh (dom m : gset positive) in
    _ ← modify (set_mem (<[b := take (Z.to_nat size) (r_data r ++ zeros size)]> m));
    mret (Some (b, 0)).

End World.

(** ** A scripted kernel, to run the program on *)

(** It answers each call from a list; at its end every call fails with -1. *)
#[export] Instance script_kernel : Kernel (list sysres) := λ c w,
  match w with r :: w => (r, w) | [] => (mkRes (-1) [] [], []) end.

Definition ret (z : Z) : sysres := mkRes z [] [].
Definition ret_data (bs : list byte) : sysres := mkRes (zlen bs) bs [].
Definition ret_fds (fds : list Z) : sysres := mkRes 0 [] fds.

(** ** A kernel that keeps its promises *)

(** It accepts three bytes per [send] until its quota is used up, reads nothing,
    and lets every other call succeed. *)
Record quota := mkQuota { q_left : Z }.
#[export] Instance quota_kernel : Kernel quota := λ c w,
  match c with
  | Send fd data => let n := Z.min (Z.min 3 (q_left w)) (zlen data) in (mkRes n [] [], mkQuota (q_left w - n))
  | Read fd n => (mkRes 0 [] [], w)
  | _ => (mkRes 0 [] [], w)
  end.

#[export] Instance quota_kernel_ok : KernelOk quota.
Proof. split; intros; cbn in *; lia. Qed.

(** ** Runs of the monad *)

Ltac st_inv :=
  repeat match goal with
  | H : (_ ≫= _) _ = Ok _ |- _ =>
      let w := fresh "w" in let E := fresh "E" in apply st_bind_inv in H as (? & w & E & H)
  | H : mret _ _ = Ok _ |- _ => unfold mret, st_ret in H; simplify_eq
  | H : get _ _ = Ok _ |- _ => unfold get in H; injection H as; subst
  | H : modify _ _ = Ok _ |- _ => unfold modify in H; injection H as; subst
  end.

Section Calls.
Context {W : Type} `{!Kernel W}.

Lemma call_inv c (w : world W) r w' :
  call c w = Ok (r, w') → w_mem w' = w_mem w ∧ w_trace w' = w_trace w ++ [(c, r)].
Proof. unfold call. destruct (kcall c (w_os w)). intros [= <- <-]. done. Qed.

Lemma call_ret_inv c (w : world W) z w' :
  call_ret c w = Ok (z, w') →
  ∃ r, z = r_ret r ∧ w_mem w' = w_mem w ∧ w_trace w' = w_trace w ++ [(c, r)].
Proof. unfold call_ret. intros H. st_inv. apply call_inv in E as [? ?]. eauto. Qed.

Lemma mmalloc_block_inv n (w : world W) p w' :
  0 ≤ n → mmalloc_block n w = Ok (p, w') →
  (∃ r, w_trace w' = w_trace w ++ [(Malloc n, r)]) ∧
  match p with
  | None => w_mem w' = w_mem w
  | Some p => ∃ b x, p = (b, 0) ∧ w_mem w !! b = None ∧ zlen x = n ∧ w_mem w' = <[b := x]> (w_mem w)
  end.
Proof.
  intros Hn H. unfold mmalloc_block in H. st_inv. apply call_inv in E as [Hm Ht].
  case_decide; st_inv; cbn [w_mem w_trace set_mem]; [by eauto|]. split; [by eauto|].
  eexists _, _. split; [done|]. split_and!; [|..|by rewrite Hm].
  - rewrite Hm. apply not_elem_of_dom. apply is_fresh.
  - unfold zlen. rewrite length_take, length_app. unfold zeros. rewrite length_replicate. lia.
Qed.

(** Nothing was sent and nothing written between two worlds. *)
Definition is_send (c : syscall) : bool := match c with Send _ _ => true | _ => false end.
Definition mute (e : syscall * sysres) : Prop := is_send e.1 = false.
Record quiet_run (w w' : world W) : Prop := {
  qr_mem : w_mem w' = w_mem w;
  qr_trace : ∃ tr, w_trace w' = w_trace w ++ tr ∧ Forall mute tr;
}.

#[export] Instance quiet_run_preorder : PreOrder quiet_run.
Proof.
  split.
  - intros w. split; [done|]. exists []. by rewrite app_nil_r.
  - intros w1 w2 w3 [M1 (tr1 & T1 & F1)] [M2 (tr2 & T2 & F2)]. split; [congruence|].
    exists (tr1 ++ tr2). rewrite T2, T1, <- app_assoc. split; [done|by apply Forall_app].
Qed.

Lemma call_quiet c (w : world W) r w' : call c w = Ok (r, w') → is_send c = false → quiet_run w w'.
Proof.
  intros [Hm Ht]%call_inv Hc. split; [done|]. exists [(c, r)]. split; [done|]. by repeat constructor.
Qed.

Lemma call_ret_quiet c (w : world W) z w' : call_ret c w = Ok (z, w') → is_send c = false → quiet_run w w'.
Proof. unfold call_ret. intros H. st_inv. by eapply call_quiet. Qed.

Lemma with_mem_quiet {A} (f : mem → res A) (w : world W) a w' : with_mem f w = Ok (a, w') → w' = w.
Proof. unfold with_mem. intros (b & _ & [= _ <-])%bind_ok. done. Qed.
End Calls.

(** The worlds of a run that sends and writes nothing, one after the other. *)
Ltac quiet_tac :=
  repeat match goal with
  | H : call _ _ = Ok _ |- _ => apply call_quiet in H; [|reflexivity]
  | H : call_ret _ _ = Ok _ |- _ => apply call_ret_quiet in H; [|reflexivity]
  | H : with_mem _ _ = Ok _ |- _ => apply with_mem_quiet in H; subst
  end;
  repeat match goal with
  | |- quiet_run ?w ?w => reflexivity
  | H : quiet_run ?w ?w1 |- quiet_run ?w ?w2 => transitivity w1; [exact H|clear H]
  end.
