(* ===== verification/Log.v ===== *)
(** Logging (src/log.h): a line to the terminal and, when one is open, to a file. *)

From S2P Require Import Prelude CString Os.

Definition LOG_MSG_MAX : Z := 8196.
Definition LOG_DATE_MAX : Z := 32.
Definition LOG_TAG_MAX : Z := 32.
Definition LOG_OUT_MAX : Z := LOG_DATE_MAX + LOG_TAG_MAX + LOG_MSG_MAX.

Definition ESC : byte := Byte.x1b.
Definition SP : byte := Byte.x20.
Definition LOG_CLR_NORMAL : list byte := ESC :: bytes_of_string "[0m".
Definition LOG_CLR_RED : list byte := ESC :: bytes_of_string "[31m".
Definition LOG_CLR_GREEN : list byte := ESC :: bytes_of_string "[32m".
Definition LOG_CLR_YELLOW : list byte := ESC :: bytes_of_string "[33m".
Definition LOG_CLR_CYAN : list byte := ESC :: bytes_of_string "[36m".
Definition LOG_CLR_WHITE : list byte := ESC :: bytes_of_string "[37m".

(** The macros [LOG_ERR] to [LOG_TRACE]. *)
Inductive level := ERROR | WARN | INFO | DEBUG | TRACE.
Definition level_number (l : level) : Z :=
  match l with ERROR => 1 | WARN => 2 | INFO => 3 | DEBUG => 4 | TRACE => 5 end.
Definition level_color (l : level) : list byte :=
  match l with
  | ERROR => LOG_CLR_RED | WARN => LOG_CLR_YELLOW | INFO => LOG_CLR_GREEN
  | DEBUG => LOG_CLR_CYAN | TRACE => LOG_CLR_WHITE
  end.
Definition level_tag (l : level) : list byte :=
  bytes_of_string
    match l with ERROR => "ERROR" | WARN => "WARN" | INFO => "INFO" | DEBUG => "DEBUG" | TRACE => "TRACE" end.

(** [snprintf] into a buffer of [n] bytes: what does not fit is cut off. *)
Definition snprintf (n : Z) (text : list byte) : list byte := take (Z.to_nat (n - 1)) text.

Section Log.
Context {W : Type} `{!Kernel W}.
(** [strftime] of [localtime], with the format and the buffer of the source. *)
Context (date : Z → list byte).

(** The state is [__log_output_fd] and the world. *)
Abbreviation LM := (ST (option Z * world W)).
Definition log_call (c : syscall) : LM Z := λ '(fd, w), '(r, w) ← call_ret c w; Ok (r, (fd, w)).
Definition set_log (fd : option Z) : LM unit := modify (λ s, (fd, s.2)).

(** A failing [fopen] returns a negative number here. *)
Definition log_init (output_file : option (list byte)) : LM Z :=
  match output_file with
  | None => mret 0
  | Some path =>
      fd ← log_call (Fopen_write path);
      if fd <? 0 then _ ← set_log None; mret (-1) else _ ← set_log (Some fd); mret 0
  end.

Definition log_close : LM unit :=
  fd ← get fst;
  match fd with
  | None => mret tt
  | Some fd => _ ← log_call (Close fd); set_log None
  end.

(** The line for a formatted message, which like every C string has no NUL in it. *)
Definition log_line (color tag t_buf msg : list byte) : list byte :=
  let in_buf := snprintf LOG_MSG_MAX msg in
  snprintf LOG_OUT_MAX (color ++ t_buf ++ [SP] ++ tag ++ LOG_CLR_NORMAL ++ [SP] ++ in_buf).

Definition log__print (color tag msg : list byte) : LM unit :=
  t ← log_call Time;
  let out_buf := log_line color tag (date t) msg ++ [Byte.x0a] in
  _ ← log_call (Print stdout out_buf);
  fd ← get fst;
  match fd with
  | None => mret tt
  | Some fd => _ ← log_call (Fwrite fd out_buf); mret tt
  end.

(** The macro of a level, compiled with [LOG_LEVEL]. *)
Definition log_at (LOG_LEVEL : Z) (l : level) (msg : list byte) : LM unit :=
  if level_number l <=? LOG_LEVEL then log__print (level_color l) (level_tag l) msg else mret tt.

(** ** A line is logged whole *)

Lemma snprintf_whole n x : zlen x < n → snprintf n x = x.
Proof. intros. unfold snprintf. apply take_ge. unfold zlen in *. lia. Qed.

Lemma snprintf_zlen n x : 0 < n → zlen (snprintf n x) < n.
Proof. intros. unfold snprintf, zlen. rewrite length_take. lia. Qed.

(** Only the message is ever cut off: the second buffer holds whatever the first one
    can, under every level and for a date as [strftime] gives it. *)
Lemma log_line_whole l t_buf msg :
  zlen t_buf < LOG_DATE_MAX →
  log_line (level_color l) (level_tag l) t_buf msg =
  level_color l ++ t_buf ++ [SP] ++ level_tag l ++ LOG_CLR_NORMAL ++ [SP] ++ snprintf LOG_MSG_MAX msg.
Proof.
  intros Hd. unfold log_line. apply snprintf_whole.
  pose proof (snprintf_zlen LOG_MSG_MAX msg ltac:(done)).
  assert (zlen (level_color l) = 5 ∧ zlen (level_tag l) ≤ 5) as [Hc Ht] by (destruct l; by vm_compute).
  rewrite !zlen_app, Hc, !zlen_cons, zlen_nil. change (zlen LOG_CLR_NORMAL) with 4.
  unfold LOG_OUT_MAX, LOG_MSG_MAX, LOG_DATE_MAX, LOG_TAG_MAX in *. lia.
Qed.

Lemma log_call_run c fd w : ∃ r w', log_call c (fd, w) = Ok (r_ret r, (fd, w')) ∧ w_trace w' = w_trace w ++ [(c, r)].
Proof.
  unfold log_call, call_ret, mbind, st_bind, call. destruct (kcall c (w_os w)) as [r os] eqn:E.
  exists r. eexists. split; reflexivity.
Qed.

Lemma log_bind {B} c (k : Z → LM B) fd w :
  ∃ r w', (log_call c ≫= k) (fd, w) = k (r_ret r) (fd, w') ∧ w_trace w' = w_trace w ++ [(c, r)].
Proof.
  destruct (log_call_run c fd w) as (r & w' & E & T). exists r, w'. split; [|done]. by apply st_bind_ok.
Qed.

(** C34: a message of an enabled level is printed as one line, its message cut to
    [LOG_MSG_MAX - 1] bytes and nothing else, and the same line goes to the log file
    when one is open; a message of a level above [LOG_LEVEL] leaves no trace. *)
Theorem log_at_writes LOG_LEVEL l msg fd w :
  (∀ t, zlen (date t) < LOG_DATE_MAX) →
  ∃ w', log_at LOG_LEVEL l msg (fd, w) = Ok (tt, (fd, w')) ∧
    if level_number l <=? LOG_LEVEL then
      ∃ t rs, let line := level_color l ++ date (r_ret t) ++ [SP] ++ level_tag l ++ LOG_CLR_NORMAL ++
                   [SP] ++ snprintf LOG_MSG_MAX msg ++ [Byte.x0a] in
        w_trace w' = w_trace w ++ [(Time, t)] ++
          zip (Print stdout line :: match fd with Some f => [Fwrite f line] | None => [] end) rs ∧
        length rs = match fd with Some _ => 2%nat | None => 1%nat end
    else w' = w.
Proof.
  intros Hd. unfold log_at. destruct (level_number l <=? LOG_LEVEL); [|by exists w].
  unfold log__print.
  match goal with |- context [(log_call Time ≫= ?k) _] => destruct (log_bind Time k fd w) as (t & w1 & E & T1); rewrite E; clear E end.
  cbv zeta. rewrite log_line_whole by done. set (line := _ ++ [Byte.x0a]).
  match goal with |- context [(log_call (Print stdout line) ≫= ?k) (fd, w1)] => destruct (log_bind (Print stdout line) k fd w1) as (r & w2 & E & T2); rewrite E; clear E end.
  rewrite T1 in T2. assert (Hline : line = level_color l ++ date (r_ret t) ++ [SP] ++ level_tag l ++
    LOG_CLR_NORMAL ++ [SP] ++ snprintf LOG_MSG_MAX msg ++ [Byte.x0a]) by (unfold line; by rewrite <- !app_assoc).
  destruct fd as [f|].
  - destruct (log_bind (Fwrite f line) (λ _, mret tt) (Some f) w2) as (r2 & w3 & E & T3).
    exists w3. split; [exact E|]. exists t, [r; r2]. cbv zeta. rewrite <- Hline, T3, T2, <- !app_assoc. done.
  - exists w2. split; [done|]. exists t, [r]. cbv zeta. rewrite <- Hline, T2, <- !app_assoc. done.
Qed.

End Log.

Lemma log_at_writes_witness (date := λ _, bytes_of_string "2024-01-31 12:00:00") :
  ∃ w', log_at date 3 INFO (bytes_of_string "ready") (Some 5, mkWorld [ret 0; ret 20; ret 20] ∅ []) = Ok (tt, (Some 5, w')) ∧
    length (w_trace w') = 3%nat.
Proof.
  destruct (log_at_writes date 3 INFO (bytes_of_string "ready") (Some 5) (mkWorld [ret 0; ret 20; ret 20] ∅ []) ltac:(done))
    as (w' & E & t & rs & T & Hr).
  exists w'. split; [exact E|]. rewrite T. by destruct rs as [|? [|? []]].
Defined.
