(* ===== verification/Config.v ===== *)
(** The command line and the settings (src/config.h). *)

From S2P Require Import Prelude CString Memory.

Definition ARG_PORT : list byte := bytes_of_string "-p".
Definition ARG_WATCH_PATH : list byte := bytes_of_string "-w".
Definition ARG_WS_FILE : list byte := bytes_of_string "-f".
Definition ARG_LOG_FILE : list byte := bytes_of_string "-l".
Definition ARG_HELP : list byte := bytes_of_string "-h".
Definition ARG_QUIET : list byte := bytes_of_string "-q".
Definition ARG_DETACHED : list byte := bytes_of_string "-d".

Inductive RunMode := RUNMODE_CMD | RUNMODE_SERVER.
#[export] Instance run_mode_eq_dec : EqDecision RunMode.
Proof. solve_decision. Defined.

Record Args := mkArgs {
  run_mode : RunMode;
  mode_detached : Z;
  help : Z;
  quiet : Z;
  watch_path : option addr;
  ws_file : option addr;
  log_file : option addr;
  port : Z;
  arg_indices : list Z;
  arg_count : Z;
}.

Record Settings := mkSettings {
  process_store_count : Z;
  task_store_count : Z;
  protocol_token_count : Z;
  workspace_buf_size : Z;
  cmd_bin_path : list byte;
  task_buf_size : Z;
  task_var_max_count : Z;
  task_name_size : Z;
  max_clients : Z;
  max_pending_conn : Z;
  client_timeout_ms : Z;
  sock_timeout_sec : Z;
  select_timeout_sec : Z;
  select_timeout_usec : Z;
  inotify_timeout_ms : Z;
  buffer_size : Z;
}.

Record Config := mkConfig { args : Args; settings : Settings }.

Definition config_default_settings : Settings :=
  mkSettings 5 5 30 256 (bytes_of_string "/bin/sh") 1024 30 256
    30 3 5000 5 0 66666 1000 1024.

(** ** Collecting the arguments *)

Definition set_detached (a : Args) : Args :=
  mkArgs (run_mode a) 1 (help a) (quiet a) (watch_path a) (ws_file a) (log_file a) (port a) (arg_indices a) (arg_count a).
Definition set_help (a : Args) : Args :=
  mkArgs (run_mode a) (mode_detached a) 1 (quiet a) (watch_path a) (ws_file a) (log_file a) (port a) (arg_indices a) (arg_count a).
Definition set_quiet (a : Args) : Args :=
  mkArgs (run_mode a) (mode_detached a) (help a) 1 (watch_path a) (ws_file a) (log_file a) (port a) (arg_indices a) (arg_count a).
Definition set_watch_path (p : option addr) (a : Args) : Args :=
  mkArgs (run_mode a) (mode_detached a) (help a) (quiet a) p (ws_file a) (log_file a) (port a) (arg_indices a) (arg_count a).
Definition set_ws_file (p : option addr) (a : Args) : Args :=
  mkArgs (run_mode a) (mode_detached a) (help a) (quiet a) (watch_path a) p (log_file a) (port a) (arg_indices a) (arg_count a).
Definition set_log_file (p : option addr) (a : Args) : Args :=
  mkArgs (run_mode a) (mode_detached a) (help a) (quiet a) (watch_path a) (ws_file a) p (port a) (arg_indices a) (arg_count a).
Definition set_port (n : Z) (a : Args) : Args :=
  mkArgs (run_mode a) (mode_detached a) (help a) (quiet a) (watch_path a) (ws_file a) (log_file a) n (arg_indices a) (arg_count a).
Definition push_arg (l : list Z) (a : Args) : Args :=
  mkArgs (run_mode a) (mode_detached a) (help a) (quiet a) (watch_path a) (ws_file a) (log_file a) (port a) l (arg_count a + 1).
Definition set_run_mode (r : RunMode) (a : Args) : Args :=
  mkArgs r (mode_detached a) (help a) (quiet a) (watch_path a) (ws_file a) (log_file a) (port a) (arg_indices a) (arg_count a).

(** [atoi(p)] of a pointer. *)
Definition atoi_at (m : mem) (p : option addr) : res Z :=
  p ← of_option NullDeref p; s ← load_str m p; Ok (atoi s).

(** One iteration: the arguments and the next [i].  [argv] includes the NULL
    that ends it. *)
Definition collect_arg (m : mem) (argv : list (option addr)) (i : Z) (arg : addr) (a : Args) : res (Args * Z) :=
  s ← load_str m arg;
  if decide (strncmp s ARG_DETACHED 2 = 0) then Ok (set_detached a, i + 1)
  else if decide (strncmp s ARG_QUIET 2 = 0) then Ok (set_quiet a, i + 1)
  else if decide (strncmp s ARG_PORT 2 = 0) then
    p ← rd argv (i + 1); n ← atoi_at m p; Ok (set_port n a, i + 1 + 1)
  else if decide (strncmp s ARG_WATCH_PATH 2 = 0) then
    p ← rd argv (i + 1); Ok (set_watch_path p a, i + 1 + 1)
  else if decide (strncmp s ARG_WS_FILE 2 = 0) then
    p ← rd argv (i + 1); Ok (set_ws_file p a, i + 1 + 1)
  else if decide (strncmp s ARG_LOG_FILE 2 = 0) then
    p ← rd argv (i + 1); Ok (set_log_file p a, i + 1 + 1)
  else if decide (strncmp s ARG_HELP 2 = 0) then Ok (set_help a, i + 1)
  else l ← wr (arg_indices a) (arg_count a) i; Ok (push_arg l a, i + 1).

Fixpoint collect_loop (fuel : nat) (m : mem) (argv : list (option addr)) (argc i : Z) (a : Args) : res Args :=
  if i <? argc then
    match fuel with
    | O => Fault OutOfFuel
    | S fuel' =>
        arg ← rd argv i;
        match arg with
        | None => Ok a
        | Some arg =>
            '(a, i) ← collect_arg m argv i arg a;
            collect_loop fuel' m argv argc i a
        end
    end
  else Ok a.

(** [indices] is the array [MMALLOC] returned for [arg_indices], if it did. *)
Definition config_collect_args (indices : option (list Z)) (m : mem) (argc : Z) (argv : list (option addr))
  : res Args :=
  match indices with
  | None => Fault (Exit 1)
  | Some indices =>
      a ← collect_loop (Z.to_nat argc) m argv argc 1
            (mkArgs RUNMODE_SERVER 0 0 0 None None None 9999 indices 0);
      if arg_count a >? 0 then Ok (set_run_mode RUNMODE_CMD a) else Ok a
  end.

(** [config_ok] is whether the allocation of the [Config] succeeded. *)
Definition config_init (config_ok : bool) (indices : option (list Z)) (m : mem) (argc : Z)
    (argv : list (option addr)) : res Config :=
  if config_ok then
    a ← config_collect_args indices m argc argv;
    Ok (mkConfig a config_default_settings)
  else Fault (Exit 1).

(** ** Any command line *)

(** What holds of the arguments collected from the words before place [i]. *)
Record collected (argv : list (option addr)) (argc n i : Z) (a : Args) : Prop := {
  co_count : 0 ≤ arg_count a ≤ Z.max 0 (Z.min i argc - 1);
  co_size : zlen (arg_indices a) = n;
  co_flags : Forall (λ z, z = 0 ∨ z = 1) [mode_detached a; help a; quiet a];
  co_index k : 0 ≤ k < arg_count a → ∃ j p,
    arg_indices a !! Z.to_nat k = Some j ∧ 1 ≤ j < Z.min i argc ∧ argv !! Z.to_nat j = Some (Some p);
  co_sorted k l j j' : 0 ≤ k < l → l < arg_count a →
    arg_indices a !! Z.to_nat k = Some j → arg_indices a !! Z.to_nat l = Some j' → j < j';
}.

(** A well-formed [Args]: as above for the whole of [argv], and the mode says whether
    there are arguments. *)
Record args_wf (argv : list (option addr)) (argc n : Z) (a : Args) : Prop := {
  aw_collected : collected argv argc n argc a;
  aw_mode : run_mode a = if decide (0 < arg_count a) then RUNMODE_CMD else RUNMODE_SERVER;
}.

Lemma collected_later argv argc n i i' a :
  i ≤ i' → collected argv argc n i a → collected argv argc n i' a.
Proof.
  intros Hi [H1 H2 H3 H4 H5]. split; try done; [lia|].
  intros k Hk. destruct (H4 k Hk) as (j & p & ? & ? & ?). exists j, p. split_and!; (done || lia).
Qed.

Lemma collected_push argv argc n i a l p :
  1 ≤ i < argc → argv !! Z.to_nat i = Some (Some p) → collected argv argc n i a →
  wr (arg_indices a) (arg_count a) i = Ok l → collected argv argc n (i + 1) (push_arg l a).
Proof.
  intros Hi Hp [[H1 H1'] H2 H3 H4 H5] Hw.
  assert (Hc : arg_count a < zlen (arg_indices a)).
  { destruct (decide (arg_count a < zlen (arg_indices a))); [done|]. by rewrite wr_oob in Hw by lia. }
  rewrite wr_ok, upd_single in Hw by lia. injection Hw as <-.
  assert (Hold : ∀ k, 0 ≤ k < arg_count a →
    <[Z.to_nat (arg_count a) := i]> (arg_indices a) !! Z.to_nat k = arg_indices a !! Z.to_nat k).
  { intros k Hk. apply list_lookup_insert_ne. lia. }
  assert (Hnew : <[Z.to_nat (arg_count a) := i]> (arg_indices a) !! Z.to_nat (arg_count a) = Some i).
  { apply list_lookup_insert_eq. unfold zlen in Hc. lia. }
  split; cbn [push_arg arg_count arg_indices mode_detached help quiet]; [lia| |done| |].
  - unfold zlen in *. by rewrite length_insert.
  - intros k Hk. destruct (decide (k = arg_count a)) as [->|]; [exists i, p; split_and!; (done || lia)|].
    destruct (H4 k) as (j & q & ? & ? & ?); [lia|]. exists j, q. rewrite Hold by lia. split_and!; (done || lia).
  - intros k l j j' Hk Hl. rewrite (Hold k) by lia. destruct (decide (l = arg_count a)) as [->|].
    + intros Hj. rewrite Hnew. intros [= <-]. destruct (H4 k) as (j0 & q & ? & ? & _); [lia|]. simplify_eq. lia.
    + rewrite (Hold l) by lia. apply H5; lia.
Qed.

(** An iteration moves on by one or two words and keeps what was collected. *)
Lemma collect_arg_wf m argv argc n i arg a :
  1 ≤ i < argc → argv !! Z.to_nat i = Some (Some arg) → collected argv argc n i a →
  settles (collect_arg m argv i arg a) (λ '(a', i'), collected argv argc n i' a' ∧ i < i' ∧ run_mode a' = run_mode a).
Proof.
  intros Hi Harg Ha. unfold collect_arg.
  assert (Hset : ∀ a' k, i < k → arg_count a' = arg_count a → arg_indices a' = arg_indices a →
    run_mode a' = run_mode a → Forall (λ z, z = 0 ∨ z = 1) [mode_detached a'; help a'; quiet a'] →
    collected argv argc n k a' ∧ i < k ∧ run_mode a' = run_mode a).
  { intros a' k Hk Ec Ei Er Hf. destruct (collected_later argv argc n i k a ltac:(lia) Ha).
    split; [|done]. split; rewrite ?Ec, ?Ei; done. }
  pose proof (co_flags _ _ _ _ _ Ha) as Hf. rewrite !Forall_cons in Hf. destruct Hf as (Hd & Hh & Hq & _).
  eapply settles_bind with (P := λ _, True); [apply settles_load_str|]. intros s _.
  assert (Hval : ∀ f : option addr → Args,
    (∀ q, collected argv argc n (i + 1 + 1) (f q) ∧ i < i + 1 + 1 ∧ run_mode (f q) = run_mode a) →
    settles (q ← rd argv (i + 1); Ok (f q, i + 1 + 1))
      (λ '(a', i'), collected argv argc n i' a' ∧ i < i' ∧ run_mode a' = run_mode a)).
  { intros f H. eapply settles_bind; [apply settles_rd|]. intros q _. apply H. }
  repeat case_decide; try (apply Hset; (done || lia || (rewrite !Forall_cons, Forall_nil; cbn; auto)));
    try (apply Hval; intros q; apply Hset; (done || lia || (rewrite !Forall_cons, Forall_nil; cbn; auto))).
  - eapply settles_bind; [apply settles_rd|]. intros q _. eapply settles_bind with (P := λ _, True).
    { unfold atoi_at. destruct q as [q|]; [|done]. cbn [of_option mbind res_bind].
      eapply settles_bind with (P := λ _, True); [apply settles_load_str|done]. }
    intros z _. apply Hset; (done || lia || (rewrite !Forall_cons, Forall_nil; cbn; auto)).
  - eapply settles_bind; [apply settles_wr|]. intros l Hl. split; [|split; [lia|done]].
    by eapply collected_push.
Qed.

Lemma collect_loop_wf m argv argc n fuel i a :
  1 ≤ i → Z.max 0 (argc - i) ≤ Z.of_nat fuel → collected argv argc n i a →
  settles (collect_loop fuel m argv argc i a) (λ a', collected argv argc n argc a' ∧ run_mode a' = run_mode a).
Proof.
  revert i a. induction fuel as [|fuel IH]; intros i a Hi Hf Ha; cbn [collect_loop];
    (assert (Hend : collected argv argc n argc a) by (destruct Ha; split; try done; [lia|intros k Hk;
       destruct (co_index0 k Hk) as (j & p & ? & ? & ?); exists j, p; split_and!; (done || lia)]);
     destruct (Z.ltb_spec i argc); [|done]); [lia|].
  eapply settles_bind; [apply settles_rd|]. intros [arg|] Hrd; [|done]. apply rd_inv in Hrd as [_ Hrd].
  eapply settles_bind; [by apply collect_arg_wf|]. intros [a' i'] (Ha' & Hi' & Hr). cbn.
  rewrite <- Hr. apply IH; [lia|lia|done].
Qed.

(** C20: whatever the command line, [config_init] comes to an end, and the configuration
    it returns is well formed: the positions of the arguments increase, lie inside
    [argv] and name words that are there, the flags are 0 or 1, the mode is command mode
    exactly when there are arguments, and the settings are the defaults. *)
Theorem config_init_wf config_ok indices m argc argv :
  settles (config_init config_ok (Some indices) m argc argv)
    (λ c, config_ok = true ∧ settings c = config_default_settings ∧ args_wf argv argc (zlen indices) (args c)).
Proof.
  unfold config_init, config_collect_args. destruct config_ok; [|done].
  eapply settles_bind with (P := args_wf argv argc (zlen indices)); [|done].
  eapply settles_bind; [apply (collect_loop_wf m argv argc (zlen indices) _ 1); [lia|lia|]|].
  { split; cbn; try (done || lia). rewrite !Forall_cons, Forall_nil. auto. }
  intros a [Ha Hr]. rewrite Z.gtb_ltb. destruct (Z.ltb_spec 0 (arg_count a)); cbn.
  - split; [by destruct Ha; split|]. cbn. by rewrite decide_True.
  - split; [done|]. by rewrite decide_False by lia.
Qed.

(** ** The command line as data *)

(** A word of the command line: where it is and what it says. *)
Definition word : Type := addr * list byte.

Inductive flag_kind := KDetached | KQuiet | KHelp.
Inductive value_kind := KPort | KWatch | KFile | KLog.

Inductive item :=
| IFlag (k : flag_kind) (w : word)
| IValue (k : value_kind) (w v : word)
| IArg (w : word).

Definition flag_text (k : flag_kind) : list byte :=
  match k with KDetached => ARG_DETACHED | KQuiet => ARG_QUIET | KHelp => ARG_HELP end.
Definition value_text (k : value_kind) : list byte :=
  match k with KPort => ARG_PORT | KWatch => ARG_WATCH_PATH | KFile => ARG_WS_FILE | KLog => ARG_LOG_FILE end.
Definition all_texts : list (list byte) :=
  [ARG_DETACHED; ARG_QUIET; ARG_PORT; ARG_WATCH_PATH; ARG_WS_FILE; ARG_LOG_FILE; ARG_HELP].

Definition item_words (it : item) : list word :=
  match it with IFlag _ w => [w] | IValue _ w v => [w; v] | IArg w => [w] end.

(** An option is recognised by its first two characters. *)
Definition item_ok (it : item) : Prop :=
  match it with
  | IFlag k w => flag_text k `prefix_of` w.2
  | IValue k w _ => value_text k `prefix_of` w.2
  | IArg w => Forall (λ p, ¬ p `prefix_of` w.2) all_texts
  end.

(** What an item at position [i] of [argv] does. *)
Definition apply_item (i : Z) (it : item) (a : Args) : Args :=
  match it with
  | IFlag KDetached _ => set_detached a
  | IFlag KQuiet _ => set_quiet a
  | IFlag KHelp _ => set_help a
  | IValue KPort _ v => set_port (atoi v.2) a
  | IValue KWatch _ v => set_watch_path (Some v.1) a
  | IValue KFile _ v => set_ws_file (Some v.1) a
  | IValue KLog _ v => set_log_file (Some v.1) a
  | IArg _ => push_arg (upd (arg_indices a) (arg_count a) [i]) a
  end.

Fixpoint apply_items (i : Z) (its : list item) (a : Args) : Args :=
  match its with
  | [] => a
  | it :: its => apply_items (i + zlen (item_words it)) its (apply_item i it a)
  end.

(** The positions of the items that are not options. *)
Fixpoint arg_positions (i : Z) (its : list item) : list Z :=
  match its with
  | [] => []
  | IArg _ :: its => i :: arg_positions (i + 1) its
  | it :: its => arg_positions (i + zlen (item_words it)) its
  end.

(** [argv] holds the words [ws] from position [i] on. *)
Definition in_memory (m : mem) (w : word) : Prop := load_str m w.1 = Ok w.2.
Definition argv_of (ws : list word) : list (option addr) := map (λ w, Some w.1) ws ++ [None].

Lemma two_chars (s p : list byte) : no_nul s → no_nul p → length p = 2%nat → strncmp s p 2 = 0 ↔ p `prefix_of` s.
Proof. intros Hs Hp Hl. rewrite <- (strncmp_prefix s p) by done. by rewrite Hl. Qed.

Lemma all_texts_ok : Forall (λ p : list byte, no_nul p ∧ length p = 2%nat) all_texts.
Proof. decided. Qed.

Lemma in_texts (p : list byte) : p ∈ all_texts → no_nul p ∧ length p = 2%nat.
Proof. intros H. by apply (proj1 (Forall_forall _ _) all_texts_ok). Qed.

Lemma prefix_two (s p q : list byte) : p `prefix_of` s → q `prefix_of` s → length p = length q → p = q.
Proof.
  intros [k ->] [k' H] Hl. apply (f_equal (take (length p))) in H.
  rewrite take_app_length, Hl, take_app_length in H. done.
Qed.

(** A test [strncmp(arg, ARG_X, 2) == 0] against the text of the option. *)
Lemma test_text s t p :
  no_nul s → p ∈ all_texts → t ∈ all_texts → t `prefix_of` s → strncmp s p 2 = 0 ↔ p = t.
Proof.
  intros Hs Hp Ht Hpre. destruct (in_texts p Hp) as [Hn Hl]. destruct (in_texts t Ht) as [_ Hl'].
  rewrite two_chars by done. split; [|by intros ->]. intros H. eapply prefix_two; [done..|]. congruence.
Qed.

(** The chain of tests on a word with the text [t] of an option, or without any. *)
Ltac tests t Ht :=
  repeat first
    [ rewrite decide_True by (apply (test_text _ t); [assumption|decided|decided|exact Ht|reflexivity])
    | rewrite decide_False by (rewrite (test_text _ t) by (assumption || decided || exact Ht); decided) ].

Section Collect.
Context (m : mem) (argv : list (option addr)).

Lemma atoi_at_word w : in_memory m w → atoi_at m (Some w.1) = Ok (atoi w.2).
Proof. unfold in_memory, atoi_at. intros H. cbn. by rewrite H. Qed.

Lemma word_no_nul w : in_memory m w → no_nul w.2.
Proof. intros H. apply load_str_inv in H as (? & ? & ? & ?). done. Qed.

Lemma flag_in_texts k : flag_text k ∈ all_texts.
Proof. destruct k; decided. Qed.
Lemma value_in_texts k : value_text k ∈ all_texts.
Proof. destruct k; decided. Qed.

Lemma collect_item it i a rest ws :
  item_ok it → Forall (in_memory m) (item_words it) → 0 ≤ i →
  drop (Z.to_nat i) argv = map (λ w, Some w.1) (item_words it) ++ rest →
  0 ≤ arg_count a < zlen (arg_indices a) → head (item_words it) = Some ws →
  collect_arg m argv i ws.1 a = Ok (apply_item i it a, i + zlen (item_words it)).
Proof.
  intros Hok Hm Hi Hargv Hn Hws. unfold collect_arg.
  assert (Hv : ∀ w v : word, item_words it = [w; v] → rd argv (i + 1) = Ok (Some v.1)).
  { intros w v E. rewrite E in Hargv. apply rd_ok; [lia|].
    replace (Z.to_nat (i + 1)) with (Z.to_nat i + 1)%nat by lia.
    rewrite <- lookup_drop, Hargv. done. }
  destruct it as [k w|k w v|w]; cbn [item_words item_ok] in *; injection Hws as ->;
    apply Forall_cons in Hm as [Hw Hm]; pose proof (word_no_nul _ Hw) as Hnn;
    unfold in_memory in Hw; rewrite Hw; cbn [mbind res_bind].
  - destruct k; cbn [flag_text] in Hok; [tests ARG_DETACHED Hok|tests ARG_QUIET Hok|tests ARG_HELP Hok]; done.
  - apply Forall_cons in Hm as [Hmv _]. specialize (Hv ws v eq_refl).
    assert (Hlen : i + 1 + 1 = i + zlen [ws; v]) by (rewrite !zlen_cons, zlen_nil; lia).
    rewrite Hv, Hlen. cbn [mbind res_bind]. rewrite (atoi_at_word v) by done.
    destruct k; cbn [value_text] in Hok;
      [tests ARG_PORT Hok|tests ARG_WATCH_PATH Hok|tests ARG_WS_FILE Hok|tests ARG_LOG_FILE Hok]; done.
  - assert (Hno : ∀ p, p ∈ all_texts → strncmp ws.2 p 2 ≠ 0).
    { intros p Hp. destruct (in_texts p Hp) as [? ?]. rewrite two_chars by done.
      rewrite Forall_forall in Hok. by apply Hok. }
    rewrite !decide_False by (apply Hno; decided). by rewrite wr_ok by lia.
Qed.

End Collect.

(** The value given last to an option, and whether a flag is given. *)
Fixpoint last_value (k : value_kind) (its : list item) : option word :=
  match its with
  | [] => None
  | IValue k' _ v :: its =>
      match last_value k its with
      | Some v' => Some v'
      | None => match k, k' with
                | KPort, KPort | KWatch, KWatch | KFile, KFile | KLog, KLog => Some v
                | _, _ => None
                end
      end
  | _ :: its => last_value k its
  end.

Definition is_flag (k : flag_kind) (it : item) : bool :=
  match it, k with
  | IFlag KDetached _, KDetached | IFlag KQuiet _, KQuiet | IFlag KHelp _, KHelp => true
  | _, _ => false
  end.
Definition flagged (k : flag_kind) (its : list item) : Z := Z.b2z (existsb (is_flag k) its).

(** What a command line means. *)
Record args_of (its : list item) (a : Args) : Prop := {
  ao_mode : run_mode a = if decide (arg_positions 1 its = []) then RUNMODE_SERVER else RUNMODE_CMD;
  ao_detached : mode_detached a = flagged KDetached its;
  ao_quiet : quiet a = flagged KQuiet its;
  ao_help : help a = flagged KHelp its;
  ao_port : port a = match last_value KPort its with Some v => atoi v.2 | None => 9999 end;
  ao_watch : watch_path a = fst <$> last_value KWatch its;
  ao_file : ws_file a = fst <$> last_value KFile its;
  ao_log : log_file a = fst <$> last_value KLog its;
  ao_count : arg_count a = zlen (arg_positions 1 its);
  ao_indices : take (Z.to_nat (arg_count a)) (arg_indices a) = arg_positions 1 its;
}.

Lemma item_words_pos it : 1 ≤ zlen (item_words it).
Proof. destruct it; cbn; rewrite ?zlen_cons, ?zlen_nil; lia. Qed.

Definition words_of (its : list item) : list word := concat (map item_words its).

Lemma arg_positions_le i its : zlen (arg_positions i its) ≤ zlen (words_of its).
Proof.
  revert i. induction its as [|it its IH]; intros i; [done|].
  change (words_of (it :: its)) with (item_words it ++ words_of its).
  rewrite zlen_app. pose proof (item_words_pos it).
  destruct it; cbn [arg_positions item_words] in *; rewrite ?zlen_cons, ?zlen_nil in *;
    [specialize (IH (i + zlen [w]))|specialize (IH (i + zlen [w; v]))|specialize (IH (i + 1))];
    rewrite ?zlen_cons, ?zlen_nil in *; lia.
Qed.

Lemma apply_items_args its i a :
  0 ≤ arg_count a → arg_count a + zlen (arg_positions i its) ≤ zlen (arg_indices a) →
  let a' := apply_items i its a in
  arg_count a' = arg_count a + zlen (arg_positions i its) ∧
  arg_indices a' = upd (arg_indices a) (arg_count a) (arg_positions i its).
Proof.
  revert i a. induction its as [|it its IH]; intros i a Hc Hsz; cbn [apply_items arg_positions] in *.
  { rewrite zlen_nil, upd_nil. split; [lia|done]. }
  specialize (IH (i + zlen (item_words it)) (apply_item i it a)).
  destruct it as [k w|k w v|w]; [by destruct k; apply IH|by destruct k; apply IH|].
  rewrite zlen_cons in *. pose proof (zlen_nonneg (arg_positions (i + 1) its)).
  assert (Hz : zlen (upd (arg_indices a) (arg_count a) [i]) = zlen (arg_indices a))
    by (apply zlen_upd; rewrite ?zlen_cons, ?zlen_nil; lia).
  change (i + zlen (item_words (IArg w))) with (i + 1) in *.
  destruct IH as [H1 H2]; [cbn; lia|cbn; rewrite Hz; lia|]. rewrite H1, H2. cbn [apply_item push_arg arg_count arg_indices].
  split; [lia|]. change (arg_count a + 1) with (arg_count a + zlen [i]).
  by rewrite upd_upd_app by (rewrite ?zlen_cons, ?zlen_nil; lia).
Qed.

Lemma apply_items_port its i a :
  port (apply_items i its a) = match last_value KPort its with Some v => atoi v.2 | None => port a end.
Proof.
  revert i a. induction its as [|it its IH]; intros i a; [done|]. cbn [apply_items last_value].
  rewrite IH. destruct it as [[]|[]|w]; cbn; by destruct (last_value KPort its).
Qed.

Lemma apply_items_paths its i a :
  let a' := apply_items i its a in
  watch_path a' = match last_value KWatch its with Some v => Some v.1 | None => watch_path a end ∧
  ws_file a' = match last_value KFile its with Some v => Some v.1 | None => ws_file a end ∧
  log_file a' = match last_value KLog its with Some v => Some v.1 | None => log_file a end.
Proof.
  revert i a. induction its as [|it its IH]; intros i a; [done|]. cbn [apply_items last_value].
  destruct (IH (i + zlen (item_words it)) (apply_item i it a)) as (-> & -> & ->).
  destruct it as [[]|[]|w]; cbn; by repeat case_match.
Qed.

Lemma apply_items_flags its i a :
  let a' := apply_items i its a in
  mode_detached a' = (if existsb (is_flag KDetached) its then 1 else mode_detached a) ∧
  quiet a' = (if existsb (is_flag KQuiet) its then 1 else quiet a) ∧
  help a' = (if existsb (is_flag KHelp) its then 1 else help a) ∧
  run_mode a' = run_mode a.
Proof.
  revert i a. induction its as [|it its IH]; intros i a; [done|]. cbn [apply_items existsb].
  destruct (IH (i + zlen (item_words it)) (apply_item i it a)) as (-> & -> & -> & ->).
  destruct it as [[] w|[] w v|w]; cbn; by repeat case_match.
Qed.

(** The loop over the words of items. *)
Lemma collect_loop_items m argv argc its fuel i a rest :
  Forall item_ok its → Forall (in_memory m) (words_of its) →
  drop (Z.to_nat i) argv = map (λ w, Some w.1) (words_of its) ++ rest →
  0 ≤ i → i + zlen (words_of its) ≤ argc →
  0 ≤ arg_count a → arg_count a + zlen its ≤ zlen (arg_indices a) →
  zlen (words_of its) ≤ Z.of_nat fuel →
  ∃ fuel', Z.of_nat fuel ≤ Z.of_nat fuel' + zlen (words_of its) ∧
    collect_loop fuel m argv argc i a =
    collect_loop fuel' m argv argc (i + zlen (words_of its)) (apply_items i its a).
Proof.
  intros Hok. revert fuel i a. induction Hok as [|it its Hit Hok IH]; intros fuel i a Hm Hargv Hi Hargc Hc Hsz Hf.
  { change (words_of []) with (@nil word). rewrite zlen_nil, Z.add_0_r. exists fuel. split; [lia|done]. }
  change (words_of (it :: its)) with (item_words it ++ words_of its) in *.
  rewrite zlen_app, zlen_cons in *. apply Forall_app in Hm as [Hmi Hm].
  pose proof (item_words_pos it). pose proof (zlen_nonneg (words_of its)). pose proof (zlen_nonneg its).
  destruct fuel as [|fuel]; [lia|]. cbn [collect_loop]. destruct (Z.ltb_spec i argc); [|lia].
  assert (∃ w, head (item_words it) = Some w) as [w Hw] by (destruct it; eauto).
  rewrite map_app, <- app_assoc in Hargv.
  assert (Hrd : rd argv i = Ok (Some w.1)).
  { apply rd_ok; [done|]. rewrite <- (Nat.add_0_r (Z.to_nat i)), <- lookup_drop, Hargv.
    destruct it; injection Hw as ->; done. }
  rewrite Hrd. cbn [mbind res_bind].
  rewrite (collect_item m argv it i a (map (λ w, Some w.1) (words_of its) ++ rest) w) by (done || lia).
  cbn [mbind res_bind apply_items].
  assert (Hz : zlen (arg_indices (apply_item i it a)) = zlen (arg_indices a)).
  { destruct it as [[] ?|[] ? ?|?]; try done. cbn. apply zlen_upd; rewrite ?zlen_cons, ?zlen_nil; lia. }
  assert (Hc' : arg_count a ≤ arg_count (apply_item i it a) ≤ arg_count a + 1).
  { destruct it as [[] ?|[] ? ?|?]; cbn; lia. }
  destruct (IH fuel (i + zlen (item_words it)) (apply_item i it a)) as (fuel' & Hf' & E); [done| |lia..|].
  - replace (Z.to_nat (i + zlen (item_words it))) with (Z.to_nat i + length (item_words it))%nat by (unfold zlen; lia).
    rewrite <- drop_drop, Hargv. rewrite drop_app_length'; [done|]. by rewrite length_map.
  - exists fuel'. split; [lia|]. rewrite E. by rewrite Z.add_assoc.
Qed.

Lemma items_words_le its : zlen its ≤ zlen (words_of its).
Proof.
  induction its as [|it its IH]; [done|]. change (words_of (it :: its)) with (item_words it ++ words_of its).
  rewrite zlen_app, zlen_cons. pose proof (item_words_pos it). lia.
Qed.

(** C19: on every command line made of options and other words, the collected
    arguments are what the line says: each flag given, for each option with a value
    the last one, the positions of the other words in order, and command mode
    exactly when there is such a word. *)
Theorem config_collect_args_correct m prog its indices :
  Forall item_ok its → Forall (in_memory m) (words_of its) →
  zlen indices = 1 + zlen (words_of its) →
  ∃ a, config_collect_args (Some indices) m (1 + zlen (words_of its)) (prog :: argv_of (words_of its)) = Ok a ∧
    args_of its a.
Proof.
  intros Hok Hm Hz. pose proof (items_words_le its). pose proof (arg_positions_le 1 its).
  pose proof (zlen_nonneg (words_of its)).
  set (a0 := mkArgs RUNMODE_SERVER 0 0 0 None None None 9999 indices 0).
  unfold config_collect_args. fold a0.
  destruct (collect_loop_items m (prog :: argv_of (words_of its)) (1 + zlen (words_of its)) its
    (Z.to_nat (1 + zlen (words_of its))) 1 a0 [None]) as (fuel' & _ & E); [done|done|done|done|lia|done|cbn; lia|lia|].
  rewrite E. clear E. set (a := apply_items 1 its a0).
  assert (collect_loop fuel' m (prog :: argv_of (words_of its)) (1 + zlen (words_of its)) (1 + zlen (words_of its)) a = Ok a) as ->.
  { destruct fuel'; cbn [collect_loop]; by destruct (Z.ltb_spec (1 + zlen (words_of its)) (1 + zlen (words_of its))); [lia|]. }
  cbn [mbind res_bind].
  destruct (apply_items_args its 1 a0) as [Hc Hi]; [done|cbn; lia|]. fold a in Hc, Hi. cbn [a0 arg_count arg_indices] in Hc, Hi.
  destruct (apply_items_flags its 1 a0) as (Hd & Hq & Hh & Hr). fold a in Hd, Hq, Hh, Hr.
  destruct (apply_items_paths its 1 a0) as (Hw & Hf & Hl). fold a in Hw, Hf, Hl.
  pose proof (apply_items_port its 1 a0) as Hp. fold a in Hp.
  assert (Hidx : take (Z.to_nat (arg_count a)) (arg_indices a) = arg_positions 1 its).
  { rewrite Hc, Hi, Z.add_0_l, upd_0. unfold zlen. by rewrite Nat2Z.id, take_app_length. }
  exists (if arg_count a >? 0 then set_run_mode RUNMODE_CMD a else a). split; [by destruct (arg_count a >? 0)|].
  assert (Hm0 : (arg_count a >? 0) = negb (bool_decide (arg_positions 1 its = []))).
  { rewrite Hc. destruct (arg_positions 1 its); [done|]. rewrite zlen_cons.
    pose proof (zlen_nonneg l). case_bool_decide; [done|]. destruct (Z.gtb_spec (0 + (1 + zlen l)) 0); [done|lia]. }
  unfold flagged. split; destruct (arg_count a >? 0) eqn:E;
    cbn [set_run_mode run_mode mode_detached quiet help port watch_path ws_file log_file arg_count arg_indices];
    try exact Hidx; rewrite ?Hd, ?Hq, ?Hh, ?Hr, ?Hw, ?Hf, ?Hl, ?Hp, ?Hc;
    try (by destruct (existsb _ its)); try (by destruct (last_value _ its)); try lia.
  - rewrite decide_False; [done|]. intros E0. by rewrite bool_decide_eq_true_2 in Hm0.
  - rewrite decide_True; [done|]. by destruct (arg_positions 1 its).
Qed.

(** An option that takes a value as the last word: [-p] passes the NULL that
    ends [argv] to [atoi]; the others leave their path NULL. *)
Lemma config_missing_value m prog its k w indices :
  Forall item_ok its → Forall (in_memory m) (words_of its) → in_memory m w → value_text k `prefix_of` w.2 →
  zlen indices = 2 + zlen (words_of its) →
  let r := config_collect_args (Some indices) m (2 + zlen (words_of its))
             (prog :: map (λ w, Some w.1) (words_of its ++ [w]) ++ [None]) in
  match k with
  | KPort => r = Fault NullDeref
  | KWatch => ∃ a, r = Ok a ∧ watch_path a = None
  | KFile => ∃ a, r = Ok a ∧ ws_file a = None
  | KLog => ∃ a, r = Ok a ∧ log_file a = None
  end.
Proof.
  intros Hok Hm Hw Htext Hz r. pose proof (items_words_le its). pose proof (zlen_nonneg (words_of its)).
  pose proof (zlen_nonneg its). unfold r, config_collect_args. clear r.
  set (a0 := mkArgs RUNMODE_SERVER 0 0 0 None None None 9999 indices 0).
  set (argc := 2 + zlen (words_of its)).
  set (argv := prog :: map (λ w, Some w.1) (words_of its ++ [w]) ++ [None]).
  assert (Hargv : argv = (prog :: map (λ w, Some w.1) (words_of its)) ++ Some w.1 :: [None])
    by (unfold argv; rewrite map_app, <- app_assoc; done).
  destruct (collect_loop_items m argv argc its (Z.to_nat argc) 1 a0 [Some w.1; None])
    as (fuel & Hf & ->); [done|done|by rewrite Hargv|done|lia|done|cbn; lia|lia|].
  set (a := apply_items 1 its a0).
  assert (Hlen : length (prog :: map (λ w, Some w.1) (words_of its)) = Z.to_nat (1 + zlen (words_of its)))
    by (rewrite length_cons, length_map; unfold zlen, word; lia).
  assert (Hrd0 : rd argv (1 + zlen (words_of its)) = Ok (Some w.1)).
  { apply rd_ok; [lia|]. rewrite Hargv, <- Hlen. by apply list_lookup_middle. }
  assert (Hrd1 : rd argv (1 + zlen (words_of its) + 1) = Ok None).
  { apply rd_ok; [lia|]. rewrite Hargv.
    replace (Z.to_nat (1 + zlen (words_of its) + 1)) with (length (prog :: map (λ w, Some w.1) (words_of its)) + 1)%nat by lia.
    rewrite lookup_app_r by lia. by rewrite Nat.add_comm, Nat.add_sub. }
  destruct fuel as [|fuel]; [lia|]. cbn [collect_loop].
  destruct (Z.ltb_spec (1 + zlen (words_of its)) argc); [|lia].
  rewrite Hrd0. cbn [mbind res_bind]. unfold collect_arg.
  pose proof (word_no_nul m w Hw) as Hnn. unfold in_memory in Hw. rewrite Hw. cbn [mbind res_bind]. rewrite Hrd1.
  assert (Hend : ∀ a', collect_loop fuel m argv argc (1 + zlen (words_of its) + 1 + 1) a' = Ok a').
  { intros a'. destruct fuel; cbn [collect_loop];
      by destruct (Z.ltb_spec (1 + zlen (words_of its) + 1 + 1) argc); [lia|]. }
  destruct k; cbn [value_text] in Htext;
    [tests ARG_PORT Htext; done|tests ARG_WATCH_PATH Htext|tests ARG_WS_FILE Htext|tests ARG_LOG_FILE Htext];
    cbn [mbind res_bind]; rewrite Hend; cbn [mbind res_bind];
    match goal with |- ∃ _, (if ?b then _ else _) = _ ∧ _ => destruct b end; eauto.
Qed.

(** [dpatch -p 8080 run do_stuff -e VAR1=1 -p 80 -quiet] *)
Definition at_block (b : positive) (s : string) : word := ((b, 0), bytes_of_string s).
Definition demo_words : list word :=
  [at_block 1 "-p"; at_block 2 "8080"; at_block 3 "run"; at_block 4 "do_stuff"; at_block 5 "-e";
   at_block 6 "VAR1=1"; at_block 1 "-p"; at_block 7 "80"; at_block 8 "-quiet"].
Definition demo_items : list item :=
  [IValue KPort (at_block 1 "-p") (at_block 2 "8080"); IArg (at_block 3 "run"); IArg (at_block 4 "do_stuff");
   IArg (at_block 5 "-e"); IArg (at_block 6 "VAR1=1"); IValue KPort (at_block 1 "-p") (at_block 7 "80");
   IFlag KQuiet (at_block 8 "-quiet")].
Definition demo_argv_mem : mem :=
  list_to_map (map (λ w : word, (w.1.1, w.2 ++ [NUL])) demo_words).

Lemma demo_items_ok : Forall item_ok demo_items.
Proof. repeat constructor; decided. Qed.

Lemma demo_items_mem : Forall (in_memory demo_argv_mem) (words_of demo_items).
Proof. repeat constructor. Qed.

Lemma config_collect_args_correct_witness :
  ∃ a, config_collect_args (Some (replicate 10 0)) demo_argv_mem 10 (None :: argv_of (words_of demo_items)) = Ok a ∧
    args_of demo_items a ∧ port a = 80 ∧ arg_count a = 4 ∧ take 4 (arg_indices a) = [3; 4; 5; 6].
Proof.
  destruct (config_collect_args_correct demo_argv_mem None demo_items (replicate 10 0) demo_items_ok demo_items_mem
    eq_refl) as (a & Ha & Hof).
  exists a. split; [exact Ha|]. split; [exact Hof|].
  vm_compute in Ha. injection Ha as <-. by vm_compute.
Defined.

Lemma config_missing_value_witness :
  config_collect_args (Some (replicate 11 0)) demo_argv_mem 11
    (None :: map (λ w, Some w.1) (words_of demo_items ++ [at_block 1 "-p"]) ++ [None]) = Fault NullDeref.
Proof.
  apply (config_missing_value demo_argv_mem None demo_items KPort (at_block 1 "-p") (replicate 11 0)
    demo_items_ok demo_items_mem); [reflexivity|decided|reflexivity].
Defined.
