(* ===== verification/Net.v ===== *)
(** Sockets and connections (src/net.h). *)

From S2P Require Import Prelude CString Memory Os Config.

(** [fd_set]: descriptors up to [FD_SETSIZE]; setting one outside is a write
    outside the set. *)
Definition FD_SETSIZE : Z := 1024.
Definition FD_SET (fd : Z) (s : gset Z) : res (gset Z) :=
  if (0 <=? fd) && (fd <? FD_SETSIZE) then Ok ({[fd]} ∪ s) else Fault OutOfBounds.
Definition FD_ISSET (fd : Z) (s : gset Z) : res bool :=
  if (0 <=? fd) && (fd <? FD_SETSIZE) then Ok (bool_decide (fd ∈ s)) else Fault OutOfBounds.

Definition SO_REUSEADDR : Z := 2.
Definition SO_RCVTIMEO : Z := 20.
Definition SO_SNDTIMEO : Z := 21.

Record Connection := mkConn {
  c_socket : Z;
  c_port : Z;
  c_read_flags : gset Z;
  c_write_flags : gset Z;
  c_in_buf : option addr;
  c_out_buf : option addr;
}.

Definition set_socket (s : Z) (c : Connection) : Connection :=
  mkConn s (c_port c) (c_read_flags c) (c_write_flags c) (c_in_buf c) (c_out_buf c).
Definition set_read_flags (s : gset Z) (c : Connection) : Connection :=
  mkConn (c_socket c) (c_port c) s (c_write_flags c) (c_in_buf c) (c_out_buf c).
Definition set_write_flags (s : gset Z) (c : Connection) : Connection :=
  mkConn (c_socket c) (c_port c) (c_read_flags c) s (c_in_buf c) (c_out_buf c).
Definition set_in_buf (p : option addr) (c : Connection) : Connection :=
  mkConn (c_socket c) (c_port c) (c_read_flags c) (c_write_flags c) p (c_out_buf c).
Definition set_out_buf (p : option addr) (c : Connection) : Connection :=
  mkConn (c_socket c) (c_port c) (c_read_flags c) (c_write_flags c) (c_in_buf c) p.

Section Net.
Context {W : Type} `{!Kernel W}.

(** The loop of [socket_send]; [data] is [buf[0 .. size)]. *)
Fixpoint send_loop (fuel : nat) (socket : Z) (data : list byte) (sent : Z) : ST (world W) Z :=
  if sent <? zlen data then
    match fuel with
    | O => lift (Fault OutOfFuel)
    | S fuel' =>
        s ← call_ret (Send socket (drop (Z.to_nat sent) data));
        if s <? 1 then mret sent else send_loop fuel' socket data (sent + s)
    end
  else mret sent.

(** Every iteration but the last sends a byte at least. *)
Definition socket_send (socket : Z) (data : list byte) : ST (world W) Z :=
  send_loop (length data) socket data 0.

(** [read(fd, buf, n)]: what was read is stored at [buf]. *)
Definition sys_read (fd : Z) (buf : addr) (n : Z) : ST (world W) Z :=
  r ← call (Read fd n);
  if r_ret r <? 1 then mret (r_ret r)
  else _ ← on_mem (λ m, store_n m buf (take (Z.to_nat (r_ret r)) (r_data r))); mret (r_ret r).

Fixpoint read_loop (fuel : nat) (socket : Z) (buf : addr) (size readc : Z) : ST (world W) Z :=
  if readc <? size then
    match fuel with
    | O => lift (Fault OutOfFuel)
    | S fuel' =>
        r ← sys_read socket (addr_add buf readc) (size - readc);
        if r <? 1 then mret readc else read_loop fuel' socket buf size (readc + r)
    end
  else mret readc.

Definition socket_read (socket : Z) (buf : addr) (size : Z) : ST (world W) Z :=
  read_loop (Z.to_nat size) socket buf size 0.

Definition socket_set_nonblock (sock : Z) : ST (world W) Z :=
  flags ← call_ret (Getfl sock);
  if decide (flags = -1) then mret (-1) else call_ret (Setfl_nonblock sock flags).

Definition socket_set_timeout (sock timeout_flag timeout_secs : Z) : ST (world W) Z :=
  call_ret (Setsockopt sock timeout_flag timeout_secs).

(** [a || b] on two calls: the second is made when the first returned 0. *)
Definition set_timeouts (sock secs : Z) : ST (world W) bool :=
  a ← socket_set_timeout sock SO_RCVTIMEO secs;
  if decide (a = 0) then
    b ← socket_set_timeout sock SO_SNDTIMEO secs; mret (bool_decide (b ≠ 0))
  else mret true.

(** Returns the status and what is left in [*conn_ptr]. *)
Definition connection_init (config : Config) : ST (world W) (Z * Connection) :=
  s ← call_ret Socket;
  let conn := mkConn s (port (args config)) ∅ ∅ None None in
  if s <? 0 then mret (s, conn)
  else
    in_buf ← mmalloc_block (buffer_size (settings config));
    let conn := set_in_buf in_buf conn in
    match in_buf with
    | None => mret (-1, conn)
    | Some _ =>
        out_buf ← mmalloc_block (buffer_size (settings config));
        let conn := set_out_buf out_buf conn in
        (* the source tests [in_buf] again here *)
        o ← call_ret (Setsockopt s SO_REUSEADDR 1);
        if o <? 0 then mret (-1, conn)
        else
          failed ← set_timeouts s (sock_timeout_sec (settings config));
          if failed : bool then mret (-1, conn)
          else
            if decide (run_mode (args config) = RUNMODE_SERVER) then
              b ← call_ret (Bind s (port (args config)));
              if b <? 0 then mret (-1, conn)
              else
                l ← call_ret (Listen s (max_pending_conn (settings config)));
                if l <? 0 then mret (-1, conn) else mret (1, conn)
            else
              c ← call_ret (Connect s (port (args config)));
              if c <? 0 then mret (-1, conn) else mret (1, conn)
    end.

Definition connection_close (conn : Connection) : ST (world W) (Z * Connection) :=
  if c_socket conn >? 0 then
    _ ← call_ret (Close (c_socket conn)); mret (0, set_socket 0 conn)
  else mret (0, conn).

(** [memset(p, 0, n)] *)
Definition clear_buf (p : option addr) (n : Z) : ST (world W) unit :=
  p ← lift (of_option NullDeref p);
  on_mem (λ m, store_zeros m p n).

Definition connection_init_set (conn : Connection) (config : Config) : ST (world W) Connection :=
  r ← lift (FD_SET (c_socket conn) ∅);
  w ← lift (FD_SET (c_socket conn) ∅);
  let conn := set_write_flags w (set_read_flags r conn) in
  _ ← clear_buf (c_in_buf conn) (buffer_size (settings config));
  _ ← clear_buf (c_out_buf conn) (buffer_size (settings config));
  mret conn.

End Net.

(** ** Sending *)

(** The bytes a trace says were accepted on [fd]. *)
Definition accepted_by (fd : Z) (e : syscall * sysres) : list byte :=
  match e.1 with
  | Send fd' data => if decide (fd' = fd) then take (Z.to_nat (r_ret e.2)) data else []
  | _ => []
  end.
Definition accepted (fd : Z) (tr : list (syscall * sysres)) : list byte := concat (map (accepted_by fd) tr).

Section NetSpec.
Context {W : Type} `{!Kernel W, !KernelOk W}.

Lemma call_eq c (w : world W) :
  call c w = Ok ((kcall c (w_os w)).1, mkWorld (kcall c (w_os w)).2 (w_mem w) (w_trace w ++ [(c, (kcall c (w_os w)).1)])).
Proof. unfold call. by destruct (kcall c (w_os w)). Qed.

Lemma call_ret_eq c (w : world W) :
  call_ret c w = Ok (r_ret (kcall c (w_os w)).1,
    mkWorld (kcall c (w_os w)).2 (w_mem w) (w_trace w ++ [(c, (kcall c (w_os w)).1)])).
Proof. unfold call_ret, mbind, st_bind. by rewrite call_eq. Qed.

(** The last call of a trace failed. *)
Definition last_refused (tr : list (syscall * sysres)) : Prop :=
  ∃ e, last tr = Some e ∧ r_ret e.2 < 1.

Lemma send_loop_spec fuel socket data sent (w : world W) :
  0 ≤ sent ≤ zlen data → zlen data - sent ≤ Z.of_nat fuel →
  ∃ n tr os,
    send_loop fuel socket data sent w = Ok (sent + n, mkWorld os (w_mem w) (w_trace w ++ tr)) ∧
    0 ≤ n ≤ zlen data - sent ∧ accepted socket tr = sub data sent n ∧
    (sent + n < zlen data → last_refused tr).
Proof.
  revert sent w. induction fuel as [|fuel IH]; intros sent w Hs Hf; cbn [send_loop];
    (destruct (Z.ltb_spec sent (zlen data)) as [Hlt|Hge];
     [|exists 0, [], (w_os w); rewrite Z.add_0_r, app_nil_r; destruct w; split_and!; (done || lia)]); [lia|].
  set (c := Send socket (drop (Z.to_nat sent) data)).
  unfold mbind at 1, st_bind. rewrite call_ret_eq. fold c. set (r := (kcall c (w_os w)).1). set (os := (kcall c (w_os w)).2).
  assert (Hr : r_ret r ≤ zlen data - sent).
  { pose proof (k_send socket (drop (Z.to_nat sent) data) (w_os w)) as H. fold c r in H.
    unfold zlen in *. rewrite length_drop in H. lia. }
  destruct (Z.ltb_spec (r_ret r) 1) as [H1|H1].
  - exists 0, [(c, r)], os. rewrite Z.add_0_r. split_and!; [done|lia|lia| |].
    + unfold accepted, accepted_by. cbn. rewrite decide_True by done.
      replace (Z.to_nat (r_ret r)) with 0%nat by lia. done.
    + intros _. by exists (c, r).
  - destruct (IH (sent + r_ret r) (mkWorld os (w_mem w) (w_trace w ++ [(c, r)]))) as (n & tr & os' & E & Hn & Hacc & Hl);
      [lia|lia|].
    exists (r_ret r + n), ((c, r) :: tr), os'. cbn [w_mem w_trace] in E. rewrite E. split_and!; try lia.
    + rewrite <- app_assoc. do 2 f_equal. lia.
    + unfold accepted, accepted_by in *. cbn. rewrite decide_True by done. rewrite Hacc.
      assert (holds data sent (sub data sent (r_ret r) ++ sub data (sent + r_ret r) n)) as [_ _ Hx].
      { assert (Hz : zlen (sub data sent (r_ret r)) = r_ret r) by (apply zlen_sub; lia).
        apply holds_app. rewrite Hz. split; split; rewrite ?Hz, ?zlen_sub by lia; (done || lia). }
      rewrite zlen_app, !zlen_sub in Hx by lia. rewrite Hx. done.
    + intros Hlt2. destruct (Hl ltac:(lia)) as (e & He & Her). exists e. split; [|done].
      destruct tr; [done|]. exact He.
Qed.

(** C29: [socket_send] ends; the bytes the kernel accepted are a beginning of the
    data, as long as the value it returns, and it returns less than the size only
    when the kernel refused the rest. *)
Theorem socket_send_delivers socket data (w : world W) :
  ∃ n tr os,
    socket_send socket data w = Ok (n, mkWorld os (w_mem w) (w_trace w ++ tr)) ∧
    0 ≤ n ≤ zlen data ∧ accepted socket tr = take (Z.to_nat n) data ∧
    (n < zlen data → last_refused tr).
Proof.
  destruct (send_loop_spec (length data) socket data 0 w) as (n & tr & os & E & Hn & Ha & Hl);
    [unfold zlen; lia|unfold zlen; lia|].
  exists n, tr, os. rewrite Z.add_0_l in *. split_and!; [done|lia|lia|done|done].
Qed.

End NetSpec.

(** The calls of one [socket_send], whatever the kernel answers: [send] for what is
    left, until nothing is or nothing is taken. *)
Inductive sending (sock : Z) : list byte → list (syscall * sysres) → Prop :=
| sending_done : sending sock [] []
| sending_refused data r : data ≠ [] → r_ret r < 1 → sending sock data [(Send sock data, r)]
| sending_more data r tr :
    data ≠ [] → 1 ≤ r_ret r → sending sock (drop (Z.to_nat (r_ret r)) data) tr →
    sending sock data ((Send sock data, r) :: tr).

Section Sending.
Context {W : Type} `{!Kernel W}.

Lemma send_loop_sending fuel sock data sent (w w' : world W) n :
  0 ≤ sent → send_loop fuel sock data sent w = Ok (n, w') →
  w_mem w' = w_mem w ∧ ∃ tr, w_trace w' = w_trace w ++ tr ∧ sending sock (drop (Z.to_nat sent) data) tr.
Proof.
  revert sent w. induction fuel as [|fuel IH]; intros sent w Hs H; cbn [send_loop] in H;
    (destruct (Z.ltb_spec sent (zlen data)) as [Hlt|Hge]; [|st_inv; split; [done|]; exists [];
      rewrite app_nil_r, drop_ge by (unfold zlen in *; lia); split; [done|constructor]]); [done|].
  assert (Hne : drop (Z.to_nat sent) data ≠ []).
  { intros He. apply (f_equal length) in He. rewrite length_drop in He. cbn in He. unfold zlen in *. lia. }
  st_inv. apply call_ret_inv in E as (r & -> & Hm & Ht). destruct (Z.ltb_spec (r_ret r) 1).
  - st_inv. split; [done|]. eexists. split; [exact Ht|]. by apply sending_refused.
  - apply IH in H as (Hm2 & tr & Ht2 & Hx); [|lia]. split; [congruence|].
    exists ((Send sock (drop (Z.to_nat sent) data), r) :: tr). rewrite Ht2, Ht, <- app_assoc. split; [done|].
    apply sending_more; [done|done|]. rewrite drop_drop. by replace (_ + _)%nat with (Z.to_nat (sent + r_ret r)) by lia.
Qed.

Lemma socket_send_sending sock data (w w' : world W) n :
  socket_send sock data w = Ok (n, w') →
  w_mem w' = w_mem w ∧ ∃ tr, w_trace w' = w_trace w ++ tr ∧ sending sock data tr.
Proof. intros H. apply (send_loop_sending _ sock data 0) in H; [by rewrite drop_0 in H|done]. Qed.

End Sending.

Lemma socket_send_delivers_witness :
  ∃ n tr os,
    socket_send 4 (bytes_of_string "abcdefgh") (mkWorld (mkQuota 7) ∅ []) = Ok (n, mkWorld os ∅ ([] ++ tr)) ∧
    0 ≤ n ≤ 8 ∧ accepted 4 tr = take (Z.to_nat n) (bytes_of_string "abcdefgh") ∧ (n < 8 → last_refused tr).
Proof. apply (socket_send_delivers 4 (bytes_of_string "abcdefgh") (mkWorld (mkQuota 7) ∅ [])). Defined.

Example send_stops_at_quota :
  fst <$> socket_send 4 (bytes_of_string "abcdefgh") (mkWorld (mkQuota 7) ∅ []) = Ok 7.
Proof. reflexivity. Qed.

(** ** Connecting *)

Section Connect.
Context {W : Type} `{!Kernel W}.

(** The calls a connection ends with, by mode. *)
Definition connect_calls (config : Config) (s : Z) : list syscall :=
  if decide (run_mode (args config) = RUNMODE_SERVER) then
    [Bind s (port (args config)); Listen s (max_pending_conn (settings config))]
  else [Connect s (port (args config))].

Lemma set_timeouts_inv s secs (w : world W) b w' :
  set_timeouts s secs w = Ok (b, w') →
  w_mem w' = w_mem w ∧ ∃ tr, w_trace w' = w_trace w ++ tr.
Proof.
  unfold set_timeouts, socket_set_timeout. intros H. st_inv. apply call_ret_inv in E as (r & -> & Hm & Ht).
  case_decide; st_inv; [|by eauto]. apply call_ret_inv in E as (r' & -> & Hm' & Ht').
  rewrite Hm', Ht', Hm, Ht, <- app_assoc. eauto.
Qed.

(** C30: when [connection_init] reports success, the socket is valid, the last calls
    were the bind and listen of a server or the connect of a client, on the
    configured port, and [in_buf] is a new buffer of the configured size; [out_buf]
    is one too unless its allocation failed. *)
Theorem connection_init_ready config (w w' : world W) conn :
  0 ≤ buffer_size (settings config) →
  connection_init config w = Ok ((1, conn), w') →
  0 ≤ c_socket conn ∧ c_port conn = port (args config) ∧
  (∃ tr rs, w_trace w' = tr ++ zip (connect_calls config (c_socket conn)) rs ∧ Forall (λ r, 0 ≤ r_ret r) rs ∧
     length rs = length (connect_calls config (c_socket conn))) ∧
  (∃ b x, c_in_buf conn = Some (b, 0) ∧ w_mem w' !! b = Some x ∧ zlen x = buffer_size (settings config) ∧
     w_mem w !! b = None ∧
     match c_out_buf conn with
     | None => True
     | Some p => ∃ b' x', p = (b', 0) ∧ b' ≠ b ∧ w_mem w' !! b' = Some x' ∧ zlen x' = buffer_size (settings config)
     end).
Proof.
  intros Hn H. unfold connection_init in H. st_inv. apply call_ret_inv in E as (s & -> & Hm1 & _).
  destruct (Z.ltb_spec (r_ret s) 0) as [|Hs]; st_inv; [lia|].
  apply (mmalloc_block_inv _ _ _ _ Hn) in E as [_ Hm2].
  destruct x as [p|]; [|st_inv]. destruct Hm2 as (b & x & -> & Hb & Hx & Hm2). st_inv.
  apply (mmalloc_block_inv _ _ _ _ Hn) in E as [_ Hm3].
  apply call_ret_inv in E0 as (o & -> & Hm4 & _).
  destruct (r_ret o <? 0); st_inv. apply set_timeouts_inv in E as [Hm5 _].
  destruct x1; st_inv.
  assert (Hbufs : ∀ w' : world W, w_mem w' = w_mem w4 → ∃ b' x',
    Some (b, 0) = Some (b', 0) ∧ w_mem w' !! b' = Some x' ∧ zlen x' = buffer_size (settings config) ∧
    w_mem w !! b' = None ∧
    match x0 with
    | None => True
    | Some p => ∃ b'' x'', p = (b'', 0) ∧ b'' ≠ b' ∧ w_mem w' !! b'' = Some x'' ∧ zlen x'' = buffer_size (settings config)
    end). { intros wf Hwf. rewrite Hwf, Hm5, Hm4. destruct x0 as [p|].
    - destruct Hm3 as (b' & x' & -> & Hb' & Hx' & ->). rewrite Hm2 in *. apply lookup_insert_None in Hb' as [Hb' Hne].
      exists b, x. rewrite Hm1 in Hb. split_and!; [done| |done|done|].
      + by rewrite lookup_insert_ne, lookup_insert_eq by done.
      + exists b', x'. split_and!; [done|done|by rewrite lookup_insert_eq|done].
    - exists b, x. rewrite Hm3, Hm2, Hm1 in *. split_and!; [done|by rewrite lookup_insert_eq|done..]. }
  case_decide as Hmode; st_inv; apply call_ret_inv in E as (r1 & -> & Hm6 & Ht6).
  - destruct (Z.ltb_spec (r_ret r1) 0); st_inv. apply call_ret_inv in E as (r2 & -> & Hm7 & Ht7).
    destruct (Z.ltb_spec (r_ret r2) 0); st_inv. cbn [c_socket c_port c_in_buf c_out_buf set_in_buf set_out_buf].
    split_and!; [done|done| |apply Hbufs; congruence].
    eexists _, [r1; r2]. unfold connect_calls. rewrite decide_True by done.
    split_and!; [rewrite Ht7, Ht6, <- app_assoc; done|by repeat constructor|done].
  - destruct (Z.ltb_spec (r_ret r1) 0); st_inv. cbn [c_socket c_port c_in_buf c_out_buf set_in_buf set_out_buf].
    split_and!; [done|done| |apply Hbufs; congruence].
    eexists _, [r1]. unfold connect_calls. rewrite decide_False by done.
    split_and!; [rewrite Ht6; done|by repeat constructor|done].
Qed.

End Connect.

Definition demo_config_server : Config :=
  mkConfig (mkArgs RUNMODE_SERVER 0 0 0 None None None 9999 [] 0) config_default_settings.

(** The answers to a server's first calls: the socket 3, the two buffers, and
    success for the rest. *)
Definition server_script : list sysres := [ret 3; ret 1; ret 1; ret 0; ret 0; ret 0; ret 0; ret 0].

Lemma connection_init_ready_witness :
  ∃ conn w', connection_init demo_config_server (mkWorld server_script ∅ []) = Ok ((1, conn), w') ∧
    0 ≤ c_socket conn ∧ c_port conn = 9999.
Proof.
  eexists _, _. split; [vm_compute; reflexivity|].
  edestruct (connection_init_ready demo_config_server (mkWorld server_script ∅ [])) as (H1 & H2 & _);
    [by vm_compute|vm_compute; reflexivity|]. split; [exact H1|exact H2].
Defined.

(** The test behind the second allocation looks at [in_buf] again: when
    [out_buf] cannot be allocated, [connection_init] reports success with a NULL
    [out_buf], and the first [connection_init_set] clears it. *)
Lemma connection_init_out_buf_unchecked :
  ∃ conn w',
    connection_init demo_config_server (mkWorld [ret 3; ret 1; ret 0; ret 0; ret 0; ret 0; ret 0; ret 0] ∅ []) =
      Ok ((1, conn), w') ∧
    c_out_buf conn = None ∧
    connection_init_set conn demo_config_server w' = Fault NullDeref.
Proof. eexists _, _. split; [vm_compute; reflexivity|]. by vm_compute. Qed.
