(* ===== verification/Client.v ===== *)
(** The command-mode client (src/client.h). *)

From stdpp Require Import pretty.
From S2P Require Import Prelude CString Memory Protocol Os Config Net.

Definition s_run := bytes_of_string "run".
Definition s_r := bytes_of_string "r".
Definition s_set := bytes_of_string "set".
Definition s_s := bytes_of_string "s".
Definition s_env := bytes_of_string "-e".

Definition INOTIFY_EVENT_BUF_SIZE : Z := (16 + 16) * 1024.

(** [is_cmd]: the loop over the set; a NULL word is dereferenced by [strcmp]. *)
Fixpoint is_cmd (m : mem) (cmd : option addr) (cmd_set : list (list byte)) : res bool :=
  match cmd_set with
  | [] => Ok false
  | c :: cmd_set =>
      p ← of_option NullDeref cmd;
      s ← load_str m p;
      if str_eq s c then Ok true else is_cmd m cmd cmd_set
  end.

Definition run_names := [s_run; s_r].
Definition set_names := [s_set; s_s].
Definition workspace_names := map bytes_of_string ["workspace"; "ws"; "w"]%string.
Definition task_names := map bytes_of_string ["task"; "t"]%string.
Definition process_names := map bytes_of_string ["process"; "proc"; "p"]%string.

Section Client.
Context {W : Type} `{!Kernel W}.

(** [CLIENT_PRINT] *)
Definition client_print (config : Config) (fd : output) (text : list byte) : ST (world W) unit :=
  if decide (quiet (args config) = 0) then _ ← call (Print fd text); mret tt else mret tt.

Definition text (s : string) : list byte := bytes_of_string s ++ [Byte.x0a].

(** [argv[config->args.arg_indices[i]]] *)
Definition nth_word (argv : list (option addr)) (config : Config) (i : Z) : res (option addr) :=
  k ← rd (arg_indices (args config)) i; rd argv k.

(** The chain of tests on one word: the message with its type, or the refusal. *)
Definition eval_word (config : Config) (cmd : option addr) (msg : ProtocolTokenStream)
  : ST (world W) (ProtocolTokenStream + ProtocolTokenStream) :=
  run ← with_mem (λ m, is_cmd m cmd run_names);
  if run : bool then mret (inl (set_ts_type PROTOCOL_MSG_TASK_RUN msg))
  else
    set ← with_mem (λ m, is_cmd m cmd set_names);
    if set : bool then mret (inl (set_ts_type PROTOCOL_MSG_WORKSPACE_SET msg))
    else
      ws ← with_mem (λ m, is_cmd m cmd workspace_names);
      if ws : bool then
        _ ← client_print config stderr (text "Workspace info command is not implemented yet");
        mret (inr (set_ts_type PROTOCOL_MSG_WORKSPACE_INFO msg))
      else
        task ← with_mem (λ m, is_cmd m cmd task_names);
        if task : bool then
          _ ← client_print config stderr (text "Task info command is not implemented yet");
          mret (inr (set_ts_type PROTOCOL_MSG_TASK_INFO msg))
        else
          proc ← with_mem (λ m, is_cmd m cmd process_names);
          if proc : bool then
            _ ← client_print config stderr (text "Process info command is not implemented yet");
            mret (inr (set_ts_type PROTOCOL_MSG_PROC_INFO msg))
          else mret (inl msg).

(** The first loop: [n] words left, from word [i]. *)
Fixpoint eval_words (n : nat) (argv : list (option addr)) (config : Config) (i : Z) (msg : ProtocolTokenStream)
  : ST (world W) (ProtocolTokenStream + ProtocolTokenStream) :=
  match n with
  | O => mret (inl msg)
  | S n' =>
      cmd ← lift (nth_word argv config i);
      r ← eval_word config cmd msg;
      match r with
      | inl msg => eval_words n' argv config (i + 1) msg
      | inr msg => mret (inr msg)
      end
  end.

(** The second loop, over the words behind the command. *)
Fixpoint add_words (fuel : nat) (argv : list (option addr)) (config : Config) (i : Z) (msg : ProtocolTokenStream)
  : ST (world W) ProtocolTokenStream :=
  if i <? arg_count (args config) then
    match fuel with
    | O => lift (Fault OutOfFuel)
    | S fuel' =>
        cmd ← lift (nth_word argv config i);
        match cmd with
        | None => mret msg
        | Some p =>
            s ← with_mem (λ m, load_str m p);
            if str_eq s s_env then
              cmd ← lift (nth_word argv config (i + 1));
              msg ← lift (protocol_tokenstream_add_token msg PROTOCOL_TOKEN_VAR cmd);
              add_words fuel' argv config (i + 1 + 1) msg
            else
              msg ← lift (protocol_tokenstream_add_token msg PROTOCOL_TOKEN_ARG (Some p));
              add_words fuel' argv config (i + 1) msg
        end
    end
  else mret msg.

Definition client_eval_cmds (argv : list (option addr)) (config : Config) (msg : ProtocolTokenStream)
  : ST (world W) (Z * ProtocolTokenStream) :=
  if arg_count (args config) <? 1 then mret (-1, msg)
  else
    r ← eval_words 2 argv config 0 (set_ts_type (msg_type (-1)) msg);
    match r with
    | inr msg => mret (-1, msg)
    | inl msg =>
        (* the type is unsigned: this test never holds *)
        if ts_type msg <? 0 then
          _ ← client_print config stderr (text "Invalid command received"); mret (-1, msg)
        else
          msg ← add_words (Z.to_nat (arg_count (args config))) argv config 1
                  (set_ts_length (arg_count (args config) - 1) msg);
          mret (0, msg)
    end.

(** [protocol_send] through the socket, on the memory of the world. *)
Definition send_stream (socket : Z) (buf : option addr) (len : Z) (ts : ProtocolTokenStream) : ST (world W) Z :=
  λ w,
    match buf with
    | None => Ok (-1, w)   (* [protocol_tokenstream_to_buf] refuses a NULL buffer *)
    | Some p =>
        '(sent, m, w) ← protocol_send (socket_send (W := W)) socket p len ts (w_mem w) w;
        Ok (sent, set_mem m w)
    end.

Definition send_cmd (config : Config) (conn : Connection) (ts : ProtocolTokenStream) : ST (world W) Z :=
  _ ← client_print config stdout (bytes_of_string "Sending command to dpatch server at port " ++
        bytes_of_string (pretty (port (args config))) ++ text "...");
  sent ← send_stream (c_socket conn) (c_out_buf conn) (buffer_size (settings config)) ts;
  if sent <? 1 then
    _ ← client_print config stderr (text "Unable to send network message."); mret (-1)
  else mret 0.

(** Where an answer is printed and its text; [%s] of NULL prints "(null)". *)
Definition response_text (m : mem) (ts : ProtocolTokenStream) : res (output * list byte) :=
  t ← rd (ts_tokens ts) 0;
  s ← (match t_value t with Some p => load_str m p | None => Ok (bytes_of_string "(null)") end);
  Ok (if decide (ts_type ts = PROTOCOL_MSG_ERR) then (stderr, bytes_of_string "Error: " ++ s ++ [Byte.x0a])
      else (stdout, bytes_of_string "Success: " ++ s ++ [Byte.x0a])).

Definition poll_response (config : Config) (conn : Connection) (ts : ProtocolTokenStream)
  : ST (world W) (Z * ProtocolTokenStream) :=
  poll_ret ← call_ret (Poll (c_socket conn) (client_timeout_ms (settings config)));
  if poll_ret >? 0 then
    buf ← lift (of_option NullDeref (c_in_buf conn));
    value_read ← sys_read (c_socket conn) buf (buffer_size (settings config));
    if value_read >? 0 then
      '(r, ts) ← with_mem (protocol_read buf (buffer_size (settings config)) ts);
      if decide (r = 0) then
        '(fd, out) ← with_mem (λ m, response_text m ts);
        _ ← client_print config fd out;
        mret (0, ts)
      else
        _ ← client_print config stderr (text "Received an invalid message from server.");
        mret (0, ts)
    else mret (0, ts)
  else
    _ ← client_print config stderr (bytes_of_string "Connection timeout after " ++
          bytes_of_string (pretty (client_timeout_ms (settings config))) ++ text "ms");
    mret (-1, ts).

(** One command: the part common to [run_cmd] and the body of [poll_watch]. *)
Definition exchange (config : Config) (argv : list (option addr)) (ts : ProtocolTokenStream)
  : ST (world W) (Z * ProtocolTokenStream) :=
  '(r, ts) ← client_eval_cmds argv config ts;
  if r <? 0 then mret (-1, ts)
  else
    '(r, conn) ← connection_init config;
    if r <? 1 then mret (-1, ts)
    else
      r ← send_cmd config conn ts;
      if decide (r ≠ 0) then mret (-1, ts)
      else
        '(r, ts) ← poll_response config conn ts;
        if decide (r ≠ 0) then mret (-1, ts)
        else
          _ ← connection_close conn;
          mret (0, ts).

(** The loop of [poll_watch], for [n] polls: its [running] is never reset, so it
    only ends by an error. [None]: still running. *)
Fixpoint poll_watch (n : nat) (config : Config) (argv : list (option addr)) (ts : ProtocolTokenStream)
    (inotify_fd : Z) : ST (world W) (option Z) :=
  match n with
  | O => mret None
  | S n' =>
      poll_ret ← call_ret (Poll inotify_fd (inotify_timeout_ms (settings config)));
      if poll_ret >? 0 then
        value_read ← call_ret (Read inotify_fd INOTIFY_EVENT_BUF_SIZE);
        if value_read >? 0 then
          ts ← lift (protocol_tokenstream_reset ts);
          '(r, ts) ← exchange config argv ts;
          if r <? 0 then mret (Some (-1)) else poll_watch n' config argv ts inotify_fd
        else poll_watch n' config argv ts inotify_fd
      else poll_watch n' config argv ts inotify_fd
  end.

(** [run_cmd], watching for at most [polls] polls; [ts] is the allocated stream. *)
Definition run_cmd (polls : nat) (config : Config) (argv : list (option addr)) (ts : option ProtocolTokenStream)
  : ST (world W) (option Z) :=
  match ts with
  | None => _ ← client_print config stderr (text "Unable to allocate protocol token stream"); mret (Some (-1))
  | Some ts =>
      match watch_path (args config) with
      | Some path =>
          inotify_fd ← call_ret Inotify_init;
          if inotify_fd <? 0 then mret (Some (-1))
          else
            p ← with_mem (λ m, load_str m path);
            wd ← call_ret (Inotify_add_watch inotify_fd p);
            if wd <? 0 then _ ← call_ret (Close inotify_fd); mret (Some (-1))
            else
              r ← poll_watch polls config argv ts inotify_fd;
              match r with
              | None => mret None
              | Some r => _ ← call_ret (Close wd); _ ← call_ret (Close inotify_fd); mret (Some r)
              end
      | None => '(r, _) ← exchange config argv ts; mret (Some r)
      end
  end.

End Client.

(** ** Command lines *)

(** The words [config] collected, which the client reads through [arg_indices]. *)
Record words_at (m : mem) (argv : list (option addr)) (config : Config) (ws : list word) : Prop := {
  wa_count : arg_count (args config) = zlen ws;
  wa_nth (i : nat) w : ws !! i = Some w → nth_word argv config (Z.of_nat i) = Ok (Some w.1);
  wa_mem : Forall (in_memory m) ws;
}.

(** What a word means as a command: the type, and whether it is implemented. *)
Definition action (s : list byte) : option (Z * bool) :=
  if decide (s ∈ run_names) then Some (PROTOCOL_MSG_TASK_RUN, true)
  else if decide (s ∈ set_names) then Some (PROTOCOL_MSG_WORKSPACE_SET, true)
  else if decide (s ∈ workspace_names) then Some (PROTOCOL_MSG_WORKSPACE_INFO, false)
  else if decide (s ∈ task_names) then Some (PROTOCOL_MSG_TASK_INFO, false)
  else if decide (s ∈ process_names) then Some (PROTOCOL_MSG_PROC_INFO, false)
  else None.

Lemma is_cmd_spec m w set :
  in_memory m w → Forall no_nul set → is_cmd m (Some w.1) set = Ok (bool_decide (w.2 ∈ set)).
Proof.
  intros Hw Hset. pose proof (word_no_nul m w Hw) as Hn. unfold in_memory in Hw.
  induction Hset as [|c set Hc _ IH]; [by rewrite bool_decide_eq_false_2 by set_solver|].
  cbn [is_cmd of_option mbind res_bind]. rewrite Hw. cbn [mbind res_bind].
  rewrite str_eq_spec by done. destruct (decide (w.2 = c)) as [He|He].
  - rewrite !bool_decide_eq_true_2; [done|set_solver|done].
  - rewrite bool_decide_eq_false_2, IH by done. f_equal. apply bool_decide_ext. set_solver.
Qed.

Lemma names_no_nul :
  Forall no_nul run_names ∧ Forall no_nul set_names ∧ Forall no_nul workspace_names ∧
  Forall no_nul task_names ∧ Forall no_nul process_names.
Proof. split_and!; decided. Qed.

Section ClientSpec.
Context {W : Type} `{!Kernel W}.

Lemma with_mem_ok {A} (f : mem → res A) (w : world W) a : f (w_mem w) = Ok a → with_mem f w = Ok (a, w).
Proof. unfold with_mem. by intros ->. Qed.

Lemma bind_with_mem {A B} (f : mem → res A) (k : A → ST (world W) B) (w : world W) a :
  f (w_mem w) = Ok a → (with_mem f ≫= k) w = k a w.
Proof. intros H. unfold mbind, st_bind. by rewrite (with_mem_ok f w a). Qed.

Lemma bind_lift {S A B} (m : res A) (k : A → ST S B) (s : S) a : m = Ok a → (lift m ≫= k) s = k a s.
Proof. by intros ->. Qed.

(** Nothing happened between the worlds but text being printed. *)
Definition only_prints (w w' : world W) : Prop :=
  w_mem w' = w_mem w ∧
  ∃ tr, w_trace w' = w_trace w ++ tr ∧ Forall (λ e, ∃ fd t, e.1 = Print fd t) tr.

Lemma print_ok config fd t (w : world W) :
  ∃ w', client_print config fd t w = Ok (tt, w') ∧ only_prints w w'.
Proof.
  unfold client_print. case_decide.
  - unfold mbind, st_bind. rewrite call_eq. eexists. split; [done|]. split; [done|].
    eexists. split; [done|]. apply Forall_singleton. by eexists _, _.
  - exists w. split; [done|]. split; [done|]. exists []. by rewrite app_nil_r.
Qed.

Lemma eval_word_spec config (wd : word) msg (w : world W) :
  in_memory (w_mem w) wd →
  match action wd.2 with
  | Some (t, true) => eval_word config (Some wd.1) msg w = Ok (inl (set_ts_type t msg), w)
  | Some (t, false) =>
      ∃ w', eval_word config (Some wd.1) msg w = Ok (inr (set_ts_type t msg), w') ∧ only_prints w w'
  | None => eval_word config (Some wd.1) msg w = Ok (inl msg, w)
  end.
Proof.
  intros Hw. destruct names_no_nul as (H1 & H2 & H3 & H4 & H5).
  assert (Hb : ∀ {B} set (k : bool → ST (world W) B), Forall no_nul set →
    (with_mem (λ m, is_cmd m (Some wd.1) set) ≫= k) w = k (bool_decide (wd.2 ∈ set)) w)
    by (intros; apply bind_with_mem, is_cmd_spec; done).
  assert (Hp : ∀ t msg', ∃ w', (client_print config stderr t ≫= λ _, mret (inr msg')) w =
    @Ok ((ProtocolTokenStream + ProtocolTokenStream) * world W) (inr msg', w') ∧ only_prints w w').
  { intros t msg'. destruct (print_ok config stderr t w) as (w' & E & H). exists w'. unfold mbind, st_bind. by rewrite E. }
  unfold action.
  destruct (decide (wd.2 ∈ run_names)).
  { unfold eval_word. by rewrite Hb, bool_decide_eq_true_2 by done. }
  destruct (decide (wd.2 ∈ set_names)).
  { unfold eval_word. rewrite Hb, bool_decide_eq_false_2 by done. by rewrite Hb, bool_decide_eq_true_2 by done. }
  destruct (decide (wd.2 ∈ workspace_names)).
  { unfold eval_word. do 2 rewrite Hb, bool_decide_eq_false_2 by done.
    rewrite Hb, bool_decide_eq_true_2 by done. apply Hp. }
  destruct (decide (wd.2 ∈ task_names)).
  { unfold eval_word. do 3 rewrite Hb, bool_decide_eq_false_2 by done.
    rewrite Hb, bool_decide_eq_true_2 by done. apply Hp. }
  destruct (decide (wd.2 ∈ process_names)).
  { unfold eval_word. do 4 rewrite Hb, bool_decide_eq_false_2 by done.
    rewrite Hb, bool_decide_eq_true_2 by done. apply Hp. }
  unfold eval_word. by do 5 rewrite Hb, bool_decide_eq_false_2 by done.
Qed.

(** *** The words behind the command *)

Inductive citem := CArg (w : word) | CVar (w v : word).
Definition citem_words (c : citem) : list word := match c with CArg w => [w] | CVar w v => [w; v] end.
Definition citem_ok (c : citem) : Prop := match c with CArg w => w.2 ≠ s_env | CVar w _ => w.2 = s_env end.
Definition citem_token (c : citem) : ProtocolToken :=
  match c with
  | CArg w => mkToken PROTOCOL_TOKEN_ARG (Some w.1)
  | CVar _ v => mkToken PROTOCOL_TOKEN_VAR (Some v.1)
  end.
Definition citem_data (c : citem) : wtoken :=
  match c with CArg w => (PROTOCOL_TOKEN_ARG, w.2) | CVar _ v => (PROTOCOL_TOKEN_VAR, v.2) end.
Definition cwords (cs : list citem) : list word := concat (map citem_words cs).

Lemma cwords_cons c cs : cwords (c :: cs) = citem_words c ++ cwords cs.
Proof. done. Qed.

Lemma add_words_spec argv config (w : world W) pre cs fuel msg :
  words_at (w_mem w) argv config (pre ++ cwords cs) → Forall citem_ok cs →
  (length (cwords cs) ≤ fuel)%nat →
  add_words fuel argv config (zlen pre) msg w = (ts ← add_tokens (map citem_token cs) msg; Ok (ts, w)).
Proof.
  intros Hwa Hok. revert pre fuel msg Hwa.
  induction Hok as [|c cs Hc Hok IH]; intros pre fuel msg Hwa Hf.
  { pose proof (wa_count _ _ _ _ Hwa) as Hn. change (cwords []) with (@nil word) in Hn. rewrite app_nil_r in Hn.
    destruct fuel; cbn [add_words]; by destruct (Z.ltb_spec (zlen pre) (arg_count (args config))); [lia|]. }
  rewrite cwords_cons in *. destruct Hwa as [Hn Hnth Hmem].
  assert (Hlt : zlen pre < arg_count (args config)).
  { rewrite Hn, !zlen_app. pose proof (zlen_nonneg (cwords cs)). destruct c; cbn; rewrite ?zlen_cons, ?zlen_nil; lia. }
  assert (Hwa' : words_at (w_mem w) argv config ((pre ++ citem_words c) ++ cwords cs)) by (by rewrite <- app_assoc).
  specialize (IH (pre ++ citem_words c)). rewrite length_app in Hf.
  destruct fuel as [|fuel]; [destruct c; cbn in Hf; lia|]. cbn [add_words].
  destruct (Z.ltb_spec (zlen pre) (arg_count (args config))); [|lia].
  rewrite !Forall_app in Hmem. destruct Hmem as (_ & Hmc & _).
  destruct c as [wd|wd v]; cbn [citem_words citem_ok citem_token] in *; apply Forall_cons in Hmc as [Hwm Hmc];
    pose proof (word_no_nul _ _ Hwm) as Hnn; unfold in_memory in Hwm;
    (rewrite (bind_lift _ _ _ (Some wd.1)) by (apply (Hnth (length pre)); by apply list_lookup_middle));
    (rewrite (bind_with_mem _ _ w wd.2) by done); rewrite str_eq_spec by done || decided.
  - rewrite bool_decide_eq_false_2 by done. cbn [map add_tokens t_type t_value citem_token].
    destruct (protocol_tokenstream_add_token msg PROTOCOL_TOKEN_ARG (Some wd.1)) as [msg'|f]; [|done].
    rewrite (bind_lift _ _ _ msg') by done. cbn [mbind res_bind].
    replace (zlen pre + 1) with (zlen (pre ++ [wd])) by (rewrite zlen_app, zlen_cons, zlen_nil; lia).
    apply IH; [done|cbn in Hf; lia].
  - rewrite bool_decide_eq_true_2 by done. cbn [map add_tokens t_type t_value citem_token].
    rewrite (bind_lift _ _ _ (Some v.1)).
    2: { replace (zlen pre + 1) with (Z.of_nat (length (pre ++ [wd])))
           by (rewrite length_app; unfold zlen; cbn; lia).
         apply Hnth. change (pre ++ [wd; v] ++ cwords cs) with (pre ++ [wd] ++ v :: cwords cs).
         rewrite app_assoc. by apply list_lookup_middle. }
    destruct (protocol_tokenstream_add_token msg PROTOCOL_TOKEN_VAR (Some v.1)) as [msg'|f]; [|done].
    rewrite (bind_lift _ _ _ msg') by done. cbn [mbind res_bind].
    replace (zlen pre + 1 + 1) with (zlen (pre ++ [wd; v])) by (rewrite zlen_app, !zlen_cons, zlen_nil; lia).
    apply IH; [done|cbn in Hf; lia].
Qed.

(** The type the first two words give a message. *)
Definition message_type (w1 w2 : word) : Z :=
  match action w2.2, action w1.2 with
  | Some (t, _), _ => t
  | None, Some (t, _) => t
  | None, None => msg_type (-1)
  end.

Definition refused (s : list byte) : Prop := ∃ t, action s = Some (t, false).

Lemma eval_word_bind {B} config wd msg (w : world W) (k : _ → ST (world W) B) :
  in_memory (w_mem w) wd →
  match action wd.2 with
  | Some (t, true) => (eval_word config (Some wd.1) msg ≫= k) w = k (inl (set_ts_type t msg)) w
  | Some (t, false) =>
      ∃ w', (eval_word config (Some wd.1) msg ≫= k) w = k (inr (set_ts_type t msg)) w' ∧ only_prints w w'
  | None => (eval_word config (Some wd.1) msg ≫= k) w = k (inl msg) w
  end.
Proof.
  intros Hw. pose proof (eval_word_spec config wd msg w Hw) as H.
  destruct (action wd.2) as [[t []]|]; [by rewrite (st_bind_ok _ _ _ _ _ H)| |by rewrite (st_bind_ok _ _ _ _ _ H)].
  destruct H as (w' & H & Hp). exists w'. by rewrite (st_bind_ok _ _ _ _ _ H).
Qed.

Lemma not_refused s t b : ¬ refused s → action s = Some (t, b) → b = true.
Proof. destruct b; [done|]. intros H E. destruct H. by exists t. Qed.

Lemma eval_words_spec argv config msg (w : world W) w1 w2 rest :
  words_at (w_mem w) argv config (w1 :: w2 :: rest) → ¬ refused w1.2 → ¬ refused w2.2 →
  eval_words 2 argv config 0 (set_ts_type (msg_type (-1)) msg) w = Ok (inl (set_ts_type (message_type w1 w2) msg), w).
Proof.
  intros [_ Hnth Hmem] Hr1 Hr2. apply Forall_cons in Hmem as [Hm1 [Hm2 _]%Forall_cons].
  cbn [eval_words]. rewrite (bind_lift _ _ _ (Some w1.1)) by (by apply (Hnth 0%nat)).
  set (k := λ r, _). assert (Hk : ∀ msg', k (inl msg') w =
    Ok (inl (match action w2.2 with Some (t, _) => set_ts_type t msg' | None => msg' end), w)).
  { intros msg'. unfold k. rewrite (bind_lift _ _ _ (Some w2.1)) by (by apply (Hnth 1%nat)).
    set (k2 := λ r, _). pose proof (eval_word_bind config w2 msg' w k2 Hm2) as H.
    destruct (action w2.2) as [[t b]|] eqn:E; [|by rewrite H].
    pose proof (not_refused _ _ _ Hr2 E) as ->. by rewrite H. }
  pose proof (eval_word_bind config w1 (set_ts_type (msg_type (-1)) msg) w k Hm1) as H. unfold message_type.
  destruct (action w1.2) as [[t b]|] eqn:E.
  - pose proof (not_refused _ _ _ Hr1 E) as ->. rewrite H, Hk. by destruct (action w2.2) as [[]|].
  - rewrite H, Hk. by destruct (action w2.2) as [[]|].
Qed.

Lemma message_type_nonneg w1 w2 : 0 ≤ message_type w1 w2.
Proof.
  assert (∀ s t b, action s = Some (t, b) → 0 ≤ t) as H.
  { intros s t b. unfold action. intros E. repeat case_decide; by simplify_eq. }
  unfold message_type. destruct (action w2.2) as [[]|] eqn:E2; [by eapply H|].
  destruct (action w1.2) as [[]|] eqn:E1; [by eapply H|]. by vm_compute.
Qed.

Lemma zlen_map {A B} (f : A → B) l : zlen (map f l) = zlen l.
Proof. unfold zlen. by rewrite length_map. Qed.

(** A command with further words, up to the tokens it adds. *)
Lemma client_eval_cmds_tokens argv config msg (w : world W) cmd c cs w2 :
  words_at (w_mem w) argv config (cmd :: cwords (c :: cs)) → Forall citem_ok (c :: cs) →
  head (cwords (c :: cs)) = Some w2 → ¬ refused cmd.2 → ¬ refused w2.2 →
  client_eval_cmds argv config msg w =
  (ts ← add_tokens (map citem_token (c :: cs))
          (mkStream (message_type cmd w2) (zlen (cwords (c :: cs))) (ts_tokens msg));
   Ok ((0, ts), w)).
Proof.
  intros Hwa Hok Hw2 Hr1 Hr2. set (n := zlen (cwords (c :: cs))).
  pose proof (wa_count _ _ _ _ Hwa) as Hc. rewrite zlen_cons in Hc. fold n in Hc.
  pose proof (zlen_nonneg (cwords (c :: cs))) as Hn0. fold n in Hn0.
  unfold client_eval_cmds. rewrite Hc. destruct (Z.ltb_spec (1 + n) 1).
  { unfold n in *. rewrite cwords_cons, zlen_app in *. pose proof (zlen_nonneg (cwords cs)).
    destruct c; cbn [citem_words] in *; rewrite ?zlen_cons, ?zlen_nil in *; lia. }
  destruct (cwords (c :: cs)) as [|w2' rest] eqn:Ecw; [done|]. injection Hw2 as ->.
  rewrite (st_bind_ok _ _ _ _ _ (eval_words_spec argv config msg w cmd w2 rest Hwa Hr1 Hr2)).
  pose proof (message_type_nonneg cmd w2). cbn [ts_type set_ts_type].
  destruct (Z.ltb_spec (message_type cmd w2) 0); [lia|].
  replace (1 + n - 1) with n by lia.
  change 1 with (zlen [cmd]). rewrite <- Ecw in Hwa.
  unfold mbind at 1, st_bind. rewrite (add_words_spec argv config w [cmd] (c :: cs)); [|exact Hwa|exact Hok|].
  2: { rewrite Ecw. unfold n, zlen. cbn. lia. }
  unfold set_ts_length, set_ts_type. cbn [ts_type ts_length ts_tokens].
  by destruct (add_tokens _ _).
Qed.

(** C21: a command with further words gives a message whose type is that of the last
    of the first two words that is a command, and 2^32-1 when neither is (the test
    for a negative type is on an unsigned value); behind as many empty tokens as
    there are further words, it holds one token per argument and per [-e] variable.
    When these do not fit into the stream, a token is written behind its array. *)
Theorem client_eval_cmds_correct argv config msg (w : world W) cmd c cs w2 :
  words_at (w_mem w) argv config (cmd :: cwords (c :: cs)) → Forall citem_ok (c :: cs) →
  head (cwords (c :: cs)) = Some w2 → ¬ refused cmd.2 → ¬ refused w2.2 →
  let n := zlen (cwords (c :: cs)) in
  let toks := map citem_token (c :: cs) in
  n ≤ zlen (ts_tokens msg) →
  client_eval_cmds argv config msg w =
    if n + zlen toks <=? zlen (ts_tokens msg) then
      Ok ((0, mkStream (message_type cmd w2) (n + zlen toks) (upd (ts_tokens msg) n toks)), w)
    else Fault OutOfBounds.
Proof.
  intros Hwa Hok Hw2 Hr1 Hr2 n toks Hn. pose proof (zlen_nonneg (cwords (c :: cs))).
  rewrite (client_eval_cmds_tokens argv config msg w cmd c cs w2) by done.
  fold n toks. rewrite add_tokens_spec by (cbn; lia). cbn [ts_type ts_length ts_tokens].
  destruct (n + zlen toks <=? zlen (ts_tokens msg)); done.
Qed.

(** C40: when one of the first two words is a command that is not implemented,
    [client_eval_cmds] returns -1 and does nothing but print. *)
Theorem client_eval_cmds_refused argv config msg (w : world W) w1 w2 rest :
  words_at (w_mem w) argv config (w1 :: w2 :: rest) → refused w1.2 ∨ refused w2.2 →
  ∃ ts w', client_eval_cmds argv config msg w = Ok ((-1, ts), w') ∧ only_prints w w'.
Proof.
  intros Hwa Hr. pose proof (wa_count _ _ _ _ Hwa) as Hc. rewrite !zlen_cons in Hc. pose proof (zlen_nonneg rest).
  destruct Hwa as [_ Hnth Hmem]. apply Forall_cons in Hmem as [Hm1 [Hm2 _]%Forall_cons].
  unfold client_eval_cmds. destruct (Z.ltb_spec (arg_count (args config)) 1); [lia|].
  set (msg0 := set_ts_type _ msg).
  assert (∃ ts w', eval_words 2 argv config 0 msg0 w = Ok (inr ts, w') ∧ only_prints w w') as (ts & w' & E & Hp).
  { cbn [eval_words]. rewrite (bind_lift _ _ _ (Some w1.1)) by (by apply (Hnth 0%nat)).
    match goal with |- context [(eval_word _ _ _ ≫= ?K) w] => set (k := K) end.
    pose proof (eval_word_bind config w1 msg0 w k Hm1) as H1.
    assert (Hk : ∀ msg', refused w2.2 → ∃ ts w', k (inl msg') w = Ok (inr ts, w') ∧ only_prints w w').
    { intros msg' [t Ht]. unfold k. rewrite (bind_lift _ _ _ (Some w2.1)) by (by apply (Hnth 1%nat)).
      match goal with |- context [(eval_word _ _ _ ≫= ?K) w] => set (k2 := K) end. pose proof (eval_word_bind config w2 msg' w k2 Hm2) as H2. rewrite Ht in H2.
      destruct H2 as (w' & -> & Hp). by eexists _, w'. }
    destruct (action w1.2) as [[t []]|] eqn:Ea.
    - destruct Hr as [[t' Hr]|Hr]; [congruence|]. rewrite H1. by apply Hk.
    - destruct H1 as (w' & -> & Hp). by eexists _, w'.
    - destruct Hr as [[t' Hr]|Hr]; [congruence|]. rewrite H1. by apply Hk. }
  exists ts, w'. split; [|done]. by rewrite (st_bind_ok _ _ _ _ _ E).
Qed.

(** A command without a further word: the first loop goes on to
    [arg_indices[1]], which nothing has written; whatever index it holds is looked
    up in [argv]. *)
Lemma client_eval_cmds_single argv config msg (w : world W) cmd f :
  words_at (w_mem w) argv config [cmd] → ¬ refused cmd.2 →
  nth_word argv config 1 = Fault f →
  client_eval_cmds argv config msg w = Fault f.
Proof.
  intros Hwa Hr Hf. pose proof (wa_count _ _ _ _ Hwa) as Hc. rewrite zlen_cons, zlen_nil in Hc.
  destruct Hwa as [_ Hnth Hmem]. apply Forall_cons in Hmem as [Hm1 _].
  unfold client_eval_cmds. rewrite Hc. destruct (Z.ltb_spec (1 + 0) 1); [lia|].
  set (msg0 := set_ts_type _ msg).
  assert (eval_words 2 argv config 0 msg0 w = Fault f) as E; [|unfold mbind, st_bind; by rewrite E].
  cbn [eval_words]. rewrite (bind_lift _ _ _ (Some cmd.1)) by (by apply (Hnth 0%nat)).
  set (k := λ r, _).
  assert (Hk : ∀ msg', k (inl msg') w = Fault f).
  { intros msg'. unfold k. change (0 + 1) with 1. rewrite Hf. done. }
  pose proof (eval_word_bind config cmd msg0 w k Hm1) as H1.
  destruct (action cmd.2) as [[t b]|] eqn:Ea; [|by rewrite H1].
  pose proof (not_refused _ _ _ Hr Ea) as ->. by rewrite H1.
Qed.

End ClientSpec.

(** ** Instances *)

Definition demo_argv : list (option addr) := None :: argv_of demo_words.
Definition cmd_config (indices : list Z) (n : Z) : Config :=
  mkConfig (mkArgs RUNMODE_CMD 0 0 0 None None None 9999 indices n) config_default_settings.
Definition w_run : word := at_block 3 "run".
Definition w_task : word := at_block 4 "do_stuff".
Definition w_e : word := at_block 5 "-e".
Definition w_var : word := at_block 6 "VAR1=1".
Definition demo_citems : list citem := [CArg w_task; CVar w_e w_var].
Definition demo_world : world (list sysres) := mkWorld [] (<[20%positive := zeros 64]> demo_argv_mem) [].

Lemma demo_words_at : words_at (w_mem demo_world) demo_argv (cmd_config [3; 4; 5; 6; 0] 4) (w_run :: cwords demo_citems).
Proof.
  split; [reflexivity| |repeat constructor].
  intros [|[|[|[|i]]]] w [= <-]; reflexivity.
Qed.

Lemma demo_citems_ok : Forall citem_ok demo_citems.
Proof. repeat constructor; decided. Qed.

Lemma not_refused_run : ¬ refused w_run.2.
Proof. intros [t H]. by vm_compute in H. Qed.
Lemma not_refused_task : ¬ refused w_task.2.
Proof. intros [t H]. by vm_compute in H. Qed.

Lemma client_eval_cmds_correct_witness :
  client_eval_cmds demo_argv (cmd_config [3; 4; 5; 6; 0] 4) (empty_stream 30) demo_world =
    Ok ((0, mkStream PROTOCOL_MSG_TASK_RUN 5
             (replicate 3 zero_token ++ map citem_token demo_citems ++ replicate 25 zero_token)), demo_world) ∧
  client_eval_cmds demo_argv (cmd_config [3; 4; 5; 6; 0] 4) (empty_stream 4) demo_world = Fault OutOfBounds.
Proof.
  split.
  - apply (client_eval_cmds_correct demo_argv (cmd_config [3; 4; 5; 6; 0] 4) (empty_stream 30) demo_world w_run
      (CArg w_task) [CVar w_e w_var] w_task demo_words_at demo_citems_ok eq_refl not_refused_run not_refused_task).
    by vm_compute.
  - apply (client_eval_cmds_correct demo_argv (cmd_config [3; 4; 5; 6; 0] 4) (empty_stream 4) demo_world w_run
      (CArg w_task) [CVar w_e w_var] w_task demo_words_at demo_citems_ok eq_refl not_refused_run not_refused_task).
    by vm_compute.
Defined.

(** [dpatch run task ...]: the second word is taken for the unimplemented command. *)
Lemma client_eval_cmds_refused_witness :
  ∃ ts w', client_eval_cmds [None; Some (3%positive, 0); Some (1%positive, 0); None] (cmd_config [1; 2; 0] 2) (empty_stream 30)
    (mkWorld (@nil sysres) (<[3%positive := s_run ++ [NUL]]> (<[1%positive := bytes_of_string "task" ++ [NUL]]> ∅)) []) =
      Ok ((-1, ts), w') ∧
    only_prints (mkWorld (@nil sysres) (<[3%positive := s_run ++ [NUL]]> (<[1%positive := bytes_of_string "task" ++ [NUL]]> ∅)) []) w'.
Proof.
  apply (client_eval_cmds_refused _ _ _ _ w_run (at_block 1 "task") []).
  - split; [reflexivity| |repeat constructor]. intros [|[|i]] w [= <-]; reflexivity.
  - right. by exists PROTOCOL_MSG_TASK_INFO.
Defined.

Lemma client_eval_cmds_single_witness :
  client_eval_cmds [None; Some (3%positive, 0); None] (cmd_config [1; 4096] 1) (empty_stream 30)
    (mkWorld (@nil sysres) (<[3%positive := s_run ++ [NUL]]> ∅) []) = Fault OutOfBounds.
Proof.
  apply (client_eval_cmds_single _ _ _ _ w_run); [|apply not_refused_run|reflexivity].
  split; [reflexivity| |repeat constructor]. intros [|i] w [= <-]; reflexivity.
Defined.
