(* ===== verification/Frame.v ===== *)
(** What a run does to the world, from what its system calls do: relations between
    worlds that hold across every call and every write to memory hold across every
    operation of the program. *)

From S2P Require Import Prelude CString Memory Protocol Os Log Config Net Client.

Section Frame.
Context {W : Type} `{!Kernel W}.

(** The world after a call. *)
Definition after (c : syscall) (w : world W) : world W :=
  let '(r, os) := kcall c (w_os w) in mkWorld os (w_mem w) (w_trace w ++ [(c, r)]).

(** [R] holds across writes to memory and across the calls of [allowed]. *)
Record frame (allowed : syscall → bool) (R : world W → world W → Prop) : Prop := {
  fr_refl w : R w w;
  fr_trans w1 w2 w3 : R w1 w2 → R w2 w3 → R w1 w3;
  fr_mem m w : R w (set_mem m w);
  fr_call c w : allowed c = true → R w (after c w);
}.

(** [m] on states with a world in them. *)
Definition respects {S A} (R : world W → world W → Prop) (world_of : S → world W) (m : ST S A) : Prop :=
  ∀ s a s', m s = Ok (a, s') → R (world_of s) (world_of s').

(** An invariant of the world makes a relation. *)
Definition keeping (I : world W → Prop) (w w' : world W) : Prop := I w → I w'.

Lemma frame_keeping allowed (I : world W → Prop) :
  (∀ m w, I w → I (set_mem m w)) → (∀ c w, allowed c = true → I w → I (after c w)) → frame allowed (keeping I).
Proof. intros Hm Hc. split; unfold keeping; eauto. Qed.

Context {allowed : syscall → bool} {R : world W → world W → Prop} (Hfr : frame allowed R).

Section Rules.
Context {S : Type} (world_of : S → world W).

Lemma fr_mret {A} (a : A) : respects R world_of (mret a).
Proof. intros s b s' [= _ <-]. apply (fr_refl _ _ Hfr). Qed.

Lemma fr_bind {A B} (m : ST S A) (k : A → ST S B) :
  respects R world_of m → (∀ a, respects R world_of (k a)) → respects R world_of (m ≫= k).
Proof.
  intros Hm Hk s b s'' (a & s' & H & H')%st_bind_inv. eapply (fr_trans _ _ Hfr); [by eapply Hm|by eapply Hk].
Qed.

Lemma fr_lift {A} (m : res A) : respects R world_of (lift m).
Proof. intros s a s'. unfold lift. destruct m; [intros [= _ <-]; apply (fr_refl _ _ Hfr)|done]. Qed.

Lemma fr_get {A} (f : S → A) : respects R world_of (get f).
Proof. intros s a s' [= _ <-]. apply (fr_refl _ _ Hfr). Qed.
End Rules.

Abbreviation ok := (respects R (λ w : world W, w)).

Lemma fr_sys c : allowed c = true → ok (call c).
Proof.
  intros Hc w a w' H. pose proof (fr_call _ _ Hfr c w Hc) as HR. unfold call, after in *.
  destruct (kcall c (w_os w)). by simplify_eq.
Qed.

Lemma fr_call_ret c : allowed c = true → ok (call_ret c).
Proof. intros Hc. unfold call_ret. apply fr_bind; [by apply fr_sys|intros; apply fr_mret]. Qed.

Lemma fr_with_mem {A} (f : mem → res A) : ok (with_mem f).
Proof.
  intros w a w' H. unfold with_mem in H. apply bind_ok in H as (b & _ & H). simplify_eq. apply (fr_refl _ _ Hfr).
Qed.

Lemma fr_on_mem (f : mem → res mem) : ok (on_mem f).
Proof.
  intros w a w' H. unfold on_mem, modify_res in H. apply bind_ok in H as (w1 & H1 & H).
  apply bind_ok in H1 as (m & _ & H1). simplify_eq. apply (fr_mem _ _ Hfr).
Qed.

Lemma fr_set_mem (f : world W → mem) : ok (modify (λ w, set_mem (f w) w)).
Proof. intros w a w' H. unfold modify in H. simplify_eq. apply (fr_mem _ _ Hfr). Qed.

Lemma fr_const_mem (m : mem) : ok (modify (set_mem m)).
Proof. intros w a w' H. unfold modify in H. simplify_eq. apply (fr_mem _ _ Hfr). Qed.

End Frame.

(** One step towards [respects] of an operation; a call is left when it is not
    allowed by computation. *)
Ltac fr_step Hfr :=
  lazymatch goal with
  | |- respects _ _ (_ ≫= _) => apply (fr_bind Hfr); [|intros ?]
  | |- respects _ _ (mret _) => apply (fr_mret Hfr)
  | |- respects _ _ (lift _) => apply (fr_lift Hfr)
  | |- respects _ _ (get _) => apply (fr_get Hfr)
  | |- respects _ _ (call_ret _) => apply (fr_call_ret Hfr)
  | |- respects _ _ (call _) => apply (fr_sys Hfr)
  | |- respects _ _ (with_mem _) => apply (fr_with_mem Hfr)
  | |- respects _ _ (on_mem _) => apply (fr_on_mem Hfr)
  | |- respects _ _ (modify (set_mem _)) => apply (fr_const_mem Hfr)
  | |- respects _ _ (modify _) => apply (fr_set_mem Hfr)
  | |- respects _ _ (if ?b then _ else _) => destruct b
  | |- respects _ _ (match ?x with _ => _ end) => destruct x
  end.

Section Operations.
Context {W : Type} `{!Kernel W} {allowed : syscall → bool} {R : world W → world W → Prop}.
Hypothesis Hfr : frame allowed R.
Abbreviation ok := (respects R (λ w : world W, w)).

(** The calls other than [read] and [connect] are what most of the program makes. *)
Definition is_read (c : syscall) : bool := match c with Read _ _ => true | _ => false end.
Definition is_connect (c : syscall) : bool := match c with Connect _ _ => true | _ => false end.
Definition allows_plain : Prop := ∀ c, is_read c = false → is_connect c = false → allowed c = true.

Lemma fr_mmalloc n : allows_plain → ok (mmalloc_block n).
Proof. intros Hc. unfold mmalloc_block. repeat (fr_step Hfr || by apply Hc). Qed.

Lemma fr_send fd data : allows_plain → ok (socket_send fd data).
Proof.
  intros Hc. unfold socket_send. generalize (length data) 0. intros n. induction n as [|n IH]; intros z; cbn [send_loop];
    repeat (fr_step Hfr || apply IH || by apply Hc).
Qed.

Lemma fr_send_stream fd buf len ts : allows_plain → ok (send_stream fd buf len ts).
Proof.
  intros Hc w z w' H. unfold send_stream in H. destruct buf as [p|]; [|simplify_eq; apply (fr_refl _ _ Hfr)].
  apply bind_ok in H as ([[sent m] w1] & H1 & H). simplify_eq.
  eapply (fr_trans _ _ Hfr); [|apply (fr_mem _ _ Hfr)].
  unfold protocol_send in H1. apply bind_ok in H1 as ([n m1] & _ & H1).
  destruct (n <? 1); [simplify_eq; apply (fr_refl _ _ Hfr)|].
  apply bind_ok in H1 as (m2 & _ & H1). apply bind_ok in H1 as (data & _ & H1).
  apply bind_ok in H1 as ([sent' w2] & H2 & H1). simplify_eq. by eapply fr_send.
Qed.

Lemma fr_nonblock fd : allows_plain → ok (socket_set_nonblock fd).
Proof. intros Hc. unfold socket_set_nonblock. repeat (fr_step Hfr || by apply Hc). Qed.

Lemma fr_timeouts fd secs : allows_plain → ok (set_timeouts fd secs).
Proof. intros Hc. unfold set_timeouts, socket_set_timeout. repeat (fr_step Hfr || by apply Hc). Qed.

Lemma fr_connection_init config :
  allows_plain → (∀ fd port, allowed (Connect fd port) = true) → ok (connection_init config).
Proof.
  intros Hc Hconn. unfold connection_init.
  repeat (fr_step Hfr || (apply fr_mmalloc; done) || (apply fr_timeouts; done) || apply Hconn || by apply Hc).
Qed.

Lemma fr_connection_close conn : allows_plain → ok (connection_close conn).
Proof. intros Hc. unfold connection_close. repeat (fr_step Hfr || by apply Hc). Qed.

Lemma fr_init_set conn config : ok (connection_init_set conn config).
Proof. unfold connection_init_set, clear_buf. repeat fr_step Hfr. Qed.

Lemma fr_print config fd text : allows_plain → ok (client_print config fd text).
Proof. intros Hc. unfold client_print. repeat (fr_step Hfr || by apply Hc). Qed.

(** Reading is allowed, and whatever [connection_init] does. *)
Hypothesis Hc : allows_plain.
Hypothesis Hread : ∀ fd n, allowed (Read fd n) = true.

Lemma fr_sys_read fd p n : ok (sys_read fd p n).
Proof. unfold sys_read. repeat (fr_step Hfr || apply Hread). Qed.

Context (config : Config) (Hconn : ok (connection_init config)).

Ltac client_step :=
  fr_step Hfr || (apply fr_print; exact Hc) || apply Hconn || (apply fr_connection_close; exact Hc) ||
  (apply fr_send_stream; exact Hc) || apply fr_sys_read || apply Hread || by apply Hc.

Lemma fr_eval_words n argv i msg : ok (eval_words n argv config i msg).
Proof.
  revert i msg. induction n as [|n IH]; intros i msg; cbn [eval_words]; [apply (fr_mret Hfr)|].
  unfold eval_word. repeat (client_step || apply IH).
Qed.

Lemma fr_add_words n argv i msg : ok (add_words n argv config i msg).
Proof.
  revert i msg. induction n as [|n IH]; intros i msg; cbn [add_words]; repeat (client_step || apply IH).
Qed.

Lemma fr_exchange argv ts : ok (exchange config argv ts).
Proof.
  unfold exchange, client_eval_cmds, send_cmd, poll_response.
  repeat (client_step || apply fr_eval_words || apply fr_add_words).
Qed.

Lemma fr_poll_watch n argv ts fd : ok (poll_watch n config argv ts fd).
Proof.
  revert ts. induction n as [|n IH]; intros ts; cbn [poll_watch]; repeat (client_step || apply fr_exchange || apply IH).
Qed.

Lemma fr_run_cmd n argv ts : ok (run_cmd n config argv ts).
Proof. unfold run_cmd. repeat (client_step || apply fr_poll_watch || apply fr_exchange). Qed.

End Operations.
