(* ===== verification/EndToEnd.v ===== *)
(** From a command line to the server's argument arrays: the configuration, the
    client's message, the wire and the server's reading of it, composed. *)

From S2P Require Import Prelude CString Memory Protocol Os Config Net Client.

(** ** The words the configuration leaves to the client *)

Fixpoint arg_words (its : list item) : list word :=
  match its with
  | [] => []
  | IArg w :: its => w :: arg_words its
  | _ :: its => arg_words its
  end.

Lemma arg_positions_words i its :
  Forall2 (λ p w, i ≤ p ∧ words_of its !! Z.to_nat (p - i) = Some w) (arg_positions i its) (arg_words its).
Proof.
  assert (Hshift : ∀ k (ws1 ws2 : list word) l1 l2,
    Forall2 (λ p w, k + zlen ws1 ≤ p ∧ ws2 !! Z.to_nat (p - (k + zlen ws1)) = Some w) l1 l2 →
    Forall2 (λ p w, k ≤ p ∧ (ws1 ++ ws2) !! Z.to_nat (p - k) = Some w) l1 l2).
  { intros k ws1 ws2 l1 l2 H. eapply Forall2_impl; [exact H|]. intros p w [Hp Hw]. pose proof (zlen_nonneg ws1).
    split; [lia|]. rewrite lookup_app_r by (unfold zlen in *; lia). rewrite <- Hw. f_equal. unfold zlen in *. lia. }
  revert i. induction its as [|it its IH]; intros i; [constructor|].
  change (words_of (it :: its)) with (item_words it ++ words_of its).
  specialize (IH (i + zlen (item_words it))).
  destruct it as [k w|k w v|w]; [by apply Hshift|by apply Hshift|].
  cbn [arg_positions arg_words]. constructor.
  - split; [lia|]. by rewrite Z.sub_diag.
  - by apply Hshift.
Qed.

Lemma arg_words_in its w : w ∈ arg_words its → w ∈ words_of its.
Proof.
  induction its as [|it its IH]; [done|]. change (words_of (it :: its)) with (item_words it ++ words_of its).
  rewrite elem_of_app. destruct it; cbn; rewrite ?elem_of_cons; naive_solver.
Qed.

(** What [config_collect_args] stores is what the client reads. *)
Lemma config_words_at m prog its a s :
  Forall (in_memory m) (words_of its) → args_of its a →
  words_at m (prog :: argv_of (words_of its)) (mkConfig a s) (arg_words its).
Proof.
  intros Hm Ha. pose proof (arg_positions_words 1 its) as Hpos.
  pose proof (Forall2_length _ _ _ Hpos) as Hlen. split.
  - cbn [args]. rewrite (ao_count _ _ Ha). unfold zlen. by rewrite Hlen.
  - intros i w Hw. unfold nth_word. cbn [args].
    destruct (Forall2_lookup_r _ _ _ _ _ Hpos Hw) as (p & Hp & Hp1 & Hpw).
    rewrite <- (ao_indices _ _ Ha) in Hp. apply lookup_take_Some in Hp as [Hp _].
    rewrite (rd_ok _ _ p) by (lia || by rewrite Nat2Z.id). cbn [mbind res_bind].
    apply rd_ok; [lia|]. replace (Z.to_nat p) with (S (Z.to_nat (p - 1))) by lia.
    cbn. unfold argv_of. apply lookup_app_l_Some. rewrite list_lookup_fmap, Hpw. done.
  - apply Forall_forall. intros w Hw%arg_words_in. by eapply Forall_forall.
Qed.

(** ** The stream of a command *)

Lemma stands_dead_prefix b m n toks l :
  stands b m toks l → stands b m (replicate n zero_token ++ toks) l.
Proof. intros H. induction n as [|n IH]; [done|]. cbn. by apply stands_dead; [left|]. Qed.

Lemma stands_citems b m cs :
  Forall (in_memory m) (cwords cs) → Forall (λ w : word, w.1.1 ≠ b) (cwords cs) →
  stands b m (map citem_token cs) (map citem_data cs).
Proof.
  induction cs as [|c cs IH]; [constructor|]. rewrite cwords_cons, !Forall_app. intros [Hm Hms] [Hb Hbs].
  destruct c as [w|w v]; cbn [map citem_words citem_token citem_data] in *.
  - apply Forall_cons in Hm as [Hm _]. apply Forall_cons in Hb as [Hb _].
    eapply stands_live; [done|done|done|done|exact Hm|by apply IH].
  - apply Forall_cons in Hm as [_ [Hm _]%Forall_cons]. apply Forall_cons in Hb as [_ [Hb _]%Forall_cons].
    eapply stands_live; [done|done|done|done|exact Hm|by apply IH].
Qed.

Lemma stream_stands_command b m t n toks cs :
  Forall (in_memory m) (cwords cs) → Forall (λ w : word, w.1.1 ≠ b) (cwords cs) →
  take n toks = replicate n zero_token → (n + length cs ≤ length toks)%nat →
  stream_stands b m (mkStream t (Z.of_nat n + zlen (map citem_token cs)) (upd toks (Z.of_nat n) (map citem_token cs)))
    (map citem_data cs).
Proof.
  intros Hm Hb Hz Hlen. unfold stream_stands. cbn [ts_length ts_tokens]. rewrite zlen_map.
  rewrite zlen_upd by (rewrite ?zlen_map; unfold zlen; lia). split; [unfold zlen; lia|].
  replace (take _ _) with (replicate n zero_token ++ map citem_token cs);
    [by apply stands_dead_prefix, stands_citems|].
  unfold upd. rewrite Nat2Z.id, Hz, app_assoc. symmetry.
  replace (Z.to_nat (Z.of_nat n + zlen cs)) with (length (replicate n zero_token ++ map citem_token cs))
    by (rewrite length_app, length_replicate, length_map; unfold zlen; lia).
  apply take_app_length.
Qed.

(** ** The strings of a stream's tokens *)

Definition strings_of (ty : byte) (l : list wtoken) : list (list byte) :=
  map snd (filter (λ t, t.1 = ty) l).

(** A NULL-terminated array of pointers to the strings [ss]. *)
Definition string_array (m : mem) (l : list (option addr)) (ss : list (list byte)) : Prop :=
  ∃ ps rest, l = map Some ps ++ None :: rest ∧ Forall2 (λ p s, load_str m p = Ok s) ps ss.

Lemma values_of_strings m ty toks l :
  Forall2 (means m) toks l →
  ∃ ps, values_of ty toks = map Some ps ∧ Forall2 (λ p s, load_str m p = Ok s) ps (strings_of ty l).
Proof.
  induction 1 as [|t wt toks l [Hty (p & Hv & Hs)] _ (ps & E & Hps)]; [by exists []|].
  rewrite values_of_cons. unfold strings_of. rewrite filter_cons, Hty. case_decide.
  - exists (p :: ps). rewrite Hv, E. split; [done|]. cbn. by constructor.
  - by exists ps.
Qed.

Lemma strings_of_phantoms ty l j :
  ty ≠ PROTOCOL_TOKEN_NONE → strings_of ty (l ++ replicate j phantom) = strings_of ty l.
Proof.
  intros Hty. unfold strings_of. rewrite filter_app, map_app.
  replace (filter _ (replicate j phantom)) with (@nil wtoken); [by rewrite app_nil_r|].
  induction j as [|j IH]; [done|]. cbn [replicate]. by rewrite filter_cons_False by (cbn; congruence).
Qed.

Lemma zlen_strings_of ty l : zlen (strings_of ty l) ≤ zlen l.
Proof.
  unfold strings_of, zlen. rewrite length_map. pose proof (length_filter (λ t : wtoken, t.1 = ty) l). lia.
Qed.

(** ** Reading a command on the server's side *)

(** What [server_eval_packet] gets from a message of [n] tokens whose first ones are
    [l], when it lands in a buffer of zeros. *)
Lemma server_reads_command type n l ts b len m a x k :
  m !! b = Some a → holds a 0 (int_le x ++ wire type n l ++ zeros k) →
  Forall wtoken_ok l → zlen l < n → 2 * (n - zlen l) ≤ k → n ≤ zlen (ts_tokens ts) ≤ INT_MAX →
  0 ≤ type < 2 ^ 32 →
  ∃ ts' argv vars,
    protocol_read (b, 0) len ts m = Ok (0, ts') ∧ ts_type ts' = type ∧ ts_length ts' = n ∧
    protocol_parse_token_stream ts' (replicate (Z.to_nat n) None) (replicate (Z.to_nat n) None) =
      Ok (0, (type mod 256, argv, vars)) ∧
    string_array m argv (strings_of PROTOCOL_TOKEN_ARG l) ∧
    string_array m vars (strings_of PROTOCOL_TOKEN_VAR l).
Proof.
  intros Hb Hh Hok Hn Hk Hcap Hty. pose proof (zlen_nonneg l).
  destruct (protocol_read_padded type n l ts b 0 len m a x k) as (ts' & E & Et & El & Hmeans); [done..|lia|lia|done|done|].
  exists ts'. unfold msg_type in Et. rewrite Z.mod_small in Et by done.
  set (toks := take (Z.to_nat n) (ts_tokens ts')) in *.
  assert (Hlen : n ≤ zlen (ts_tokens ts')).
  { apply Forall2_length in Hmeans. unfold toks in Hmeans. rewrite length_take, length_app, length_replicate in Hmeans.
    unfold zlen in *. lia. }
  destruct (values_of_strings m PROTOCOL_TOKEN_ARG _ _ Hmeans) as (pa & Ha & Hpa).
  destruct (values_of_strings m PROTOCOL_TOKEN_VAR _ _ Hmeans) as (pv & Hv & Hpv).
  rewrite strings_of_phantoms in Hpa, Hpv by done.
  assert (Hza : zlen (values_of PROTOCOL_TOKEN_ARG toks) < n).
  { rewrite Ha, zlen_map. apply Forall2_length in Hpa. pose proof (zlen_strings_of PROTOCOL_TOKEN_ARG l).
    unfold zlen in *. lia. }
  assert (Hzv : zlen (values_of PROTOCOL_TOKEN_VAR toks) < n).
  { rewrite Hv, zlen_map. apply Forall2_length in Hpv. pose proof (zlen_strings_of PROTOCOL_TOKEN_VAR l).
    unfold zlen in *. lia. }
  pose proof (split_tokens_fit ts' (replicate (Z.to_nat n) None) (replicate (Z.to_nat n) None)) as Hp.
  rewrite El, Et in Hp. fold toks in Hp.
  eexists _, _. split; [done|]. split; [done|]. split; [done|]. split.
  - apply Hp; [lia|rewrite zlen_replicate; lia|rewrite zlen_replicate; lia|done|done].
  - rewrite Ha, Hv. split; eexists _, _; split; [reflexivity|done|reflexivity|done].
Qed.

Lemma holds_prefix {A} (x y : list A) : holds (x ++ y) 0 x.
Proof. split; [lia|rewrite zlen_app; pose proof (zlen_nonneg y); lia|]. unfold sub, zlen. by rewrite Nat2Z.id, drop_0, take_app_length. Qed.

Section EndToEnd.
Context {W : Type} `{!Kernel W}.

(** C1: a [run] or [set] command typed at the client arrives at the server: the
    client turns its words into a stream and hands one message to the socket; when
    that message comes into a zeroed buffer with two zeros left for each word, the
    server's split gives exactly the arguments and the [-e] variables of the
    command line, in order, each list ended by NULL. *)
Theorem command_reaches_server argv config msg (w : world W) cmd c cs w2 b a :
  words_at (w_mem w) argv config (cmd :: cwords (c :: cs)) → Forall citem_ok (c :: cs) →
  head (cwords (c :: cs)) = Some w2 → ¬ refused cmd.2 → ¬ refused w2.2 →
  let n := zlen (cwords (c :: cs)) + zlen (c :: cs) in
  let l := map citem_data (c :: cs) in
  let ty := message_type cmd w2 in
  n ≤ zlen (ts_tokens msg) →
  take (length (cwords (c :: cs))) (ts_tokens msg) = replicate (length (cwords (c :: cs))) zero_token →
  w_mem w !! b = Some a → Forall (λ w : word, w.1.1 ≠ b) (cwords (c :: cs)) →
  16 + zlen (payload l) ≤ zlen a ≤ INT_MAX → sub a (12 + zlen (payload l)) 4 = zeros 4 →
  ∃ ts bytes,
    client_eval_cmds argv config msg w = Ok ((0, ts), w) ∧
    (∀ S (send : Z → list byte → S → res (Z * S)) sock len s, ∃ m',
       protocol_send send sock (b, 0) len ts (w_mem w) s =
       ('(sent, s') ← send sock bytes s; Ok (sent, m', s'))) ∧
    zlen bytes = 16 + zlen (payload l) ∧
    ∀ m b' k ts0 len,
      m !! b' = Some (bytes ++ zeros k) → 0 ≤ k → 2 * (n - zlen l) ≤ k + 4 → n ≤ zlen (ts_tokens ts0) ≤ INT_MAX →
      ∃ ts' args vars,
        protocol_read (b', 0) len ts0 m = Ok (0, ts') ∧ ts_type ts' = ty ∧ ts_length ts' = n ∧
        protocol_parse_token_stream ts' (replicate (Z.to_nat n) None) (replicate (Z.to_nat n) None) =
          Ok (0, (ty mod 256, args, vars)) ∧
        string_array m args (strings_of PROTOCOL_TOKEN_ARG l) ∧
        string_array m vars (strings_of PROTOCOL_TOKEN_VAR l).
Proof.
  intros Hwa Hok Hw2 Hr1 Hr2 n l ty Hn Hz Hb Hne Ha Hbehind.
  pose proof (zlen_nonneg (payload l)). pose proof (zlen_nonneg (c :: cs)).
  pose proof (wa_mem _ _ _ _ Hwa) as [_ Hmem]%Forall_cons.
  pose proof (client_eval_cmds_tokens argv config msg w cmd c cs w2 Hwa Hok Hw2 Hr1 Hr2) as Heval.
  pose proof (zlen_nonneg (cwords (c :: cs))).
  rewrite add_tokens_spec in Heval by (cbn [ts_length ts_tokens]; unfold n in Hn; lia).
  cbn [ts_type ts_length ts_tokens] in Heval. rewrite zlen_map in Heval. fold n ty in Heval.
  set (ts := mkStream ty n (upd (ts_tokens msg) (zlen (cwords (c :: cs))) (map citem_token (c :: cs)))) in *.
  assert (Hst : stream_stands b (w_mem w) ts l).
  { pose proof (stream_stands_command b (w_mem w) ty (length (cwords (c :: cs))) (ts_tokens msg) (c :: cs) Hmem Hne Hz) as Hsc.
    rewrite zlen_map in Hsc. apply Hsc. unfold n, zlen in Hn. lia. }
  exists ts, (sent_message ty n l (sub a (0 + 12 + zlen (payload l)) 4)).
  assert (Hzl : zlen l = zlen (c :: cs)) by apply zlen_map.
  assert (Hcw : 1 ≤ zlen (cwords (c :: cs))).
  { rewrite cwords_cons, zlen_app. pose proof (zlen_nonneg (cwords cs)). destruct c; cbn; rewrite ?zlen_cons, ?zlen_nil; lia. }
  split; [|split; [|split]].
  - rewrite Heval. destruct (Z.leb_spec n (zlen (ts_tokens msg))); [done|lia].
  - intros S send sock len s.
    by apply (protocol_send_message send sock ts l b 0 len (w_mem w) a s); [done|done|done|lia|lia].
  - unfold sent_message. rewrite zlen_app, zlen_int_le, zlen_app, zlen_wire, zlen_sub by lia. lia.
  - intros m b' k ts0 len Hm Hk Hk2 Hcap. rewrite Z.add_0_l, Hbehind in Hm.
    apply (server_reads_command ty n l ts0 b' len m _ (16 + zlen (payload l)) (k + 4) Hm).
    + unfold sent_message.
      replace (zeros (k + 4)) with (zeros 4 ++ zeros k).
      2: { unfold zeros. rewrite <- replicate_add. f_equal. lia. }
      replace ((int_le (16 + zlen (payload l)) ++ wire ty n l ++ zeros 4) ++ zeros k) with
        ((int_le (16 + zlen (payload l)) ++ wire ty n l ++ zeros 4 ++ zeros k) ++ [])
        by (by rewrite app_nil_r, <- !app_assoc).
      apply holds_prefix.
    + by eapply (stands_wtokens _ _ _ _ (proj2 Hst)).
    + unfold n. lia.
    + lia.
    + done.
    + split; [apply message_type_nonneg|]. unfold ty, message_type.
      assert (∀ s t d, action s = Some (t, d) → t < 2 ^ 32) as Hact.
      { intros s t d. unfold action. intros E. repeat case_decide; by simplify_eq. }
      destruct (action w2.2) as [[]|] eqn:E2; [by eapply Hact|].
      destruct (action cmd.2) as [[]|] eqn:E1; [by eapply Hact|]. by vm_compute.
Qed.

End EndToEnd.

(** [dpatch run do_stuff -e VAR1=1], from zeroed buffers. *)
Lemma command_reaches_server_witness :
  ∃ ts bytes ts' args vars,
    client_eval_cmds demo_argv (cmd_config [3; 4; 5; 6; 0] 4) (empty_stream 30) demo_world = Ok ((0, ts), demo_world) ∧
    protocol_read (1%positive, 0) 1024 (empty_stream 30) (<[1%positive := bytes ++ zeros 900]> ∅) = Ok (0, ts') ∧
    protocol_parse_token_stream ts' (replicate 5 None) (replicate 5 None) = Ok (0, (2, args, vars)) ∧
    string_array (<[1%positive := bytes ++ zeros 900]> ∅) args [bytes_of_string "do_stuff"] ∧
    string_array (<[1%positive := bytes ++ zeros 900]> ∅) vars [bytes_of_string "VAR1=1"].
Proof.
  destruct (command_reaches_server demo_argv (cmd_config [3; 4; 5; 6; 0] 4) (empty_stream 30) demo_world w_run
      (CArg w_task) [CVar w_e w_var] w_task 20 (zeros 64) demo_words_at demo_citems_ok eq_refl not_refused_run not_refused_task)
    as (ts & bytes & E & _ & _ & H); [by vm_compute|by vm_compute|by vm_compute|decided|by vm_compute|by vm_compute|].
  destruct (H (<[1%positive := bytes ++ zeros 900]> ∅) 1%positive 900 (empty_stream 30) 1024)
    as (ts' & args & vars & Er & _ & _ & Hp & Ha & Hv); [by rewrite lookup_insert_eq|done|by vm_compute|by vm_compute|].
  exists ts, bytes, ts', args, vars. split; [exact E|]. split; [exact Er|]. split; [exact Hp|]. split; [exact Ha|exact Hv].
Defined.
