(* ===== verification/Ini.v ===== *)
(** The INI parser (src/ini.h): a state machine over the characters of each
    line, reading and writing one buffer of [INI_BUF_SIZE] bytes that holds the
    line, the section, the key and the value next to one another. *)

From S2P Require Import Prelude CString.

Definition INI_BUF_SIZE : Z := 2048.
Definition INI_SECTION_BUF_SIZE : Z := 256.
Definition INI_KEY_BUF_SIZE : Z := 256.
Definition INI_VALUE_BUF_SIZE : Z := 1024.
Definition INI_LINE_BUF_SIZE : Z := 512.

Inductive IniRetCode := INI_OK | INI_NULL | INI_INVALID.

Inductive IniParseMode :=
| PARSEMODE_STARTLINE
| PARSEMODE_SECTION
| PARSEMODE_KEY
| PARSEMODE_VALUE
| PARSEMODE_MULTILINE
| PARSEMODE_HANDLE.

#[export] Instance ret_code_eq_dec : EqDecision IniRetCode.
Proof. solve_decision. Defined.
#[export] Instance mode_eq_dec : EqDecision IniParseMode.
Proof. solve_decision. Defined.

(** The pointers of [IniParseState] into the buffer, set once by [ini_parse]. *)
Definition LINE : Z := 0.
Definition SECTION : Z := LINE + INI_LINE_BUF_SIZE.
Definition KEY : Z := SECTION + INI_SECTION_BUF_SIZE.
Definition VALUE : Z := KEY + INI_KEY_BUF_SIZE.

(** [IniParseState], with the buffer its pointers lead into. *)
Record IniParseState := mkIni {
  ip_buf : list byte;
  ip_value_loc : Z;
  ip_save_loc : Z;
  ip_mode : IniParseMode;
}.

Definition set_mode (m : IniParseMode) (st : IniParseState) : IniParseState :=
  mkIni (ip_buf st) (ip_value_loc st) (ip_save_loc st) m.
Definition set_save_loc (n : Z) (st : IniParseState) : IniParseState :=
  mkIni (ip_buf st) (ip_value_loc st) n (ip_mode st).
Definition set_value_loc (n : Z) (st : IniParseState) : IniParseState :=
  mkIni (ip_buf st) n (ip_save_loc st) (ip_mode st).
Definition set_buf (b : list byte) (st : IniParseState) : IniParseState :=
  mkIni b (ip_value_loc st) (ip_save_loc st) (ip_mode st).

Abbreviation SPACE := Byte.x20.
Abbreviation TAB := Byte.x09.
Abbreviation NL := Byte.x0a.

Definition is_space (c : byte) : bool := bool_decide (c = SPACE) || bool_decide (c = TAB).

(** ** Copying a trimmed piece of the line *)

(** The two loops of [trim_start_end], over [buf + base]. *)
Fixpoint trim_start (fuel : nat) (buf : list byte) (base start : Z) : res Z :=
  match fuel with
  | O => Fault OutOfFuel
  | S fuel' =>
      c ← rd buf (base + start);
      if is_space c then trim_start fuel' buf base (start + 1) else Ok start
  end.

Fixpoint trim_end (fuel : nat) (buf : list byte) (base end_ : Z) : res Z :=
  match fuel with
  | O => Fault OutOfFuel
  | S fuel' =>
      c ← rd buf (base + end_);
      if is_space c || bool_decide (c = NL) then trim_end fuel' buf base (end_ - 1) else Ok end_
  end.

(** Every iteration moves one byte inside the buffer, so its length is enough. *)
Definition buf_fuel (buf : list byte) : nat := S (length buf).

Definition trim_start_end (buf : list byte) (base start end_ : Z) : res (Z * Z) :=
  start ← trim_start (buf_fuel buf) buf base start;
  end_ ← trim_end (buf_fuel buf) buf base end_;
  Ok (start, end_).

(** The [for] loop of [copy_to_buf]. *)
Fixpoint copy_loop (fuel : nat) (buf : list byte) (in_buf start i end_ out_buf out_loc : Z)
  : res (list byte) :=
  if i <=? end_ then
    match fuel with
    | O => Fault OutOfFuel
    | S fuel' =>
        let i2 := out_loc + (i - start) in
        c ← rd buf (in_buf + i);
        buf ← wr buf (out_buf + i2) c;
        copy_loop fuel' buf in_buf start (i + 1) end_ out_buf out_loc
    end
  else Ok buf.

Definition copy_to_buf (buf : list byte) (in_buf start end_ out_buf out_loc : Z)
  : res (Z * list byte) :=
  '(out_loc, buf) ←
    (if out_loc >? 0 then
       buf ← wr buf (out_buf + out_loc) NL; Ok (out_loc + 1, buf)
     else Ok (out_loc, buf));
  buf ← copy_loop (Z.to_nat (end_ - start + 1)) buf in_buf start start end_ out_buf out_loc;
  let loc := out_loc + (end_ - start) + 1 in
  buf ← wr buf (out_buf + loc) NUL;
  Ok (loc, buf).

Definition copy_trimmed_to_buf (buf : list byte) (in_buf start end_ out_buf out_loc : Z)
  : res (Z * list byte) :=
  '(start, end_) ← trim_start_end buf in_buf start end_;
  copy_to_buf buf in_buf start end_ out_buf out_loc.

Definition copy_trimmed (start end_ out_buf out_loc : Z) (st : IniParseState)
  : res (Z * IniParseState) :=
  '(loc, buf) ← copy_trimmed_to_buf (ip_buf st) LINE start end_ out_buf out_loc;
  Ok (loc, set_buf buf st).

(** ** One line *)

Section Parser.
(** The callback and the data it is given; it receives C strings. *)
Context {D : Type} (handler : D → list byte → list byte → list byte → res D).

Definition call_handler (st : IniParseState) (data : D) : res D :=
  section ← cstr (ip_buf st) SECTION;
  key ← cstr (ip_buf st) KEY;
  value ← cstr (ip_buf st) VALUE;
  handler data section key value.

(** How one character leaves the [while] loop: by [break], or to the next [i]. *)
Inductive control := Break (status : IniRetCode) | Next.

(** The branch [i == 0]. *)
Definition line_start (c : byte) (st : IniParseState) (data : D)
  : res (control * IniParseState * D) :=
  if is_space c then
    if decide (ip_mode st = PARSEMODE_VALUE) then
      Ok (Next, set_save_loc 1 (set_mode PARSEMODE_MULTILINE st), data)
    else Ok (Break INI_INVALID, st, data)
  else
    data ← (if decide (ip_mode st = PARSEMODE_VALUE) then call_handler st data else Ok data);
    if decide (c = NL) then
      Ok (Break INI_OK,
          (if decide (ip_mode st = PARSEMODE_MULTILINE) then st
           else set_value_loc 0 (set_save_loc 0 (set_mode PARSEMODE_STARTLINE st))),
          data)
    else if decide (c = Byte.x5b) then
      Ok (Next, set_value_loc 0 (set_save_loc 1 (set_mode PARSEMODE_SECTION st)), data)
    else if decide (c = Byte.x23) then Ok (Break INI_OK, st, data)
    else Ok (Next, set_value_loc 0 (set_save_loc 0 (set_mode PARSEMODE_KEY st)), data).

(** The branch [i > 0]. *)
Definition line_char (i : Z) (c : byte) (st : IniParseState) : res IniParseState :=
  match ip_mode st with
  | PARSEMODE_SECTION =>
      if decide (c = Byte.x5d) then
        '(_, st) ← copy_trimmed (ip_save_loc st) (i - 1) SECTION 0 st;
        Ok (set_save_loc 0 (set_mode PARSEMODE_STARTLINE st))
      else Ok st
  | PARSEMODE_KEY =>
      if decide (c = Byte.x3d) then
        '(_, st) ← copy_trimmed 0 (i - 1) KEY 0 st;
        Ok (set_save_loc (i + 1) (set_mode PARSEMODE_VALUE st))
      else Ok st
  | PARSEMODE_MULTILINE =>
      if is_space c then Ok (set_save_loc i st) else Ok (set_mode PARSEMODE_VALUE st)
  | _ => Ok st
  end.

Definition parse_char (i : Z) (c : byte) (st : IniParseState) (data : D)
  : res (control * IniParseState * D) :=
  if decide (i = 0) then line_start c st data
  else st ← line_char i c st; Ok (Next, st, data).

(** The [while] loop of [parse_line]: status, final [i], state and data. *)
Fixpoint parse_loop (fuel : nat) (i : Z) (st : IniParseState) (data : D)
  : res (IniRetCode * Z * IniParseState * D) :=
  c ← rd (ip_buf st) (LINE + i);
  if decide (c = NUL) then Ok (INI_OK, i, st, data)
  else
    match fuel with
    | O => Fault OutOfFuel
    | S fuel' =>
        '(ctl, st, data) ← parse_char i c st data;
        match ctl with
        | Break status => Ok (status, i, st, data)
        | Next => parse_loop fuel' (i + 1) st data
        end
    end.

Definition parse_line (st : IniParseState) (data : D) : res (IniRetCode * IniParseState * D) :=
  '(status, i, st, data) ← parse_loop (buf_fuel (ip_buf st)) 0 st data;
  if decide (status = INI_OK ∧ ip_mode st = PARSEMODE_VALUE) then
    '(loc, st) ← copy_trimmed (ip_save_loc st) (i - 1) VALUE (ip_value_loc st) st;
    Ok (status, set_value_loc loc st, data)
  else Ok (status, st, data).

(** ** The file *)

(** [fgets(s, n, fp)] on the rest of the file: at most [n - 1] bytes, up to and
    including a newline; [None] at end of file. *)
Fixpoint take_line (n : nat) (content : list byte) : list byte * list byte :=
  match n, content with
  | S n', c :: rest =>
      if decide (c = NL) then ([c], rest)
      else let '(l, rest) := take_line n' rest in (c :: l, rest)
  | _, _ => ([], content)
  end.

Definition fgets (n : Z) (content : list byte) : option (list byte * list byte) :=
  match content with
  | [] => None
  | _ => Some (take_line (Z.to_nat (n - 1)) content)
  end.

(** The [while (fgets(...))] loop of [ini_parse]. *)
Fixpoint parse_lines (fuel : nat) (content : list byte) (st : IniParseState) (data : D)
  : res (IniRetCode * IniParseState * D) :=
  match fgets INI_LINE_BUF_SIZE content with
  | None => Ok (INI_OK, st, data)
  | Some (line, rest) =>
      match fuel with
      | O => Fault OutOfFuel
      | S fuel' =>
          buf ← memcpy (ip_buf st) LINE (line ++ [NUL]);
          '(status, st, data) ← parse_line (set_buf buf st) data;
          if decide (status = INI_OK) then parse_lines fuel' rest st data
          else Ok (status, st, data)
      end
  end.

Definition ini_init : IniParseState := mkIni (zeros INI_BUF_SIZE) 0 0 PARSEMODE_STARTLINE.

(** [fp] is [None] when [fopen] failed; otherwise the bytes of the file.  (The
    callers never pass a NULL handler, the other case of the first test.) *)
Definition ini_parse (fp : option (list byte)) (data : D) : res (IniRetCode * D) :=
  match fp with
  | None => Ok (INI_NULL, data)
  | Some content =>
      '(status, st, data) ← parse_lines (length content) content ini_init data;
      if decide (status = INI_OK ∧ ip_mode st = PARSEMODE_VALUE) then
        data ← call_handler st data; Ok (status, data)
      else Ok (status, data)
  end.

End Parser.
