(* ===== verification/IniSpec.v ===== *)
(** What the INI parser computes on a well-formed workspace file: a line-by-line
    reference, the lines as data and the texts that spell them, and the correctness of
    Ini.v against it. *)

From S2P Require Import Prelude CString Ini.

(** ** The line in the buffer *)

Definition is_trim (c : byte) : bool := is_space c || bool_decide (c = NL).

(** [l] is the line being parsed: it stands at the front of the buffer. *)
Record line_in (l buf : list byte) : Prop := {
  li_buf : zlen buf = INI_BUF_SIZE;
  li_len : zlen l < INI_LINE_BUF_SIZE;
  li_sub : sub buf 0 (zlen l + 1) = l ++ [NUL];
}.

Lemma line_rd l buf i c : line_in l buf → 0 ≤ i → l !! Z.to_nat i = Some c → rd buf i = Ok c.
Proof.
  intros [_ _ Hs] Hi Hc. apply rd_ok; [done|].
  assert (Hlt := lookup_lt_Some _ _ _ Hc).
  assert (sub buf 0 (zlen l + 1) !! Z.to_nat i = Some c) as Hl by (rewrite Hs; by apply lookup_app_l_Some).
  rewrite lookup_sub in Hl; [done|]. unfold zlen. lia.
Qed.

Lemma line_rd_end l buf : line_in l buf → rd buf (zlen l) = Ok NUL.
Proof.
  intros [_ _ Hs]. pose proof (zlen_nonneg l). apply rd_ok; [done|].
  assert (sub buf 0 (zlen l + 1) !! length l = Some NUL) as Hl.
  { rewrite Hs, lookup_app_r, Nat.sub_diag by lia. done. }
  rewrite lookup_sub in Hl by (unfold zlen; lia). unfold zlen. rewrite Nat2Z.id. done.
Qed.

Lemma line_sub l buf i n : line_in l buf → 0 ≤ i → 0 ≤ n → i + n ≤ zlen l → sub buf i n = sub l i n.
Proof.
  intros [_ _ Hs] Hi Hn Hl. apply list_eq. intros k. destruct (decide (k < Z.to_nat n)%nat).
  - rewrite !lookup_sub by done.
    assert (sub buf 0 (zlen l + 1) !! (Z.to_nat i + k)%nat = l !! (Z.to_nat i + k)%nat) as H.
    { rewrite Hs, lookup_app_l; [done|]. unfold zlen in *. lia. }
    rewrite lookup_sub in H by (unfold zlen in *; lia). done.
  - unfold sub. by rewrite !lookup_take_ge by lia.
Qed.

(** Writing at or after [SECTION] leaves the line alone. *)
Lemma line_upd l buf i x :
  line_in l buf → SECTION ≤ i → i + zlen x ≤ INI_BUF_SIZE → line_in l (upd buf i x).
Proof.
  intros [Hb Hl Hs] Hi Hx. unfold SECTION, LINE, INI_LINE_BUF_SIZE in *.
  pose proof (zlen_nonneg l). split; [by rewrite zlen_upd by lia|done|].
  by rewrite sub_upd_other by lia.
Qed.

(** ** Trimming and copying *)

Lemma trim_start_spec fuel l buf p ws c q :
  line_in l buf → l = p ++ ws ++ c :: q → Forall (λ b, is_space b = true) ws →
  is_space c = false → (length ws < fuel)%nat →
  trim_start fuel buf LINE (zlen p) = Ok (zlen p + zlen ws).
Proof.
  intros Hl -> Hws Hc. revert fuel p Hl. induction Hws as [|b ws Hb _ IH]; intros fuel p Hl Hf;
    (destruct fuel as [|fuel]; [cbn in Hf; lia|]); cbn [trim_start]; change (LINE + zlen p) with (zlen p).
  - rewrite (line_rd _ _ _ c Hl) by (try apply zlen_nonneg; unfold zlen; by rewrite Nat2Z.id, list_lookup_middle).
    cbn. rewrite Hc. f_equal. rewrite zlen_nil. lia.
  - rewrite (line_rd _ _ _ b Hl) by (try apply zlen_nonneg; unfold zlen; by rewrite Nat2Z.id, list_lookup_middle).
    cbn [mbind res_bind]. rewrite Hb. specialize (IH fuel (p ++ [b])).
    rewrite <- app_assoc in IH. rewrite zlen_app, !zlen_cons, zlen_nil in *.
    replace (zlen p + 1) with (zlen p + (1 + 0)) by lia. rewrite IH; [f_equal; lia|done|cbn in Hf; lia].
Qed.

Lemma trim_end_spec fuel l buf q c ws r :
  line_in l buf → l = q ++ c :: ws ++ r → Forall (λ b, is_trim b = true) ws →
  is_trim c = false → (length ws < fuel)%nat →
  trim_end fuel buf LINE (zlen q + zlen ws) = Ok (zlen q).
Proof.
  intros Hl -> Hws Hc. revert fuel r Hl.
  induction ws as [|b ws IH] using rev_ind; intros fuel r Hl Hf;
    (destruct fuel as [|fuel]; [lia|]); cbn [trim_end]; unfold LINE; rewrite Z.add_0_l.
  - rewrite zlen_nil, Z.add_0_r.
    rewrite (line_rd _ _ _ c Hl) by (try apply zlen_nonneg; unfold zlen; by rewrite Nat2Z.id, list_lookup_middle).
    cbn [mbind res_bind]. unfold is_trim in Hc. by rewrite Hc.
  - apply Forall_app in Hws as [Hws [Hb _]%Forall_cons].
    rewrite length_app in Hf. cbn in Hf.
    assert (Hlk : (q ++ c :: (ws ++ [b]) ++ r) !! Z.to_nat (zlen q + zlen (ws ++ [b])) = Some b).
    { rewrite zlen_app, zlen_cons, zlen_nil. replace (q ++ c :: (ws ++ [b]) ++ r)
        with ((q ++ c :: ws) ++ b :: r) by (by rewrite <- !app_assoc).
      apply list_lookup_middle. rewrite length_app. unfold zlen. cbn. lia. }
    rewrite (line_rd _ _ _ b Hl) by (try done; pose proof (zlen_nonneg q); pose proof (zlen_nonneg (ws ++ [b])); lia).
    cbn [mbind res_bind]. unfold is_trim in Hb. rewrite Hb.
    replace (zlen q + zlen (ws ++ [b]) - 1) with (zlen q + zlen ws) by (rewrite zlen_app, zlen_cons, zlen_nil; lia).
    apply (IH Hws fuel (b :: r)); [|lia]. by rewrite <- app_assoc in Hl.
Qed.

Lemma copy_loop_spec fuel l buf p t q in_start out_buf out_loc :
  line_in l buf → l = p ++ t ++ q → (length t ≤ fuel)%nat →
  SECTION ≤ out_buf + out_loc + (zlen p - in_start) →
  out_buf + out_loc + (zlen p - in_start) + zlen t ≤ INI_BUF_SIZE →
  copy_loop fuel buf LINE in_start (zlen p) (zlen p + zlen t - 1) out_buf out_loc =
  Ok (upd buf (out_buf + out_loc + (zlen p - in_start)) t).
Proof.
  revert fuel buf p. induction t as [|c t IH]; intros fuel buf p Hl Heq Hf Hlo Hhi.
  - rewrite upd_nil. rewrite zlen_nil.
    destruct fuel; cbn [copy_loop]; by destruct (Z.leb_spec (zlen p) (zlen p + 0 - 1)); [lia|].
  - pose proof (zlen_nonneg t). rewrite zlen_cons in *.
    destruct fuel as [|fuel]; [cbn in Hf; lia|]. cbn [copy_loop].
    destruct (Z.leb_spec (zlen p) (zlen p + (1 + zlen t) - 1)); [|lia].
    unfold LINE. rewrite Z.add_0_l.
    rewrite (line_rd l buf (zlen p) c Hl) by
      (try apply zlen_nonneg; unfold zlen; rewrite Nat2Z.id, Heq; by apply list_lookup_middle).
    cbn [mbind res_bind]. set (k := out_buf + out_loc + (zlen p - in_start)) in *.
    replace (out_buf + (out_loc + (zlen p - in_start))) with k by (unfold k; lia).
    unfold SECTION, LINE, INI_LINE_BUF_SIZE in Hlo. pose proof (li_buf _ _ Hl) as Hb.
    rewrite wr_ok by lia. cbn [mbind res_bind].
    assert (Hp : zlen (p ++ [c]) = zlen p + 1) by (rewrite zlen_app, zlen_cons, zlen_nil; lia).
    specialize (IH fuel (upd buf k [c]) (p ++ [c])).
    unfold LINE in IH. rewrite Hp in IH.
    replace (zlen p + 1 + zlen t - 1) with (zlen p + (1 + zlen t) - 1) in IH by lia.
    rewrite IH.
    + f_equal. replace (out_buf + out_loc + (zlen p + 1 - in_start)) with (k + zlen [c])
        by (unfold k; rewrite zlen_cons, zlen_nil; lia).
      rewrite upd_upd_app by (rewrite ?zlen_cons, ?zlen_nil; lia). done.
    + apply line_upd; [done|unfold SECTION, LINE, INI_LINE_BUF_SIZE; lia|rewrite zlen_cons, zlen_nil; lia].
    + by rewrite <- app_assoc.
    + cbn in Hf. lia.
    + unfold SECTION, LINE, INI_LINE_BUF_SIZE. lia.
    + lia.
Qed.

(** What separates a piece from the string it is appended to. *)
Definition glue (loc : Z) : list byte := if loc >? 0 then [NL] else [].

Lemma copy_to_buf_spec l buf p t q out_buf out_loc :
  line_in l buf → l = p ++ t ++ q → 0 ≤ out_loc → SECTION ≤ out_buf →
  out_buf + out_loc + zlen (glue out_loc) + zlen t + 1 ≤ INI_BUF_SIZE →
  copy_to_buf buf LINE (zlen p) (zlen p + zlen t - 1) out_buf out_loc =
  Ok (out_loc + zlen (glue out_loc) + zlen t,
      upd buf (out_buf + out_loc) (glue out_loc ++ t ++ [NUL])).
Proof.
  intros Hl Heq Hloc Hout Hsz. pose proof (zlen_nonneg t). pose proof (li_buf _ _ Hl) as Hb.
  assert (Hsec : SECTION = 512) by done. unfold copy_to_buf.
  assert (∃ buf', (if out_loc >? 0 then
              buf ← wr buf (out_buf + out_loc) NL; Ok (out_loc + 1, buf)
            else Ok (out_loc, buf)) = Ok (out_loc + zlen (glue out_loc), buf') ∧
            buf' = upd buf (out_buf + out_loc) (glue out_loc)) as (buf' & -> & Hbuf').
  { unfold glue in *. destruct (out_loc >? 0).
    - rewrite zlen_cons, zlen_nil in *. rewrite wr_ok by lia. by eexists.
    - exists buf. rewrite zlen_nil, Z.add_0_r, upd_nil. done. }
  cbn [mbind res_bind]. pose proof (zlen_nonneg (glue out_loc)).
  assert (Hl' : line_in l buf') by (subst buf'; apply line_upd; [done|lia|lia]).
  replace (zlen p + zlen t - 1 - zlen p + 1) with (zlen t) by lia.
  rewrite (copy_loop_spec _ l _ p t q (zlen p)) by (done || unfold zlen in *; lia).
  cbn [mbind res_bind]. rewrite Z.sub_diag, Z.add_0_r.
  replace (out_loc + zlen (glue out_loc) + (zlen p + zlen t - 1 - zlen p) + 1)
    with (out_loc + zlen (glue out_loc) + zlen t) by lia.
  subst buf'. rewrite Z.add_assoc, upd_upd_app by lia.
  rewrite wr_ok by (rewrite zlen_upd; rewrite ?zlen_app; lia). cbn [mbind res_bind].
  do 2 f_equal.
  replace (out_buf + (out_loc + zlen (glue out_loc) + zlen t))
    with (out_buf + out_loc + zlen (glue out_loc ++ t)) by (rewrite zlen_app; lia).
  rewrite upd_upd_app by (rewrite ?zlen_app, ?zlen_cons, ?zlen_nil; lia). by rewrite <- app_assoc.
Qed.

(** [copy_trimmed] on a line [p ++ ws1 ++ t ++ ws2 ++ r], from the end of [p] to
    the end of [ws2], appends the text [t]. *)
Definition trimmed (t : list byte) : Prop :=
  (∃ c t', t = c :: t' ∧ is_space c = false) ∧ (∃ t' c, t = t' ++ [c] ∧ is_trim c = false).

Lemma copy_trimmed_spec l st p ws1 t ws2 r out_buf out_loc :
  line_in l (ip_buf st) → l = p ++ ws1 ++ t ++ ws2 ++ r → trimmed t →
  Forall (λ b, is_space b = true) ws1 → Forall (λ b, is_trim b = true) ws2 →
  0 ≤ out_loc → SECTION ≤ out_buf →
  out_buf + out_loc + zlen (glue out_loc) + zlen t + 1 ≤ INI_BUF_SIZE →
  copy_trimmed (zlen p) (zlen (p ++ ws1 ++ t ++ ws2) - 1) out_buf out_loc st =
  Ok (out_loc + zlen (glue out_loc) + zlen t,
      set_buf (upd (ip_buf st) (out_buf + out_loc) (glue out_loc ++ t ++ [NUL])) st).
Proof.
  intros Hl Heq [(c & t1 & Ht1 & Hc) (t2 & d & Ht2 & Hd)] Hws1 Hws2 Hloc Hout Hsz.
  assert (Hlen : (length l < length (ip_buf st))%nat).
  { destruct Hl as [Hb Hl _]. unfold zlen, INI_BUF_SIZE, INI_LINE_BUF_SIZE in *. lia. }
  unfold copy_trimmed, copy_trimmed_to_buf, trim_start_end.
  rewrite (trim_start_spec _ l _ p ws1 c (t1 ++ ws2 ++ r)); [|done|by rewrite Heq, Ht1|done|done|].
  2: { unfold buf_fuel. subst l. rewrite !length_app in Hlen. lia. }
  cbn [mbind res_bind].
  replace (zlen (p ++ ws1 ++ t ++ ws2) - 1) with (zlen (p ++ ws1 ++ t2) + zlen ws2)
    by (rewrite Ht2, !zlen_app, zlen_cons, zlen_nil; lia).
  rewrite (trim_end_spec _ l _ (p ++ ws1 ++ t2) d ws2 r); [|done| |done|done|].
  2: { rewrite Heq, Ht2, <- !app_assoc. done. }
  2: { unfold buf_fuel. subst l. rewrite !length_app in Hlen. lia. }
  cbn [mbind res_bind].
  replace (zlen (p ++ ws1 ++ t2)) with (zlen (p ++ ws1) + zlen t - 1)
    by (rewrite Ht2, !zlen_app, zlen_cons, zlen_nil; lia).
  replace (zlen p + zlen ws1) with (zlen (p ++ ws1)) by (by rewrite zlen_app).
  rewrite (copy_to_buf_spec l _ (p ++ ws1) t (ws2 ++ r)); [done|done|by rewrite <- app_assoc|done..].
Qed.

(** ** The reference: lines as data *)

Abbreviation bytes := (list byte).

(** What a line of a workspace file says. *)
Inductive aline : Type :=
| LBlank
| LComment
| LSection (name : bytes)
| LEntry (key value : bytes)
| LCont (text : bytes).

(** Bytes that can stand inside a line of a text file. *)
Definition clean (w : bytes) : Prop := Forall (λ c, c ≠ NUL ∧ c ≠ NL) w.
Definition spaces (w : bytes) : Prop := Forall (λ c, is_space c = true) w.
Definition lacks (c : byte) (w : bytes) : Prop := Forall (λ b, b ≠ c) w.

(** How a line may be spelled: blanks around names, keys and values, text behind
    a section header, indentation before a continuation. *)
Inductive renders : aline → bytes → Prop :=
| R_blank : renders LBlank [NL]
| R_comment w : clean w → renders LComment (Byte.x23 :: w ++ [NL])
| R_section ws1 name ws2 junk :
    spaces ws1 → trimmed name → clean name → lacks Byte.x5d name → spaces ws2 → clean junk →
    renders (LSection name) ([Byte.x5b] ++ ws1 ++ name ++ ws2 ++ Byte.x5d :: junk ++ [NL])
| R_entry key ws1 ws2 value ws3 :
    trimmed key → clean key → lacks Byte.x3d key →
    head key ≠ Some Byte.x5b → head key ≠ Some Byte.x23 →
    spaces ws1 → spaces ws2 → trimmed value → clean value → spaces ws3 →
    renders (LEntry key value) (key ++ ws1 ++ Byte.x3d :: ws2 ++ value ++ ws3 ++ [NL])
| R_entry_empty key ws1 :
    trimmed key → clean key → lacks Byte.x3d key →
    head key ≠ Some Byte.x5b → head key ≠ Some Byte.x23 → spaces ws1 →
    renders (LEntry key []) (key ++ ws1 ++ [Byte.x3d; NL])
| R_cont c ws text ws2 :
    is_space c = true → spaces ws → trimmed text → clean text → spaces ws2 →
    renders (LCont text) (c :: ws ++ text ++ ws2 ++ [NL]).

(** The meaning of a file: the section in force and the entry being read. *)
Abbreviation astate := (bytes * option (bytes * bytes))%type.
Abbreviation call := (bytes * bytes * bytes)%type.

Definition pending_calls (s : astate) : list call :=
  match s with (sec, Some (k, v)) => [(sec, k, v)] | (_, None) => [] end.

(** An entry's value grows by its continuation lines, joined by newlines. *)
Definition join_line (v text : bytes) : bytes := v ++ glue (zlen v) ++ text.

Definition astep (s : astate) (ln : aline) : list call * astate :=
  match ln, s with
  | LBlank, (sec, _) => (pending_calls s, (sec, None))
  | LComment, _ => ([], s)
  | LSection name, _ => (pending_calls s, (name, None))
  | LEntry k v, (sec, _) => (pending_calls s, (sec, Some (k, v)))
  | LCont text, (sec, Some (k, v)) => ([], (sec, Some (k, join_line v text)))
  | LCont _, (_, None) => ([], s)
  end.

Fixpoint aparse (s : astate) (ls : list aline) : list call :=
  match ls with
  | [] => pending_calls s
  | ln :: ls => let '(cs, s) := astep s ln in cs ++ aparse s ls
  end.

(** The same, split into the calls made by the end of the last line and the
    state there. *)
Fixpoint arun (s : astate) (ls : list aline) : list call * astate :=
  match ls with
  | [] => ([], s)
  | ln :: ls =>
      let '(cs, s) := astep s ln in
      let '(cs', s) := arun s ls in (cs ++ cs', s)
  end.

Lemma aparse_arun s ls : aparse s ls = (arun s ls).1 ++ pending_calls (arun s ls).2.
Proof.
  revert s. induction ls as [|ln ls IH]; intros s; [done|]. cbn.
  destruct (astep s ln) as [cs s1]. rewrite IH. destruct (arun s1 ls). by rewrite <- app_assoc.
Qed.

(** Where a line may stand, and the sizes the buffer allows: a comment may not
    interrupt an entry, a continuation needs one. *)
Definition line_fits (s : astate) (ln : aline) : Prop :=
  match ln with
  | LBlank => True
  | LComment => s.2 = None
  | LSection name => zlen name < INI_SECTION_BUF_SIZE
  | LEntry k v => zlen k < INI_KEY_BUF_SIZE ∧ zlen v < INI_VALUE_BUF_SIZE
  | LCont text =>
      match s.2 with
      | None => False
      | Some (k, v) => zlen (join_line v text) < INI_VALUE_BUF_SIZE
      end
  end.

Fixpoint file_fits (s : astate) (ls : list aline) : Prop :=
  match ls with
  | [] => True
  | ln :: ls => line_fits s ln ∧ file_fits (astep s ln).2 ls
  end.

(** ** The parser's state against the reference *)

Record agrees (st : IniParseState) (s : astate) : Prop := {
  ag_buf : zlen (ip_buf st) = INI_BUF_SIZE;
  ag_sec : cstr (ip_buf st) SECTION = Ok s.1;
  ag_sec_len : zlen s.1 < INI_SECTION_BUF_SIZE;
  ag_pend :
    match s.2 with
    | None => ip_mode st = PARSEMODE_STARTLINE
    | Some (k, v) =>
        ip_mode st = PARSEMODE_VALUE ∧ ip_value_loc st = zlen v ∧
        cstr (ip_buf st) KEY = Ok k ∧ zlen k < INI_KEY_BUF_SIZE ∧
        cstr (ip_buf st) VALUE = Ok v
    end;
}.

(** [consts] exposes the buffer's layout to [lia]. *)
Ltac consts :=
  unfold VALUE, KEY, SECTION, LINE, INI_LINE_BUF_SIZE, INI_SECTION_BUF_SIZE, INI_KEY_BUF_SIZE,
    INI_VALUE_BUF_SIZE, INI_BUF_SIZE in *.

(** The length side conditions of a copy. *)
Ltac in_buf :=
  try change (glue 0) with (@nil byte); rewrite ?zlen_app, ?zlen_cons, ?zlen_nil; consts; lia.

Lemma agrees_init : agrees ini_init ([], None).
Proof. by constructor. Qed.

Lemma is_space_true c : is_space c = true → c = SPACE ∨ c = TAB.
Proof. unfold is_space. rewrite orb_true_iff, !bool_decide_eq_true. done. Qed.

Lemma spaces_trim w : spaces w → Forall (λ b, is_trim b = true) w.
Proof. intros H. eapply Forall_impl; [exact H|]. intros c Hc. cbn in Hc. unfold is_trim. by rewrite Hc. Qed.

Lemma spaces_forall (P : byte → Prop) w : P SPACE → P TAB → spaces w → Forall P w.
Proof. intros ? ? H. eapply Forall_impl; [exact H|]. by intros c [->| ->]%is_space_true. Qed.

Lemma clean_no_nul w : clean w → no_nul w.
Proof. unfold clean, no_nul. rewrite Forall_forall. intros H Hin. by destruct (H _ Hin). Qed.

Lemma clean_lacks (P : byte → Prop) x w :
  (∀ c, c ≠ NUL → c ≠ x → P c) → clean w → lacks x w → Forall P w.
Proof.
  unfold clean, lacks. rewrite !Forall_forall. intros HP Hc Hx c Hin.
  apply HP; [by destruct (Hc c Hin)|by apply Hx].
Qed.

Lemma clean_forall (P : byte → Prop) w : (∀ c, c ≠ NUL → P c) → clean w → Forall P w.
Proof. unfold clean. rewrite !Forall_forall. intros HP Hc c Hin. apply HP. by destruct (Hc c Hin). Qed.

Lemma trimmed_head t :
  trimmed t → clean t → ∃ c t', t = c :: t' ∧ is_space c = false ∧ c ≠ NUL ∧ c ≠ NL.
Proof. intros [(c & t' & -> & Hc) _] [[? ?] _]%Forall_cons. eauto 10. Qed.

(** Loading the next line keeps what the parser knows. *)
Lemma agrees_load st s l :
  agrees st s → no_nul l → zlen l < INI_LINE_BUF_SIZE →
  agrees (set_buf (upd (ip_buf st) LINE (l ++ [NUL])) st) s ∧
  line_in l (upd (ip_buf st) LINE (l ++ [NUL])).
Proof.
  intros [Hb Hsec Hsl Hp] Hn Hl. pose proof (zlen_nonneg l).
  assert (zlen (l ++ [NUL]) = zlen l + 1) as Hx by (rewrite zlen_app, zlen_cons, zlen_nil; lia).
  split.
  - constructor; cbn; [rewrite zlen_upd; [done|done|consts; lia]| |done|].
    + apply cstr_upd_other; [done|done|consts; lia|consts; lia].
    + destruct (s.2) as [[k v]|]; [|done]. destruct Hp as (? & ? & ? & ? & ?).
      split_and!; try done; apply cstr_upd_other; (done || consts; lia).
  - split; [by rewrite zlen_upd by (consts; lia)|done|].
    pose proof (sub_upd_same (ip_buf st) LINE (l ++ [NUL])) as Hs. rewrite Hx in Hs.
    apply Hs; consts; lia.
Qed.

Section ParserSpec.
Context {D : Type} (handler : D → bytes → bytes → bytes → res D).

Definition deliver (d : D) (c : call) : res D := handler d c.1.1 c.1.2 c.2.
Fixpoint deliver_all (d : D) (cs : list call) : res D :=
  match cs with [] => Ok d | c :: cs => d ← deliver d c; deliver_all d cs end.

Lemma deliver_all_app d cs cs' :
  deliver_all d (cs ++ cs') = (d' ← deliver_all d cs; deliver_all d' cs').
Proof.
  revert d. induction cs as [|c cs IH]; intros d; [done|]. cbn.
  destruct (deliver d c); cbn; [apply IH|done].
Qed.

(** The call made at the start of a line that ends an entry. *)
Lemma flush_agrees st s d :
  agrees st s →
  (if decide (ip_mode st = PARSEMODE_VALUE) then call_handler handler st d else Ok d) =
  deliver_all d (pending_calls s).
Proof.
  intros [_ Hsec _ Hp]. destruct s as [sec [[k v]|]]; cbn in *.
  - destruct Hp as (Hm & _ & Hk & _ & Hv). rewrite decide_True by done. unfold call_handler.
    rewrite Hsec, Hk, Hv. cbn. unfold deliver. cbn. by destruct (handler d sec k v).
  - by rewrite Hp, decide_False.
Qed.

(** *** Running the character loop *)

Definition runs (l : bytes) (i : Z) (st : IniParseState) (d : D)
  (r : res (IniRetCode * Z * IniParseState * D)) : Prop :=
  ∀ fuel, (length l - Z.to_nat i ≤ fuel)%nat → parse_loop handler fuel i st d = r.

Lemma runs_step l i c st d r :
  line_in l (ip_buf st) → 0 ≤ i → l !! Z.to_nat i = Some c → c ≠ NUL →
  (∀ fuel, (length l - Z.to_nat (i + 1) ≤ fuel)%nat →
    ('(ctl, st, d) ← parse_char handler i c st d;
     match ctl with
     | Break status => Ok (status, i, st, d)
     | Next => parse_loop handler fuel (i + 1) st d
     end) = r) →
  runs l i st d r.
Proof.
  intros Hl Hi Hc Hn Hr fuel Hf. apply lookup_lt_Some in Hc as Hlt.
  destruct fuel as [|fuel]; [lia|]. cbn [parse_loop].
  unfold LINE. rewrite Z.add_0_l, (line_rd l _ i c) by done. cbn [mbind res_bind].
  rewrite decide_False by done. apply Hr. lia.
Qed.

Lemma runs_next l i c st d st' d' r :
  line_in l (ip_buf st) → 0 ≤ i → l !! Z.to_nat i = Some c → c ≠ NUL →
  parse_char handler i c st d = Ok (Next, st', d') → runs l (i + 1) st' d' r → runs l i st d r.
Proof. intros Hl Hi Hc Hn Hp Hr. eapply runs_step; [done..|]. intros fuel Hf. rewrite Hp. by apply Hr. Qed.

Lemma runs_end l st d : line_in l (ip_buf st) → runs l (zlen l) st d (Ok (INI_OK, zlen l, st, d)).
Proof.
  intros Hl fuel _. unfold parse_loop. destruct fuel; unfold LINE; rewrite Z.add_0_l;
    by rewrite (line_rd_end l _ Hl).
Qed.

(** Characters that leave the state alone. *)
Lemma runs_skip l p w q st d r :
  line_in l (ip_buf st) → l = p ++ w ++ q → p ≠ [] →
  Forall (λ c, c ≠ NUL ∧ ∀ i, line_char i c st = Ok st) w →
  runs l (zlen (p ++ w)) st d r → runs l (zlen p) st d r.
Proof.
  intros Hl -> Hp Hw. revert p Hp Hl. induction Hw as [|c w [Hc Hch] _ IH]; intros p Hp Hl Hr.
  - by rewrite app_nil_r in Hr.
  - destruct p as [|c0 p]; [done|]. eapply (runs_next _ _ c); [done|apply zlen_nonneg| |done| |].
    + unfold zlen. rewrite Nat2Z.id. by apply list_lookup_middle.
    + unfold parse_char. rewrite decide_False by (unfold zlen; cbn; lia). by rewrite Hch.
    + specialize (IH ((c0 :: p) ++ [c])). rewrite <- !app_assoc in IH.
      replace (zlen (c0 :: p) + 1) with (zlen ((c0 :: p) ++ [c]))
        by (rewrite zlen_app, (zlen_cons c), zlen_nil; lia).
      apply IH; [done|done|done].
Qed.

(** [parse_line] from the outcome of its loop. *)
Lemma parse_line_runs l st d r :
  line_in l (ip_buf st) → runs l 0 st d r →
  parse_line handler st d =
  ('(status, i, st, d) ← r;
   if decide (status = INI_OK ∧ ip_mode st = PARSEMODE_VALUE) then
     '(loc, st) ← copy_trimmed (ip_save_loc st) (i - 1) VALUE (ip_value_loc st) st;
     Ok (status, set_value_loc loc st, d)
   else Ok (status, st, d)).
Proof.
  intros Hl Hr. unfold parse_line. rewrite Hr; [done|].
  unfold buf_fuel. destruct Hl as [Hb Hlen _]. consts. unfold zlen in *. lia.
Qed.

(** *** One lemma per kind of line *)

(** The outcome of a line that delivers the pending entry first. *)
Definition line_result (st : IniParseState) (d : D) (cs : list call) (st' : IniParseState) : Prop :=
  parse_line handler st d = (d' ← deliver_all d cs; Ok (INI_OK, st', d')).

Lemma parse_line_flush l c st s d r :
  line_in l (ip_buf st) → agrees st s → head l = Some c → c ≠ NUL → is_space c = false →
  (∀ d', deliver_all d (pending_calls s) = Ok d' → parse_line handler st d = r d') →
  parse_line handler st d = (d' ← deliver_all d (pending_calls s); r d').
Proof.
  intros Hl Hag Hh Hn Hsp Hr. destruct (deliver_all d (pending_calls s)) as [d'|f] eqn:Hd; [by apply Hr|].
  rewrite (parse_line_runs l st d (Fault f)); [done|done|].
  eapply (runs_step _ _ c); [done|done|by destruct l|done|]. intros fuel _.
  unfold parse_char, line_start. rewrite decide_True, Hsp by done.
  by rewrite (flush_agrees _ _ d Hag), Hd.
Qed.

(** The first character, once the pending entry is delivered. *)
Lemma line_start_ok c st s d d' :
  agrees st s → is_space c = false → deliver_all d (pending_calls s) = Ok d' →
  parse_char handler 0 c st d =
  (if decide (c = NL) then
     Ok (Break INI_OK, set_value_loc 0 (set_save_loc 0 (set_mode PARSEMODE_STARTLINE st)), d')
   else if decide (c = Byte.x5b) then
     Ok (Next, set_value_loc 0 (set_save_loc 1 (set_mode PARSEMODE_SECTION st)), d')
   else if decide (c = Byte.x23) then Ok (Break INI_OK, st, d')
   else Ok (Next, set_value_loc 0 (set_save_loc 0 (set_mode PARSEMODE_KEY st)), d')).
Proof.
  intros Hag Hsp Hd. unfold parse_char, line_start. rewrite decide_True, Hsp by done.
  rewrite (flush_agrees _ _ d Hag), Hd. cbn [mbind res_bind].
  rewrite (decide_False (P := ip_mode st = PARSEMODE_MULTILINE)); [done|].
  destruct Hag as [_ _ _ Hp]. destruct s as [sec [[k v]|]]; cbn in Hp; [destruct Hp as [-> _]|rewrite Hp]; done.
Qed.

Lemma parse_blank st s d :
  line_in [NL] (ip_buf st) → agrees st s →
  ∃ st', line_result st d (pending_calls s) st' ∧ agrees st' (s.1, None).
Proof.
  intros Hl Hag. eexists. split.
  - eapply parse_line_flush; [done..|]. intros d' Hd.
    erewrite parse_line_runs; [|exact Hl|].
    2: { intros fuel Hf. apply (runs_step [NL] 0 NL st d); [done..| |done].
         intros fuel' _. rewrite (line_start_ok NL st s d d') by done.
         rewrite decide_True by done. cbn [mbind res_bind]. reflexivity. }
    cbn [mbind res_bind]. rewrite decide_False by (by intros [_ ?]). reflexivity.
  - destruct Hag. by constructor.
Qed.

Lemma parse_comment st s d w :
  line_in (Byte.x23 :: w ++ [NL]) (ip_buf st) → agrees st s → s.2 = None →
  line_result st d [] st.
Proof.
  intros Hl Hag Hp. unfold line_result. cbn [deliver_all mbind res_bind].
  assert (Hd : deliver_all d (pending_calls s) = Ok d) by (destruct s as [? [[]|]]; done).
  erewrite parse_line_runs; [|exact Hl|].
  2: { intros fuel Hf. apply (runs_step (Byte.x23 :: w ++ [NL]) 0 Byte.x23 st d); [done..| |exact Hf].
       intros fuel' _. rewrite (line_start_ok Byte.x23 st s d d) by done.
       rewrite 2!decide_False, decide_True by done. cbn [mbind res_bind]. reflexivity. }
  cbn [mbind res_bind]. rewrite decide_False; [done|]. intros [_ Hm].
  destruct Hag as [_ _ _ Hpend]. rewrite Hp in Hpend. congruence.
Qed.



Lemma spaces_no_nul w : spaces w → no_nul w.
Proof. unfold spaces, no_nul. rewrite Forall_forall. intros H Hin. by apply H in Hin. Qed.

Lemma no_nul_nl : no_nul [NL].
Proof. by apply (bool_decide_unpack _). Qed.

(** Characters the current mode passes over. *)
Definition passes (m : IniParseMode) (c : byte) : Prop :=
  match m with
  | PARSEMODE_SECTION => c ≠ Byte.x5d
  | PARSEMODE_KEY => c ≠ Byte.x3d
  | PARSEMODE_MULTILINE => False
  | _ => True
  end.

Lemma runs_pass l p w q st d r :
  line_in l (ip_buf st) → l = p ++ w ++ q → p ≠ [] →
  Forall (λ c, c ≠ NUL ∧ passes (ip_mode st) c) w →
  runs l (zlen (p ++ w)) st d r → runs l (zlen p) st d r.
Proof.
  intros Hl Heq Hp Hw. eapply runs_skip; [done..|]. eapply Forall_impl; [exact Hw|].
  intros c [Hn Hc]. split; [done|]. intros i. unfold line_char, passes in *.
  destruct (ip_mode st); try done; by rewrite decide_False.
Qed.

Lemma runs_char l p c q st d st' r :
  line_in l (ip_buf st) → l = p ++ c :: q → p ≠ [] → c ≠ NUL →
  line_char (zlen p) c st = Ok st' → runs l (zlen (p ++ [c])) st' d r → runs l (zlen p) st d r.
Proof.
  intros Hl -> Hp Hn Hc Hr. eapply (runs_next _ _ c); [done|apply zlen_nonneg| |done| |].
  - unfold zlen. rewrite Nat2Z.id. by apply list_lookup_middle.
  - unfold parse_char. rewrite decide_False by (destruct p; [done|unfold zlen; cbn; lia]). by rewrite Hc.
  - by rewrite zlen_app, zlen_cons, zlen_nil in Hr.
Qed.

(** A line whose first character is [c], from the rest of its loop. *)
Lemma parse_line_from l c q st s d d' m save r :
  line_in l (ip_buf st) → agrees st s → l = c :: q →
  c ≠ NUL → is_space c = false → c ≠ NL → c ≠ Byte.x23 →
  (m, save) = (if decide (c = Byte.x5b) then (PARSEMODE_SECTION, 1) else (PARSEMODE_KEY, 0)) →
  deliver_all d (pending_calls s) = Ok d' →
  runs l 1 (set_value_loc 0 (set_save_loc save (set_mode m st))) d' r →
  runs l 0 st d r.
Proof.
  intros Hl Hag -> Hn Hsp Hnl Hcm Hm Hd Hr.
  eapply (runs_next _ 0 c); [done..| |exact Hr].
  rewrite (line_start_ok c st s d d') by done. rewrite (decide_False (P := c = NL)) by done.
  destruct (decide (c = Byte.x5b)); [|rewrite decide_False by done]; by injection Hm as -> ->.
Qed.

Lemma parse_section st s d ws1 name ws2 junk :
  line_in ([Byte.x5b] ++ ws1 ++ name ++ ws2 ++ Byte.x5d :: junk ++ [NL]) (ip_buf st) →
  agrees st s → spaces ws1 → trimmed name → clean name → lacks Byte.x5d name →
  spaces ws2 → clean junk → zlen name < INI_SECTION_BUF_SIZE →
  ∃ st', line_result st d (pending_calls s) st' ∧ agrees st' (name, None).
Proof.
  set (l := [Byte.x5b] ++ _). intros Hl Hag Hws1 Htr Hcl Hlk Hws2 Hj Hsz.
  exists (set_save_loc 0 (set_mode PARSEMODE_STARTLINE
    (set_buf (upd (ip_buf st) SECTION (name ++ [NUL]))
       (set_value_loc 0 (set_save_loc 1 (set_mode PARSEMODE_SECTION st)))))). split.
  - eapply parse_line_flush; [done..|]. intros d' Hd.
    erewrite parse_line_runs; [|exact Hl|].
    2: { eapply (parse_line_from l Byte.x5b); [done..| |exact Hd|]; [by rewrite decide_True|].
         apply (runs_pass l [Byte.x5b] (ws1 ++ name ++ ws2) (Byte.x5d :: junk ++ [NL])); [done| |done| |].
         { unfold l. by rewrite <- !app_assoc. }
         { rewrite !Forall_app. split_and!; [by apply spaces_forall| |by apply spaces_forall].
           by eapply (clean_lacks _ Byte.x5d). }
         eapply (runs_char l ([Byte.x5b] ++ ws1 ++ name ++ ws2) Byte.x5d (junk ++ [NL])); [done| |done..| |].
         { unfold l. by rewrite <- !app_assoc. }
         { unfold line_char. cbn [ip_mode set_mode set_value_loc set_save_loc ip_save_loc].
           rewrite decide_True by done. change 1 with (zlen [Byte.x5b]).
           rewrite (copy_trimmed_spec l _ [Byte.x5b] ws1 name ws2 (Byte.x5d :: junk ++ [NL]));
             [reflexivity|done|done|done|done|by apply spaces_trim|done|done|].
           in_buf. }
         match goal with |- runs _ (zlen ?p) _ _ _ => apply (runs_pass l p (junk ++ [NL]) []) end.
         { apply line_upd; [done|done|in_buf]. }
         { unfold l. rewrite app_nil_r, <- !app_assoc. done. }
         { done. }
         { rewrite Forall_app, Forall_singleton. split; [|done]. by apply (clean_forall). }
         match goal with |- runs _ (zlen ?p) _ _ _ => replace p with l end.
         2: { unfold l. by rewrite <- !app_assoc. }
         apply runs_end. apply line_upd; [done|done|in_buf]. }
    cbn [mbind res_bind]. rewrite decide_False by (by intros [_ ?]). reflexivity.
  - destruct Hag. pose proof (zlen_nonneg name). constructor; cbn [fst snd ip_buf ip_mode set_save_loc set_mode set_buf set_value_loc].
    + rewrite zlen_upd; [done|done|in_buf].
    + apply cstr_upd_same; [done|in_buf|by apply clean_no_nul].
    + done.
    + done.
Qed.

(** Behind the key of an entry, and behind the indentation of a continuation,
    the rest of the line is passed over and copied at the end. *)
Lemma runs_value l p w st d :
  line_in l (ip_buf st) → l = p ++ w → p ≠ [] → no_nul w → ip_mode st = PARSEMODE_VALUE →
  runs l (zlen p) st d (Ok (INI_OK, zlen l, st, d)).
Proof.
  intros Hl Heq Hp Hw Hm. apply (runs_pass l p w []); [done|by rewrite app_nil_r|done| |].
  - rewrite Hm. apply Forall_forall. intros c Hc. split; [by intros ->|done].
  - rewrite <- Heq. by apply runs_end.
Qed.

Lemma runs_key l key ws1 q st s d d' r :
  line_in l (ip_buf st) → agrees st s → l = key ++ ws1 ++ Byte.x3d :: q →
  trimmed key → clean key → lacks Byte.x3d key →
  head key ≠ Some Byte.x5b → head key ≠ Some Byte.x23 → spaces ws1 →
  zlen key < INI_KEY_BUF_SIZE → deliver_all d (pending_calls s) = Ok d' →
  runs l (zlen (key ++ ws1 ++ [Byte.x3d]))
    (set_save_loc (zlen (key ++ ws1) + 1) (set_mode PARSEMODE_VALUE
       (set_buf (upd (ip_buf st) KEY (key ++ [NUL]))
          (set_value_loc 0 (set_save_loc 0 (set_mode PARSEMODE_KEY st)))))) d' r →
  runs l 0 st d r.
Proof.
  intros Hl Hag Heq Htr Hcl Hlk Hh1 Hh2 Hws1 Hsz Hd Hr.
  destruct (trimmed_head _ Htr Hcl) as (c & key' & -> & Hc & Hn).
  assert (Hcb : c ≠ Byte.x5b) by (intros ->; by apply Hh1).
  eapply (parse_line_from l c); [done|done|exact Heq|naive_solver..| | |exact Hd|].
  { intros ->. by apply Hh2. }
  { by rewrite decide_False. }
  change 1 with (zlen [c]).
  apply (runs_pass l [c] (key' ++ ws1) (Byte.x3d :: q)); [done| |done| |].
  { rewrite Heq. cbn. by rewrite <- !app_assoc. }
  { rewrite Forall_app. split; [|by apply spaces_forall].
    apply (clean_lacks _ Byte.x3d); [done|by inversion Hcl|by inversion Hlk]. }
  eapply (runs_char l ((c :: key') ++ ws1) Byte.x3d q); [done| |done..| |].
  { rewrite Heq. by rewrite <- !app_assoc. }
  { unfold line_char. cbn [ip_mode set_mode set_value_loc set_save_loc ip_save_loc].
    rewrite decide_True by done. change 0 with (zlen (@nil byte)) at 1.
    rewrite (copy_trimmed_spec l _ [] [] (c :: key') ws1 (Byte.x3d :: q));
      [reflexivity|done|done|done|done|by apply spaces_trim|done|done|].
    rewrite zlen_cons in Hsz. in_buf. }
  by rewrite <- app_assoc.
Qed.

(** The state behind the key of an entry agrees with the entry once its value
    is in the buffer. *)
Lemma agrees_entry st s key v n m :
  agrees st s → clean key → zlen key < INI_KEY_BUF_SIZE → no_nul v → zlen v < INI_VALUE_BUF_SIZE →
  agrees (mkIni (upd (upd (ip_buf st) KEY (key ++ [NUL])) VALUE (v ++ [NUL])) (zlen v) n m)
    (s.1, Some (key, v)) ↔ m = PARSEMODE_VALUE.
Proof.
  intros [Hb Hs Hsl _] Hk Hkl Hv Hvl. pose proof (zlen_nonneg key). pose proof (zlen_nonneg v).
  pose proof (zlen_nonneg s.1). apply clean_no_nul in Hk.
  split; [by intros [_ _ _ (? & _)]|intros ->].
  assert (Hb1 : zlen (upd (ip_buf st) KEY (key ++ [NUL])) = INI_BUF_SIZE)
    by (rewrite zlen_upd; [done|done|in_buf]).
  constructor; cbn [fst snd ip_buf ip_mode ip_value_loc].
  - rewrite zlen_upd; [done|done|rewrite Hb1; in_buf].
  - apply cstr_upd_other; [apply cstr_upd_other; [done|done|in_buf|in_buf]|done|rewrite Hb1; in_buf|in_buf].
  - done.
  - split_and!; [done|done| |done|apply cstr_upd_same; [done|rewrite Hb1; in_buf|done]].
    apply cstr_upd_other; [|done|rewrite Hb1; in_buf|in_buf]. apply cstr_upd_same; [done|in_buf|done].
Qed.

Lemma line_after_key l st key :
  line_in l (ip_buf st) → zlen key < INI_KEY_BUF_SIZE →
  line_in l (upd (ip_buf st) KEY (key ++ [NUL])).
Proof. intros Hl Hk. apply line_upd; [done|done|in_buf]. Qed.

Lemma parse_entry st s d key ws1 ws2 value ws3 :
  line_in (key ++ ws1 ++ Byte.x3d :: ws2 ++ value ++ ws3 ++ [NL]) (ip_buf st) → agrees st s →
  trimmed key → clean key → lacks Byte.x3d key →
  head key ≠ Some Byte.x5b → head key ≠ Some Byte.x23 →
  spaces ws1 → spaces ws2 → trimmed value → clean value → spaces ws3 →
  zlen key < INI_KEY_BUF_SIZE → zlen value < INI_VALUE_BUF_SIZE →
  ∃ st', line_result st d (pending_calls s) st' ∧ agrees st' (s.1, Some (key, value)).
Proof.
  set (l := key ++ _). intros Hl Hag Hk Hkc Hke Hk1 Hk2 Hw1 Hw2 Hv Hvc Hw3 Hks Hvs.
  pose proof (zlen_nonneg value).
  destruct (trimmed_head _ Hk Hkc) as (c & key' & Hc & Hcs & Hcn & _).
  eexists. split; [|eapply agrees_entry; [exact Hag|exact Hkc|done|by apply clean_no_nul|exact Hvs|reflexivity]].
  eapply parse_line_flush; [exact Hl|exact Hag|by unfold l; rewrite Hc|done|done|]. intros d' Hd.
  pose proof (line_after_key _ _ _ Hl Hks) as Hl2.
  erewrite parse_line_runs; [|exact Hl|].
  2: { eapply runs_key; [exact Hl|exact Hag|reflexivity|done..|].
       eapply (runs_value l _ (ws2 ++ value ++ ws3 ++ [NL])); [exact Hl2| | | |done].
       - unfold l. by rewrite <- !app_assoc.
       - subst key. done.
       - rewrite !no_nul_app. auto using spaces_no_nul, clean_no_nul, no_nul_nl. }
  cbn [mbind res_bind set_save_loc set_mode set_buf set_value_loc ip_mode ip_save_loc ip_value_loc].
  rewrite decide_True by done.
  replace (zlen (key ++ ws1) + 1) with (zlen (key ++ ws1 ++ [Byte.x3d])) by in_buf.
  replace (zlen l) with (zlen ((key ++ ws1 ++ [Byte.x3d]) ++ ws2 ++ value ++ ws3 ++ [NL]))
    by (unfold l; by rewrite <- !app_assoc).
  rewrite (copy_trimmed_spec l _ (key ++ ws1 ++ [Byte.x3d]) ws2 value (ws3 ++ [NL]) []);
    [reflexivity|exact Hl2| |done|done| |done|done|in_buf].
  - unfold l. by rewrite app_nil_r, <- !app_assoc.
  - rewrite Forall_app, Forall_singleton. split; [by apply spaces_trim|done].
Qed.

Lemma copy_loop_nil fuel buf in_buf start i end_ out_buf out_loc :
  end_ < i → copy_loop fuel buf in_buf start i end_ out_buf out_loc = Ok buf.
Proof. intros H. destruct fuel; cbn [copy_loop]; by destruct (Z.leb_spec i end_); [lia|]. Qed.

(** Nothing but blanks behind the [=]. *)
Lemma copy_trimmed_empty l st p c out_buf :
  line_in l (ip_buf st) → l = p ++ [c; NL] → is_trim c = false → SECTION ≤ out_buf →
  out_buf + 1 ≤ INI_BUF_SIZE →
  copy_trimmed (zlen p + 1) (zlen l - 1) out_buf 0 st =
  Ok (0, set_buf (upd (ip_buf st) out_buf [NUL]) st).
Proof.
  intros Hl Heq Hc Hout Hsz. pose proof (zlen_nonneg p).
  assert (Hlen : zlen l = zlen p + 2) by (rewrite Heq; rewrite zlen_app, !zlen_cons, zlen_nil; lia).
  pose proof (li_buf _ _ Hl) as Hb. pose proof (li_len _ _ Hl).
  unfold copy_trimmed, copy_trimmed_to_buf, trim_start_end.
  replace (zlen p + 1) with (zlen (p ++ [c])) by in_buf.
  rewrite (trim_start_spec _ l _ (p ++ [c]) [] NL []); [|done|by rewrite <- app_assoc|done|done|].
  2: { unfold buf_fuel. cbn. lia. }
  cbn [mbind res_bind]. rewrite zlen_nil, Z.add_0_r.
  replace (zlen l - 1) with (zlen p + zlen [NL]) by in_buf.
  rewrite (trim_end_spec _ l _ p c [NL] []); [|done|done|by repeat constructor|done|].
  2: { unfold buf_fuel. unfold zlen in *. consts. cbn. lia. }
  cbn [mbind res_bind]. unfold copy_to_buf. cbn [mbind res_bind Z.gtb Z.compare].
  replace (zlen p - zlen (p ++ [c]) + 1) with 0 by in_buf.
  rewrite copy_loop_nil by in_buf.
  cbn [mbind res_bind]. replace (0 + (zlen p - zlen (p ++ [c])) + 1) with 0 by in_buf.
  consts. rewrite Z.add_0_r. by rewrite wr_ok by lia.
Qed.

Lemma parse_entry_empty st s d key ws1 :
  line_in (key ++ ws1 ++ [Byte.x3d; NL]) (ip_buf st) → agrees st s →
  trimmed key → clean key → lacks Byte.x3d key →
  head key ≠ Some Byte.x5b → head key ≠ Some Byte.x23 → spaces ws1 →
  zlen key < INI_KEY_BUF_SIZE →
  ∃ st', line_result st d (pending_calls s) st' ∧ agrees st' (s.1, Some (key, [])).
Proof.
  set (l := key ++ _). intros Hl Hag Hk Hkc Hke Hk1 Hk2 Hw1 Hks.
  destruct (trimmed_head _ Hk Hkc) as (c & key' & Hc & Hcs & Hcn & _).
  eexists. split; [|eapply (agrees_entry st s key []); [exact Hag|exact Hkc|done|apply not_elem_of_nil|done|reflexivity]].
  eapply parse_line_flush; [exact Hl|exact Hag|by unfold l; rewrite Hc|done|done|]. intros d' Hd.
  pose proof (line_after_key _ _ _ Hl Hks) as Hl2.
  erewrite parse_line_runs; [|exact Hl|].
  2: { eapply runs_key; [exact Hl|exact Hag|reflexivity|done..|].
       eapply (runs_value l _ [NL]); [exact Hl2| | | |done].
       - unfold l. by rewrite <- !app_assoc.
       - subst key. done.
       - apply no_nul_nl. }
  cbn [mbind res_bind set_save_loc set_mode set_buf set_value_loc ip_mode ip_save_loc ip_value_loc].
  rewrite decide_True by done.
  rewrite (copy_trimmed_empty l _ (key ++ ws1) Byte.x3d); [reflexivity|exact Hl2| |done|done|done].
  unfold l. by rewrite <- !app_assoc.
Qed.

(** The indentation of a continuation: the last blank is where its text starts. *)
Lemma runs_indent l p b ws q st d r :
  line_in l (ip_buf st) → l = p ++ b :: ws ++ q → p ≠ [] → is_space b = true → spaces ws →
  ip_mode st = PARSEMODE_MULTILINE →
  runs l (zlen (p ++ b :: ws)) (set_save_loc (zlen (p ++ b :: ws) - 1) st) d r →
  runs l (zlen p) st d r.
Proof.
  intros Hl Heq Hp Hb Hws. revert p b st Hl Heq Hp Hb.
  induction Hws as [|b' ws Hb' _ IH]; intros p b st Hl Heq Hp Hb Hm Hr;
    (eapply (runs_char l p b); [done|exact Heq|done|by intros ->| |]);
    try (unfold line_char; rewrite Hm, Hb; reflexivity).
  - replace (zlen (p ++ [b]) - 1) with (zlen p) in Hr by in_buf. done.
  - apply (IH _ b'); [done|by rewrite <- app_assoc|by destruct p|done|done|].
    by rewrite <- app_assoc.
Qed.

(** A continuation's line up to its text: where the copy will start. *)
Lemma runs_cont l c ws q st d :
  line_in l (ip_buf st) → l = c :: ws ++ q → is_space c = true → spaces ws →
  ip_mode st = PARSEMODE_VALUE →
  ∃ p ws1, c :: ws = p ++ ws1 ∧ p ≠ [] ∧ spaces ws1 ∧
    ∀ r, runs l (zlen (c :: ws)) (set_save_loc (zlen p) (set_mode PARSEMODE_MULTILINE st)) d r →
      runs l 0 st d r.
Proof.
  intros Hl Heq Hc Hws Hm.
  assert (H0 : ∀ r, runs l 1 (set_save_loc 1 (set_mode PARSEMODE_MULTILINE st)) d r → runs l 0 st d r).
  { intros r Hr. eapply (runs_next l 0 c); [done|done|by rewrite Heq|by intros ->| |exact Hr].
    unfold parse_char, line_start. by rewrite decide_True, Hc, decide_True by done. }
  destruct Hws as [|b ws Hb Hws].
  - exists [c], []. split_and!; [done|done|by constructor|exact H0].
  - destruct (exists_last (l := b :: ws)) as (ws0 & b' & Hlast); [done|].
    exists (c :: ws0), [b']. split_and!; [cbn; by rewrite <- Hlast|done| |].
    { assert (spaces (b :: ws)) as Hall by by constructor.
      rewrite Hlast in Hall. apply Forall_app in Hall as [_ Hall]. exact Hall. }
    intros r Hr. apply H0. change 1 with (zlen [c]).
    apply (runs_indent l [c] b ws q); [done|exact Heq|done..|].
    change ([c] ++ b :: ws) with (c :: b :: ws).
    replace (zlen (c :: b :: ws) - 1) with (zlen (c :: ws0)); [exact Hr|].
    rewrite Hlast. rewrite !zlen_cons, zlen_app, zlen_cons, zlen_nil. lia.
Qed.

Lemma parse_cont st sec k v d c ws text ws2 :
  line_in (c :: ws ++ text ++ ws2 ++ [NL]) (ip_buf st) → agrees st (sec, Some (k, v)) →
  is_space c = true → spaces ws → trimmed text → clean text → spaces ws2 →
  zlen (join_line v text) < INI_VALUE_BUF_SIZE →
  ∃ st', line_result st d [] st' ∧ agrees st' (sec, Some (k, join_line v text)).
Proof.
  set (l := c :: _). intros Hl [Hb Hs Hsl (Hm & Hloc & Hk & Hks & Hv)] Hc Hws Ht Htc Hws2 Hsz.
  cbn [fst snd] in *. destruct (cstr_inv _ _ _ Hv) as (_ & Hvn & _).
  pose proof (zlen_nonneg v). pose proof (zlen_nonneg k). pose proof (zlen_nonneg sec).
  pose proof (zlen_nonneg text). pose proof (zlen_nonneg (glue (zlen v))).
  unfold join_line in *. rewrite !zlen_app in Hsz.
  assert (Hg : no_nul (glue (zlen v) ++ text)).
  { apply no_nul_app. split; [|by apply clean_no_nul]. unfold glue.
    destruct (zlen v >? 0); [apply no_nul_nl|apply not_elem_of_nil]. }
  destruct (trimmed_head _ Ht Htc) as (t0 & text' & Htext & Ht0s & Ht0n & _).
  destruct (runs_cont l c ws (text ++ ws2 ++ [NL]) st d) as (p & ws1 & Hpw & Hp & Hws1 & Hrun); [done..|].
  exists (mkIni (upd (ip_buf st) (VALUE + zlen v) (glue (zlen v) ++ text ++ [NUL]))
    (zlen v + zlen (glue (zlen v)) + zlen text) (zlen p) PARSEMODE_VALUE). split.
  - unfold line_result. erewrite parse_line_runs; [|exact Hl|].
    2: { apply Hrun. eapply (runs_char l (c :: ws) t0 (text' ++ ws2 ++ [NL])); [exact Hl| |done|done| |].
         - unfold l. by rewrite Htext.
         - unfold line_char. cbn [ip_mode set_save_loc set_mode]. rewrite Ht0s. reflexivity.
         - apply (runs_value l _ (text' ++ ws2 ++ [NL])); [exact Hl| |done| |done].
           + unfold l. rewrite Htext. by rewrite <- app_assoc.
           + rewrite !no_nul_app. rewrite Htext in Htc. apply Forall_cons in Htc as [_ Htc].
             auto using spaces_no_nul, clean_no_nul, no_nul_nl. }
    cbn [mbind res_bind set_save_loc set_mode ip_mode ip_save_loc ip_value_loc].
    rewrite decide_True, Hloc by done.
    assert (Heq : l = p ++ ws1 ++ text ++ (ws2 ++ [NL]) ++ []).
    { rewrite app_nil_r. unfold l. rewrite (app_assoc p), <- Hpw. done. }
    replace (zlen l) with (zlen (p ++ ws1 ++ text ++ ws2 ++ [NL]))
      by (rewrite Heq; by rewrite app_nil_r).
    rewrite (copy_trimmed_spec l _ p ws1 text (ws2 ++ [NL]) []);
      [reflexivity|exact Hl|exact Heq|done|done| |lia|done|consts; lia].
    rewrite Forall_app, Forall_singleton. split; [by apply spaces_trim|done].
  - constructor; cbn [fst snd ip_buf ip_mode ip_value_loc].
    + rewrite zlen_upd; [done|consts; lia|in_buf].
    + apply cstr_upd_other; [done|consts; lia|in_buf|consts; lia].
    + done.
    + split_and!; [done| | |done|].
      * rewrite !zlen_app. lia.
      * apply cstr_upd_other; [done|consts; lia|in_buf|consts; lia].
      * rewrite (app_assoc (glue (zlen v)) text [NUL]). apply cstr_upd_append; [exact Hv|in_buf|exact Hg].
Qed.

Lemma parse_aline st s d ln w :
  renders ln w → line_in w (ip_buf st) → agrees st s → line_fits s ln →
  ∃ st', line_result st d (astep s ln).1 st' ∧ agrees st' (astep s ln).2.
Proof.
  intros Hr Hl Hag Hf. destruct s as [sec pend].
  destruct Hr; cbn [line_fits astep fst snd] in *.
  - by apply (parse_blank st (sec, pend)).
  - subst pend. exists st. split; [by eapply parse_comment|done].
  - by eapply (parse_section st (sec, pend)).
  - destruct Hf. by eapply (parse_entry st (sec, pend)).
  - destruct Hf. by eapply (parse_entry_empty st (sec, pend)).
  - destruct pend as [[k v]|]; [|done]. by eapply parse_cont.
Qed.

(** *** Whole files *)

Lemma take_line_spec n w rest :
  NL ∉ w → (length w < n)%nat → take_line n (w ++ NL :: rest) = (w ++ [NL], rest).
Proof.
  revert n. induction w as [|c w IH]; intros [|n] Hw Hn; cbn in *; try lia; [by rewrite decide_True|].
  apply not_elem_of_cons in Hw as [Hc Hw]. rewrite decide_False by congruence.
  by rewrite IH by (done || lia).
Qed.

Lemma spaces_clean w : spaces w → clean w.
Proof. apply spaces_forall; done. Qed.

Lemma clean_no_nl w : clean w → NL ∉ w.
Proof. unfold clean. rewrite Forall_forall. intros H Hin. by destruct (H _ Hin). Qed.

Lemma clean_app v w : clean (v ++ w) ↔ clean v ∧ clean w.
Proof. apply Forall_app. Qed.

Lemma clean_cons c w : clean (c :: w) ↔ (c ≠ NUL ∧ c ≠ NL) ∧ clean w.
Proof. unfold clean. by rewrite Forall_cons. Qed.

Lemma clean_nil : clean [].
Proof. constructor. Qed.

Lemma space_not_end c : is_space c = true → c ≠ NUL ∧ c ≠ NL.
Proof. by intros [->| ->]%is_space_true. Qed.

Lemma renders_line ln w : renders ln w → ∃ w0, w = w0 ++ [NL] ∧ clean w0.
Proof.
  assert (∀ w0, w = w0 ++ [NL] ∧ clean w0 → ∃ w0, w = w0 ++ [NL] ∧ clean w0) as Hi by eauto.
  destruct 1 as [|w Hw|ws1 name ws2 junk|key ws1 ws2 value ws3|key ws1|c ws text ws2].
  - apply (Hi []). split; [done|apply clean_nil].
  - apply (Hi (Byte.x23 :: w)). by rewrite clean_cons.
  - apply (Hi ([Byte.x5b] ++ ws1 ++ name ++ ws2 ++ Byte.x5d :: junk)).
    rewrite <- !app_assoc. rewrite !clean_app, !clean_cons.
    auto 10 using spaces_clean, clean_nil.
  - apply (Hi (key ++ ws1 ++ Byte.x3d :: ws2 ++ value ++ ws3)).
    rewrite <- !app_assoc, <- !app_comm_cons, <- !app_assoc. rewrite !clean_app, clean_cons, !clean_app. auto 10 using spaces_clean.
  - apply (Hi (key ++ ws1 ++ [Byte.x3d])).
    rewrite <- !app_assoc. rewrite !clean_app, clean_cons. auto 10 using spaces_clean, clean_nil.
  - apply (Hi (c :: ws ++ text ++ ws2)).
    cbn. rewrite <- !app_assoc. rewrite clean_cons, !clean_app. auto 10 using spaces_clean, space_not_end.
Qed.

(** [file_of lines content]: [content] spells [lines], each in at most 511 bytes. *)
Definition spells (ln : aline) (w : bytes) : Prop := renders ln w ∧ zlen w < INI_LINE_BUF_SIZE.
Definition file_of (lines : list aline) (content : bytes) : Prop :=
  ∃ ws, Forall2 spells lines ws ∧ content = concat ws.

Lemma fgets_line ln w rest : spells ln w → fgets INI_LINE_BUF_SIZE (w ++ rest) = Some (w, rest).
Proof.
  intros [Hr Hsz]. destruct (renders_line _ _ Hr) as (w0 & -> & Hc).
  unfold fgets. rewrite <- app_assoc. destruct (w0 ++ [NL] ++ rest) eqn:E.
  { by destruct w0. }
  rewrite <- E. cbn [app]. rewrite take_line_spec; [done|by apply clean_no_nl|].
  rewrite zlen_app, zlen_cons, zlen_nil in Hsz. consts. unfold zlen in Hsz. lia.
Qed.

(** The end of [ini_parse], after the loop. *)
Definition finish (r : res (IniRetCode * IniParseState * D)) : res (IniRetCode * D) :=
  '(status, st, data) ← r;
  if decide (status = INI_OK ∧ ip_mode st = PARSEMODE_VALUE) then
    data ← call_handler handler st data; Ok (status, data)
  else Ok (status, data).

Lemma finish_bind {A} (m : res A) k : finish (m ≫= k) = (a ← m; finish (k a)).
Proof. by destruct m. Qed.

Lemma finish_agrees st s d :
  agrees st s → finish (Ok (INI_OK, st, d)) = (d' ← deliver_all d (pending_calls s); Ok (INI_OK, d')).
Proof.
  intros Hag. rewrite <- (flush_agrees st s d Hag). unfold finish. cbn [mbind res_bind].
  destruct (decide (ip_mode st = PARSEMODE_VALUE)) as [Hm|Hm].
  - by rewrite decide_True.
  - rewrite decide_False; [done|naive_solver].
Qed.

Lemma parse_lines_prefix fuel lines ws rest st s d :
  Forall2 spells lines ws → file_fits s lines → agrees st s → (length ws ≤ fuel)%nat →
  ∃ st', agrees st' (arun s lines).2 ∧
    parse_lines handler fuel (concat ws ++ rest) st d =
    (d' ← deliver_all d (arun s lines).1; parse_lines handler (fuel - length ws) rest st' d').
Proof.
  intros Hsp. revert fuel st s d.
  induction Hsp as [|ln w lines ws Hw Hws IH]; intros fuel st s d Hfit Hag Hfuel.
  { exists st. split; [done|]. cbn. by rewrite Nat.sub_0_r. }
  destruct fuel as [|fuel]; [cbn in Hfuel; lia|]. destruct Hfit as [Hf Hfit].
  cbn [concat parse_lines]. rewrite <- app_assoc, (fgets_line ln) by done.
  destruct Hw as [Hr Hsz]. destruct (renders_line _ _ Hr) as (w0 & Hw0 & Hc).
  assert (Hnn : no_nul w) by (rewrite Hw0; apply no_nul_app; split; [by apply clean_no_nul|apply no_nul_nl]).
  destruct (agrees_load st s w Hag Hnn Hsz) as [Hag' Hl].
  rewrite memcpy_ok; [|done|destruct Hag as [Hb _ _ _]; in_buf]. cbn [mbind res_bind].
  destruct (parse_aline (set_buf (upd (ip_buf st) LINE (w ++ [NUL])) st) s d ln w Hr Hl Hag' Hf)
    as (st1 & Hline & Hag1).
  unfold line_result in Hline. rewrite Hline. cbn [arun].
  destruct (astep s ln) as [cs s1] eqn:Hs. cbn [fst snd] in *.
  assert (Hfu : (length ws ≤ fuel)%nat) by (cbn in Hfuel; lia).
  destruct (deliver_all d cs) as [d1|f] eqn:Hd.
  - destruct (IH fuel st1 s1 d1 Hfit Hag1 Hfu) as (st' & Hag2 & Heq). exists st'.
    destruct (arun s1 lines) as [cs' s2]. cbn [fst snd] in *. split; [done|].
    rewrite deliver_all_app, Hd. cbn [mbind res_bind]. rewrite decide_True by done. exact Heq.
  - destruct (IH fuel st1 s1 d Hfit Hag1 Hfu) as (st' & Hag2 & _). exists st'.
    destruct (arun s1 lines) as [cs' s2]. cbn [fst snd] in *. split; [done|].
    by rewrite deliver_all_app, Hd.
Qed.

Lemma length_concat_le (ws : list bytes) : Forall (λ w, w ≠ []) ws → (length ws ≤ length (concat ws))%nat.
Proof.
  induction 1 as [|w ws Hw _ IH]; [done|]. cbn. rewrite length_app. destruct w; [done|cbn; lia].
Qed.

Lemma file_of_lines lines content :
  file_of lines content →
  ∃ ws, Forall2 spells lines ws ∧ content = concat ws ∧ (length ws ≤ length content)%nat.
Proof.
  intros (ws & Hsp & ->). exists ws. split_and!; [done|done|]. apply length_concat_le.
  induction Hsp as [|ln w lines ws [Hr _] _ IH]; constructor; [|done].
  by destruct (renders_line _ _ Hr) as (w0 & -> & _); destruct w0.
Qed.

(** [ini_parse] on a well-formed file followed by anything. *)
Lemma ini_parse_prefix lines content rest d :
  file_of lines content → file_fits ([], None) lines →
  ∃ st fuel, agrees st (arun ([], None) lines).2 ∧ (length rest ≤ fuel)%nat ∧
    ini_parse handler (Some (content ++ rest)) d =
    (d' ← deliver_all d (arun ([], None) lines).1; finish (parse_lines handler fuel rest st d')).
Proof.
  intros (ws & Hsp & -> & Hlen)%file_of_lines Hfit.
  destruct (parse_lines_prefix (length (concat ws ++ rest)) lines ws rest ini_init ([], None) d)
    as (st & Hag & Heq); [done|done|apply agrees_init|rewrite length_app; lia|].
  exists st, (length (concat ws ++ rest) - length ws)%nat. split_and!; [done|rewrite length_app; lia|].
  rewrite <- finish_bind, <- Heq. done.
Qed.

(** The same up to its end, and with the last entry flushed. *)
Lemma ini_parse_run lines content d :
  file_of lines content → file_fits ([], None) lines →
  ini_parse handler (Some content) d =
  (d' ← deliver_all d (arun ([], None) lines).1;
   d' ← deliver_all d' (pending_calls (arun ([], None) lines).2); Ok (INI_OK, d')).
Proof.
  intros Hf Hfit. destruct (ini_parse_prefix lines content [] d Hf Hfit) as (st & fuel & Hag & _ & Heq).
  rewrite app_nil_r in Heq. rewrite Heq.
  destruct (deliver_all d _) as [d'|]; [|done]. cbn [mbind res_bind].
  rewrite <- (finish_agrees st) by done. by destruct fuel.
Qed.

(** C3: on every file of well-formed lines, [ini_parse] calls the handler exactly
    on the entries the file states, in order, under the section in force, a
    value's continuation lines joined by newlines, and returns [INI_OK]. *)
Theorem ini_parse_correct lines content d :
  file_of lines content → file_fits ([], None) lines →
  ini_parse handler (Some content) d =
  (d' ← deliver_all d (aparse ([], None) lines); Ok (INI_OK, d')).
Proof.
  intros Hf Hfit. rewrite (ini_parse_run lines content d Hf Hfit), aparse_arun, deliver_all_app.
  by destruct (deliver_all d _).
Qed.

End ParserSpec.
