(* ===== verification/IniFile.v ===== *)
(** INI files as data: a printer for workspace files and its round trip through
    the parser, the parser's termination on every input, and its outcome on the
    lines the grammar excludes. *)

From S2P Require Import Prelude CString Ini IniSpec.

(** ** Printing *)

Definition print_line (ln : aline) : bytes :=
  match ln with
  | LBlank => [NL]
  | LComment => [Byte.x23; NL]
  | LSection name => [Byte.x5b] ++ name ++ [Byte.x5d; NL]
  | LEntry k [] => k ++ [Byte.x3d; NL]
  | LEntry k v => k ++ [SPACE; Byte.x3d; SPACE] ++ v ++ [NL]
  | LCont text => [SPACE; SPACE] ++ text ++ [NL]
  end.

Definition trimmedb (t : bytes) : bool :=
  match t with c :: _ => negb (is_space c) | [] => false end &&
  match last t with Some c => negb (is_trim c) | None => false end.

Lemma trimmedb_spec t : trimmedb t = true ↔ trimmed t.
Proof.
  unfold trimmedb, trimmed. rewrite andb_true_iff. split.
  - intros [H1 H2]. destruct t as [|c t]; [done|]. split; [exists c, t; by destruct (is_space c)|].
    destruct (last (c :: t)) as [e|] eqn:E; [|done]. apply last_Some in E as [t' ->].
    exists t', e. by destruct (is_trim e).
  - intros [(c & t1 & Ht & Hc) (t2 & e & Ht2 & He)]. split; [by rewrite Ht, Hc|].
    by rewrite Ht2, last_snoc, He.
Qed.

#[export] Instance trimmed_dec t : Decision (trimmed t).
Proof. refine (cast_if (decide (trimmedb t = true))); by rewrite <- trimmedb_spec. Defined.
#[export] Instance clean_dec w : Decision (clean w).
Proof. unfold clean. apply _. Defined.
#[export] Instance spaces_dec w : Decision (spaces w).
Proof. unfold spaces. apply _. Defined.
#[export] Instance lacks_dec c w : Decision (lacks c w).
Proof. unfold lacks. apply _. Defined.

(** What can be printed on one line and read back. *)
Definition name_ok (close : byte) (n : bytes) : Prop := trimmed n ∧ clean n ∧ lacks close n.
Definition key_ok (k : bytes) : Prop :=
  name_ok Byte.x3d k ∧ head k ≠ Some Byte.x5b ∧ head k ≠ Some Byte.x23.
Definition text_ok (v : bytes) : Prop := trimmed v ∧ clean v.

Definition line_ok (ln : aline) : Prop :=
  zlen (print_line ln) < INI_LINE_BUF_SIZE ∧
  match ln with
  | LBlank | LComment => True
  | LSection n => name_ok Byte.x5d n
  | LEntry k v => key_ok k ∧ (v = [] ∨ text_ok v)
  | LCont text => text_ok text
  end.

Lemma print_spells ln : line_ok ln → spells ln (print_line ln).
Proof.
  intros [Hsz Hok]. split; [|done]. clear Hsz. destruct ln as [| |n|k v|text]; cbn in *.
  - constructor.
  - apply (R_comment []), clean_nil.
  - destruct Hok as (Ht & Hc & Hl). apply (R_section [] n [] []); (done || constructor).
  - destruct Hok as (((Ht & Hc & Hl) & H1 & H2) & Hv). destruct v as [|c v].
    + apply (R_entry_empty k []); (done || constructor).
    + destruct Hv as [|[Hvt Hvc]]; [done|].
      apply (R_entry k [SPACE] [SPACE] (c :: v) []); (done || by repeat constructor).
  - destruct Hok as [Ht Hc]. apply (R_cont SPACE [SPACE] text []); (done || by repeat constructor).
Qed.

Definition print_lines (ls : list aline) : bytes := concat (map print_line ls).

Lemma print_lines_file ls : Forall line_ok ls → file_of ls (print_lines ls).
Proof.
  intros Hok. exists (map print_line ls). split; [|done].
  induction Hok; constructor; [by apply print_spells|done].
Qed.

(** A workspace file: sections of entries, an entry's value in lines. *)
Record entry := mkEntry { e_key : bytes; e_first : bytes; e_more : list bytes }.
Record section := mkSection { s_name : bytes; s_entries : list entry }.

Definition e_value (e : entry) : bytes := foldl join_line (e_first e) (e_more e).

Definition entry_lines (e : entry) : list aline :=
  LEntry (e_key e) (e_first e) :: map LCont (e_more e).
Definition section_lines (s : section) : list aline :=
  LSection (s_name s) :: concat (map entry_lines (s_entries s)).
Definition file_lines (f : list section) : list aline := concat (map section_lines f).

(** The calls a file stands for. *)
Definition section_calls (s : section) : list call :=
  map (λ e, (s_name s, e_key e, e_value e)) (s_entries s).
Definition file_calls (f : list section) : list call := concat (map section_calls f).

Definition entry_ok (e : entry) : Prop :=
  Forall line_ok (entry_lines e) ∧ zlen (e_key e) < INI_KEY_BUF_SIZE ∧
  zlen (e_value e) < INI_VALUE_BUF_SIZE.
Definition section_ok (s : section) : Prop :=
  line_ok (LSection (s_name s)) ∧ zlen (s_name s) < INI_SECTION_BUF_SIZE ∧
  Forall entry_ok (s_entries s).

#[export] Instance line_ok_dec ln : Decision (line_ok ln).
Proof. destruct ln; unfold line_ok, name_ok, key_ok, text_ok, name_ok; apply _. Defined.
#[export] Instance entry_ok_dec e : Decision (entry_ok e).
Proof. unfold entry_ok. apply _. Defined.
#[export] Instance section_ok_dec s : Decision (section_ok s).
Proof. unfold section_ok. apply _. Defined.

(** ** Reading back what was printed *)

Lemma aparse_conts sec k v more rest :
  aparse (sec, Some (k, v)) (map LCont more ++ rest) =
  aparse (sec, Some (k, foldl join_line v more)) rest.
Proof. revert v. induction more as [|t more IH]; intros v; [done|]. cbn. apply IH. Qed.

(** [emits sec rest R]: from any state in section [sec], [rest] adds the calls [R]
    to the pending one, within the parser's sizes. *)
Definition emits (sec : bytes) (rest : list aline) (R : list call) : Prop :=
  ∀ p, aparse (sec, p) rest = pending_calls (sec, p) ++ R ∧ file_fits (sec, p) rest.

Lemma join_line_mono v more : zlen v ≤ zlen (foldl join_line v more).
Proof.
  revert v. induction more as [|t more IH]; intros v; cbn; [lia|].
  specialize (IH (join_line v t)). unfold join_line in IH at 1. rewrite !zlen_app in IH.
  pose proof (zlen_nonneg (glue (zlen v))). pose proof (zlen_nonneg t). lia.
Qed.

Lemma fits_conts sec k v more rest :
  zlen (foldl join_line v more) < INI_VALUE_BUF_SIZE →
  file_fits (sec, Some (k, foldl join_line v more)) rest →
  file_fits (sec, Some (k, v)) (map LCont more ++ rest).
Proof.
  revert v. induction more as [|t more IH]; intros v Hsz Hr; [done|]. cbn in *. split; [|by apply IH].
  pose proof (join_line_mono (join_line v t) more). lia.
Qed.

Lemma emits_entry sec e rest R :
  entry_ok e → emits sec rest R →
  emits sec (entry_lines e ++ rest) ((sec, e_key e, e_value e) :: R).
Proof.
  intros (_ & Hk & Hv) Hr p. unfold e_value in *. pose proof (join_line_mono (e_first e) (e_more e)).
  destruct (Hr (Some (e_key e, foldl join_line (e_first e) (e_more e)))) as [Hc Hf]. split.
  - cbn [entry_lines app aparse astep]. by rewrite aparse_conts, Hc.
  - cbn [entry_lines app file_fits astep line_fits snd]. split; [lia|]. by apply fits_conts.
Qed.

Lemma emits_entries sec es rest R :
  Forall entry_ok es → emits sec rest R →
  emits sec (concat (map entry_lines es) ++ rest)
    (map (λ e, (sec, e_key e, e_value e)) es ++ R).
Proof.
  intros Hes Hr. induction Hes as [|e es He _ IH]; [done|]. cbn [map concat].
  rewrite <- app_assoc. cbn [app]. by apply emits_entry.
Qed.

Lemma emits_file f sec : Forall section_ok f → emits sec (file_lines f) (file_calls f).
Proof.
  intros Hf. revert sec. induction Hf as [|s f (_ & Hn & Hes) _ IH]; intros sec p.
  { cbn. by rewrite app_nil_r. }
  destruct (emits_entries (s_name s) (s_entries s) _ _ Hes (IH (s_name s)) None) as [Hc Hft].
  change (file_lines (s :: f)) with (LSection (s_name s) ::
    concat (map entry_lines (s_entries s)) ++ file_lines f).
  cbn [aparse astep file_fits line_fits snd]. rewrite Hc. cbn [pending_calls app]. done.
Qed.

Lemma file_lines_ok f : Forall section_ok f → Forall line_ok (file_lines f).
Proof.
  intros Hf. apply Forall_concat, Forall_map. eapply Forall_impl; [exact Hf|].
  intros s (Hn & _ & Hes). apply Forall_cons. split; [done|].
  apply Forall_concat, Forall_map. eapply Forall_impl; [exact Hes|]. by intros e (? & _).
Qed.

(** A handler that records its calls. *)
Definition collect (cs : list call) (sec k v : bytes) : res (list call) := Ok (cs ++ [(sec, k, v)]).

Lemma collect_all cs cs' : deliver_all collect cs cs' = Ok (cs ++ cs').
Proof.
  revert cs. induction cs' as [|[[s k] v] cs' IH]; intros cs; cbn; [by rewrite app_nil_r|].
  by rewrite IH, <- app_assoc.
Qed.

(** C18: a printed workspace file is read back: the handler receives each entry
    once, in order, with its section, key and joined value. *)
Theorem ini_roundtrip f cs :
  Forall section_ok f →
  ini_parse collect (Some (print_lines (file_lines f))) cs = Ok (INI_OK, cs ++ file_calls f).
Proof.
  intros Hf. destruct (emits_file f [] Hf None) as [Hc Hft].
  rewrite (ini_parse_run collect (file_lines f)); [|by apply print_lines_file, file_lines_ok|done].
  rewrite collect_all. cbn [mbind res_bind]. rewrite collect_all. cbn [mbind res_bind].
  by rewrite <- app_assoc, <- aparse_arun, Hc.
Qed.

Definition sample_file : list section :=
  [mkSection (bytes_of_string "web")
     [mkEntry (bytes_of_string "dir") (bytes_of_string "/srv/www") [];
      mkEntry (bytes_of_string "build") (bytes_of_string "make clean")
        [bytes_of_string "make -j4"; bytes_of_string "make install"]];
   mkSection (bytes_of_string "api") [mkEntry (bytes_of_string "dir") [] []]].

(** What the sample prints as. *)
Example sample_file_text :
  print_lines (file_lines sample_file) =
  bytes_of_string "[web]" ++ [NL] ++ bytes_of_string "dir = /srv/www" ++ [NL] ++
  bytes_of_string "build = make clean" ++ [NL] ++ bytes_of_string "  make -j4" ++ [NL] ++
  bytes_of_string "  make install" ++ [NL] ++ bytes_of_string "[api]" ++ [NL] ++
  bytes_of_string "dir=" ++ [NL].
Proof. reflexivity. Qed.

Lemma ini_roundtrip_witness :
  Forall section_ok sample_file ∧
  ini_parse collect (Some (print_lines (file_lines sample_file))) [] =
    Ok (INI_OK, file_calls sample_file).
Proof.
  assert (Forall section_ok sample_file) as H by (apply (bool_decide_unpack _); vm_compute; exact I).
  split; [exact H|]. apply (ini_roundtrip sample_file [] H).
Defined.

(** A comment, then a section header with blanks and trailing text, then a blank line. *)
Definition sample_lines : list aline :=
  [LComment; LSection (bytes_of_string "web"); LEntry (bytes_of_string "dir") (bytes_of_string "/srv");
   LCont (bytes_of_string "x"); LBlank; LComment].
Definition sample_text : list bytes :=
  [bytes_of_string "# sites" ++ [NL]; bytes_of_string "[ web ] main" ++ [NL];
   bytes_of_string "dir =  /srv " ++ [NL]; bytes_of_string "   x" ++ [NL]; [NL];
   bytes_of_string "#" ++ [NL]].

Lemma respell ln w w' : renders ln w → w' = w → renders ln w'.
Proof. by intros ? ->. Qed.

Lemma ini_parse_correct_witness :
  file_of sample_lines (concat sample_text) ∧ file_fits ([], None) sample_lines ∧
  ini_parse collect (Some (concat sample_text)) [] =
    Ok (INI_OK, [(bytes_of_string "web", bytes_of_string "dir", bytes_of_string "/srv" ++ [NL] ++ bytes_of_string "x")]).
Proof.
  assert (file_of sample_lines (concat sample_text)) as H.
  { exists sample_text. split; [|done]. unfold sample_lines, sample_text.
    repeat (apply List.Forall2_cons; [split; [|vm_compute; reflexivity]|]); [..|constructor].
    - apply (respell _ _ _ (R_comment (bytes_of_string " sites") ltac:(decided))). reflexivity.
    - eapply respell;
        [apply (R_section [SPACE] (bytes_of_string "web") [SPACE] (bytes_of_string " main")); decided|reflexivity].
    - eapply respell;
        [apply (R_entry (bytes_of_string "dir") [SPACE] [SPACE; SPACE] (bytes_of_string "/srv") [SPACE]); decided
        |reflexivity].
    - eapply respell; [apply (R_cont SPACE [SPACE; SPACE] (bytes_of_string "x") []); decided|reflexivity].
    - constructor.
    - apply (R_comment []). decided. }
  assert (file_fits ([], None) sample_lines) as Hf by (cbn; repeat split; vm_compute; reflexivity).
  split; [exact H|]. split; [exact Hf|].
  apply (ini_parse_correct collect sample_lines (concat sample_text) [] H Hf).
Defined.

(** ** What the handler keeps, the parser keeps *)

Section HandlerInvariant.
Context {D : Type} (handler : D → bytes → bytes → bytes → res D) (P : D → Prop).
Hypothesis handler_keeps : ∀ d s k v d', P d → handler d s k v = Ok d' → P d'.

Lemma call_handler_keeps st d d' : P d → call_handler handler st d = Ok d' → P d'.
Proof. unfold call_handler. intros Hd H. inv_ok. by eapply handler_keeps. Qed.

Lemma parse_char_keeps i c st d r : P d → parse_char handler i c st d = Ok r → P r.2.
Proof.
  intros Hd H. unfold parse_char, line_start in H.
  destruct (decide (i = 0)); [destruct (is_space c)|].
  - by repeat case_decide; simplify_eq.
  - apply bind_ok in H as (d' & Hd' & H).
    assert (P d') by (clear H; case_decide; [exact (call_handler_keeps _ _ _ Hd Hd')|by simplify_eq]).
    by repeat case_decide; simplify_eq.
  - by inv_ok.
Qed.

Lemma parse_loop_keeps fuel i st d r : P d → parse_loop handler fuel i st d = Ok r → P r.2.
Proof.
  revert i st d. induction fuel as [|fuel IH]; intros i st d Hd H; cbn [parse_loop] in H;
    apply bind_ok in H as (c & _ & H); case_decide; simplify_eq; [done..|].
  apply bind_ok in H as ([[ctl st'] d'] & Hc & H). apply parse_char_keeps in Hc; [|done].
  destruct ctl; [by simplify_eq|]. by eapply IH.
Qed.

Lemma parse_line_keeps st d r : P d → parse_line handler st d = Ok r → P r.2.
Proof.
  intros Hd H. unfold parse_line in H. apply bind_ok in H as ([[[status i] st'] d'] & Hl & H).
  apply parse_loop_keeps in Hl; [|done]. case_decide; [|by simplify_eq].
  apply bind_ok in H as ([loc st2] & _ & H). by simplify_eq.
Qed.

Lemma parse_lines_keeps fuel content st d r : P d → parse_lines handler fuel content st d = Ok r → P r.2.
Proof.
  revert content st d. induction fuel as [|fuel IH]; intros content st d Hd H; cbn [parse_lines] in H;
    (destruct (fgets _ _) as [[line rest]|]; [|by simplify_eq]); [done|].
  apply bind_ok in H as (b & _ & H). apply bind_ok in H as ([[status st'] d'] & Hl & H).
  apply parse_line_keeps in Hl; [|done]. case_decide; [by eapply IH|by simplify_eq].
Qed.

Lemma ini_parse_keeps fp d r : P d → ini_parse handler fp d = Ok r → P r.2.
Proof.
  intros Hd H. destruct fp as [content|]; [|by simplify_eq/=].
  unfold ini_parse in H. apply bind_ok in H as ([[status st] d'] & Hl & H).
  apply parse_lines_keeps in Hl; [|done]. case_decide; [|by simplify_eq].
  apply bind_ok in H as (d2 & Hc & H). simplify_eq. exact (call_handler_keeps _ _ _ Hl Hc).
Qed.
End HandlerInvariant.

(** ** Termination *)

(** [wp m Q]: [m] ends within its fuel, and its result satisfies [Q]. *)
Definition wp {A} (m : res A) (Q : A → Prop) : Prop :=
  match m with Ok a => Q a | Fault OutOfFuel => False | Fault _ => True end.

Lemma wp_bind {A B} (m : res A) (k : A → res B) (P : A → Prop) Q :
  wp m P → (∀ a, P a → wp (k a) Q) → wp (m ≫= k) Q.
Proof. destruct m as [a|f]; cbn; [auto|by destruct f]. Qed.

Lemma wp_mono {A} (m : res A) (P Q : A → Prop) : wp m P → (∀ a, P a → Q a) → wp m Q.
Proof. destruct m as [a|f]; cbn; [auto|by destruct f]. Qed.

Lemma wp_rd {A} (a : list A) i : wp (rd a i) (λ _, 0 ≤ i < zlen a).
Proof.
  unfold rd. destruct (Z.leb_spec 0 i); [|done].
  destruct (a !! Z.to_nat i) eqn:E; cbn; [|done]. apply lookup_lt_Some in E. unfold zlen. lia.
Qed.

Lemma wp_memcpy {A} (a : list A) i x : wp (memcpy a i x) (λ b, zlen b = zlen a).
Proof.
  unfold memcpy. destruct (in_range a i (zlen x)) eqn:E; cbn; [|done].
  unfold in_range in E. rewrite !andb_true_iff, !Z.leb_le in E. apply zlen_upd; lia.
Qed.

Lemma wp_cstr a i : wp (cstr a i) (λ _, True).
Proof. unfold cstr. destruct (0 <=? i); [|done]. by destruct (until_nul _). Qed.

(** The trimming loops leave the buffer at its ends at the latest. *)
Lemma trim_start_ends fuel buf base start :
  (0 < fuel)%nat → zlen buf - (base + start) < Z.of_nat fuel ∨ base + start < 0 →
  wp (trim_start fuel buf base start) (λ _, True).
Proof.
  revert start. induction fuel as [|fuel IH]; intros start H0 Hf; [lia|]. cbn [trim_start].
  eapply wp_bind; [apply wp_rd|]. intros c Hc. cbn beta in Hc.
  destruct (is_space c); [|done]. apply IH; lia.
Qed.

Lemma trim_end_ends fuel buf base end_ :
  (0 < fuel)%nat → base + end_ + 1 < Z.of_nat fuel ∨ zlen buf ≤ base + end_ →
  wp (trim_end fuel buf base end_) (λ _, True).
Proof.
  revert end_. induction fuel as [|fuel IH]; intros end_ H0 Hf; [lia|]. cbn [trim_end].
  eapply wp_bind; [apply wp_rd|]. intros c Hc. cbn beta in Hc.
  destruct (is_space c || bool_decide (c = NL)); [|done]. apply IH; lia.
Qed.

Lemma copy_loop_ends fuel buf in_buf start i end_ out_buf out_loc :
  end_ - i < Z.of_nat fuel →
  wp (copy_loop fuel buf in_buf start i end_ out_buf out_loc) (λ b, zlen b = zlen buf).
Proof.
  revert buf i. induction fuel as [|fuel IH]; intros buf i Hf; cbn [copy_loop];
    (destruct (Z.leb_spec i end_); [|done]); [lia|].
  eapply wp_bind; [apply wp_rd|]. intros c _. eapply wp_bind; [apply wp_memcpy|].
  intros b Hb. eapply wp_mono; [apply IH; lia|]. cbn in *. intros. congruence.
Qed.

Lemma copy_to_buf_ends buf in_buf start end_ out_buf out_loc :
  wp (copy_to_buf buf in_buf start end_ out_buf out_loc) (λ r, zlen r.2 = zlen buf).
Proof.
  unfold copy_to_buf. apply (wp_bind _ _ (λ r, zlen r.2 = zlen buf)).
  { destruct (out_loc >? 0); [|done]. eapply wp_bind; [apply wp_memcpy|]. done. }
  intros [loc b1] Hb1. eapply wp_bind; [apply copy_loop_ends; lia|].
  intros b2 Hb2. eapply wp_bind; [apply wp_memcpy|]. intros b3 Hb3. cbn in *. lia.
Qed.

Lemma copy_trimmed_ends start end_ out_buf out_loc st :
  wp (copy_trimmed start end_ out_buf out_loc st) (λ r, zlen (ip_buf r.2) = zlen (ip_buf st)).
Proof.
  unfold copy_trimmed, copy_trimmed_to_buf, trim_start_end, buf_fuel.
  apply (wp_bind _ _ (λ r, zlen r.2 = zlen (ip_buf st))); [|by intros [loc b]].
  apply (wp_bind _ _ (λ _, True)).
  - eapply wp_bind; [apply trim_start_ends; unfold LINE, zlen; lia|]. intros i _.
    eapply wp_bind; [apply trim_end_ends; unfold LINE, zlen; lia|]. done.
  - intros [i j] _. apply copy_to_buf_ends.
Qed.

Section Termination.
Context {D : Type} (handler : D → bytes → bytes → bytes → res D).
Hypothesis handler_ends : ∀ d s k v, wp (handler d s k v) (λ _, True).

Lemma call_handler_ends st d : wp (call_handler handler st d) (λ _, True).
Proof.
  unfold call_handler. do 3 (eapply wp_bind; [apply wp_cstr|]; intros ? _). apply handler_ends.
Qed.

(** Every step keeps the buffer's size. *)
Abbreviation keeps st := (λ st', zlen (ip_buf st') = zlen (ip_buf st)).

Lemma line_start_ends c st d : wp (line_start handler c st d) (λ r, keeps st r.1.2).
Proof.
  unfold line_start. destruct (is_space c); [by case_decide|].
  apply (wp_bind _ _ (λ _, True)); [case_decide; [apply call_handler_ends|done]|].
  intros d' _. by repeat case_decide.
Qed.

Lemma line_char_ends i c st : wp (line_char i c st) (keeps st).
Proof.
  unfold line_char. destruct (ip_mode st); try done; try (by destruct (is_space c));
    (case_decide; [|done]); (eapply wp_bind; [apply copy_trimmed_ends|]); by intros [loc st'].
Qed.

Lemma parse_char_ends i c st d : wp (parse_char handler i c st d) (λ r, keeps st r.1.2).
Proof.
  unfold parse_char. case_decide; [apply line_start_ends|].
  eapply wp_bind; [apply line_char_ends|]. done.
Qed.

Lemma parse_loop_ends fuel i st d :
  0 ≤ i → zlen (ip_buf st) - i < Z.of_nat fuel →
  wp (parse_loop handler fuel i st d) (λ r, keeps st r.1.2).
Proof.
  revert i st d. induction fuel as [|fuel IH]; intros i st d Hi Hf; cbn [parse_loop];
    (eapply wp_bind; [apply wp_rd|]; intros c Hc; cbn beta in Hc; case_decide; [done|]).
  { unfold LINE in Hc. lia. }
  eapply wp_bind; [apply parse_char_ends|]. intros [[ctl st'] d'] Hk. cbn in Hk.
  destruct ctl; [done|]. eapply wp_mono; [apply IH; lia|]. cbn. intros. congruence.
Qed.

Lemma parse_line_ends st d : wp (parse_line handler st d) (λ r, keeps st r.1.2).
Proof.
  unfold parse_line. eapply wp_bind; [apply parse_loop_ends; [done|unfold buf_fuel, zlen; lia]|].
  intros [[[status i] st'] d'] Hk. cbn in Hk. case_decide; [|done].
  eapply wp_bind; [apply copy_trimmed_ends|]. intros [loc st2] Hk2. cbn in *. congruence.
Qed.

Lemma take_line_shorter n c l : (0 < n)%nat → (length (take_line n (c :: l)).2 ≤ length l)%nat.
Proof.
  assert (∀ n l, (length (take_line n l).2 ≤ length l)%nat) as Hle.
  { clear. intros n l. revert n. induction l as [|c l IH]; intros [|n]; try done. cbn.
    case_decide; [cbn; lia|]. specialize (IH n). destruct (take_line n l). cbn in *. lia. }
  destruct n as [|n]; [lia|]. intros _. cbn. case_decide; [done|].
  specialize (Hle n l). by destruct (take_line n l).
Qed.

Lemma parse_lines_ends fuel content st d :
  (length content ≤ fuel)%nat → wp (parse_lines handler fuel content st d) (λ _, True).
Proof.
  revert content st d. induction fuel as [|fuel IH]; intros content st d Hf;
    (destruct content as [|c content]; [done|]); [cbn in Hf; lia|].
  cbn [parse_lines fgets]. pose proof (take_line_shorter (Z.to_nat (INI_LINE_BUF_SIZE - 1)) c content) as Hs.
  destruct (take_line _ _) as [line rest]. cbn [snd] in Hs.
  eapply wp_bind; [apply wp_memcpy|]. intros b _.
  eapply wp_bind; [apply parse_line_ends|]. intros [[status st'] d'] _.
  case_decide; [|done]. apply IH. cbn in Hf. unfold INI_LINE_BUF_SIZE in Hs. lia.
Qed.
End Termination.

(** C24: [ini_parse] stops on every file, whatever its bytes, when its handler
    does: none of its loops can run past the bound of its definition. *)
Theorem ini_parse_terminates {D} (handler : D → bytes → bytes → bytes → res D) fp d :
  (∀ d s k v, handler d s k v ≠ Fault OutOfFuel) → ini_parse handler fp d ≠ Fault OutOfFuel.
Proof.
  intros Hh.
  assert (Hh' : ∀ d s k v, wp (handler d s k v) (λ _, True)).
  { intros d' s k v. specialize (Hh d' s k v). by destruct (handler d' s k v) as [|[]]. }
  assert (wp (ini_parse handler fp d) (λ _, True)) as H; [|by intros E; rewrite E in H].
  destruct fp as [content|]; [|done].
  eapply wp_bind; [by apply parse_lines_ends|]. intros [[status st] d'] _.
  case_decide; [|done]. eapply wp_bind; [by apply call_handler_ends|]. done.
Qed.

Lemma ini_parse_terminates_witness :
  ini_parse collect (Some (bytes_of_string "[a" ++ [NL; SPACE; NL; NUL])) [] ≠ Fault OutOfFuel.
Proof. apply (ini_parse_terminates collect). intros. discriminate. Defined.

(** ** Lines outside the grammar *)

Lemma trim_start_res fuel buf base start :
  (∃ n, trim_start fuel buf base start = Ok n) ∨
  trim_start fuel buf base start = Fault OutOfBounds ∨ trim_start fuel buf base start = Fault OutOfFuel.
Proof.
  revert start. induction fuel as [|fuel IH]; intros start; cbn [trim_start]; [auto|].
  unfold rd. destruct (0 <=? base + start); [|auto]. destruct (buf !! _) as [c|]; cbn; [|auto].
  destruct (is_space c); eauto.
Qed.

(** With only blanks before [end_], the second loop runs off the line's start. *)
Lemma trim_end_underflow fuel l buf p q :
  line_in l buf → l = p ++ q → Forall (λ b, is_trim b = true) p → (length p < fuel)%nat →
  trim_end fuel buf LINE (zlen p - 1) = Fault OutOfBounds.
Proof.
  intros Hl -> Hp. revert fuel q Hl.
  induction p as [|c p IH] using rev_ind; intros fuel q Hl Hf; (destruct fuel as [|fuel]; [lia|]).
  { done. }
  apply Forall_app in Hp as [Hp [Hc _]%Forall_cons]. rewrite length_app in Hf. cbn in Hf.
  cbn [trim_end]. unfold LINE. rewrite Z.add_0_l.
  replace (zlen (p ++ [c]) - 1) with (zlen p) by in_buf.
  rewrite (line_rd _ _ _ c Hl) by (try apply zlen_nonneg;
    rewrite <- app_assoc; unfold zlen; rewrite Nat2Z.id; by apply list_lookup_middle).
  cbn [mbind res_bind]. unfold is_trim in Hc. rewrite Hc.
  apply (IH Hp fuel (c :: q)); [by rewrite <- app_assoc in Hl|lia].
Qed.

Lemma copy_trimmed_underflow l st p q start out_buf out_loc :
  line_in l (ip_buf st) → l = p ++ q → Forall (λ b, is_trim b = true) p →
  copy_trimmed start (zlen p - 1) out_buf out_loc st = Fault OutOfBounds.
Proof.
  intros Hl Heq Hp. unfold copy_trimmed, copy_trimmed_to_buf, trim_start_end, buf_fuel.
  assert (H : wp (trim_start (S (length (ip_buf st))) (ip_buf st) LINE start) (λ _, True))
    by (apply trim_start_ends; unfold LINE, zlen; lia).
  destruct (trim_start_res (S (length (ip_buf st))) (ip_buf st) LINE start) as [[n E]|[E|E]];
    rewrite E in *; [|done|done].
  cbn [mbind res_bind]. rewrite (trim_end_underflow _ l _ p q); [done..|].
  pose proof (li_buf _ _ Hl). pose proof (li_len _ _ Hl) as Hlen. rewrite Heq in Hlen.
  rewrite zlen_app in Hlen. consts. unfold zlen in *. lia.
Qed.

Section Outside.
Context {D : Type} (handler : D → bytes → bytes → bytes → res D).

(** The text [w] of one line, with its newline. *)
Definition line_text (w : bytes) : Prop := (∃ w0, w = w0 ++ [NL] ∧ clean w0) ∧ zlen w < INI_LINE_BUF_SIZE.

Lemma fgets_text w rest : line_text w → fgets INI_LINE_BUF_SIZE (w ++ rest) = Some (w, rest).
Proof.
  intros [(w0 & -> & Hc) Hsz]. unfold fgets. rewrite <- app_assoc.
  destruct (w0 ++ [NL] ++ rest) eqn:E; [by destruct w0|]. rewrite <- E. cbn [app].
  rewrite take_line_spec; [done|by apply clean_no_nl|].
  rewrite zlen_app, zlen_cons, zlen_nil in Hsz. consts. unfold zlen in Hsz. lia.
Qed.

(** A line that ends the parse, after a well-formed beginning of the file. *)
Lemma ini_parse_stops lines content w rest d d1 r :
  file_of lines content → file_fits ([], None) lines → line_text w →
  deliver_all handler d (arun ([], None) lines).1 = Ok d1 →
  (∀ st fuel rest, line_in w (ip_buf st) → agrees st (arun ([], None) lines).2 →
     finish handler ('(status, st, data) ← parse_line handler st d1;
       if decide (status = INI_OK) then parse_lines handler fuel rest st data
       else Ok (status, st, data)) = r) →
  ini_parse handler (Some (content ++ w ++ rest)) d = r.
Proof.
  intros Hf Hfit Hw Hd Hr.
  destruct (ini_parse_prefix handler lines content (w ++ rest) d Hf Hfit) as (st & fuel & Hag & Hfu & ->).
  rewrite Hd. cbn [mbind res_bind].
  destruct Hw as [(w0 & Hw0 & Hc) Hsz]. pose proof (fgets_text w rest (conj (ex_intro _ w0 (conj Hw0 Hc)) Hsz)) as Hg.
  assert (Hnn : no_nul w) by (rewrite Hw0; apply no_nul_app; split; [by apply clean_no_nul|apply no_nul_nl]).
  destruct fuel as [|fuel].
  { rewrite Hw0, !length_app in Hfu. cbn in Hfu. lia. }
  cbn [parse_lines]. rewrite Hg. destruct (agrees_load st _ w Hag Hnn Hsz) as [Hag' Hl].
  rewrite memcpy_ok; [|done|destruct Hag as [Hb _ _ _]; in_buf]. cbn [mbind res_bind].
  by apply Hr.
Qed.

Lemma deliver_pending lines d d' :
  deliver_all handler d (aparse ([], None) lines) = Ok d' →
  ∃ d1, deliver_all handler d (arun ([], None) lines).1 = Ok d1 ∧
    deliver_all handler d1 (pending_calls (arun ([], None) lines).2) = Ok d'.
Proof. rewrite aparse_arun, deliver_all_app. intros (d1 & ? & ?)%bind_ok. eauto. Qed.

(** C35: a comment line directly after an entry: the handler gets the entry, and
    then [parse_line] trims "the value" of the comment line from index -1, outside
    the buffer. *)
Theorem ini_comment_in_entry lines content w rest d d' sec kv :
  file_of lines content → file_fits ([], None) lines →
  (arun ([], None) lines).2 = (sec, Some kv) →
  clean w → zlen w + 2 < INI_LINE_BUF_SIZE →
  deliver_all handler d (aparse ([], None) lines) = Ok d' →
  ini_parse handler (Some (content ++ (Byte.x23 :: w ++ [NL]) ++ rest)) d = Fault OutOfBounds.
Proof.
  intros Hf Hfit Hpend Hc Hsz (d1 & Hd1 & Hd2)%deliver_pending.
  eapply (ini_parse_stops lines); [done|done| |exact Hd1|].
  { split; [exists (Byte.x23 :: w); split; [done|by rewrite clean_cons]|].
    rewrite zlen_cons, zlen_app, zlen_cons, zlen_nil. lia. }
  intros st fuel rest' Hl Hag. rewrite Hpend in *. destruct kv as [k v].
  assert (Hm : ip_mode st = PARSEMODE_VALUE) by (by destruct Hag as [_ _ _ [Hm _]]).
  rewrite (parse_line_runs handler (Byte.x23 :: w ++ [NL]) st d1 (Ok (INI_OK, 0, st, d'))); [|done|].
  - cbn [mbind res_bind]. rewrite decide_True by done.
    change (0 - 1) with (zlen (@nil byte) - 1).
    by rewrite (copy_trimmed_underflow (Byte.x23 :: w ++ [NL]) st [] (Byte.x23 :: w ++ [NL])).
  - intros fu Hfu. apply (runs_step handler (Byte.x23 :: w ++ [NL]) 0 Byte.x23 st d1); [done..| |exact Hfu].
    intros fuel' _. rewrite (line_start_ok handler Byte.x23 st _ d1 d' Hag) by done.
    by rewrite 2!decide_False, decide_True by done.
Qed.

(** C39: an indented line of blanks only, inside an entry's value: trimming it
    reads before the line's first byte. *)
Theorem ini_blank_continuation lines content c ws rest d d1 sec kv :
  file_of lines content → file_fits ([], None) lines →
  (arun ([], None) lines).2 = (sec, Some kv) →
  is_space c = true → spaces ws → zlen ws + 2 < INI_LINE_BUF_SIZE →
  deliver_all handler d (arun ([], None) lines).1 = Ok d1 →
  ini_parse handler (Some (content ++ (c :: ws ++ [NL]) ++ rest)) d = Fault OutOfBounds.
Proof.
  intros Hf Hfit Hpend Hc Hws Hsz Hd1.
  eapply (ini_parse_stops lines); [done|done| |exact Hd1|].
  { split; [exists (c :: ws); split; [done|rewrite clean_cons; auto using spaces_clean, space_not_end]|].
    rewrite zlen_cons, zlen_app, zlen_cons, zlen_nil. lia. }
  intros st fuel rest' Hl Hag. rewrite Hpend in *. destruct kv as [k v].
  assert (Hm : ip_mode st = PARSEMODE_VALUE) by (by destruct Hag as [_ _ _ [Hm _]]).
  destruct (runs_cont handler (c :: ws ++ [NL]) c ws [NL] st d1) as (p & ws1 & _ & _ & _ & Hrun); [done..|].
  set (st1 := set_mode PARSEMODE_VALUE (set_save_loc (zlen p) (set_mode PARSEMODE_MULTILINE st))).
  rewrite (parse_line_runs handler (c :: ws ++ [NL]) st d1 (Ok (INI_OK, zlen (c :: ws ++ [NL]), st1, d1))); [|done|].
  - cbn [mbind res_bind]. rewrite decide_True by done.
    rewrite (copy_trimmed_underflow (c :: ws ++ [NL]) st1 (c :: ws ++ [NL]) []);
      [done|exact Hl|by rewrite app_nil_r|].
    constructor; [by unfold is_trim; rewrite Hc|].
    rewrite Forall_app, Forall_singleton. split; [by apply spaces_trim|done].
  - apply Hrun. apply (runs_char handler (c :: ws ++ [NL]) (c :: ws) NL [] _ d1 st1); [exact Hl|done..|].
    by apply runs_end.
Qed.

(** An indented line that continues no entry makes [ini_parse] return
    [INI_INVALID]; the entries before it have been delivered, nothing after it is. *)
Lemma ini_indent_invalid lines content c w rest d d1 sec :
  file_of lines content → file_fits ([], None) lines →
  (arun ([], None) lines).2 = (sec, None) →
  is_space c = true → clean w → zlen w + 2 < INI_LINE_BUF_SIZE →
  deliver_all handler d (arun ([], None) lines).1 = Ok d1 →
  ini_parse handler (Some (content ++ (c :: w ++ [NL]) ++ rest)) d = Ok (INI_INVALID, d1).
Proof.
  intros Hf Hfit Hpend Hc Hw Hsz Hd1.
  eapply (ini_parse_stops lines); [done|done| |exact Hd1|].
  { split; [exists (c :: w); split; [done|rewrite clean_cons; auto using space_not_end]|].
    rewrite zlen_cons, zlen_app, zlen_cons, zlen_nil. lia. }
  intros st fuel rest' Hl Hag. rewrite Hpend in *.
  assert (Hm : ip_mode st = PARSEMODE_STARTLINE) by (by destruct Hag as [_ _ _ Hm]).
  rewrite (parse_line_runs handler (c :: w ++ [NL]) st d1 (Ok (INI_INVALID, 0, st, d1))); [|done|].
  - cbn [mbind res_bind]. rewrite decide_False by (by intros []). cbn [mbind res_bind finish].
    rewrite decide_False by done. unfold finish. cbn [mbind res_bind]. by rewrite decide_False by (by intros []).
  - intros fu Hfu. apply (runs_step handler (c :: w ++ [NL]) 0 c st d1); [done..| | |exact Hfu].
    { by apply space_not_end. }
    intros fuel' _. unfold parse_char, line_start. rewrite decide_True, Hc by done.
    rewrite decide_False by (by rewrite Hm). done.
Qed.

End Outside.

Definition web_dir_lines : list aline := [LSection (bytes_of_string "web"); LEntry (bytes_of_string "dir") (bytes_of_string "/srv")].
Definition web_dir : bytes := print_lines web_dir_lines.

Lemma web_dir_file : file_of web_dir_lines web_dir.
Proof. apply print_lines_file. decided. Qed.

Lemma web_dir_fits : file_fits ([], None) web_dir_lines.
Proof. cbn. repeat split; vm_compute; reflexivity. Qed.

Lemma ini_comment_in_entry_witness :
  ini_parse collect (Some (web_dir ++ (Byte.x23 :: bytes_of_string " note" ++ [NL]) ++ [])) [] = Fault OutOfBounds.
Proof.
  apply (ini_comment_in_entry collect web_dir_lines web_dir (bytes_of_string " note") [] []
    [(bytes_of_string "web", bytes_of_string "dir", bytes_of_string "/srv")]
    (bytes_of_string "web") (bytes_of_string "dir", bytes_of_string "/srv"));
    [apply web_dir_file|apply web_dir_fits|reflexivity|decided|reflexivity|reflexivity].
Defined.

Lemma ini_blank_continuation_witness :
  ini_parse collect (Some (web_dir ++ (SPACE :: [SPACE] ++ [NL]) ++ web_dir)) [] = Fault OutOfBounds.
Proof.
  apply (ini_blank_continuation collect web_dir_lines web_dir SPACE [SPACE] web_dir [] []
    (bytes_of_string "web") (bytes_of_string "dir", bytes_of_string "/srv"));
    [apply web_dir_file|apply web_dir_fits|reflexivity|reflexivity|decided|reflexivity|reflexivity].
Defined.

Lemma ini_indent_invalid_witness :
  ini_parse collect (Some (print_lines (web_dir_lines ++ [LBlank]) ++ (TAB :: bytes_of_string "x" ++ [NL]) ++ web_dir)) [] =
    Ok (INI_INVALID, [(bytes_of_string "web", bytes_of_string "dir", bytes_of_string "/srv")]).
Proof.
  apply (ini_indent_invalid collect (web_dir_lines ++ [LBlank]) (print_lines (web_dir_lines ++ [LBlank]))
    TAB (bytes_of_string "x") web_dir [] _ (bytes_of_string "web"));
    [apply print_lines_file; decided|cbn; repeat split; vm_compute; reflexivity
    |reflexivity|reflexivity|decided|reflexivity|reflexivity].
Defined.

(** A blank between [=] and the end of the line: the empty value is copied
    with a length of -1, so the entry is delivered with the previous entry's value,
    and a continuation line loses its first character. *)
Lemma ini_blank_value_stale :
  ini_parse collect (Some (bytes_of_string "[a]" ++ [NL] ++ bytes_of_string "x = 1" ++ [NL] ++
    bytes_of_string "y = " ++ [NL])) [] =
    Ok (INI_OK, [(bytes_of_string "a", bytes_of_string "x", bytes_of_string "1");
                 (bytes_of_string "a", bytes_of_string "y", bytes_of_string "1")]) ∧
  ini_parse collect (Some (bytes_of_string "[a]" ++ [NL] ++ bytes_of_string "x = " ++ [NL] ++
    bytes_of_string "  home" ++ [NL])) [] =
    Ok (INI_OK, [(bytes_of_string "a", bytes_of_string "x", bytes_of_string "ome")]).
Proof. by vm_compute. Qed.
