(* ===== verification/Task.v ===== *)
(** Tasks (src/server.h): the storage of one task in a slot of the task store, and
    the callback that fills it from a workspace file. *)

From S2P Require Import Prelude CString Ini IniSpec.

Definition s_cmd := bytes_of_string "cmd".
Definition s_dir := bytes_of_string "dir".
Definition s_wait := bytes_of_string "wait".
Definition EQUALS : byte := Byte.x3d.

(** [Task], with the two arrays that follow it in its slot: [buf], into which its
    strings point (by their offset), and [vars]. *)
Record Task := mkTask {
  t_buf_loc : Z;
  t_var_count : Z;
  t_cmd : option Z;
  t_dir : option Z;
  t_wait : option Z;
  t_name : option Z;
  t_buf : list byte;
  t_vars : list (option Z);
}.

(** A slot of zeros. *)
Definition zero_task (buf_size var_max : Z) : Task :=
  mkTask 0 0 None None None None (zeros buf_size) (replicate (Z.to_nat var_max) None).

Definition set_task_buf (b : list byte) (loc : Z) (t : Task) : Task :=
  mkTask loc (t_var_count t) (t_cmd t) (t_dir t) (t_wait t) (t_name t) b (t_vars t).
Definition set_cmd (p : option Z) (t : Task) : Task :=
  mkTask (t_buf_loc t) (t_var_count t) p (t_dir t) (t_wait t) (t_name t) (t_buf t) (t_vars t).
Definition set_dir (p : option Z) (t : Task) : Task :=
  mkTask (t_buf_loc t) (t_var_count t) (t_cmd t) p (t_wait t) (t_name t) (t_buf t) (t_vars t).
Definition set_wait (p : option Z) (t : Task) : Task :=
  mkTask (t_buf_loc t) (t_var_count t) (t_cmd t) (t_dir t) p (t_name t) (t_buf t) (t_vars t).
Definition set_name (p : option Z) (t : Task) : Task :=
  mkTask (t_buf_loc t) (t_var_count t) (t_cmd t) (t_dir t) (t_wait t) p (t_buf t) (t_vars t).
Definition set_vars (l : list (option Z)) (n : Z) (t : Task) : Task :=
  mkTask (t_buf_loc t) n (t_cmd t) (t_dir t) (t_wait t) (t_name t) (t_buf t) l.

(** Returns the pointer to what was written. *)
Definition task_write (t : Task) (value : list byte) (end_char : byte) : res (Z * Task) :=
  let ptr := t_buf_loc t in
  b ← memcpy (t_buf t) ptr value;
  b ← wr b (ptr + zlen value) end_char;
  Ok (ptr, set_task_buf b (ptr + (zlen value + 1)) t).

Definition workspace_task_get (t : Task) (section name value : list byte) : res Task :=
  p ← of_option NullDeref (t_name t);
  task_name ← cstr (t_buf t) p;
  if str_eq section task_name then
    t ← (if str_eq name s_cmd then Ok (set_cmd (Some (t_buf_loc t)) t)
         else if str_eq name s_dir then Ok (set_dir (Some (t_buf_loc t)) t)
         else if str_eq name s_wait then Ok (set_wait (Some (t_buf_loc t)) t)
         else
           '(q, t) ← task_write t name EQUALS;
           vars ← wr (t_vars t) (t_var_count t) (Some q);
           Ok (set_vars vars (t_var_count t + 1) t));
    '(_, t) ← task_write t value NUL;
    Ok t
  else Ok t.

(** The loop of [get_task] over the variables of the client, from index [e]. *)
Fixpoint add_envs (e : Z) (envs : list (list byte)) (t : Task) : res Task :=
  match envs with
  | [] => Ok t
  | env :: envs =>
      '(q, t) ← task_write t env NUL;
      vars ← wr (t_vars t) (e + t_var_count t) (Some q);
      add_envs (e + 1) envs (set_vars vars (t_var_count t) t)
  end.

(** ** What a task says *)

Record atask := mkATask {
  at_name : list byte;
  at_cmd : option (list byte);
  at_dir : option (list byte);
  at_wait : option (list byte);
  at_vars : list (list byte);
}.

(** An entry [k = v] of section [sec]: of the task's own section, the three
    reserved keys set a field, any other is a variable. *)
Definition at_entry (a : atask) (c : call) : atask :=
  let '(sec, k, v) := c in
  if decide (sec = at_name a) then
    if decide (k = s_cmd) then mkATask (at_name a) (Some v) (at_dir a) (at_wait a) (at_vars a)
    else if decide (k = s_dir) then mkATask (at_name a) (at_cmd a) (Some v) (at_wait a) (at_vars a)
    else if decide (k = s_wait) then mkATask (at_name a) (at_cmd a) (at_dir a) (Some v) (at_vars a)
    else mkATask (at_name a) (at_cmd a) (at_dir a) (at_wait a) (at_vars a ++ [k ++ [EQUALS] ++ v])
  else a.

Definition at_env (a : atask) (env : list byte) : atask :=
  mkATask (at_name a) (at_cmd a) (at_dir a) (at_wait a) (at_vars a ++ [env]).

Definition reserved (k : list byte) : bool :=
  bool_decide (k = s_cmd) || bool_decide (k = s_dir) || bool_decide (k = s_wait).

(** The bytes of [buf] and the places of [vars] an entry takes. *)
Definition entry_bytes (name : list byte) (c : call) : Z :=
  if decide (c.1.1 = name) then
    (if reserved c.1.2 then 0 else zlen c.1.2 + 1) + (zlen c.2 + 1)
  else 0.
Definition entry_vars (name : list byte) (c : call) : Z :=
  if decide (c.1.1 = name) then (if reserved c.1.2 then 0 else 1) else 0.
Definition sumZ (l : list Z) : Z := foldr Z.add 0 l.

(** A string that lies in the used part of [buf]. *)
Definition str_at (t : Task) (p : Z) (s : list byte) : Prop :=
  cstr (t_buf t) p = Ok s ∧ p + zlen s + 1 ≤ t_buf_loc t.
Definition opt_at (t : Task) (o : option Z) (s : option (list byte)) : Prop :=
  match o, s with
  | None, None => True
  | Some p, Some s => str_at t p s
  | _, _ => False
  end.

(** [vars] holds the strings [vs] and NULLs behind them. *)
Definition vars_at (t : Task) (vs : list (list byte)) : Prop :=
  ∃ ps k, t_vars t = map Some ps ++ replicate k None ∧ Forall2 (str_at t) ps vs.

Record task_is (size max : Z) (t : Task) (a : atask) : Prop := {
  ti_size : zlen (t_buf t) = size;
  ti_loc : 0 ≤ t_buf_loc t ≤ size;
  ti_name : opt_at t (t_name t) (Some (at_name a));
  ti_cmd : opt_at t (t_cmd t) (at_cmd a);
  ti_dir : opt_at t (t_dir t) (at_dir a);
  ti_wait : opt_at t (t_wait t) (at_wait a);
  ti_vars : vars_at t (at_vars a);
  ti_max : zlen (t_vars t) = max;
}.

(** *** Writing behind the used part *)

(** What [task_write] gives, without its pointer. *)
Definition written (t : Task) (x : list byte) : Task :=
  set_task_buf (upd (t_buf t) (t_buf_loc t) x) (t_buf_loc t + zlen x) t.

Lemma task_write_ok t v c :
  0 ≤ t_buf_loc t → t_buf_loc t + zlen v + 1 ≤ zlen (t_buf t) →
  task_write t v c = Ok (t_buf_loc t, written t (v ++ [c])).
Proof.
  intros H0 H1. pose proof (zlen_nonneg v). unfold task_write, written.
  rewrite memcpy_ok by lia. cbn [mbind res_bind].
  rewrite wr_ok by (rewrite zlen_upd by lia; lia). cbn [mbind res_bind].
  rewrite upd_upd_app by (rewrite ?zlen_cons, ?zlen_nil; lia). rewrite zlen_app, zlen_cons, zlen_nil. done.
Qed.

Lemma task_write_overflow t v c :
  0 ≤ t_buf_loc t → zlen (t_buf t) < t_buf_loc t + zlen v + 1 → task_write t v c = Fault OutOfBounds.
Proof.
  intros H0 H1. pose proof (zlen_nonneg v). unfold task_write.
  destruct (decide (t_buf_loc t + zlen v ≤ zlen (t_buf t))).
  - rewrite memcpy_ok by lia. cbn [mbind res_bind]. by rewrite wr_oob by (rewrite zlen_upd by lia; lia).
  - by rewrite memcpy_oob by lia.
Qed.

Lemma str_at_written t x p s :
  0 ≤ t_buf_loc t → t_buf_loc t + zlen x ≤ zlen (t_buf t) → str_at t p s → str_at (written t x) p s.
Proof.
  intros H0 H1 [Hs Hl]. pose proof (zlen_nonneg x). split; cbn; [|lia].
  apply cstr_upd_other; [done|lia|done|lia].
Qed.

Lemma str_at_new t x :
  0 ≤ t_buf_loc t → t_buf_loc t + zlen x + 1 ≤ zlen (t_buf t) → no_nul x →
  str_at (written t (x ++ [NUL])) (t_buf_loc t) x.
Proof.
  intros H0 H1 Hx. split; cbn; [by apply cstr_upd_same|]. rewrite zlen_app, zlen_cons, zlen_nil. lia.
Qed.

Lemma written_twice t x y :
  0 ≤ t_buf_loc t → t_buf_loc t + zlen x + zlen y ≤ zlen (t_buf t) →
  written (written t x) y = written t (x ++ y).
Proof.
  intros H0 H1. unfold written, set_task_buf. cbn. rewrite upd_upd_app by lia.
  by rewrite zlen_app, Z.add_assoc.
Qed.

Section Written.
Context (size max : Z) (t : Task) (a : atask) (x : list byte).
Hypothesis Ht : task_is size max t a.
Hypothesis Hfit : t_buf_loc t + zlen x ≤ size.

Lemma opt_written o s : opt_at t o s → opt_at (written t x) o s.
Proof.
  destruct Ht. destruct o, s; try done. cbn. intros. apply str_at_written; [lia|lia|done].
Qed.

Lemma vars_written vs : vars_at t vs → vars_at (written t x) vs.
Proof.
  intros (ps & k & E & Hf). exists ps, k. split; [done|]. eapply Forall2_impl; [exact Hf|].
  intros p s. destruct Ht. apply str_at_written; lia.
Qed.

Lemma task_is_written : task_is size max (written t x) a.
Proof.
  pose proof (zlen_nonneg x).
  destruct Ht as [H1 H2 H3 H4 H5 H6 H7 H8]. split; try (by apply opt_written); try done.
  - cbn. rewrite zlen_upd; lia.
  - cbn. lia.
  - by apply vars_written.
Qed.
End Written.

Lemma vars_push t vs n q v max :
  vars_at t vs → zlen (t_vars t) = max → zlen vs < max → str_at t q v →
  ∃ l, wr (t_vars t) (zlen vs) (Some q) = Ok l ∧ vars_at (set_vars l n t) (vs ++ [v]) ∧ zlen l = max.
Proof.
  intros (ps & k & E & Hf) Hmax Hlt Hq. pose proof (Forall2_length _ _ _ Hf) as Hlen.
  pose proof (zlen_nonneg vs). rewrite wr_ok by lia. eexists. split; [done|].
  assert (Hz : zlen (upd (t_vars t) (zlen vs) [Some q]) = max).
  { rewrite zlen_upd; [done|lia|rewrite zlen_cons, zlen_nil; lia]. }
  split; [|done]. destruct k as [|k].
  { rewrite E in Hmax. cbn in Hmax. rewrite app_nil_r in Hmax. unfold zlen in *. rewrite length_map in Hmax. lia. }
  exists (ps ++ [q]), k. split.
  - cbn. rewrite upd_single by lia. rewrite E.
    replace (Z.to_nat (zlen vs)) with (length (map Some ps) + 0)%nat by (rewrite length_map; unfold zlen; lia).
    rewrite insert_app_r. cbn. rewrite map_app, <- app_assoc. done.
  - apply Forall2_app; [exact Hf|]. by constructor.
Qed.

(** [task_is] only looks at [t_var_count] through its other fields. *)
Lemma task_is_vars size max t a l n vs :
  task_is size max t a → vars_at (set_vars l n t) vs → zlen l = max →
  task_is size max (set_vars l n t) (mkATask (at_name a) (at_cmd a) (at_dir a) (at_wait a) vs).
Proof. intros [] Hv Hl. by split. Qed.

(** One of the reserved keys: the field, then the value behind the used part. *)
Lemma write_reserved size max t a v (f : option Z → Task → Task) :
  task_is size max t a → no_nul v → t_buf_loc t + (0 + (zlen v + 1)) ≤ size →
  (∀ o, t_buf (f o t) = t_buf t ∧ t_buf_loc (f o t) = t_buf_loc t) →
  (∀ o b l, set_task_buf b l (f o t) = f o (set_task_buf b l t)) →
  task_write (f (Some (t_buf_loc t)) t) v NUL = Ok (t_buf_loc t, f (Some (t_buf_loc t)) (written t (v ++ [NUL]))) ∧
  task_is size max (written t (v ++ [NUL])) a ∧ str_at (written t (v ++ [NUL])) (t_buf_loc t) v ∧
  t_buf_loc (written t (v ++ [NUL])) = t_buf_loc t + (0 + (zlen v + 1)).
Proof.
  intros Ht Hv Hf Hk1 Hk2. pose proof Ht as [H1 H2 _ _ _ _ _ _]. pose proof (zlen_nonneg v).
  destruct (Hk1 (Some (t_buf_loc t))) as [E1 E2]. split_and!.
  - rewrite task_write_ok by (rewrite ?E1, ?E2; lia). unfold written. by rewrite E1, E2, Hk2.
  - apply (task_is_written size max); [done|]. rewrite zlen_app, zlen_cons, zlen_nil. lia.
  - apply str_at_new; [lia|lia|done].
  - cbn. rewrite zlen_app, zlen_cons, zlen_nil. lia.
Qed.

(** Any other key: the variable "key=value" and its place in the array. *)
Lemma write_variable size max t a k v :
  task_is size max t a → t_var_count t = zlen (at_vars a) → no_nul k → no_nul v →
  t_buf_loc t + (zlen k + 1 + (zlen v + 1)) ≤ size → zlen (at_vars a) + 1 ≤ max →
  ∃ t',
    (t ← ('(q, t) ← task_write t k EQUALS;
          vars ← wr (t_vars t) (t_var_count t) (Some q);
          Ok (set_vars vars (t_var_count t + 1) t));
     '(_, t) ← task_write t v NUL;
     Ok t) = Ok t' ∧
    task_is size max t' (mkATask (at_name a) (at_cmd a) (at_dir a) (at_wait a) (at_vars a ++ [k ++ [EQUALS] ++ v])) ∧
    t_buf_loc t' = t_buf_loc t + (zlen k + 1 + (zlen v + 1)) ∧
    t_var_count t' = zlen (at_vars a ++ [k ++ [EQUALS] ++ v]).
Proof.
  intros Ht Hn Hk Hv Hb Hvs. pose proof Ht as [H1 H2 _ _ _ _ _ H8]. pose proof (zlen_nonneg v). pose proof (zlen_nonneg k).
  rewrite task_write_ok by lia. cbn [mbind res_bind].
  set (x := k ++ [EQUALS] ++ v).
  assert (Hx : zlen x = zlen k + 1 + zlen v) by (unfold x; rewrite !zlen_app, zlen_cons, zlen_nil; lia).
  assert (Hxn : no_nul x).
  { unfold x. rewrite !no_nul_app. split_and!; [done|decided|done]. }
  set (t' := written t (x ++ [NUL])).
  assert (Ht' : task_is size max t' a).
  { apply (task_is_written size max); [done|]. rewrite zlen_app, zlen_cons, zlen_nil. lia. }
  destruct (vars_push t' (at_vars a) (zlen (at_vars a) + 1) (t_buf_loc t) x max) as (l & El & Hl & Hlmax);
    [apply Ht'|apply Ht'|lia|apply str_at_new; [lia|lia|done]|].
  change (t_vars t') with (t_vars t) in El. change (t_vars (written t (k ++ [EQUALS]))) with (t_vars t).
  change (t_var_count (written t (k ++ [EQUALS]))) with (t_var_count t). rewrite Hn, El. cbn [mbind res_bind].
  assert (Hwk : zlen (t_buf (written t (k ++ [EQUALS]))) = zlen (t_buf t)).
  { cbn. rewrite zlen_upd; [done|lia|rewrite zlen_app, zlen_cons, zlen_nil; lia]. }
  rewrite task_write_ok; cbn [t_buf_loc t_buf set_vars].
  2: { cbn. rewrite zlen_app, zlen_cons, zlen_nil. lia. }
  2: { rewrite Hwk. cbn. rewrite zlen_app, zlen_cons, zlen_nil. lia. }
  cbn [mbind res_bind].
  change (written (set_vars l (zlen (at_vars a) + 1) (written t (k ++ [EQUALS]))) (v ++ [NUL]))
    with (set_vars l (zlen (at_vars a) + 1) (written (written t (k ++ [EQUALS])) (v ++ [NUL]))).
  rewrite written_twice by (rewrite ?zlen_app, ?zlen_cons, ?zlen_nil; lia).
  replace ((k ++ [EQUALS]) ++ v ++ [NUL]) with (x ++ [NUL]) by (unfold x; by rewrite <- !app_assoc).
  fold t'. eexists. split; [done|]. split; [by apply task_is_vars|]. split.
  - cbn. rewrite zlen_app, zlen_cons, zlen_nil. lia.
  - cbn. rewrite zlen_app, zlen_cons, zlen_nil. lia.
Qed.

Lemma workspace_task_get_spec size max t a sec k v :
  task_is size max t a → t_var_count t = zlen (at_vars a) →
  no_nul sec → no_nul k → no_nul v →
  t_buf_loc t + entry_bytes (at_name a) (sec, k, v) ≤ size →
  zlen (at_vars a) + entry_vars (at_name a) (sec, k, v) ≤ max →
  ∃ t', workspace_task_get t sec k v = Ok t' ∧ task_is size max t' (at_entry a (sec, k, v)) ∧
    t_buf_loc t' = t_buf_loc t + entry_bytes (at_name a) (sec, k, v) ∧
    t_var_count t' = zlen (at_vars (at_entry a (sec, k, v))).
Proof.
  intros Ht Hn Hsec Hk Hv Hb Hvs. pose proof Ht as [H1 H2 H3 H4 H5 H6 H7 H8].
  destruct (t_name t) as [p|] eqn:En; [|done]. destruct H3 as [Hname _].
  pose proof (cstr_no_nul _ _ _ Hname) as Hnn.
  unfold workspace_task_get, entry_bytes, entry_vars, at_entry, reserved in *. rewrite En. cbn [of_option mbind res_bind].
  rewrite Hname. cbn [mbind res_bind fst snd] in *. rewrite str_eq_spec by done.
  destruct (decide (sec = at_name a)) as [Hs|Hs].
  2: { rewrite bool_decide_eq_false_2 by done. exists t. rewrite Z.add_0_r. done. }
  rewrite bool_decide_eq_true_2 by done. rewrite !str_eq_spec by (done || decided).
  destruct (decide (k = s_cmd)) as [Hc|Hc].
  { rewrite (bool_decide_eq_true_2 (k = s_cmd)) in * by done. cbn [orb] in *.
    destruct (write_reserved size max t a v set_cmd) as (E & Ht' & Hstr & Hl); [done..|]. cbn [mbind res_bind]. rewrite E.
    eexists. split; [done|]. split; [destruct Ht'; by split|]. by split. }
  destruct (decide (k = s_dir)) as [Hd|Hd].
  { rewrite (bool_decide_eq_false_2 (k = s_cmd)), (bool_decide_eq_true_2 (k = s_dir)) in * by done. cbn [orb] in *.
    destruct (write_reserved size max t a v set_dir) as (E & Ht' & Hstr & Hl); [done..|]. cbn [mbind res_bind]. rewrite E.
    eexists. split; [done|]. split; [destruct Ht'; by split|]. by split. }
  destruct (decide (k = s_wait)) as [Hw|Hw].
  { rewrite (bool_decide_eq_false_2 (k = s_cmd)), (bool_decide_eq_false_2 (k = s_dir)),
      (bool_decide_eq_true_2 (k = s_wait)) in * by done. cbn [orb] in *.
    destruct (write_reserved size max t a v set_wait) as (E & Ht' & Hstr & Hl); [done..|]. cbn [mbind res_bind]. rewrite E.
    eexists. split; [done|]. split; [destruct Ht'; by split|]. by split. }
  rewrite (bool_decide_eq_false_2 (k = s_cmd)), (bool_decide_eq_false_2 (k = s_dir)),
    (bool_decide_eq_false_2 (k = s_wait)) in * by done. cbn [orb] in *. by apply write_variable.
Qed.

(** *** All the entries of a file, then the variables of the client *)

Definition no_nul_call (c : call) : Prop := no_nul c.1.1 ∧ no_nul c.1.2 ∧ no_nul c.2.

Lemma at_entry_name a c : at_name (at_entry a c) = at_name a.
Proof. destruct c as [[sec k] v]. cbn. by repeat case_decide. Qed.

Lemma entry_nonneg name c : 0 ≤ entry_bytes name c ∧ 0 ≤ entry_vars name c.
Proof.
  unfold entry_bytes, entry_vars. pose proof (zlen_nonneg c.1.2). pose proof (zlen_nonneg c.2).
  case_decide; [|lia]. destruct (reserved c.1.2); lia.
Qed.

Lemma at_entry_count a c : zlen (at_vars (at_entry a c)) = zlen (at_vars a) + entry_vars (at_name a) c.
Proof.
  destruct c as [[sec k] v]. unfold entry_vars, reserved. cbn. case_decide; [|lia].
  repeat case_decide; repeat case_bool_decide; try done; cbn; rewrite ?zlen_app, ?zlen_cons, ?zlen_nil; lia.
Qed.

Lemma at_entries_count a cs :
  zlen (at_vars (foldl at_entry a cs)) = zlen (at_vars a) + sumZ (map (entry_vars (at_name a)) cs).
Proof.
  revert a. induction cs as [|c cs IH]; intros a; cbn; [lia|]. rewrite IH, at_entry_count, at_entry_name.
  unfold sumZ. cbn [map foldr]. lia.
Qed.

Lemma sumZ_nonneg l : Forall (λ z, 0 ≤ z) l → 0 ≤ sumZ l.
Proof. unfold sumZ. induction 1; cbn [foldr]; lia. Qed.

Lemma load_entries size max cs t a :
  task_is size max t a → t_var_count t = zlen (at_vars a) → Forall no_nul_call cs →
  t_buf_loc t + sumZ (map (entry_bytes (at_name a)) cs) ≤ size →
  zlen (at_vars a) + sumZ (map (entry_vars (at_name a)) cs) ≤ max →
  ∃ t', deliver_all workspace_task_get t cs = Ok t' ∧ task_is size max t' (foldl at_entry a cs) ∧
    t_buf_loc t' = t_buf_loc t + sumZ (map (entry_bytes (at_name a)) cs) ∧
    t_var_count t' = zlen (at_vars (foldl at_entry a cs)).
Proof.
  intros Ht Hn Hcs. revert t a Ht Hn. induction Hcs as [|c cs Hc _ IH]; intros t a Ht Hn Hb Hv.
  { exists t. cbn in *. rewrite Z.add_0_r. done. }
  destruct c as [[sec k] v], Hc as (Hc1 & Hc2 & Hc3). cbn [map sumZ foldr fst snd] in *.
  fold (sumZ (map (entry_bytes (at_name a)) cs)) in *. fold (sumZ (map (entry_vars (at_name a)) cs)) in *.
  assert (0 ≤ sumZ (map (entry_bytes (at_name a)) cs) ∧ 0 ≤ sumZ (map (entry_vars (at_name a)) cs)) as [? ?].
  { split; apply sumZ_nonneg, Forall_map, Forall_true; intros c; cbn; apply entry_nonneg. }
  destruct (workspace_task_get_spec size max t a sec k v) as (t1 & E & Ht1 & Hl1 & Hn1); [done..|lia|lia|].
  cbn [deliver_all]. unfold deliver. cbn [fst snd]. rewrite E. cbn [mbind res_bind].
  pose proof (at_entry_count a (sec, k, v)).
  destruct (IH t1 (at_entry a (sec, k, v)) Ht1 Hn1) as (t' & E' & Ht' & Hl' & Hn'); rewrite ?at_entry_name; [lia|lia|].
  rewrite at_entry_name in Hl'. exists t'. split_and!; [done|done|lia|done].
Qed.

Lemma add_envs_spec size max envs t a e :
  task_is size max t a → 0 ≤ e → e + t_var_count t = zlen (at_vars a) → Forall no_nul envs →
  t_buf_loc t + sumZ (map (λ v, zlen v + 1) envs) ≤ size → zlen (at_vars a) + zlen envs ≤ max →
  ∃ t', add_envs e envs t = Ok t' ∧ task_is size max t' (foldl at_env a envs).
Proof.
  intros Ht He Hn Henv. revert t a e Ht He Hn. induction Henv as [|env envs Hc _ IH]; intros t a e Ht He Hn Hb Hv.
  { by exists t. }
  cbn [map sumZ foldr] in Hb. fold (sumZ (map (λ v : list byte, zlen v + 1) envs)) in Hb. rewrite zlen_cons in Hv.
  pose proof (zlen_nonneg envs). pose proof (zlen_nonneg env). pose proof Ht as [H1 H2 _ _ _ _ _ _].
  assert (0 ≤ sumZ (map (λ v : list byte, zlen v + 1) envs)).
  { apply sumZ_nonneg, Forall_map, Forall_true. intros v. cbn. pose proof (zlen_nonneg v). lia. }
  cbn [add_envs]. rewrite task_write_ok by lia. cbn [mbind res_bind].
  assert (Ht' : task_is size max (written t (env ++ [NUL])) a).
  { apply (task_is_written size max); [done|]. rewrite zlen_app, zlen_cons, zlen_nil. lia. }
  destruct (vars_push (written t (env ++ [NUL])) (at_vars a) (t_var_count t) (t_buf_loc t) env max) as (l & El & Hl & Hlmax);
    [apply Ht'|apply Ht'|lia|apply str_at_new; [lia|lia|done]|].
  change (t_var_count (written t (env ++ [NUL]))) with (t_var_count t). rewrite Hn, El. cbn [mbind res_bind].
  apply (IH _ (at_env a env)).
  - by apply task_is_vars.
  - lia.
  - cbn. rewrite zlen_app, zlen_cons, zlen_nil. lia.
  - cbn. rewrite zlen_app, zlen_cons, zlen_nil. lia.
  - cbn. rewrite zlen_app, zlen_cons, zlen_nil. lia.
Qed.

(** *** The strings of a file *)

Definition line_strings (ln : aline) : list (list byte) :=
  match ln with
  | LBlank | LComment => []
  | LSection n => [n]
  | LEntry k v => [k; v]
  | LCont text => [text]
  end.
Definition state_strings (s : astate) : list (list byte) :=
  s.1 :: match s.2 with Some (k, v) => [k; v] | None => [] end.

Lemma no_nul_nil : no_nul [].
Proof. apply not_elem_of_nil. Qed.

Lemma renders_no_nul ln w : renders ln w → Forall no_nul (line_strings ln).
Proof. destruct 1; cbn; auto using clean_no_nul, no_nul_nil. Qed.

Lemma pending_no_nul s : Forall no_nul (state_strings s) → Forall no_nul_call (pending_calls s).
Proof.
  destruct s as [sec [[k v]|]]; cbn; [|by constructor].
  intros (H1 & (H2 & (H3 & _)%Forall_cons)%Forall_cons)%Forall_cons. by repeat constructor.
Qed.

Lemma astep_no_nul s ln :
  Forall no_nul (state_strings s) → Forall no_nul (line_strings ln) →
  Forall no_nul_call (astep s ln).1 ∧ Forall no_nul (state_strings (astep s ln).2).
Proof.
  intros Hs Hl. pose proof (pending_no_nul s Hs) as Hp. pose proof Hs as [H1 H2]%Forall_cons.
  destruct ln as [| |n|k v|text].
  - destruct s. split; [done|]. by constructor.
  - by destruct s.
  - apply Forall_cons in Hl as [Hl _]. destruct s. split; [done|]. by constructor.
  - destruct s. split; [done|]. by constructor.
  - destruct s as [sec [[k v]|]]; cbn in *; [|by split]. split; [done|].
    apply Forall_cons in H2 as [Hk [Hv _]%Forall_cons]. apply Forall_cons in Hl as [Ht _].
    repeat constructor; try done. unfold join_line, glue. rewrite !no_nul_app. split_and!; [done| |done].
    destruct (_ >? 0); [apply no_nul_nl|apply no_nul_nil].
Qed.

Lemma aparse_no_nul s lines :
  Forall no_nul (state_strings s) → Forall (λ ln, Forall no_nul (line_strings ln)) lines →
  Forall no_nul_call (aparse s lines).
Proof.
  intros Hs Hl. revert s Hs. induction Hl as [|ln lines H _ IH]; intros s Hs; cbn [aparse]; [by apply pending_no_nul|].
  destruct (astep_no_nul s ln Hs H) as [H1 H2]. destruct (astep s ln) as [cs s']. apply Forall_app. split; [done|by apply IH].
Qed.

Lemma file_no_nul lines content : file_of lines content → Forall no_nul_call (aparse ([], None) lines).
Proof.
  intros (ws & Hsp & _). apply aparse_no_nul; [repeat constructor; apply no_nul_nil|].
  induction Hsp as [|ln w lines ws [Hr _] _ IH]; constructor; [by eapply renders_no_nul|done].
Qed.
