(* ===== verification/Server.v ===== *)
(** The agent (src/server.h): it accepts clients, evaluates their messages, launches
    tasks as child processes, queues tasks that wait for another, and collects
    finished children.

    The client stack and the two stores appear by their contracts: a bounded list
    of sockets ([stack_refines_bounded_list]) and tables of optional items
    ([store_refines_slots]).  Log messages are left out, except the text of a
    child's output. *)

From S2P Require Import Prelude CString Memory Store Protocol Os Config Net Client Ini Task.
From S2P Require Stack.

Record TaskProcess := mkProcess {
  p_start_time : Z;
  p_pid : Z;
  p_task_name : list byte;   (* the array behind the struct *)
  p_out_fd_r : Z;
  p_err_fd_r : Z;
}.

Definition zero_process (name_size : Z) : TaskProcess := mkProcess 0 0 (zeros name_size) 0 0.

Record ClientPacket := mkPacket { pk_socket : Z; pk_client : Z; pk_len : Z; pk_data : addr }.

Record Server := mkServer {
  sv_running : bool;
  sv_conn : Connection;
  sv_workspace : list byte;
  sv_stream : ProtocolTokenStream;
  sv_clients : list Z;
  sv_processes : slots TaskProcess;
  sv_tasks : slots Task;
}.

Definition set_conn (c : Connection) (s : Server) : Server :=
  mkServer (sv_running s) c (sv_workspace s) (sv_stream s) (sv_clients s) (sv_processes s) (sv_tasks s).
Definition set_workspace (b : list byte) (s : Server) : Server :=
  mkServer (sv_running s) (sv_conn s) b (sv_stream s) (sv_clients s) (sv_processes s) (sv_tasks s).
Definition set_stream (ts : ProtocolTokenStream) (s : Server) : Server :=
  mkServer (sv_running s) (sv_conn s) (sv_workspace s) ts (sv_clients s) (sv_processes s) (sv_tasks s).
Definition set_clients (l : list Z) (s : Server) : Server :=
  mkServer (sv_running s) (sv_conn s) (sv_workspace s) (sv_stream s) l (sv_processes s) (sv_tasks s).
Definition set_processes (l : slots TaskProcess) (s : Server) : Server :=
  mkServer (sv_running s) (sv_conn s) (sv_workspace s) (sv_stream s) (sv_clients s) l (sv_tasks s).
Definition set_tasks (l : slots Task) (s : Server) : Server :=
  mkServer (sv_running s) (sv_conn s) (sv_workspace s) (sv_stream s) (sv_clients s) (sv_processes s) l.

(** [stack_remove_at_fast] on the client stack. *)
Definition remove_client (i : Z) (l : list Z) : list Z :=
  if (0 <=? i) && (i <? zlen l) then Stack.swap_remove (Z.to_nat i) l else l.

(** [set_sock_desc]: the flags and the maximum. *)
Definition set_sock_desc (sock_desc : Z) (acc : Z * gset Z) : res (Z * gset Z) :=
  let '(max_sock_desc, flags) := acc in
  flags ← (if sock_desc >? 0 then FD_SET sock_desc flags else Ok flags);
  Ok (if sock_desc >? max_sock_desc then sock_desc else max_sock_desc, flags).

(** [for (i = n - 1; i >= 0; i--)] over a step that may fail. *)
Fixpoint count_down {A} (n : nat) (f : Z → A → res A) (a : A) : res A :=
  match n with O => Ok a | S i => a ← f (Z.of_nat i) a; count_down i f a end.

(** The environment of [execve]: the variables up to the first NULL. *)
Fixpoint exec_env (buf : list byte) (vars : list (option Z)) : res (list (list byte)) :=
  match vars with
  | [] => Fault OutOfBounds
  | None :: _ => Ok []
  | Some p :: vars => s ← cstr buf p; rest ← exec_env buf vars; Ok (s :: rest)
  end.

Definition opt_str (buf : list byte) (p : option Z) : res (option (list byte)) :=
  match p with None => Ok None | Some p => s ← cstr buf p; Ok (Some s) end.

(** Whether a process runs under the name; the loop of [server_task_wait_match]. *)
Fixpoint wait_loop (n : nat) (processes : slots TaskProcess) (wait : list byte) : res Z :=
  match n with
  | O => Ok 0
  | S i =>
      match sl_get processes (Z.of_nat i) with
      | None => wait_loop i processes wait
      | Some process =>
          name ← cstr (p_task_name process) 0;
          if str_eq name wait then Ok 1 else wait_loop i processes wait
      end
  end.

Definition capacity {A} (t : slots A) : nat := length (sl_cells t).
Definition open_cnt {A} (t : slots A) : Z := zlen (sl_free t).

Section Server.
Context {W : Type} `{!Kernel W}.

Abbreviation SM := (ST (Server * world W)).

Definition on_world {A} (m : ST (world W) A) : SM A := λ '(s, w), '(a, w) ← m w; Ok (a, (s, w)).
Definition srv {A} (f : Server → A) : SM A := get (λ sw, f sw.1).
Definition upd_srv (f : Server → Server) : SM unit := modify (λ sw, (f sw.1, sw.2)).

(** A string in a local buffer, for the time of [k]. *)
Definition with_text {A} (text : list byte) (k : addr → SM A) : SM A :=
  m ← on_world (get w_mem);
  let b := fresh (dom m : gset positive) in
  _ ← on_world (modify (set_mem (<[b := text ++ [NUL]]> m)));
  a ← k (b, 0);
  _ ← on_world (modify (λ w, set_mem (delete b (w_mem w)) w));
  mret a.

(** ** Answers *)

Definition server_send (config : Config) (client_sock type : Z) (buf : addr) : SM Z :=
  ts ← srv sv_stream;
  ts ← lift (protocol_tokenstream_reset (set_ts_type type ts));
  ts ← lift (protocol_tokenstream_add_token ts PROTOCOL_TOKEN_ARG (Some buf));
  _ ← upd_srv (set_stream ts);
  conn ← srv sv_conn;
  on_world (send_stream client_sock (c_out_buf conn) (buffer_size (settings config)) ts).

Definition server_respond (config : Config) (packet : ClientPacket) (msg_type : Z) (msg : addr) : SM Z :=
  sent ← server_send config (pk_socket packet) msg_type msg;
  _ ← on_world (call_ret (Close (pk_socket packet)));
  _ ← upd_srv (λ s, set_clients (remove_client (pk_client packet) (sv_clients s)) s);
  if sent <? 1 then mret (-1) else mret sent.

Definition respond_text (config : Config) (packet : ClientPacket) (msg_type : Z) (msg : list byte) : SM Z :=
  with_text msg (server_respond config packet msg_type).

(** [SERVER_RESPOND_FMT] with a format of the shape "before '%s' after". *)
Definition respond_fmt (config : Config) (packet : ClientPacket) (msg_type : Z)
    (before : string) (arg : option addr) (after : string) : SM unit :=
  s ← (match arg with
       | Some p => on_world (with_mem (λ m, load_str m p))
       | None => mret (bytes_of_string "(null)")
       end);
  _ ← respond_text config packet msg_type
        (take (Z.to_nat (buffer_size (settings config) - 1))
           (bytes_of_string before ++ s ++ bytes_of_string after));
  mret tt.

(** ** Tasks *)

(** The status and the task as the callback left it. *)
Definition get_from_ws (task : Task) : SM (Z * Task) :=
  ws ← srv sv_workspace;
  path ← lift (cstr ws 0);
  fp ← on_world (call (Fopen path));
  if r_ret fp <? 0 then mret (-1, task)
  else
    '(status, task) ← lift (ini_parse workspace_task_get (Some (r_data fp)) task);
    _ ← on_world (call_ret (Close (r_ret fp)));
    mret (if decide (status = INI_OK) then 0 else -1, task).

(** Returns the key of the task's slot. *)
Definition get_task (config : Config) (task_name : option addr) (envs : list addr) : SM (option Z) :=
  match task_name with
  | None => mret None
  | Some p =>
      tasks ← srv sv_tasks;
      let '(key, tasks) := sl_push (zero_task (task_buf_size (settings config)) (task_var_max_count (settings config))) tasks in
      _ ← upd_srv (set_tasks tasks);
      match key with
      | None => mret None
      | Some key =>
          let put t := upd_srv (λ s, set_tasks (sl_update key (λ _, t) (sv_tasks s)) s) in
          let remove := upd_srv (λ s, set_tasks (sl_remove_at key (sv_tasks s)).2 s) in
          name ← on_world (with_mem (λ m, load_str m p));
          '(q, t) ← lift (task_write (zero_task (task_buf_size (settings config)) (task_var_max_count (settings config))) name NUL);
          '(status, t) ← get_from_ws (set_name (Some q) t);
          _ ← put t;
          if decide (status ≠ 0) then _ ← remove; mret None
          else
            match t_cmd t with
            | None => _ ← remove; mret None
            | Some _ =>
                envs ← on_world (with_mem (λ m, mapM (load_str m) envs));
                t ← lift (add_envs 0 envs t);
                _ ← put t;
                mret (Some key)
            end
      end
  end.

(** [pipe(fd) < 0 || socket_set_nonblock(fd[0]) != 0]: the pipe's ends, unless it failed. *)
Definition make_pipe : SM (option (Z * Z)) :=
  r ← on_world (call Pipe);
  if r_ret r <? 0 then mret None
  else
    match r_fds r with
    | rd :: wr :: _ =>
        nb ← on_world (socket_set_nonblock rd);
        if decide (nb ≠ 0) then mret None else mret (Some (rd, wr))
    | _ => mret None
    end.

(** [exit(errno)] *)
Definition exit_errno : SM (option Z) := code ← on_world (call_ret Errno); mret (Some code).

(** The child's side of [fork]: the calls it makes and the code it exits with; [None]
    when [execve] has succeeded, which does not return: the process runs another program. *)
Definition child_process (config : Config) (out_w err_w : Z) (task : Task) : SM (option Z) :=
  a ← on_world (call_ret (Dup2 out_w 1));
  if a <? 0 then exit_errno
  else
    b ← on_world (call_ret (Dup2 err_w 2));
    if b <? 0 then exit_errno
    else
      cmd ← lift (opt_str (t_buf task) (t_cmd task));
      dir ← lift (opt_str (t_buf task) (t_dir task));
      c ← (match dir with Some dir => on_world (call_ret (Chdir dir)) | None => mret 0 end);
      if decide (c ≠ 0) then exit_errno
      else
        env ← lift (exec_env (t_buf task) (t_vars task));
        let bin := cmd_bin_path (settings config) in
        let argv := bin :: bytes_of_string "-c" :: match cmd with Some cmd => [cmd] | None => [] end in
        e ← on_world (call_ret (Execve bin argv env));
        if e <? 0 then
          _ ← on_world (call_ret (Close out_w));
          _ ← on_world (call_ret (Close err_w));
          exit_errno
        else mret None.

Definition server_task_launch (config : Config) (new_task : Task) : SM Z :=
  processes ← srv sv_processes;
  if open_cnt processes <? 1 then mret (-1)
  else
    out_fd ← make_pipe;
    match out_fd with
    | None => mret (-1)
    | Some (out_r, out_w) =>
        err_fd ← make_pipe;
        match err_fd with
        | None => mret (-1)
        | Some (err_r, err_w) =>
            child_pid ← on_world (call_ret Fork);
            if child_pid <? 0 then mret (-1)
            else if decide (child_pid = 0) then
              code ← child_process config out_w err_w new_task;
              lift (Fault (match code with Some code => Exit code | None => Replaced end))
            else
              let '(key, processes) := sl_push (zero_process (task_name_size (settings config))) processes in
              _ ← upd_srv (set_processes processes);
              match key with
              | None => mret (-1)
              | Some key =>
                  now ← on_world (call_ret Time);
                  p ← lift (of_option NullDeref (t_name new_task));
                  name ← lift (cstr (t_buf new_task) p);
                  b ← lift (memcpy (zeros (task_name_size (settings config))) 0 name);
                  _ ← upd_srv (λ s, set_processes
                        (sl_update key (λ _, mkProcess now child_pid b out_r err_r) (sv_processes s)) s);
                  mret 0
              end
        end
    end.

Definition server_task_wait_match (task : Task) : SM Z :=
  wait ← lift (opt_str (t_buf task) (t_wait task));
  match wait with
  | None => mret 0
  | Some wait =>
      processes ← srv sv_processes;
      lift (wait_loop (capacity processes) processes wait)
  end.

(** [task->wait == NULL || strncmp(task->wait, completed, name_len) == 0] *)
Definition released (completed : list byte) (name_len : nat) (task : Task) : res bool :=
  wait ← opt_str (t_buf task) (t_wait task);
  Ok (match wait with None => true | Some wait => bool_decide (strncmp wait completed name_len = 0) end).

(** The loop of [server_check_task_queue], over [n] slots from the last. *)
Fixpoint queue_loop (n : nat) (config : Config) (completed : list byte) (name_len : nat) : SM Z :=
  match n with
  | O => mret (-1)
  | S i =>
      tasks ← srv sv_tasks;
      match sl_get tasks (Z.of_nat i) with
      | None => queue_loop i config completed name_len
      | Some task =>
          go ← lift (released completed name_len task);
          if go : bool then
            status ← server_task_launch config task;
            if decide (status ≠ 0) then mret (-1)
            else
              _ ← upd_srv (λ s, set_tasks (sl_remove_at (Z.of_nat i) (sv_tasks s)).2 s);
              mret 0
          else queue_loop i config completed name_len
      end
  end.

Definition server_check_task_queue (config : Config) (completed : list byte) (name_len : nat) : SM Z :=
  processes ← srv sv_processes;
  if open_cnt processes <? 1 then mret (-1)
  else
    tasks ← srv sv_tasks;
    queue_loop (capacity tasks) config completed name_len.

(** ** Messages of clients *)

(** A NULL-terminated array as the list of its pointers. *)
Fixpoint until_null (l : list (option addr)) : res (list addr) :=
  match l with
  | [] => Fault OutOfBounds
  | None :: _ => Ok []
  | Some p :: l => ps ← until_null l; Ok (p :: ps)
  end.

Definition s_invalid := bytes_of_string "Invalid command".

(** The case [PROTOCOL_MSG_TASK_RUN]. *)
Definition eval_task_run (config : Config) (packet : ClientPacket) (arg0 : option addr) (envs : list addr) : SM Z :=
  res ← get_task config arg0 envs;
  match res with
  | None =>
      _ ← respond_fmt config packet PROTOCOL_MSG_ERR "Task '" arg0 "' not found";
      mret (-1)
  | Some key =>
      tasks ← srv sv_tasks;
      new_task ← lift (of_option NullDeref (sl_get tasks key));
      waits ← server_task_wait_match new_task;
      if decide (waits ≠ 0) then
        _ ← respond_fmt config packet PROTOCOL_MSG_SUCCESS "Task '" arg0 "' put in queue";
        mret 0
      else
        launch_status ← server_task_launch config new_task;
        if decide (launch_status ≠ 0) then
          _ ← respond_fmt config packet PROTOCOL_MSG_ERR "Failed to run task '" arg0 "'";
          mret (-1)
        else
          _ ← respond_fmt config packet PROTOCOL_MSG_SUCCESS "Task '" arg0 "' started succesfully";
          _ ← upd_srv (λ s, set_tasks (sl_remove_at key (sv_tasks s)).2 s);
          mret 0
  end.

(** The case [PROTOCOL_MSG_WORKSPACE_SET]; [access] of NULL fails. *)
Definition eval_workspace_set (config : Config) (packet : ClientPacket) (arg0 : option addr) : SM Z :=
  ok ← (match arg0 with
        | None => mret (-1)
        | Some p => path ← on_world (with_mem (λ m, load_str m p)); on_world (call_ret (Access path))
        end);
  if decide (ok ≠ 0) then
    _ ← respond_text config packet PROTOCOL_MSG_ERR (bytes_of_string "Workspace not found");
    mret (-1)
  else
    p ← lift (of_option NullDeref arg0);
    path ← on_world (with_mem (λ m, load_str m p));
    ws ← srv sv_workspace;
    ws ← lift (memcpy ws 0 (path ++ [NUL]));
    _ ← upd_srv (set_workspace ws);
    _ ← respond_fmt config packet PROTOCOL_MSG_SUCCESS "Workspace '" arg0 "' set as active";
    mret 0.

Definition server_eval_packet (config : Config) (packet : ClientPacket) : SM Z :=
  ts ← srv sv_stream;
  '(r, ts) ← on_world (with_mem (protocol_read (pk_data packet) (buffer_size (settings config)) ts));
  _ ← upd_srv (set_stream ts);
  if decide (r ≠ 0) then
    _ ← respond_text config packet PROTOCOL_MSG_ERR s_invalid; mret (-1)
  else
    let array := replicate (Z.to_nat (ts_length ts)) None in
    '(r, (_, args, vars)) ← lift (protocol_parse_token_stream ts array array);
    if decide (r ≠ 0) then
      _ ← respond_text config packet PROTOCOL_MSG_ERR s_invalid; mret (-1)
    else if decide (ts_type ts = PROTOCOL_MSG_TASK_RUN) then
      arg0 ← lift (rd args 0);
      envs ← lift (match arg0 with Some _ => until_null vars | None => Ok [] end);
      eval_task_run config packet arg0 envs
    else if decide (ts_type ts = PROTOCOL_MSG_WORKSPACE_SET) then
      arg0 ← lift (rd args 0);
      eval_workspace_set config packet arg0
    else
      _ ← respond_text config packet PROTOCOL_MSG_ERR s_invalid; mret 0.

(** ** Watching descriptors *)

(** [for (i = n - 1; i >= 0; i--)] over the state. *)
Definition for_down (n : nat) (step : Z → SM unit) : SM unit := λ s,
  s ← count_down n (λ i s, '(_, s) ← step i s; Ok s) s; Ok (tt, s).

(** Pops every client and closes its socket. *)
Definition server_cleanup : SM unit :=
  clients ← srv sv_clients;
  for_down (length clients) (λ _,
    clients ← srv sv_clients;
    sock ← lift (of_option NullDeref (last clients));
    _ ← upd_srv (set_clients (take (length clients - 1) clients));
    _ ← on_world (call_ret (Close sock));
    mret tt).

Definition server_check_activity (config : Config) : SM Z :=
  s ← srv id;
  let conn := sv_conn s in
  acc ← lift (count_down (length (sv_clients s))
          (λ i acc, sock ← rd (sv_clients s) i; set_sock_desc sock acc)
          (c_socket conn, c_read_flags conn));
  '(max_sock_desc, flags) ← lift (count_down (capacity (sv_processes s))
          (λ i acc,
            match sl_get (sv_processes s) i with
            | None => Ok acc
            | Some process => acc ← set_sock_desc (p_out_fd_r process) acc; set_sock_desc (p_err_fd_r process) acc
            end) acc);
  r ← on_world (call (Select (max_sock_desc + 1) (elements flags)));
  (* [select] leaves the ready descriptors in the set, or the set alone when it fails *)
  let flags := if r_ret r <? 0 then flags else flags ∩ list_to_set (r_fds r) in
  _ ← upd_srv (set_conn (set_read_flags flags conn));
  mret (r_ret r).

Definition server_handle_incoming (config : Config) : SM Z :=
  conn ← srv sv_conn;
  ready ← lift (FD_ISSET (c_socket conn) (c_read_flags conn));
  if ready : bool then
    new_socket ← on_world (call_ret (Accept (c_socket conn)));
    if new_socket <? 1 then mret (-1)
    else
      clients ← srv sv_clients;
      if zlen clients >=? max_clients (settings config) then
        _ ← on_world (call_ret (Close new_socket)); mret 0
      else
        nb ← on_world (socket_set_nonblock new_socket);
        if decide (nb ≠ 0) then mret (-1)
        else
          failed ← on_world (set_timeouts new_socket (sock_timeout_sec (settings config)));
          if failed : bool then mret (-1)
          else _ ← upd_srv (set_clients (clients ++ [new_socket])); mret 1
  else mret 0.

(** The log line of a child's output: the task's name and the text in [in_buf]. *)
Definition log_output (process : TaskProcess) (in_buf : addr) : SM unit :=
  name ← lift (cstr (p_task_name process) 0);
  out ← on_world (with_mem (λ m, load_str m in_buf));
  _ ← on_world (call (Print stdout (bytes_of_string "[" ++ name ++ bytes_of_string "] " ++ out)));
  mret tt.

Definition server_process_print (config : Config) (process : TaskProcess) : SM unit :=
  conn ← srv sv_conn;
  let size := buffer_size (settings config) in
  in_buf ← lift (of_option NullDeref (c_in_buf conn));
  _ ← on_world (clear_buf (Some in_buf) size);
  out_ready ← lift (FD_ISSET (p_out_fd_r process) (c_read_flags conn));
  _ ← (if out_ready : bool then
         value_read ← on_world (sys_read (p_out_fd_r process) in_buf size);
         if value_read >? 0 then
           _ ← log_output process in_buf;
           on_world (clear_buf (Some in_buf) value_read)
         else mret tt
       else mret tt);
  err_ready ← lift (FD_ISSET (p_err_fd_r process) (c_read_flags conn));
  if err_ready : bool then
    value_read ← on_world (sys_read (p_err_fd_r process) in_buf size);
    if value_read >? 0 then log_output process in_buf else mret tt
  else mret tt.

(** ** The run loop *)

(** One client of the loop over the client sockets. *)
Definition serve_client (config : Config) (i : Z) : SM unit :=
  clients ← srv sv_clients;
  sock_desc ← lift (rd clients i);
  if decide (sock_desc = 0) then upd_srv (set_clients (remove_client i clients))
  else
    conn ← srv sv_conn;
    ready ← lift (FD_ISSET sock_desc (c_read_flags conn));
    if ready : bool then
      in_buf ← lift (of_option NullDeref (c_in_buf conn));
      value_read ← on_world (sys_read sock_desc in_buf (buffer_size (settings config)));
      if value_read >? 0 then
        _ ← server_eval_packet config (mkPacket sock_desc i value_read in_buf); mret tt
      else if decide (value_read = 0) then
        _ ← upd_srv (set_clients (remove_client i clients));
        _ ← on_world (call_ret (Close sock_desc)); mret tt
      else mret tt
    else mret tt.

(** One process of the loop over the running processes. *)
Definition check_process (config : Config) (i : Z) : SM unit :=
  processes ← srv sv_processes;
  match sl_get processes i with
  | None => mret tt
  | Some process =>
      w_pid ← on_world (call_ret (Waitpid (p_pid process)));
      if decide (w_pid ≠ 0) then
        name_buf ← lift (cstr (p_task_name process) 0);
        _ ← (if w_pid >? 0 then on_world (call_ret Time) else mret 0);
        _ ← on_world (call_ret (Close (p_out_fd_r process)));
        _ ← on_world (call_ret (Close (p_err_fd_r process)));
        _ ← upd_srv (λ s, set_processes (sl_remove_at i (sv_processes s)).2 s);
        _ ← server_check_task_queue config name_buf (length name_buf);
        mret tt
      else server_process_print config process
  end.

Definition server_iteration (config : Config) : SM unit :=
  conn ← srv sv_conn;
  conn ← on_world (connection_init_set conn config);
  _ ← upd_srv (set_conn conn);
  _ ← server_check_activity config;
  _ ← server_handle_incoming config;
  clients ← srv sv_clients;
  _ ← for_down (length clients) (serve_client config);
  processes ← srv sv_processes;
  for_down (capacity processes) (check_process config).

(** [n] iterations of [while (server.running)]; nothing resets [running]. *)
Fixpoint server_loop (n : nat) (config : Config) : SM unit :=
  match n with
  | O => mret tt
  | S n' =>
      running ← srv sv_running;
      if running : bool then _ ← server_iteration config; server_loop n' config
      else server_cleanup
  end.

(** Sizes of the structs, and of the block behind a header. *)
Definition SIZEOF_TASKPROCESS : Z := 32.
Definition SIZEOF_TASK : Z := 56.
Definition SIZEOF_TOKENSTREAM : Z := 16.
Definition SIZEOF_TOKEN : Z := 16.
Definition process_item_size (st : Settings) : Z := SIZEOF_TASKPROCESS + task_name_size st.
Definition task_item_size (st : Settings) : Z :=
  SIZEOF_TASK + task_buf_size st + 8 * task_var_max_count st.
Definition store_bytes (capacity item_size : Z) : Z :=
  STORE_HEADER + SIZEOF_INT * capacity + (item_size + 1) * capacity.

(** What [run_as_server] has before its loop, or the code it returns. *)
Definition server_start (config : Config) : ST (world W) (Z + Server) :=
  let st := settings config in
  '(r, conn) ← connection_init config;
  if r <? 1 then mret (inl (-1))
  else
    workspace ← call (Malloc (workspace_buf_size st));
    stream ← call_ret (Malloc (SIZEOF_TOKENSTREAM + SIZEOF_TOKEN * protocol_token_count st));
    ts ← lift (protocol_tokenstream_alloc (bool_decide (stream ≠ 0)) 0 (protocol_token_count st));
    client_stack ← call_ret (Malloc (Stack.STACK_HEADER + 4 * max_clients st));
    process_store ← call_ret (Malloc (store_bytes (process_store_count st) (process_item_size st)));
    task_store ← call_ret (Malloc (store_bytes (task_store_count st) (task_item_size st)));
    match ts with
    | Some ts =>
        if decide (r_ret workspace = 0 ∨ client_stack = 0 ∨ process_store = 0 ∨ task_store = 0) then mret (inl (-1))
        else
          mret (inr (mkServer true conn
                       (take (Z.to_nat (workspace_buf_size st)) (r_data workspace ++ zeros (workspace_buf_size st)))
                       ts [] (sl_new (process_store_count st)) (sl_new (task_store_count st))))
    | None => mret (inl (-1))
    end.

(** The server and the world after [n] iterations, or the code it returned. *)
Definition run_as_server (n : nat) (config : Config) : ST (world W) (Z + Server) :=
  λ w,
    '(start, w) ← server_start config w;
    match start with
    | inl code => Ok (inl code, w)
    | inr server => '(_, (server, w)) ← server_loop n config (server, w); Ok (inr server, w)
    end.

End Server.
