(* ===== verification/ServerLogic.v ===== *)
(** Reasoning about the agent: postconditions of its operations, symbolic execution
    over them, and what each operation changes in the server's state. *)

From S2P Require Import Prelude CString Memory Store Protocol Os Config Net Client Ini IniFile Task Server.

(** ** Postconditions *)

(** When [m] returns from [sw], its value and the state it leaves satisfy [Q]. *)
Definition post {S A} (sw : S) (m : ST S A) (Q : A → S → Prop) : Prop :=
  ∀ a sw', m sw = Ok (a, sw') → Q a sw'.

Lemma post_ret {S A} (a : A) (sw : S) Q : Q a sw → post sw (mret a) Q.
Proof. by intros H ? ? [= <- <-]. Qed.

Lemma post_bind {S A B} (m : ST S A) (k : A → ST S B) sw Q :
  post sw m (λ a sw', post sw' (k a) Q) → post sw (m ≫= k) Q.
Proof. intros H b sw'' (a & sw' & Hm & Hk)%st_bind_inv. by eapply H. Qed.

Lemma post_mono {S A} (m : ST S A) sw (P Q : A → S → Prop) :
  post sw m P → (∀ a sw', P a sw' → Q a sw') → post sw m Q.
Proof. intros H HPQ a sw' Hm. by apply HPQ, H. Qed.

Lemma post_lift {S A} (m : res A) (sw : S) Q : (∀ a, m = Ok a → Q a sw) → post sw (lift m) Q.
Proof. intros H a sw'. unfold lift. destruct m; [intros [= <- <-]; by apply H|done]. Qed.

Lemma post_if {S A} (b : bool) (m1 m2 : ST S A) sw Q :
  (b = true → post sw m1 Q) → (b = false → post sw m2 Q) → post sw (if b then m1 else m2) Q.
Proof. destruct b; auto. Qed.

Lemma post_true {S A} (m : ST S A) sw : post sw m (λ _ _, True).
Proof. done. Qed.

(** Facts about a run may be used in its postcondition. *)
Lemma post_and {S A} (m : ST S A) sw (P Q : A → S → Prop) :
  post sw m P → post sw m Q → post sw m (λ a sw', P a sw' ∧ Q a sw').
Proof. intros H1 H2 a sw' Hm. split; [by apply H1|by apply H2]. Qed.

Section Post.
Context {W : Type} `{!Kernel W}.
Implicit Types (s : Server) (w : world W).

Lemma post_on_world {A} (m : ST (world W) A) s w Q :
  (∀ a w', m w = Ok (a, w') → Q a (s, w')) → post (s, w) (on_world m) Q.
Proof.
  intros H a sw'. unfold on_world. destruct (m w) as [[b w']|] eqn:E; cbn; [|done].
  intros [= <- <-]. by apply H.
Qed.

Lemma post_srv {A} (f : Server → A) s w Q : Q (f s) (s, w) → post (s, w) (srv f) Q.
Proof. by intros H ? ? [= <- <-]. Qed.

Lemma post_upd_srv (f : Server → Server) s w Q : Q tt (f s, w) → post (s, w) (upd_srv f) Q.
Proof. by intros H ? ? [= <- <-]. Qed.

(** A buffer of the caller: the world outside of it is that of [k]. *)
Lemma post_with_text {A} text (k : addr → ST (Server * world W) A) s w (Q : A → Server * world W → Prop) :
  (∀ b m, fresh (dom (w_mem w) : gset positive) = b → m = <[b := text ++ [NUL]]> (w_mem w) →
     post (s, set_mem m w) (k (b, 0)) (λ a sw', Q a (sw'.1, set_mem (delete b (w_mem sw'.2)) sw'.2))) →
  post (s, w) (with_text text k) Q.
Proof.
  intros H. unfold with_text. apply post_bind, post_on_world. intros m w' [= <- <-].
  apply post_bind, post_on_world. intros [] w' [= <-].
  apply post_bind. eapply post_mono; [by apply H|]. intros a [s' w']. cbn. intros HQ.
  apply post_bind, post_on_world. intros [] w'' [= <-]. by apply post_ret.
Qed.

(** Loops downwards, by an invariant. *)
Lemma count_down_inv {A} n (f : Z → A → res A) a (I : A → Prop) :
  I a → (∀ i a a', 0 ≤ i < Z.of_nat n → I a → f i a = Ok a' → I a') →
  ∀ a', count_down n f a = Ok a' → I a'.
Proof.
  intros HI Hstep. revert a HI. induction n as [|n IH]; intros a HI a' H; cbn in H; [by simplify_eq|].
  inv_ok. eapply IH; [|eapply Hstep; [|exact HI|done]|done]; [|lia]. intros. eapply Hstep; [|done..]. lia.
Qed.

Lemma post_for_down n (step : Z → ST (Server * world W) unit) sw (I : Server * world W → Prop) :
  I sw → (∀ i sw, 0 ≤ i < Z.of_nat n → I sw → post sw (step i) (λ _, I)) →
  post sw (for_down n step) (λ _, I).
Proof.
  intros HI Hstep [] sw' H. unfold for_down in H. apply bind_ok in H as (sw1 & H & [= <-]).
  eapply (count_down_inv n _ sw I HI); [|exact H]. intros i sw0 sw2 Hi H0 H2.
  apply bind_ok in H2 as ([[] sw3] & H2 & [= <-]). by eapply Hstep.
Qed.

End Post.

(** One step of a symbolic execution that does not branch, and one that does. *)
Ltac pone :=
  match goal with
  | |- post _ (_ ≫= _) _ => apply post_bind
  | |- post _ (mret _) _ => apply post_ret
  | |- post _ (lift _) _ => apply post_lift; intros ? ?
  | |- post _ (on_world _) _ => apply post_on_world; intros ? ? ?
  | |- post _ (srv _) _ => apply post_srv
  | |- post _ (upd_srv _) _ => apply post_upd_srv
  | |- post _ (with_text _ _) _ => apply post_with_text; intros ? ? ? ?
  end; cbv beta.
Ltac pbranch :=
  match goal with
  | |- post _ (if ?b then _ else _) _ => destruct b eqn:?
  | |- post _ (match ?x with _ => _ end) _ => destruct x eqn:?
  end; cbv beta.
Ltac pstep := pone || pbranch.
(** Up to and including the next branch; to the end on all branches. *)
Ltac pcase := repeat pone; pbranch.
Ltac psteps := repeat pstep.

(** ** Runs, one operation at a time *)

Section Runs.
Context {W : Type} `{!Kernel W} {A B : Type}.
Implicit Types (s : Server) (w : world W).

Lemma run_mret {S} (a : A) (k : A → ST S B) (sw : S) : (mret a ≫= k) sw = k a sw.
Proof. done. Qed.

Lemma run_srv (f : Server → A) (k : A → ST (Server * world W) B) s w : (srv f ≫= k) (s, w) = k (f s) (s, w).
Proof. done. Qed.

Lemma run_upd_srv f (k : unit → ST (Server * world W) B) s w : (upd_srv f ≫= k) (s, w) = k tt (f s, w).
Proof. done. Qed.

Lemma run_on_world (m : ST (world W) A) (k : A → ST (Server * world W) B) s w a w' :
  m w = Ok (a, w') → (on_world m ≫= k) (s, w) = k a (s, w').
Proof. intros H. unfold mbind, st_bind, on_world. by rewrite H. Qed.

Lemma run_call c (w : world W) :
  call c w = Ok ((kcall c (w_os w)).1, mkWorld (kcall c (w_os w)).2 (w_mem w) (w_trace w ++ [(c, (kcall c (w_os w)).1)])).
Proof. unfold call. by destruct (kcall c (w_os w)). Qed.

(** A call changes the kernel's state and the trace. *)
Lemma run_call_ret c (w : world W) : ∃ w', call_ret c w = Ok (r_ret (kcall c (w_os w)).1, w') ∧ w_mem w' = w_mem w.
Proof. unfold call_ret, mbind, st_bind. rewrite run_call. by eexists. Qed.

Lemma sys_read_ok fd n (w : world W) b a x :
  (kcall (Read fd n) (w_os w)).1 = ret_data x → 0 < zlen x ≤ zlen a → w_mem w !! b = Some a →
  sys_read fd (b, 0) n w = Ok (zlen x, mkWorld (kcall (Read fd n) (w_os w)).2 (<[b := upd a 0 x]> (w_mem w))
                                        (w_trace w ++ [(Read fd n, ret_data x)])).
Proof.
  intros Hr Hx Hb. unfold sys_read. rewrite (st_bind_ok _ _ _ _ _ (run_call _ _)), Hr. cbn [r_ret r_data ret_data].
  destruct (Z.ltb_spec (zlen x) 1); [lia|]. unfold zlen at 1. rewrite Nat2Z.id, take_ge by lia.
  unfold mbind at 1, st_bind, on_mem, modify_res. cbn [w_mem]. by rewrite (store_n_ok _ _ _ a) by (done || lia).
Qed.

End Runs.

(** ** Tables of slots *)

Lemma sl_update_push {A} (x y : A) t k t' :
  sl_push x t = (Some k, t') → sl_update k (λ _, y) t' = (sl_push y t).2.
Proof.
  unfold sl_push, sl_update. destruct (sl_free t) as [|i f]; [done|]. intros [= <- <-]. cbn. f_equal.
  apply list_eq. intros j. destruct (decide (Z.to_nat i = j)) as [->|Hj].
  - rewrite list_lookup_alter_eq. destruct (decide (j < length (sl_cells t))%nat).
    + by rewrite !list_lookup_insert_eq by done.
    + by rewrite !lookup_ge_None_2 by (rewrite length_insert; lia).
  - by rewrite list_lookup_alter_ne, !list_lookup_insert_ne by done.
Qed.

Lemma sl_push_update {A} (x y : A) t k t' :
  sl_push x t = (Some k, t') → sl_push y t = (Some k, sl_update k (λ _, y) t').
Proof.
  intros H. rewrite (sl_update_push _ _ _ _ _ H). unfold sl_push in *. by destruct (sl_free t); simplify_eq.
Qed.

(** Removing what was pushed gives the table back. *)
Lemma sl_remove_push {A} (x : A) t k t' :
  slots_wf t → sl_push x t = (Some k, t') → (sl_remove_at k t').2 = t ∧ sl_get t' k = Some x ∧ sl_get t k = None.
Proof.
  intros [_ Hf] H. unfold sl_push in H. destruct t as [cells free]. cbn in *. destruct free as [|i f]; [done|].
  injection H as <- <-. destruct (Hf i) as [[Hi Hc] _]; [by left|].
  apply lookup_lt_Some in Hc as Hlt.
  assert (Hg : sl_get (Slots (<[Z.to_nat i := Some x]> cells) f) i = Some x).
  { apply sl_get_Some. split; [done|]. cbn. by rewrite list_lookup_insert_eq. }
  split_and!; [|done|].
  - unfold sl_remove_at. rewrite Hg. cbn. f_equal. rewrite list_insert_insert_eq. by apply list_insert_id.
  - unfold sl_get. cbn. rewrite Hc. by case_match.
Qed.

Lemma sl_push_other {A} (x : A) t k t' j :
  slots_wf t → sl_push x t = (Some k, t') → j ≠ k → sl_get t' j = sl_get t j.
Proof.
  intros [_ Hf] H Hj. unfold sl_push in H. destruct (sl_free t) as [|i f] eqn:E; [done|]. injection H as <- <-.
  destruct (Hf i) as [[Hi _] _]; [by left|].
  unfold sl_get. destruct (Z.leb_spec 0 j); [|done]. cbn. by rewrite list_lookup_insert_ne by lia.
Qed.

Lemma open_cnt_push {A} (x : A) t : ¬ open_cnt t < 1 → ∃ k t', sl_push x t = (Some k, t').
Proof.
  unfold open_cnt, sl_push. destruct (sl_free t) as [|i f]; [by rewrite zlen_nil; lia|]. eauto.
Qed.

Lemma set_tasks_id s : set_tasks (sv_tasks s) s = s.
Proof. by destruct s. Qed.

(** ** Sizes *)

Definition task_shape (size max : Z) (t : Task) : Prop := zlen (t_buf t) = size ∧ zlen (t_vars t) = max.

Lemma memcpy_zlen {A} (a b : list A) i x : memcpy a i x = Ok b → zlen b = zlen a.
Proof. intros (H1 & H2 & ->)%memcpy_inv. by apply zlen_upd. Qed.

Lemma wr_zlen {A} (a b : list A) i x : wr a i x = Ok b → zlen b = zlen a.
Proof. apply memcpy_zlen. Qed.

Section Shape.
Context (size max : Z).
Abbreviation shaped := (task_shape size max).

Lemma zero_task_shape : 0 ≤ size → 0 ≤ max → shaped (zero_task size max).
Proof. intros. split; cbn; [by rewrite zlen_zeros|]. rewrite zlen_replicate. lia. Qed.

Lemma task_write_shape t v c r : shaped t → task_write t v c = Ok r → shaped r.2.
Proof.
  intros [H1 H2] H. unfold task_write in H. inv_ok.
  split; [|done]. cbn. erewrite wr_zlen, memcpy_zlen by done. done.
Qed.

Lemma workspace_task_get_shape t s k v t' : shaped t → workspace_task_get t s k v = Ok t' → shaped t'.
Proof.
  intros Ht H. unfold workspace_task_get in H.
  apply bind_ok in H as (p & _ & H). apply bind_ok in H as (nm & _ & H).
  destruct (str_eq s nm); [|by simplify_eq].
  apply bind_ok in H as (t1 & H1 & H). apply bind_ok in H as ([q t2] & H2 & H). simplify_eq.
  eapply (task_write_shape t1 _ _ (q, t')); [|exact H2]. clear H2.
  repeat (case_match; [by simplify_eq|]).
  apply bind_ok in H1 as ([q1 t2] & Hw & H1). apply task_write_shape in Hw as [Hb Hv]; [|done].
  apply bind_ok in H1 as (l & Hl & H1). simplify_eq. split; [done|]. cbn. by erewrite wr_zlen by done.
Qed.

Lemma add_envs_shape e envs t t' : shaped t → add_envs e envs t = Ok t' → shaped t'.
Proof.
  revert e t. induction envs as [|env envs IH]; intros e t Ht H; cbn in H; [by simplify_eq|].
  apply bind_ok in H as ([q t1] & H1 & H). apply task_write_shape in H1 as [H1 H2]; [|done].
  apply bind_ok in H as (l & Hl & H). eapply IH; [|exact H]. split; [done|]. cbn. by erewrite wr_zlen by done.
Qed.

End Shape.

(** ** What the operations change in the server *)

Section Effects.
Context {W : Type} `{!Kernel W} (config : Config).
Let st := settings config.
Implicit Types (s : Server) (w : world W).

(** A launch that succeeds adds a process and changes nothing else; one that fails
    changes nothing. *)
Definition launched s (z : Z) s' : Prop :=
  (z ≠ 0 ∧ s' = s) ∨
  (z = 0 ∧ ∃ p, s' = set_processes (sl_push p (sv_processes s)).2 s ∧
     0 < open_cnt (sv_processes s) ∧ zlen (p_task_name p) = zlen (zeros (task_name_size st))).

Lemma make_pipe_post s w (Q : _ → _ → Prop) :
  (∀ r w', Q r (s, w')) → post (s, w) make_pipe Q.
Proof. intros H. unfold make_pipe. psteps; apply H. Qed.

Lemma launch_post t s w :
  post (s, w) (server_task_launch config t) (λ z sw', launched s z sw'.1).
Proof.
  assert (Hfail : ∀ z : Z, z ≠ 0 → launched s z s) by (by left).
  unfold server_task_launch. do 3 pstep; [by pstep; apply Hfail|].
  pstep. apply make_pipe_post. intros [[out_r out_w]|] w1; [|by pstep; apply Hfail].
  pstep. apply make_pipe_post. intros [[err_r err_w]|] w2; [|by pstep; apply Hfail].
  do 3 pstep; [by pstep; apply Hfail|]. pstep.
  - pstep. eapply post_mono; [apply post_true|]. intros code sw' _. by apply post_lift.
  - destruct (open_cnt_push (zero_process (task_name_size (settings config))) (sv_processes s)) as (k & l & Ek); [lia|].
    rewrite Ek. psteps. right. split; [done|]. eexists. cbn [fst sv_processes set_processes].
    rewrite (sl_update_push _ _ _ _ _ Ek). split_and!; [done|lia|]. cbn [p_task_name]. by eapply memcpy_zlen.
Qed.

(** [get_task] adds a task, or changes nothing. *)
Definition loaded s (r : option Z) s' : Prop :=
  match r with
  | None => s' = s
  | Some k => ∃ t, sl_push t (sv_tasks s) = (Some k, sv_tasks s') ∧ s' = set_tasks (sv_tasks s') s ∧
      task_shape (task_buf_size st) (task_var_max_count st) t
  end.

Lemma get_from_ws_post t s w :
  task_shape (task_buf_size st) (task_var_max_count st) t →
  post (s, w) (get_from_ws t) (λ r sw', sw'.1 = s ∧ task_shape (task_buf_size st) (task_var_max_count st) r.2).
Proof.
  intros Ht. unfold get_from_ws. do 6 pstep. pstep; [by pstep|].
  pstep. pstep. destruct a1 as [status t'].
  assert (task_shape (task_buf_size st) (task_var_max_count st) t').
  { apply (ini_parse_keeps workspace_task_get _) with (fp := Some (r_data a0)) (d := t) (r := (status, t')); [|done..].
    intros t0 sec k v t1 ?. by apply workspace_task_get_shape. }
  psteps; done.
Qed.

Lemma get_task_post name envs s w :
  slots_wf (sv_tasks s) → 0 ≤ task_buf_size st → 0 ≤ task_var_max_count st →
  post (s, w) (get_task config name envs) (λ r sw', loaded s r sw'.1).
Proof.
  intros Hwf Hb Hm. unfold get_task. destruct name as [p|]; [|by pstep].
  set (z := zero_task (task_buf_size (settings config)) (task_var_max_count (settings config))).
  pstep. pstep. destruct (sl_push z (sv_tasks s)) as [[k|] l] eqn:Ek.
  2: { psteps. unfold sl_push in Ek. destruct (sl_free (sv_tasks s)); simplify_eq. apply set_tasks_id. }
  pose proof (zero_task_shape _ _ Hb Hm) as Hz. fold st in z. fold z in Hz.
  do 4 pstep. pstep. pstep. destruct a0 as [q t1]. pose proof (task_write_shape _ _ _ _ _ _ Hz H0) as Ht1.
  pstep. eapply post_mono; [by apply (get_from_ws_post (set_name (Some q) t1))|].
  intros [status t2] [s' w2] [Hs Ht2]. cbn [fst snd] in *. subst s'. do 2 pstep.
  apply (sl_push_update _ t2) in Ek.
  assert (Hrem : set_tasks (sl_remove_at k (sl_update k (λ _, t2) l)).2 s = s).
  { destruct (sl_remove_push _ _ _ _ Hwf Ek) as [Hr _]. rewrite Hr. apply set_tasks_id. }
  psteps; try exact Hrem. exists a1. split_and!; [by apply (sl_push_update t2)|done|by eapply add_envs_shape].
Qed.

(** Loading and launching send nothing and leave the memory alone. *)
Lemma get_task_quiet name envs s w :
  post (s, w) (get_task config name envs) (λ _ sw', quiet_run w sw'.2).
Proof. unfold get_task, get_from_ws. psteps; cbn [snd]; quiet_tac. Qed.

Lemma nonblock_quiet fd w z w' : socket_set_nonblock fd w = Ok (z, w') → quiet_run w w'.
Proof. unfold socket_set_nonblock. intros H. st_inv. case_decide; st_inv; quiet_tac. Qed.

Lemma make_pipe_quiet s w : post (s, w) make_pipe (λ _ sw', sw'.1 = s ∧ quiet_run w sw'.2).
Proof.
  unfold make_pipe. psteps; (split; [done|]); cbn [snd];
    try match goal with H : socket_set_nonblock _ _ = _ |- _ => apply nonblock_quiet in H end; quiet_tac.
Qed.

Lemma launch_quiet t s w : post (s, w) (server_task_launch config t) (λ _ sw', quiet_run w sw'.2).
Proof.
  unfold server_task_launch. pcase; [by pone|].
  pone. eapply post_mono; [apply make_pipe_quiet|]. intros [[out_r out_w]|] [s1 w1] [Hs1 Q1]; cbn [fst snd] in *; subst s1; [|by pone].
  pone. eapply post_mono; [apply make_pipe_quiet|]. intros [[err_r err_w]|] [s1 w2] [Hs1 Q2]; cbn [fst snd] in *; subst s1;
    [|pone; cbn [snd]; quiet_tac].
  pcase; [pone; cbn [snd]; quiet_tac|]. pcase.
  - pone. eapply post_mono; [apply post_true|]. intros code sw' _. by apply post_lift.
  - destruct (sl_push _ _) as [[k|] l]; psteps; cbn [snd]; quiet_tac.
Qed.

End Effects.
