(* ===== verification/Answer.v ===== *)
(** Answers to messages: what [server_respond] sends, what a message asks for, and what
    the evaluation of a message comes to. *)

From S2P Require Import Prelude CString Memory Store Protocol Os Config Net Client Ini IniFile Task Server ServerLogic.

(** ** Sending an answer *)

Section Sending.
Context {W : Type} `{!Kernel W}.

(** The stream [server_send] builds: one argument. *)
Lemma answer_stream ts ty msg m b text :
  ts_length ts ≤ zlen (ts_tokens ts) → 1 ≤ zlen (ts_tokens ts) →
  load_str m msg = Ok text → msg.1 ≠ b →
  ∃ ts1 ts2, protocol_tokenstream_reset (set_ts_type ty ts) = Ok ts1 ∧
    protocol_tokenstream_add_token ts1 PROTOCOL_TOKEN_ARG (Some msg) = Ok ts2 ∧
    ts_type ts2 = ty ∧ ts_length ts2 = 1 ∧
    rd (ts_tokens ts2) 0 = Ok (mkToken PROTOCOL_TOKEN_ARG (Some msg)) ∧ stream_stands b m ts2 [(PROTOCOL_TOKEN_ARG, text)].
Proof.
  intros Hlen Hcap Hmsg Hne.
  set (toks := upd (ts_tokens ts) 0 (replicate (Z.to_nat (ts_length ts)) zero_token)).
  assert (Hz : zlen toks = zlen (ts_tokens ts)) by (apply zlen_upd; rewrite ?zlen_replicate; lia).
  exists (mkStream ty 0 toks), (mkStream ty 1 (upd toks 0 [mkToken PROTOCOL_TOKEN_ARG (Some msg)])).
  split_and!; try done.
  - unfold protocol_tokenstream_reset, clear_tokens. cbn [ts_tokens ts_length set_ts_type].
    rewrite memcpy_ok by (rewrite ?zlen_replicate; lia). done.
  - unfold protocol_tokenstream_add_token. cbn [ts_tokens ts_length]. rewrite wr_ok by lia. done.
  - unfold stream_stands. cbn [ts_tokens ts_length]. rewrite zlen_upd by (rewrite ?zlen_cons, ?zlen_nil; lia).
    split; [lia|]. rewrite upd_0. cbn. by eapply stands_live; [done|done|done|done|exact Hmsg|constructor].
Qed.

(** The bytes of an answer. *)
Definition answer_bytes (ty : Z) (text behind : list byte) : list byte :=
  sent_message ty 1 [(PROTOCOL_TOKEN_ARG, text)] behind.

Lemma server_send_message config sock ty msg text b a (s : Server) (w : world W) :
  ts_length (sv_stream s) ≤ zlen (ts_tokens (sv_stream s)) → 1 ≤ zlen (ts_tokens (sv_stream s)) →
  load_str (w_mem w) msg = Ok text → msg.1 ≠ b →
  c_out_buf (sv_conn s) = Some (b, 0) → w_mem w !! b = Some a →
  zlen text + 18 ≤ zlen a ≤ INT_MAX →
  ∃ ts m,
    server_send config sock ty msg (s, w) =
    ('(sent, w') ← socket_send sock (answer_bytes ty text (sub a (14 + zlen text) 4)) w;
     Ok (sent, (set_stream ts s, set_mem m w'))).
Proof.
  intros Hlen Hcap Hmsg Hne Hout Hb Ha.
  destruct (answer_stream (sv_stream s) ty msg (w_mem w) b text Hlen Hcap Hmsg Hne) as (ts1 & ts & H1 & H2 & Hty & Hl & _ & Hst).
  pose proof (zlen_nonneg text).
  assert (Hp : zlen (payload [(PROTOCOL_TOKEN_ARG, text)]) = zlen text + 2).
  { unfold payload, enc. cbn. rewrite app_nil_r, zlen_cons, zlen_app, zlen_cons, zlen_nil. lia. }
  destruct (protocol_send_message (socket_send (W := W)) sock ts [(PROTOCOL_TOKEN_ARG, text)] b 0
              (buffer_size (settings config)) (w_mem w) a w Hst Hb) as (m & Hsend); [lia|lia|lia|].
  exists ts, m. unfold server_send. rewrite run_srv, (bind_lift _ _ _ _ H1), (bind_lift _ _ _ _ H2), run_upd_srv, run_srv.
  unfold on_world, send_stream. cbn [sv_conn set_stream]. rewrite Hout, Hsend, Hty, Hl, Hp. unfold answer_bytes.
  replace (0 + 12 + (zlen text + 2)) with (14 + zlen text) by lia.
  match goal with |- context [(socket_send ?x ?y ?z) ≫= _] => generalize (socket_send x y z) end.
  by intros [[sent w']|].
Qed.

(** What a reset and an added token leave of the size of a stream. *)
Lemma reset_tokens ts ts' : protocol_tokenstream_reset ts = Ok ts' → zlen (ts_tokens ts') = zlen (ts_tokens ts).
Proof.
  unfold protocol_tokenstream_reset, clear_tokens. intros H. inv_ok. cbn. by eapply memcpy_zlen.
Qed.

Lemma add_token_tokens ts ty v ts' :
  protocol_tokenstream_add_token ts ty v = Ok ts' → zlen (ts_tokens ts') = zlen (ts_tokens ts).
Proof. unfold protocol_tokenstream_add_token. intros H. inv_ok. cbn. by eapply wr_zlen. Qed.


(** [server_send], whatever it is called with: only the stream changes, and a buffer
    that can be written carries one message. *)
Lemma server_send_inv config sock ty msg (s s' : Server) (w w' : world W) z :
  server_send config sock ty msg (s, w) = Ok (z, (s', w')) →
  s' = set_stream (sv_stream s') s ∧ zlen (ts_tokens (sv_stream s')) = zlen (ts_tokens (sv_stream s)) ∧
  ∀ b a text, c_out_buf (sv_conn s) = Some (b, 0) → w_mem w !! b = Some a → zlen a ≤ INT_MAX →
    load_str (w_mem w) msg = Ok text → msg.1 ≠ b →
    ∃ behind tr, zlen behind = 4 ∧ w_trace w' = w_trace w ++ tr ∧ sending sock (answer_bytes ty text behind) tr.
Proof.
  intros H. pose proof H as Hrun. unfold server_send in H. rewrite run_srv in H.
  apply st_bind_inv in H as (ts1 & sw & H1 & H). unfold lift in H1. apply bind_ok in H1 as (t1 & H1 & [= -> <-]).
  apply st_bind_inv in H as (ts & sw & H2 & H). unfold lift in H2. apply bind_ok in H2 as (t2 & H2 & [= -> <-]).
  rewrite run_upd_srv, run_srv in H. unfold on_world in H. apply bind_ok in H as ([z' w1] & H & [= -> <- ->]).
  pose proof (reset_tokens _ _ H1) as Z1. pose proof (add_token_tokens _ _ _ _ H2) as Z2.
  split; [done|]. split; [cbn in *; congruence|]. intros b a text Hout Hb Ha Hmsg Hne.
  assert (Hlen : ts_length (sv_stream s) ≤ zlen (ts_tokens (sv_stream s)) ∧ 1 ≤ zlen (ts_tokens (sv_stream s))).
  { unfold protocol_tokenstream_reset, clear_tokens in H1. apply bind_ok in H1 as (t & H1 & E1).
    apply bind_ok in H1 as (toks & (_ & H1 & _)%memcpy_inv & E2). cbn in H1. rewrite zlen_replicate in H1.
    unfold protocol_tokenstream_add_token in H2. apply bind_ok in H2 as (toks2 & H2 & _).
    apply memcpy_inv in H2 as (_ & H2 & _). simplify_eq. cbn in *. rewrite zlen_cons, zlen_nil in H2. lia. }
  destruct Hlen as [Hlen Hcap].
  destruct (answer_stream (sv_stream s) ty msg (w_mem w) b text Hlen Hcap Hmsg Hne) as (u1 & u & E1 & E2 & _ & Hl & Ht & _).
  rewrite H1 in E1. simplify_eq. rewrite H2 in E2. simplify_eq.
  assert (Hfit : zlen text + 18 ≤ zlen a).
  { unfold send_stream in H. cbn [sv_conn set_stream] in H. rewrite Hout in H. apply bind_ok in H as (r & H & _).
    by eapply protocol_send_fits. }
  destruct (server_send_message config sock ty msg text b a s w Hlen Hcap Hmsg Hne Hout Hb ltac:(lia)) as (ts' & m & E).
  rewrite E in Hrun. apply bind_ok in Hrun as ([sent w2] & Hs & [= _ _ <-]).
  apply socket_send_sending in Hs as (_ & tr & T & Hs). exists (sub a (14 + zlen text) 4), tr.
  pose proof (zlen_nonneg text). split; [apply zlen_sub; lia|]. by split.
Qed.

End Sending.

(** ** Answering a client *)

Section Answers.
Context {W : Type} `{!Kernel W} (config : Config).
Let st := settings config.
Implicit Types (s : Server) (w : world W).

(** The server has a buffer to send from. *)
Definition out_ready s w : Prop :=
  ∃ b a, c_out_buf (sv_conn s) = Some (b, 0) ∧ w_mem w !! b = Some a ∧ zlen a ≤ INT_MAX.

(** The client of a packet is dismissed: its socket is closed by the last call, the
    client leaves the stack, and only the token stream changes besides. *)
Record dismissed (packet : ClientPacket) s s' w' : Prop := {
  an_server : s' = set_clients (remove_client (pk_client packet) (sv_clients s)) (set_stream (sv_stream s') s);
  an_tokens : zlen (ts_tokens (sv_stream s')) = zlen (ts_tokens (sv_stream s));
  an_closed : ∃ tr r, w_trace w' = tr ++ [(Close (pk_socket packet), r)];
}.

(** From [w] to [w'], one message is sent to the client of a packet, of type [ty] and
    with [text] as its only argument, and then its socket is closed; these are the only
    calls.  Four bytes of the buffer go out behind the message. *)
Definition said (packet : ClientPacket) (ty : Z) (text : list byte) w w' : Prop :=
  ∃ behind tr r, zlen behind = 4 ∧ w_trace w' = w_trace w ++ tr ++ [(Close (pk_socket packet), r)] ∧
    sending (pk_socket packet) (answer_bytes ty text behind) tr.

(** From [w] to [w'], all that is sent is one message to the client, with [text] and of type
    [ty], and then its socket is closed. *)
Definition told (packet : ClientPacket) (ty : Z) (text : list byte) w w' : Prop :=
  ∃ before w1, w_trace w1 = w_trace w ++ before ∧ Forall mute before ∧ said packet ty text w1 w'.

Lemma said_told packet ty text w w1 w' : quiet_run w w1 → said packet ty text w1 w' → told packet ty text w w'.
Proof. intros [_ (tr & T & F)] H. by exists tr, w1. Qed.

Lemma told_later packet ty text w w1 w' : quiet_run w w1 → told packet ty text w1 w' → told packet ty text w w'.
Proof.
  intros [_ (tr & T & F)] (tr2 & w2 & T2 & F2 & H). exists (tr ++ tr2), w2. rewrite T2, T, <- app_assoc.
  split; [done|]. split; [by apply Forall_app|done].
Qed.

(** Both: since [w], the client has been answered, and dismissed from [s]. *)
Record answered (packet : ClientPacket) (ty : Z) (text : list byte) s w s' w' : Prop := {
  an_dismissed : dismissed packet s s' w';
  an_told : told packet ty text w w';
}.

Lemma answered_later packet ty text s w w1 s' w' :
  quiet_run w w1 → answered packet ty text s w1 s' w' → answered packet ty text s w s' w'.
Proof. intros Hq [? ?]. split; [done|by eapply told_later]. Qed.

Lemma server_respond_post packet ty msg s w :
  post (s, w) (server_respond config packet ty msg) (λ _ sw', dismissed packet s sw'.1 sw'.2 ∧
    ∀ b a text, c_out_buf (sv_conn s) = Some (b, 0) → w_mem w !! b = Some a → zlen a ≤ INT_MAX →
      load_str (w_mem w) msg = Ok text → msg.1 ≠ b → said packet ty text w sw'.2).
Proof.
  unfold server_respond. pone. intros sent [s1 w1] H. apply server_send_inv in H as (Hs1 & Hz & Hsay).
  revert Hs1 Hz. generalize (sv_stream s1). intros ts -> Hz. pone. pone.
  apply call_ret_inv in H as (r & -> & _ & T). pone. pone.
  match goal with |- post ?sw _ ?Q => enough (Hq : Q 0 sw) by (pbranch; by pone) end.
  split; [split; [done|done|cbn; by eauto]|]. intros b a text Hb Ha Hx Ht Hne.
  destruct (Hsay b a text Hb Ha Hx Ht Hne) as (behind & tr & Hz4 & T1 & Hsend).
  exists behind, tr, r. cbn [snd]. rewrite T, T1, <- app_assoc. done.
Qed.

Lemma respond_text_post packet ty msg s w :
  post (s, w) (respond_text config packet ty msg) (λ _ sw', dismissed packet s sw'.1 sw'.2 ∧
    (out_ready s w → no_nul msg → said packet ty msg w sw'.2)).
Proof.
  unfold respond_text. pone. subst. eapply post_mono; [apply server_respond_post|].
  intros z sw' [[H1 H2 H3] Hsay]. split; [by split|]. intros (b0 & a & Hb & Ha & Hx) Hn.
  assert (Hne : (fresh (dom (w_mem w) : gset positive)) ≠ b0).
  { intros He. apply (is_fresh (dom (w_mem w) : gset positive)). rewrite He. by apply (elem_of_dom_2 _ _ a). }
  destruct (Hsay b0 a msg) as (behind & tr & r & H); [done|cbn; by rewrite lookup_insert_ne|done| |done|].
  - unfold load_str, block. cbn. rewrite lookup_insert_eq. cbn. by apply (cstr_at _ 0 _ []).
  - by exists behind, tr, r.
Qed.

(** The first argument of a message, which may be missing, as text. *)
Definition argument (m : mem) (arg : option addr) (x : option (list byte)) : Prop :=
  match arg with Some p => ∃ text, x = Some text ∧ load_str m p = Ok text | None => x = None end.

(** The text of an answer that quotes the argument, cut by [snprintf]. *)
Definition answer_text (before : string) (x : option (list byte)) (after : string) : list byte :=
  take (Z.to_nat (buffer_size st - 1))
    (bytes_of_string before ++ default (bytes_of_string "(null)") x ++ bytes_of_string after).

Lemma answer_text_no_nul m arg before x after :
  argument m arg x → no_nul (bytes_of_string before) → no_nul (bytes_of_string after) →
  no_nul (answer_text before x after).
Proof.
  intros Hx Hb Ha Hin. unfold answer_text in Hin. apply elem_of_take in Hin as (k & Hin & _).
  apply list_elem_of_lookup_2 in Hin. assert (no_nul (default (bytes_of_string "(null)") x)).
  { destruct arg as [p|]; cbn in Hx; [|subst; decided]. destruct Hx as (t & -> & Ht).
    by apply load_str_inv in Ht as (_ & _ & _ & Ht). }
  unfold no_nul in *. rewrite !elem_of_app in Hin. naive_solver.
Qed.

Lemma respond_fmt_post packet ty before arg after s w :
  post (s, w) (respond_fmt config packet ty before arg after) (λ _ sw', dismissed packet s sw'.1 sw'.2 ∧
    ∃ x, argument (w_mem w) arg x ∧
      (out_ready s w → no_nul (bytes_of_string before) → no_nul (bytes_of_string after) →
       said packet ty (answer_text before x after) w sw'.2)).
Proof.
  unfold respond_fmt. pone.
  assert (H : ∀ x, argument (w_mem w) arg x → ∀ text, text = default (bytes_of_string "(null)") x →
    post (s, w) (respond_text config packet ty (take (Z.to_nat (buffer_size (settings config) - 1))
        (bytes_of_string before ++ text ++ bytes_of_string after)) ≫= λ _, mret tt)
      (λ _ sw', dismissed packet s sw'.1 sw'.2 ∧ ∃ x, argument (w_mem w) arg x ∧
        (out_ready s w → no_nul (bytes_of_string before) → no_nul (bytes_of_string after) →
         said packet ty (answer_text before x after) w sw'.2))).
  { intros x Hx text ->. pone. eapply post_mono; [apply respond_text_post|]. intros z [s1 w1] [H1 H2]. pone.
    split; [done|]. exists x. split; [done|]. intros Ho Hb Ha. apply H2; [done|]. by eapply answer_text_no_nul. }
  destruct arg as [p|].
  - pone. unfold with_mem in H0. apply bind_ok in H0 as (t & Ht & [= <- <-]). apply (H (Some t)); [by eexists|done].
  - pone. by apply (H None).
Qed.

(** ** Messages *)

Lemma read_tokens_length n i cur m p ts ts' :
  read_tokens n i cur m p ts = Ok ts' → zlen (ts_tokens ts') = zlen (ts_tokens ts).
Proof.
  revert i cur ts. induction n as [|n IH]; intros i cur ts H; cbn [read_tokens] in H; [by simplify_eq|].
  inv_ok. apply IH in H. rewrite H. cbn. by eapply wr_zlen.
Qed.

Lemma protocol_read_tokens p n ts m r :
  protocol_read p n ts m = Ok r → zlen (ts_tokens r.2) = zlen (ts_tokens ts).
Proof.
  intros H. unfold protocol_read, protocol_buf_to_tokenstream in H.
  apply bind_ok in H as (len & _ & H). apply bind_ok in H as ([z ts'] & H1 & H).
  assert (zlen (ts_tokens (default ts ts')) = zlen (ts_tokens ts)).
  { apply bind_ok in H1 as (ty & _ & H1). apply bind_ok in H1 as (k & _ & H1).
    destruct (k <? 1); [by simplify_eq|]. unfold clear_tokens in H1. inv_ok. cbn.
    erewrite read_tokens_length by done. cbn. by erewrite memcpy_zlen by done. }
  case_decide; by simplify_eq.
Qed.

(** What a message does to the tasks and processes: nothing; a process is started;
    a task is stored, to wait for another or because it could not be started. *)
Definition progress s s' : Prop :=
  (sv_tasks s' = sv_tasks s ∧ sv_processes s' = sv_processes s) ∨
  (sv_tasks s' = sv_tasks s ∧
   ∃ p, sv_processes s' = (sl_push p (sv_processes s)).2 ∧ 0 < open_cnt (sv_processes s) ∧
     zlen (p_task_name p) = zlen (zeros (task_name_size st))) ∨
  (sv_processes s' = sv_processes s ∧
   ∃ k t, sl_push t (sv_tasks s) = (Some k, sv_tasks s') ∧
     task_shape (task_buf_size st) (task_var_max_count st) t).

Record evaluated (packet : ClientPacket) s s' w' : Prop := {
  ev_clients : sv_clients s' = remove_client (pk_client packet) (sv_clients s);
  ev_conn : sv_conn s' = sv_conn s;
  ev_running : sv_running s' = sv_running s;
  ev_workspace : zlen (sv_workspace s') = zlen (sv_workspace s);
  ev_tokens : zlen (ts_tokens (sv_stream s')) = zlen (ts_tokens (sv_stream s));
  ev_progress : progress s s';
  ev_closed : ∃ tr r, w_trace w' = tr ++ [(Close (pk_socket packet), r)];
}.

(** A dismissal after changes that leave clients and connection alone. *)
Lemma dismissed_evaluated packet s s1 s' w' :
  dismissed packet s1 s' w' →
  sv_clients s1 = sv_clients s → sv_conn s1 = sv_conn s → sv_running s1 = sv_running s →
  zlen (sv_workspace s1) = zlen (sv_workspace s) → zlen (ts_tokens (sv_stream s1)) = zlen (ts_tokens (sv_stream s)) →
  progress s s1 → evaluated packet s s' w'.
Proof.
  intros [-> Ht Hc] H1 H2 H3 H4 H5 H6. cbn in Ht. split; cbn; try congruence; done.
Qed.


(** ** What a message comes to *)

(** What a message asks for: it cannot be read, its type is none the agent serves, it
    names a task to run or a workspace to set. *)
Inductive request : Type :=
| Unreadable
| Unknown
| RunTask (name : option (list byte))
| SetWorkspace (path : option (list byte)).

(** The first token that is an argument. *)
Definition first_arg (ts : ProtocolTokenStream) : option addr :=
  mjoin (head (values_of PROTOCOL_TOKEN_ARG (take (Z.to_nat (ts_length ts)) (ts_tokens ts)))).

(** What [protocol_read] answered and the stream it left. *)
Inductive asks (m : mem) (r : Z) (ts : ProtocolTokenStream) : request → Prop :=
| asks_unreadable : r ≠ 0 → asks m r ts Unreadable
| asks_unknown :
    r = 0 → ts_type ts ≠ PROTOCOL_MSG_TASK_RUN → ts_type ts ≠ PROTOCOL_MSG_WORKSPACE_SET → asks m r ts Unknown
| asks_run x : r = 0 → ts_type ts = PROTOCOL_MSG_TASK_RUN → argument m (first_arg ts) x → asks m r ts (RunTask x)
| asks_set x :
    r = 0 → ts_type ts = PROTOCOL_MSG_WORKSPACE_SET → argument m (first_arg ts) x → asks m r ts (SetWorkspace x).

(** Tasks, processes and workspace are the same. *)
Definition kept s s' : Prop :=
  sv_tasks s' = sv_tasks s ∧ sv_processes s' = sv_processes s ∧ sv_workspace s' = sv_workspace s.

(** A task was stored, and that is all. *)
Definition stored s s' : Prop :=
  (∃ k t, sl_push t (sv_tasks s) = (Some k, sv_tasks s')) ∧
  sv_processes s' = sv_processes s ∧ sv_workspace s' = sv_workspace s.

(** A process was started, and that is all. *)
Definition started s s' : Prop :=
  sv_tasks s' = sv_tasks s ∧ sv_workspace s' = sv_workspace s ∧
  ∃ p, 0 < open_cnt (sv_processes s) ∧ sv_processes s' = (sl_push p (sv_processes s)).2.

(** The workspace was set to [x], and that is all. *)
Definition workspace_set (x : list byte) s s' : Prop :=
  sv_tasks s' = sv_tasks s ∧ sv_processes s' = sv_processes s ∧ cstr (sv_workspace s') 0 = Ok x.

(** Request, return value, the type and the text of the answer, and the server after. *)
Inductive outcome s : request → Z → Z → list byte → Server → Prop :=
| oc_unreadable s' : kept s s' → outcome s Unreadable (-1) PROTOCOL_MSG_ERR s_invalid s'
| oc_unknown s' : kept s s' → outcome s Unknown 0 PROTOCOL_MSG_ERR s_invalid s'
| oc_missing x s' : kept s s' →
    outcome s (RunTask x) (-1) PROTOCOL_MSG_ERR (answer_text "Task '" x "' not found") s'
| oc_queued x s' : stored s s' →
    outcome s (RunTask x) 0 PROTOCOL_MSG_SUCCESS (answer_text "Task '" x "' put in queue") s'
| oc_failed x s' : stored s s' →
    outcome s (RunTask x) (-1) PROTOCOL_MSG_ERR (answer_text "Failed to run task '" x "'") s'
| oc_started x s' : started s s' →
    outcome s (RunTask x) 0 PROTOCOL_MSG_SUCCESS (answer_text "Task '" x "' started succesfully") s'
| oc_no_workspace x s' : kept s s' →
    outcome s (SetWorkspace x) (-1) PROTOCOL_MSG_ERR (bytes_of_string "Workspace not found") s'
| oc_workspace x s' : workspace_set x s s' →
    outcome s (SetWorkspace (Some x)) 0 PROTOCOL_MSG_SUCCESS (answer_text "Workspace '" (Some x) "' set as active") s'.

(** The outcome speaks of tasks, processes and workspace only. *)
Lemma outcome_kept s q z ty text s1 s2 : kept s1 s2 → outcome s q z ty text s1 → outcome s q z ty text s2.
Proof.
  intros Hk Ho. revert Hk. destruct Ho; intros (H1 & H2 & H3); constructor;
    unfold kept, stored, started, workspace_set in *; rewrite H1, H2, H3; done.
Qed.

Definition replied (packet : ClientPacket) (q : request) s w (z : Z) s' w' : Prop :=
  ∃ ty text, outcome s q z ty text s' ∧ told packet ty text w w'.

(** *** Reading the request *)

Lemma protocol_read_length p n ts m ts' :
  protocol_read p n ts m = Ok (0, ts') → 1 ≤ ts_length ts' ≤ zlen (ts_tokens ts').
Proof.
  intros H. pose proof (protocol_read_tokens _ _ _ _ _ H) as Hz. unfold protocol_read, protocol_buf_to_tokenstream in H.
  apply bind_ok in H as (len & _ & H). apply bind_ok in H as ([z t] & H1 & H).
  apply bind_ok in H1 as (ty & _ & H1). apply bind_ok in H1 as (k & _ & H1).
  destruct (Z.ltb_spec k 1); [simplify_eq; by case_decide|]. apply bind_ok in H1 as (t1 & H2 & H1).
  apply bind_ok in H1 as (t2 & H3 & [= <- <-]).
  cbn in H. rewrite decide_True in H by done. injection H as <-.
  unfold clear_tokens in H2. apply bind_ok in H2 as (toks & (_ & Hm & _)%memcpy_inv & [= <-]).
  rewrite zlen_replicate in Hm. cbn in Hm, Hz.
  assert (Hl : ∀ n i cur m p ts ts', read_tokens n i cur m p ts = Ok ts' → ts_length ts' = ts_length ts).
  { clear. induction n as [|n IH]; intros i cur m p ts ts' H; cbn [read_tokens] in H; [by simplify_eq|].
    inv_ok. apply IH in H. by rewrite H. }
  apply Hl in H3. cbn in H3. lia.
Qed.

Lemma parse_first_arg ts r ty args vars :
  1 ≤ ts_length ts ≤ zlen (ts_tokens ts) →
  let array := replicate (Z.to_nat (ts_length ts)) None in
  protocol_parse_token_stream ts array array = Ok (r, (ty, args, vars)) → r = 0 ∧ rd args 0 = Ok (first_arg ts).
Proof.
  intros Hl array H. assert (Ha : zlen array = ts_length ts) by (unfold array; rewrite zlen_replicate; lia).
  destruct (split_tokens_all ts array array) as (E & HA & _); [lia|done|done|]. rewrite E in H.
  set (A := values_of PROTOCOL_TOKEN_ARG (take (Z.to_nat (ts_length ts)) (ts_tokens ts))) in *.
  apply bind_ok in H as (args' & H1 & H). apply bind_ok in H as (vars' & _ & [= <- _ <- _]). split; [done|].
  pose proof (zlen_nonneg A). assert (Hlt : zlen A < zlen array).
  { apply memcpy_inv in H1 as (_ & H1 & _). rewrite zlen_upd, zlen_cons, zlen_nil in H1; lia. }
  rewrite wr_ok in H1 by (rewrite zlen_upd; lia). injection H1 as <-. rewrite upd_null by done.
  unfold first_arg. fold A. by destruct A.
Qed.

End Answers.
