(* ===== verification/ServerFrame.v ===== *)
(** What a run of the agent does to the world, from what its system calls do. *)

From S2P Require Import Prelude CString Memory Store Protocol Os Config Net Client Frame Ini Task Server.

(** One step towards [respects] of an operation of the agent. *)
Section Rules.
Context {W : Type} `{!Kernel W} {allowed : syscall → bool} {R : world W → world W → Prop}.
Hypothesis Hfr : frame allowed R.
Abbreviation ok_w := (respects R (λ w : world W, w)).
Abbreviation ok := (respects R (@snd Server (world W))).

Lemma fr_on_world {A} (m : ST (world W) A) : ok_w m → ok (on_world m).
Proof.
  intros Hm [s w] a [s' w'] H. unfold on_world in H. apply bind_ok in H as ([b w1] & H1 & H). simplify_eq/=. by eapply Hm.
Qed.

Lemma fr_srv {A} (f : Server → A) : ok (srv f).
Proof. apply (fr_get Hfr). Qed.

Lemma fr_upd_srv f : ok (upd_srv f).
Proof. intros [s w] a [s' w'] H. unfold upd_srv, modify in H. simplify_eq/=. apply (fr_refl _ _ Hfr). Qed.

Lemma fr_for_down n (step : Z → ST (Server * world W) unit) : (∀ i, ok (step i)) → ok (for_down n step).
Proof.
  intros Hstep sw a sw' H. unfold for_down in H. apply bind_ok in H as (sw1 & H & [= _ <-]).
  revert sw H. induction n as [|n IH]; intros sw H; cbn in H; [simplify_eq; apply (fr_refl _ _ Hfr)|].
  apply bind_ok in H as (sw2 & H2 & H). apply bind_ok in H2 as ([[] sw3] & H2 & [= <-]).
  eapply (fr_trans _ _ Hfr); [by eapply Hstep|by apply IH].
Qed.
End Rules.

Ltac srv_step Hfr :=
  lazymatch goal with
  | |- respects _ _ (on_world _) => apply (fr_on_world)
  | |- respects _ _ (srv _) => apply (fr_srv Hfr)
  | |- respects _ _ (upd_srv _) => apply (fr_upd_srv Hfr)
  | |- respects _ _ (for_down _ _) => apply (fr_for_down Hfr); intros ?
  | _ => fr_step Hfr
  end.

Section Server.
Context {W : Type} `{!Kernel W} {allowed : syscall → bool} {R : world W → world W → Prop}.
Hypothesis Hfr : frame allowed R.
Hypothesis Hc : allows_plain (allowed := allowed).
Context (config : Config).
Abbreviation ok := (respects R (@snd Server (world W))).

Ltac step :=
  srv_step Hfr || (apply (fr_send_stream Hfr); exact Hc) || (apply (fr_nonblock Hfr); exact Hc) ||
  (apply (fr_timeouts Hfr); exact Hc) || by apply Hc.

Lemma fr_respond_text packet ty msg : ok (respond_text config packet ty msg).
Proof. unfold respond_text, with_text, server_respond, server_send. repeat step. Qed.

Lemma fr_respond_fmt packet ty before arg after : ok (respond_fmt config packet ty before arg after).
Proof. unfold respond_fmt. repeat (step || apply fr_respond_text). Qed.

Lemma fr_launch t : ok (server_task_launch config t).
Proof. unfold server_task_launch, child_process, exit_errno, make_pipe. repeat step. Qed.

Lemma fr_get_task name envs : ok (get_task config name envs).
Proof. unfold get_task, get_from_ws. repeat step. Qed.

Lemma fr_eval_packet packet : ok (server_eval_packet config packet).
Proof.
  unfold server_eval_packet, eval_task_run, eval_workspace_set, server_task_wait_match.
  repeat (step || apply fr_respond_text || apply fr_respond_fmt || apply fr_get_task || apply fr_launch).
Qed.

Lemma fr_queue_loop n completed k : ok (queue_loop n config completed k).
Proof. induction n as [|n IH]; cbn [queue_loop]; repeat (step || apply IH || apply fr_launch). Qed.

Lemma fr_handle_incoming : ok (server_handle_incoming config).
Proof. unfold server_handle_incoming. repeat step. Qed.

Lemma fr_check_activity : ok (server_check_activity config).
Proof. unfold server_check_activity. repeat step. Qed.

(** Reading is allowed, and whatever [connection_init] does. *)
Hypothesis Hread : ∀ fd n, allowed (Read fd n) = true.
Hypothesis Hconn : respects R (λ w : world W, w) (connection_init config).

Ltac step2 := step || apply (fr_sys_read Hfr Hread) || apply (fr_init_set Hfr).

Lemma fr_process_print p : ok (server_process_print config p).
Proof. unfold server_process_print, log_output, clear_buf. repeat step2. Qed.

Lemma fr_serve_client i : ok (serve_client config i).
Proof. unfold serve_client. repeat (step2 || apply fr_eval_packet). Qed.

Lemma fr_check_process i : ok (check_process config i).
Proof.
  unfold check_process, server_check_task_queue. repeat (step2 || apply fr_process_print || apply fr_queue_loop).
Qed.

Lemma fr_server_iteration : ok (server_iteration config).
Proof.
  unfold server_iteration.
  repeat (step2 || apply fr_check_activity || apply fr_handle_incoming || apply fr_serve_client || apply fr_check_process).
Qed.

Lemma fr_server_loop n : ok (server_loop n config).
Proof.
  induction n as [|n IH]; cbn [server_loop]; unfold server_cleanup; repeat (step2 || apply fr_server_iteration || apply IH).
Qed.

Lemma fr_server_start : respects R (λ w : world W, w) (server_start config).
Proof.
  unfold server_start. repeat (fr_step Hfr || apply Hconn || by apply Hc).
Qed.

Lemma fr_run_as_server n : respects R (λ w : world W, w) (run_as_server n config).
Proof.
  intros w a w' H. unfold run_as_server in H. apply bind_ok in H as ([start w1] & H1 & H).
  apply fr_server_start in H1. destruct start as [code|s]; [by simplify_eq|].
  apply bind_ok in H as ([[] [s' w2]] & H2 & H). simplify_eq. apply fr_server_loop in H2.
  by eapply (fr_trans _ _ Hfr).
Qed.
End Server.
