(* ===== verification/ServerSpec.v ===== *)
(** What the agent guarantees: its invariant, the answer to every message, the
    choice of the next queued task, what a launched task runs. *)

From S2P Require Import Prelude CString Memory Store Protocol Os Config Net Client Ini IniSpec IniFile Task Server ServerLogic Answer.
From S2P Require Stack.

(** ** Every message is answered once *)

Lemma cstr_copied (a b x : list byte) : no_nul x → memcpy a 0 (x ++ [NUL]) = Ok b → cstr b 0 = Ok x.
Proof. intros Hx (_ & _ & ->)%memcpy_inv. rewrite upd_0, <- app_assoc. by eapply (cstr_at _ 0 x). Qed.

Section Messages.
Context {W : Type} `{!Kernel W} (config : Config).
Let st := settings config.
Hypothesis Hbuf : 0 ≤ task_buf_size st.
Hypothesis Hvars : 0 ≤ task_var_max_count st.
Implicit Types (s : Server) (w : world W).

Lemma wait_match_post t s w Q : (∀ z, Q z (s, w)) → post (s, w) (server_task_wait_match t) Q.
Proof. intros H. unfold server_task_wait_match. psteps; apply H. Qed.

(** The message is evaluated; what it asks for, given its first argument, is replied to. *)
Abbreviation eval_post packet q arg s w := (λ (z : Z) (sw' : Server * world W),
  evaluated config packet s sw'.1 sw'.2 ∧
  (out_ready s w → ∃ x, argument (w_mem w) arg x ∧ replied config packet (q x) s w z sw'.1 sw'.2)).

(** The state [s] is that before the message but for tasks, processes and workspace. *)
Record untouched s0 s : Prop := {
  un_clients : sv_clients s = sv_clients s0;
  un_conn : sv_conn s = sv_conn s0;
  un_running : sv_running s = sv_running s0;
  un_workspace : zlen (sv_workspace s) = zlen (sv_workspace s0);
  un_tokens : zlen (ts_tokens (sv_stream s)) = zlen (ts_tokens (sv_stream s0));
  un_progress : progress config s0 s;
}.

Lemma untouched_refl s : untouched s s.
Proof. split; try done. by left. Qed.

Lemma untouched_evaluated packet s0 s s' w' :
  untouched s0 s → dismissed packet s s' w' → evaluated config packet s0 s' w'.
Proof. intros [] H. by eapply dismissed_evaluated. Qed.

Lemma quiet_out_ready s0 s w0 w : untouched s0 s → quiet_run w0 w → out_ready s0 w0 → out_ready s w.
Proof. intros [_ Hc _ _ _ _] [Hm _]. unfold out_ready. by rewrite Hc, Hm. Qed.

Lemma dismissed_kept packet s s' w' : dismissed packet s s' w' → kept s s'.
Proof. intros [-> _ _]. by split. Qed.

Lemma respond_ret_post packet ty before arg after (z : Z) q s0 w0 s w :
  untouched s0 s → quiet_run w0 w → no_nul (bytes_of_string before) → no_nul (bytes_of_string after) →
  (∀ x, argument (w_mem w0) arg x → outcome config s0 (q x) z ty (answer_text config before x after) s) →
  post (s, w) (respond_fmt config packet ty before arg after ≫= λ _, mret z) (eval_post packet q arg s0 w0).
Proof.
  intros Hs Hq Hb Ha Hout. pone. eapply post_mono; [apply respond_fmt_post|]. intros _ [s' w'] (Hd & x & Hx & Hsay).
  cbn [fst snd] in *. pone. split; [by eapply untouched_evaluated|]. intros Hready. exists x.
  rewrite (qr_mem _ _ Hq) in Hx. split; [done|]. exists ty, (answer_text config before x after). split.
  - apply (outcome_kept _ _ _ _ _ _ s); [by eapply dismissed_kept|by apply Hout].
  - apply (said_told _ _ _ _ w); [done|]. apply Hsay; [by eapply quiet_out_ready|done..].
Qed.

Lemma respond_text_ret_post packet ty msg (z : Z) q arg x s0 w0 s w :
  untouched s0 s → quiet_run w0 w → no_nul msg →
  argument (w_mem w0) arg x → outcome config s0 (q x) z ty msg s →
  post (s, w) (respond_text config packet ty msg ≫= λ _, mret z) (eval_post packet q arg s0 w0).
Proof.
  intros Hs Hq Hn Hx Hout. pone. eapply post_mono; [apply respond_text_post|]. intros _ [s' w'] (Hd & Hsay).
  cbn [fst snd] in *. pone. split; [by eapply untouched_evaluated|]. intros Hready. exists x.
  split; [done|]. exists ty, msg. split.
  - apply (outcome_kept _ _ _ _ _ _ s); [by eapply dismissed_kept|done].
  - apply (said_told _ _ _ _ w); [done|]. apply Hsay; [by eapply quiet_out_ready|done].
Qed.

(** A launch that succeeded: the answer, and the task leaves the store. *)
Lemma started_post packet arg k t l p s w w2 :
  slots_wf (sv_tasks s) → sl_push t (sv_tasks s) = (Some k, l) → quiet_run w w2 →
  0 < open_cnt (sv_processes s) → zlen (p_task_name p) = zlen (zeros (task_name_size st)) →
  post (set_processes (sl_push p (sv_processes s)).2 (set_tasks l s), w2)
    (_ ← respond_fmt config packet PROTOCOL_MSG_SUCCESS "Task '" arg "' started succesfully";
     _ ← upd_srv (λ s, set_tasks (sl_remove_at k (sv_tasks s)).2 s); mret 0)
    (eval_post packet RunTask arg s w).
Proof.
  intros Hwf Hpush Hq Hopen Hp. pone. eapply post_mono; [apply respond_fmt_post|].
  intros [] [s3 w3] ([Hs3 Ht3 Hc3] & x & Hx & Hsay). cbn [fst snd] in *.
  destruct (sl_remove_push _ _ _ _ Hwf Hpush) as [Hrem _].
  revert Hs3. generalize (sv_stream s3) Ht3. intros ts Hts ->. psteps. cbn [fst snd sv_tasks set_clients set_stream set_processes set_tasks].
  rewrite Hrem. split.
  - split; cbn; try done. right. left. split; [done|]. by exists p.
  - intros Hready. exists x. rewrite (qr_mem _ _ Hq) in Hx. split; [done|]. eexists _, _.
    split; [apply oc_started|].
    + split; [done|]. split; [done|]. by exists p.
    + apply (said_told _ _ _ _ w2); [done|]. apply Hsay; [|decided..]. unfold out_ready. by rewrite (qr_mem _ _ Hq).
Qed.

Lemma eval_task_run_post packet arg0 envs s w :
  slots_wf (sv_tasks s) → post (s, w) (eval_task_run config packet arg0 envs) (eval_post packet RunTask arg0 s w).
Proof.
  intros Hwf. unfold eval_task_run. pone.
  eapply post_mono; [apply post_and; [by apply get_task_post|apply get_task_quiet]|].
  intros [k|] [s1 w1] [Hload Hq]; unfold loaded in Hload; cbn [fst snd] in *.
  2: { subst s1. apply respond_ret_post; try decided; [apply untouched_refl|done|]. intros x _. by constructor. }
  destruct Hload as (t & Hpush & Hs1 & Hshape).
  revert Hpush Hs1. generalize (sv_tasks s1). intros l Hpush ->.
  assert (Hun : untouched s (set_tasks l s)) by (split; try done; right; right; by eauto).
  assert (Hst : stored s (set_tasks l s)) by (split; [by eauto|done]).
  do 5 pstep. apply wait_match_post. intros waits.
  pstep; [apply respond_ret_post; try decided; [done..|]; intros x _; by constructor|].
  pstep. eapply post_mono; [apply post_and; [apply launch_post|apply launch_quiet]|].
  intros z [s2 w2] [[[Hz Hs2]|(Hz & p & Hs2 & Hopen & Hp)] Hq2]; cbn [fst snd] in *; subst s2;
    (destruct (decide (z ≠ 0)); [try done|try done]); assert (Hq12 : quiet_run w w2) by (by transitivity w1).
  - apply respond_ret_post; try decided; [done..|]. intros x _. by constructor.
  - by apply (started_post packet arg0 k t l p s w w2).
Qed.

Lemma eval_workspace_set_post packet arg0 s w :
  post (s, w) (eval_workspace_set config packet arg0) (eval_post packet SetWorkspace arg0 s w).
Proof.
  unfold eval_workspace_set. pone.
  assert (Hany : ∀ Q : Z → _ → Prop, (∀ z w' x, quiet_run w w' → argument (w_mem w) arg0 x → Q z (s, w')) →
    post (s, w) (match arg0 with
      | None => mret (-1)
      | Some p => path ← on_world (with_mem (λ m, load_str m p)); on_world (call_ret (Access path))
      end) Q).
  { intros Q HQ. destruct arg0 as [p|]; [|pone; by apply (HQ _ _ None)]. do 2 pone.
    unfold with_mem in H. apply bind_ok in H as (path & Hp & [= <- <-]). pone.
    apply (HQ _ _ (Some path)); [quiet_tac|by eexists]. }
  apply Hany. intros ok w1 x Hq Hx.
  pstep; [apply (respond_text_ret_post _ _ _ _ _ _ x); try decided; [apply untouched_refl|done..|by constructor]|].
  do 2 pone. destruct arg0 as [p|]; [|done]. simplify_eq/=. destruct Hx as (path & -> & Hp).
  do 2 pone. unfold with_mem in H. apply bind_ok in H as (path' & Hp' & [= <- <-]).
  rewrite (qr_mem _ _ Hq), Hp in Hp'. injection Hp' as <-. do 6 pone.
  apply respond_ret_post; try decided; [|done|].
  - split; try done; [by eapply memcpy_zlen|by left].
  - intros y (path' & -> & Hp'). rewrite Hp in Hp'. injection Hp' as <-. constructor. split_and!; [done..|]. cbn.
    eapply cstr_copied; [|done]. by apply load_str_inv in Hp as (_ & _ & _ & Hp).
Qed.

Lemma eval_post_stream packet q arg ts s w z s' w' :
  zlen (ts_tokens ts) = zlen (ts_tokens (sv_stream s)) →
  eval_post packet q arg (set_stream ts s) w z (s', w') → eval_post packet q arg s w z (s', w').
Proof.
  intros Hts [[] Hrep]. cbn in *. split; [by split; [..|congruence| |]|]. intros Hready.
  destruct (Hrep Hready) as (x & Hx & ty & text & Ho & Htold). exists x. split; [done|]. exists ty, text.
  split; [|done]. by destruct Ho; constructor.
Qed.

(** The evaluation of a message. *)
Lemma eval_packet_post packet s w :
  slots_wf (sv_tasks s) → post (s, w) (server_eval_packet config packet) (λ z sw',
    evaluated config packet s sw'.1 sw'.2 ∧
    (out_ready s w → ∃ r ts q,
       protocol_read (pk_data packet) (buffer_size st) (sv_stream s) (w_mem w) = Ok (r, ts) ∧
       asks (w_mem w) r ts q ∧ replied config packet q s w z sw'.1 sw'.2)).
Proof.
  intros Hwf. unfold server_eval_packet. do 4 pstep. destruct a as [r ts].
  unfold with_mem in H. apply bind_ok in H as ([r' ts'] & H & [= <- <- <-]).
  pose proof (protocol_read_tokens _ _ _ _ _ H) as Hts. cbn [snd] in Hts. pone. pone.
  assert (Hany : ∀ q arg m, (∀ x, argument (w_mem w) arg x → asks (w_mem w) r' ts' (q x)) →
    post (set_stream ts' s, w) m (eval_post packet q arg (set_stream ts' s) w) →
    post (set_stream ts' s, w) m (λ z sw', evaluated config packet s sw'.1 sw'.2 ∧
      (out_ready s w → ∃ r ts q,
         protocol_read (pk_data packet) (buffer_size st) (sv_stream s) (w_mem w) = Ok (r, ts) ∧
         asks (w_mem w) r ts q ∧ replied config packet q s w z sw'.1 sw'.2))).
  { intros q arg m Hask Hm. eapply post_mono; [exact Hm|]. intros z [s1 w1] He.
    destruct (eval_post_stream packet q arg ts' s w z s1 w1 Hts He) as [H1 H2]. split; [done|]. intros Hready.
    destruct (H2 Hready) as (x & Hx & Hr). exists r', ts', (q x). split; [done|]. split; [by apply Hask|done]. }
  pstep.
  { apply (Hany (λ _, Unreadable) None); [intros x _; by constructor|].
    apply (respond_text_ret_post _ _ _ _ _ _ None); try decided; [apply untouched_refl|done..|by constructor]. }
  assert (r' = 0) as -> by (destruct (decide (r' = 0)); done).
  pstep. pstep. destruct a as [r2 [[ty args] vars]].
  apply parse_first_arg in H0 as [-> Hfirst]; [|by eapply protocol_read_length].
  rewrite decide_False by (intros Hx; by apply Hx). pstep.
  { pone. pone. rewrite Hfirst in H0. simplify_eq. do 2 pone.
    apply (Hany RunTask (first_arg ts')); [intros x; by constructor|by apply eval_task_run_post]. }
  pstep.
  { pone. pone. rewrite Hfirst in H0. simplify_eq.
    apply (Hany SetWorkspace (first_arg ts')); [intros x; by constructor|apply eval_workspace_set_post]. }
  apply (Hany (λ _, Unknown) None); [intros x _; by constructor|].
  apply (respond_text_ret_post _ _ _ _ _ _ None); try decided; [apply untouched_refl|done..|by constructor].
Qed.

Lemma eval_packet_evaluated packet s w :
  slots_wf (sv_tasks s) →
  post (s, w) (server_eval_packet config packet) (λ _ sw', evaluated config packet s sw'.1 sw'.2).
Proof. intros Hwf. eapply post_mono; [by apply eval_packet_post|]. by intros z sw' [? _]. Qed.

(** C9: every message that is evaluated is answered exactly once, whatever its
    contents: nothing is sent but one message to the client it came from, and after it
    the client's socket is closed and the client leaves the stack.  The type and the
    text of the answer say what has happened: an unreadable message, or one of a type
    that is not served, is an invalid command and changes nothing; a task was not found,
    was stored to wait for another, was stored because it could not be started, or was
    started; a workspace was not found, or was set.  Connection and sizes stay as they
    were. *)
Theorem server_eval_packet_answers packet s w z s' w' :
  slots_wf (sv_tasks s) → out_ready s w → server_eval_packet config packet (s, w) = Ok (z, (s', w')) →
  (∃ r ts q ty text,
     protocol_read (pk_data packet) (buffer_size st) (sv_stream s) (w_mem w) = Ok (r, ts) ∧
     asks (w_mem w) r ts q ∧ outcome config s q z ty text s' ∧ told packet ty text w w') ∧
  sv_clients s' = remove_client (pk_client packet) (sv_clients s) ∧
  sv_conn s' = sv_conn s ∧ zlen (sv_workspace s') = zlen (sv_workspace s) ∧
  zlen (ts_tokens (sv_stream s')) = zlen (ts_tokens (sv_stream s)).
Proof.
  intros Hwf Hready H. destruct (eval_packet_post packet s w Hwf z (s', w') H) as [[H1 H2 _ H4 H5 _ _] Hr].
  split; [|done]. destruct (Hr Hready) as (r & ts & q & Hread & Hask & ty & text & Ho & Ht).
  by exists r, ts, q, ty, text.
Qed.

End Messages.

(** ** The invariant of the agent *)

(** A table of [n] slots whose items satisfy [P]. *)
Record table_ok {A} (P : A → Prop) (n : Z) (t : slots A) : Prop := {
  tb_wf : slots_wf t;
  tb_size : zlen (sl_cells t) = n;
  tb_items i x : sl_get t i = Some x → P x;
}.

Lemma table_new {A} (P : A → Prop) n : 0 ≤ n → table_ok P n (sl_new n).
Proof.
  intros Hn. split; [by apply sl_new_wf|cbn; rewrite zlen_replicate; lia|].
  intros i x [_ Hx]%sl_get_Some. by apply lookup_replicate in Hx as [? _].
Qed.

Lemma table_push {A} (P : A → Prop) n t x : table_ok P n t → P x → table_ok P n (sl_push x t).2.
Proof.
  intros [Hwf Hn Hi] Hx. split; [by apply sl_push_wf| |].
  - unfold sl_push. destruct (sl_free t); [done|]. unfold zlen in *. cbn. by rewrite length_insert.
  - intros j y. destruct (sl_push x t) as [[k|] t'] eqn:E.
    + destruct (sl_remove_push _ _ _ _ Hwf E) as (_ & Hk & _). cbn [snd].
      destruct (decide (j = k)) as [->|Hj]; [rewrite Hk; by intros [= <-]|].
      rewrite (sl_push_other _ _ _ _ _ Hwf E Hj). apply Hi.
    + unfold sl_push in E. destruct (sl_free t); simplify_eq. apply Hi.
Qed.

Lemma table_remove {A} (P : A → Prop) n t i : table_ok P n t → table_ok P n (sl_remove_at i t).2.
Proof.
  intros [Hwf Hn Hi]. split; [by apply sl_remove_wf| |]; unfold sl_remove_at;
    (destruct (sl_get t i) eqn:E; [|done]); cbn [snd sl_cells].
  - unfold zlen in *. by rewrite length_insert.
  - intros j y [Hj Hy]%sl_get_Some. cbn in Hy. apply (Hi j), sl_get_Some. split; [done|].
    apply list_lookup_insert_Some in Hy as [(_ & ? & _)|[_ Hy]]; [done|exact Hy].
Qed.

Record settings_ok (st : Settings) : Prop := {
  se_tasks : 0 ≤ task_store_count st;
  se_processes : 0 ≤ process_store_count st;
  se_task_buf : 0 ≤ task_buf_size st;
  se_task_vars : 0 ≤ task_var_max_count st;
  se_name : 0 ≤ task_name_size st;
  se_clients : 0 ≤ max_clients st;
  se_workspace : 0 ≤ workspace_buf_size st;
  se_tokens : 0 ≤ protocol_token_count st;
}.

(** Tables that are consistent and of their configured sizes, at most [max_clients]
    clients, each a valid socket, buffers of their configured sizes. *)
Record server_ok (st : Settings) (s : Server) : Prop := {
  so_running : sv_running s = true;
  so_tasks : table_ok (task_shape (task_buf_size st) (task_var_max_count st)) (task_store_count st) (sv_tasks s);
  so_processes : table_ok (λ p, zlen (p_task_name p) = task_name_size st) (process_store_count st) (sv_processes s);
  so_clients : zlen (sv_clients s) ≤ max_clients st;
  so_sockets : Forall (λ z, 1 ≤ z) (sv_clients s);
  so_workspace : zlen (sv_workspace s) = workspace_buf_size st;
  so_tokens : zlen (ts_tokens (sv_stream s)) = protocol_token_count st;
}.

Lemma remove_client_subset i l : zlen (remove_client i l) ≤ zlen l ∧ ∀ x, x ∈ remove_client i l → x ∈ l.
Proof.
  unfold remove_client. destruct (_ && _) eqn:E; [|done]. unfold Stack.swap_remove.
  destruct (last l) as [y|] eqn:El; [|done]. split.
  - unfold zlen. rewrite length_take, length_insert. lia.
  - intros x Hx. apply elem_of_take in Hx as (j & Hx & _). apply last_Some_elem_of in El.
    apply list_lookup_insert_Some in Hx as [(_ & <- & _)|[_ Hx]]; [done|by eapply list_elem_of_lookup_2].
Qed.

Lemma server_ok_remove_client st i s : server_ok st s → server_ok st (set_clients (remove_client i (sv_clients s)) s).
Proof.
  intros []. destruct (remove_client_subset i (sv_clients s)) as [Hl Hs]. split; try done; cbn; [lia|].
  apply Forall_forall. intros x Hx%Hs. by eapply Forall_forall.
Qed.

Lemma server_ok_conn st c s : server_ok st s → server_ok st (set_conn c s).
Proof. intros []. by split. Qed.

Section Invariant.
Context {W : Type} `{!Kernel W} (config : Config).
Let st := settings config.
Hypothesis Hst : settings_ok st.
Implicit Types (s : Server) (w : world W).
Abbreviation keeps := (λ _ sw', server_ok st sw'.1).

Lemma server_ok_progress s s' :
  server_ok st s → sv_clients s' = sv_clients s → sv_running s' = sv_running s →
  zlen (sv_workspace s') = zlen (sv_workspace s) → zlen (ts_tokens (sv_stream s')) = zlen (ts_tokens (sv_stream s)) →
  progress config s s' → server_ok st s'.
Proof.
  intros [H1 H2 H3 H4 H5 H6 H7] Hc Hr Hw Ht Hp.
  split; rewrite ?Hc, ?Hr, ?Hw, ?Ht; try done.
  - destruct Hp as [[-> _]|[[-> _]|[_ (k & t & Ek & Hsh)]]]; [done..|].
    replace (sv_tasks s') with (sl_push t (sv_tasks s)).2 by (by rewrite Ek). by apply table_push.
  - destruct Hp as [[_ ->]|[[_ (p & -> & _ & Hp)]|[-> _]]]; [done| |done].
    apply table_push; [done|]. rewrite Hp, zlen_zeros; [done|]. apply Hst.
Qed.

Lemma server_ok_evaluated packet s s' w' : server_ok st s → evaluated config packet s s' w' → server_ok st s'.
Proof.
  intros Hok [Hc _ Hr Hw Ht Hp _].
  apply (server_ok_progress (set_clients (remove_client (pk_client packet) (sv_clients s)) s));
    [by apply server_ok_remove_client|done..].
Qed.

Lemma serve_client_ok i s w : server_ok st s → post (s, w) (serve_client config i) keeps.
Proof.
  intros Hok. unfold serve_client. pcase; [pone; by apply server_ok_remove_client|].
  pcase; [|by pone]. pcase.
  - pone. eapply post_mono; [by apply eval_packet_evaluated; apply Hst || apply Hok|].
    intros z [s' w''] Hev. pone. by eapply server_ok_evaluated.
  - pcase; [|by pone]. psteps. by apply server_ok_remove_client.
Qed.

Lemma launch_ok t s w : server_ok st s → post (s, w) (server_task_launch config t) keeps.
Proof.
  intros Hok. eapply post_mono; [apply launch_post|]. intros z [s' w'] [[_ ->]|(_ & p & -> & Ho & Hp)]; [done|].
  apply (server_ok_progress s); try done. right. left. split; [done|]. by exists p.
Qed.

Lemma queue_loop_ok n completed k s w : server_ok st s → post (s, w) (queue_loop n config completed k) keeps.
Proof.
  intros Hok. induction n as [|n IH]; cbn [queue_loop]; [by pone|]. pcase; [|apply IH].
  pcase; [|apply IH]. pone. eapply post_mono; [by apply launch_ok|]. intros z [s' w'] Hok'. cbn in Hok'.
  psteps; [done|]. destruct Hok'. split; try done. by apply table_remove.
Qed.

Lemma process_print_ok p s w : server_ok st s → post (s, w) (server_process_print config p) keeps.
Proof. intros Hok. unfold server_process_print, log_output. psteps; done. Qed.

Lemma check_process_ok i s w : server_ok st s → post (s, w) (check_process config i) keeps.
Proof.
  intros Hok. unfold check_process. pcase; [|by pone]. pcase; [|by apply process_print_ok].
  do 3 pone. eapply post_mono with (P := λ _ sw', sw'.1 = s); [by psteps|].
  intros _ [s' w''] Hs. cbn in Hs. subst s'. do 7 pone. unfold server_check_task_queue.
  assert (Hok' : server_ok st (set_processes (sl_remove_at i (sv_processes s)).2 s)).
  { destruct Hok. split; try done. by apply table_remove. }
  pcase; [by psteps|]. do 2 pone. eapply post_mono; [by apply queue_loop_ok|]. intros ? [] ?. by pone.
Qed.
Lemma handle_incoming_ok s w : server_ok st s → post (s, w) (server_handle_incoming config) keeps.
Proof.
  intros Hok. unfold server_handle_incoming. pcase; [|by pone]. pcase; [by pone|].
  pcase; [by psteps|]. pcase; [by pone|]. pcase; [by pone|]. psteps. destruct Hok. split; try done; cbn.
  - rewrite zlen_app, zlen_cons, zlen_nil. unfold st in *. lia.
  - apply Forall_app. split; [done|]. constructor; [lia|done].
Qed.

Lemma for_down_ok n step s w :
  server_ok st s → (∀ i s w, server_ok st s → post (s, w) (step i) keeps) → post (s, w) (for_down n step) keeps.
Proof. intros Hok Hstep. apply post_for_down; [done|]. intros i [s' w'] _ H. by apply Hstep. Qed.

Lemma server_iteration_ok s w : server_ok st s → post (s, w) (server_iteration config) keeps.
Proof.
  intros Hok. unfold server_iteration. do 7 pone.
  eapply post_mono with (P := keeps).
  { unfold server_check_activity. psteps; by apply server_ok_conn, server_ok_conn. }
  intros z [s1 w1] H1. pone. eapply post_mono; [by apply handle_incoming_ok|]. intros z1 [s2 w2] H2. do 3 pone.
  eapply post_mono; [apply for_down_ok; [done|]; intros; by apply serve_client_ok|]. intros [] [s3 w3] H3.
  do 2 pone. apply for_down_ok; [done|]. intros. by apply check_process_ok.
Qed.

Lemma server_loop_ok n s w : server_ok st s → post (s, w) (server_loop n config) keeps.
Proof.
  revert s w. induction n as [|n IH]; intros s w Hok; cbn [server_loop]; [by pone|]. pcase.
  - pone. eapply post_mono; [by apply server_iteration_ok|]. intros [] [s' w'] H. by apply IH.
  - destruct Hok. congruence.
Qed.

Lemma server_start_ok (w w' : world W) s : server_start config w = Ok (inr s, w') → server_ok st s.
Proof.
  intros H. destruct Hst. unfold server_start in H. st_inv. destruct x as [r conn].
  destruct (r <? 1); st_inv. destruct x1 as [ts|]; [|by st_inv]. case_decide; st_inv.
  unfold lift in E2. apply bind_ok in E2 as (o & E2 & [= -> _]). unfold protocol_tokenstream_alloc in E2.
  case_bool_decide; [|by simplify_eq]. unfold clear_tokens in E2. inv_ok.
  split; cbn; try done.
  - by apply table_new.
  - by apply table_new.
  - unfold zlen. rewrite length_take, length_app. unfold zeros. rewrite length_replicate. unfold st in *. lia.
  - erewrite memcpy_zlen by done. cbn. rewrite zlen_replicate. unfold st in *. lia.
Qed.

(** C2: in every state the agent reaches, its run loop is still running, the client
    stack holds at most [max_clients] valid sockets, the free lists of both stores are
    exactly their unused slots, and every task, process name, the workspace and the
    token stream have their configured sizes. *)
Theorem run_as_server_invariant n (w w' : world W) s :
  run_as_server n config w = Ok (inr s, w') → server_ok st s.
Proof.
  unfold run_as_server. intros H. apply bind_ok in H as ([[code|s0] w0] & H0 & H); [done|].
  apply server_start_ok in H0. apply bind_ok in H as ([[] [s1 w1]] & H1 & H). injection H as <- _.
  by apply (server_loop_ok n s0 w0 H0) in H1.
Qed.

End Invariant.

(** ** The queue *)

(** A finished task releases the tasks that do not wait and those that wait for a
    name it is a beginning of: the comparison stops at the end of its own name. *)
Definition releases (completed : list byte) (a : atask) : Prop :=
  match at_wait a with None => True | Some w => completed `prefix_of` w end.
#[export] Instance releases_dec completed a : Decision (releases completed a).
Proof. unfold releases. destruct (at_wait a); apply _. Defined.

(** What the stored tasks say. *)
Definition tasks_say (size max : Z) (t : slots Task) (says : Z → option atask) : Prop :=
  ∀ i, match sl_get t i, says i with
       | Some task, Some a => task_is size max task a
       | None, None => True
       | _, _ => False
       end.

Lemma opt_str_at t o s : opt_at t o s → opt_str (t_buf t) o = Ok s.
Proof. destruct o, s; try done. cbn. by intros [-> _]. Qed.

Lemma opt_at_no_nul t o s : opt_at t o (Some s) → no_nul s.
Proof. destruct o; [|done]. intros [H _]. by eapply cstr_no_nul. Qed.

Lemma released_spec size max t a completed :
  task_is size max t a → no_nul completed →
  released completed (length completed) t = Ok (bool_decide (releases completed a)).
Proof.
  intros Ht Hc. unfold released. rewrite (opt_str_at _ _ _ (ti_wait _ _ _ _ Ht)). cbn [mbind res_bind].
  destruct (at_wait a) as [w|] eqn:E; f_equal.
  - apply bool_decide_ext. unfold releases. rewrite E.
    pose proof (ti_wait _ _ _ _ Ht) as Hw. rewrite E in Hw. apply opt_at_no_nul in Hw. by apply strncmp_prefix.
  - rewrite bool_decide_eq_true_2; [done|]. unfold releases. by rewrite E.
Qed.

Section Queue.
Context {W : Type} `{!Kernel W} (config : Config) (size max : Z) (says : Z → option atask).
Context (completed : list byte) (Hc : no_nul completed).
Context (s : Server) (w : world W) (Hsays : tasks_say size max (sv_tasks s) says).

Lemma queue_loop_skip i :
  (∀ a, says (Z.of_nat i) = Some a → ¬ releases completed a) →
  queue_loop (S i) config completed (length completed) (s, w) =
  queue_loop i config completed (length completed) (s, w).
Proof.
  intros Hn. cbn [queue_loop]. unfold srv, get, mbind at 1, st_bind. cbn [fst].
  specialize (Hsays (Z.of_nat i)). destruct (sl_get (sv_tasks s) (Z.of_nat i)) as [t|]; [|done].
  destruct (says (Z.of_nat i)) as [a|]; [|done]. unfold lift, mbind at 1, st_bind.
  rewrite (released_spec size max t a) by done. cbn [mbind res_bind].
  by rewrite bool_decide_eq_false_2 by by apply Hn.
Qed.

Lemma queue_loop_none n :
  (∀ i a, 0 ≤ i < Z.of_nat n → says i = Some a → ¬ releases completed a) →
  queue_loop n config completed (length completed) (s, w) = Ok (-1, (s, w)).
Proof.
  induction n as [|n IH]; intros Hn; [done|]. rewrite queue_loop_skip.
  - apply IH. intros i a Hi. apply Hn. lia.
  - intros a. apply Hn. lia.
Qed.

(** Starting the task of slot [i]. *)
Definition start_queued (i : Z) (t : Task) : res (Z * (Server * world W)) :=
  '(status, (s', w')) ← server_task_launch config t (s, w);
  if decide (status ≠ 0) then Ok (-1, (s', w'))
  else Ok (0, (set_tasks (sl_remove_at i (sv_tasks s')).2 s', w')).

Lemma queue_loop_first n i t a :
  i < Z.of_nat n → sl_get (sv_tasks s) i = Some t → says i = Some a → releases completed a →
  (∀ j b, i < j < Z.of_nat n → says j = Some b → ¬ releases completed b) →
  queue_loop n config completed (length completed) (s, w) = start_queued i t.
Proof.
  intros Hi Hget Ha Hrel. induction n as [|n IH]; intros Hn.
  { apply sl_get_Some in Hget as [? _]. lia. }
  destruct (decide (i = Z.of_nat n)) as [->|Hne].
  2: { rewrite queue_loop_skip.
       - apply IH; [lia|]. intros j b Hj. apply Hn. lia.
       - intros b. apply Hn. lia. }
  cbn [queue_loop]. unfold srv, get, mbind at 1, st_bind. cbn [fst]. rewrite Hget.
  pose proof (Hsays (Z.of_nat n)) as Hs. rewrite Hget, Ha in Hs. unfold lift, mbind at 1, st_bind.
  rewrite (released_spec size max t a) by done. cbn [mbind res_bind]. rewrite bool_decide_eq_true_2 by done.
  unfold start_queued, mbind at 1, st_bind.
  destruct (server_task_launch config t (s, w)) as [[z [s' w']]|]; cbn [mbind res_bind]; [|done]. by case_decide.
Qed.

Lemma check_queue_first i t a :
  1 ≤ open_cnt (sv_processes s) → sl_get (sv_tasks s) i = Some t → says i = Some a → releases completed a →
  (∀ j b, i < j → says j = Some b → ¬ releases completed b) →
  server_check_task_queue config completed (length completed) (s, w) = start_queued i t.
Proof.
  intros Ho Hget Ha Hrel Hn. unfold server_check_task_queue. rewrite run_srv.
  destruct (Z.ltb_spec (open_cnt (sv_processes s)) 1); [lia|]. rewrite run_srv.
  apply (queue_loop_first _ i t a); try done.
  - apply sl_get_Some in Hget as [? Hlt]. apply lookup_lt_Some in Hlt. unfold capacity. lia.
  - intros j b [Hj _]. by apply Hn.
Qed.

(** C8: [server_check_task_queue] starts at most one task: among the stored tasks the
    finished one releases, that of the highest slot; its slot is freed when the launch
    succeeds.  Without a released task, or without a free process slot, nothing
    happens. *)
Theorem server_check_task_queue_picks :
  let run := server_check_task_queue config completed (length completed) (s, w) in
  (open_cnt (sv_processes s) < 1 → run = Ok (-1, (s, w))) ∧
  ((∀ i a, says i = Some a → ¬ releases completed a) → run = Ok (-1, (s, w))) ∧
  (∀ i t a, 1 ≤ open_cnt (sv_processes s) → sl_get (sv_tasks s) i = Some t → says i = Some a →
     releases completed a → (∀ j b, i < j → says j = Some b → ¬ releases completed b) →
     run = start_queued i t).
Proof.
  cbv zeta. split_and!; [| |apply check_queue_first]; unfold server_check_task_queue; rewrite run_srv; intros Hn;
    destruct (Z.ltb_spec (open_cnt (sv_processes s)) 1); try (done || lia).
  rewrite run_srv. apply queue_loop_none. intros i a _. apply Hn.
Qed.
End Queue.

(** ** Loading a task *)

Section Loading.
Context {W : Type} `{!Kernel W} (config : Config).
Let st := settings config.
Implicit Types (s : Server) (w : world W).

Definition blank_task (name : list byte) : atask := mkATask name None None None [].

Lemma new_task_is size max name :
  zlen name + 1 ≤ size → 0 ≤ max → no_nul name →
  ∃ t, task_write (zero_task size max) name NUL = Ok (0, t) ∧
    task_is size max (set_name (Some 0) t) (blank_task name) ∧ t_buf_loc t = zlen name + 1 ∧ t_var_count t = 0.
Proof.
  intros Hs Hm Hn. pose proof (zlen_nonneg name).
  assert (Hz : zlen (zeros size) = size) by (apply zlen_zeros; lia).
  eexists. rewrite task_write_ok by (cbn; lia). split; [reflexivity|].
  assert (Hx : zlen (name ++ [NUL]) = zlen name + 1) by (by rewrite zlen_app).
  split; [|split; [cbn; lia|done]]. split; try done; cbn -[upd].
  - rewrite zlen_upd by (cbn; lia). done.
  - lia.
  - pose proof (str_at_new (zero_task size max) name) as Hstr. apply Hstr; cbn; [lia|lia|done].
  - exists [], (Z.to_nat max). by split.
  - rewrite zlen_replicate. lia.
Qed.

(** What the sections named [name] say, and what they take. *)
Definition file_task (name : list byte) (cs : list call) : atask := foldl at_entry (blank_task name) cs.

Lemma get_from_ws_loads t name s w path lines :
  let r := (kcall (Fopen path) (w_os w)).1 in
  let cs := aparse ([], None) lines in
  task_is (task_buf_size st) (task_var_max_count st) t (blank_task name) → t_var_count t = 0 →
  cstr (sv_workspace s) 0 = Ok path → 0 ≤ r_ret r → file_of lines (r_data r) → file_fits ([], None) lines →
  t_buf_loc t + sumZ (map (entry_bytes name) cs) ≤ task_buf_size st →
  sumZ (map (entry_vars name) cs) ≤ task_var_max_count st →
  ∃ t' w', get_from_ws t (s, w) = Ok ((0, t'), (s, w')) ∧ w_mem w' = w_mem w ∧
    task_is (task_buf_size st) (task_var_max_count st) t' (file_task name cs) ∧
    t_buf_loc t' = t_buf_loc t + sumZ (map (entry_bytes name) cs) ∧
    t_var_count t' = zlen (at_vars (file_task name cs)).
Proof.
  intros r cs Ht Hv Hws Hr Hfile Hfit Hb Hn.
  destruct (load_entries _ _ cs t (blank_task name) Ht) as (t' & Hload & Ht' & Hl' & Hv');
    [done|by eapply file_no_nul|done|done|].
  exists t'. unfold get_from_ws. rewrite run_srv. rewrite (bind_lift _ _ _ path) by done.
  rewrite (run_on_world _ _ _ _ _ _ (run_call _ _)). fold r. destruct (Z.ltb_spec (r_ret r) 0); [lia|].
  rewrite (bind_lift _ _ _ (INI_OK, t')).
  2: { rewrite (ini_parse_run workspace_task_get lines) by done. unfold cs in Hload.
       rewrite aparse_arun, deliver_all_app in Hload. apply bind_ok in Hload as (d & -> & Hd). cbn [mbind res_bind].
       by rewrite Hd. }
  match goal with |- context [(on_world (call_ret ?c) ≫= ?k) (s, ?w1)] => destruct (run_call_ret c w1) as (w' & Hw' & Hm) end.
  rewrite (run_on_world _ _ _ _ _ _ Hw'). exists w'. by rewrite Hm.
Qed.

Lemma mapM_load m ps ss : Forall2 (λ q e, load_str m q = Ok e) ps ss → mapM (load_str m) ps = Ok ss.
Proof. induction 1 as [|q e ps ss H _ IH]; [done|]. cbn. rewrite H. cbn. by rewrite IH. Qed.

(** C7: [get_task] fills a free slot with what the workspace file says about the
    task: its command, directory and the task to wait for as last set in its
    sections, its variables in order, and the client's variables behind them, as long
    as everything fits into a slot.  A task without a command is refused and leaves
    the store as it was. *)
Theorem get_task_loads p name envs es path lines s w :
  let r := (kcall (Fopen path) (w_os w)).1 in
  let cs := aparse ([], None) lines in
  slots_wf (sv_tasks s) → 1 ≤ open_cnt (sv_tasks s) →
  load_str (w_mem w) p = Ok name → Forall2 (λ q e, load_str (w_mem w) q = Ok e) envs es →
  cstr (sv_workspace s) 0 = Ok path → 0 ≤ r_ret r → file_of lines (r_data r) → file_fits ([], None) lines →
  zlen name + 1 + sumZ (map (entry_bytes name) cs) + sumZ (map (λ e, zlen e + 1) es) ≤ task_buf_size st →
  sumZ (map (entry_vars name) cs) + zlen es ≤ task_var_max_count st →
  match at_cmd (file_task name cs) with
  | None => ∃ w', get_task config (Some p) envs (s, w) = Ok (None, (s, w'))
  | Some _ => ∃ k t tasks w',
      get_task config (Some p) envs (s, w) = Ok (Some k, (set_tasks tasks s, w')) ∧
      sl_push t (sv_tasks s) = (Some k, tasks) ∧
      task_is (task_buf_size st) (task_var_max_count st) t (foldl at_env (file_task name cs) es)
  end.
Proof.
  intros r cs Hwf Hopen Hname Henvs Hws Hr Hfile Hfit Hb Hn.
  pose proof (load_str_inv _ _ _ Hname) as (_ & _ & _ & Hnn).
  assert (Hes : Forall no_nul es).
  { apply Forall_forall. intros e He. apply list_elem_of_lookup in He as [i He].
    destruct (Forall2_lookup_r _ _ _ _ _ Henvs He) as (q & _ & Hq). by apply load_str_inv in Hq as (_ & _ & _ & Hq). }
  assert (0 ≤ sumZ (map (λ e : list byte, zlen e + 1) es) ∧ 0 ≤ sumZ (map (entry_bytes name) cs) ∧
          0 ≤ sumZ (map (entry_vars name) cs)) as (? & ? & ?).
  { split_and!; apply sumZ_nonneg, Forall_map, Forall_true; intros x; cbn;
      [pose proof (zlen_nonneg x); lia|apply entry_nonneg..]. }
  pose proof (zlen_nonneg name). pose proof (zlen_nonneg es).
  destruct (new_task_is (task_buf_size st) (task_var_max_count st) name) as (t1 & Hw1 & Ht1 & Hl1 & Hv1); [lia|lia|done|].
  destruct (open_cnt_push (zero_task (task_buf_size st) (task_var_max_count st)) (sv_tasks s)) as (k & l & Ek); [lia|].
  destruct (get_from_ws_loads (set_name (Some 0) t1) name (set_tasks l s) w path lines) as (t2 & w2 & Hget & Hm2 & Ht2 & Hl2 & Hv2);
    [done|done|done|done|done|done|cbn; rewrite Hl1; fold cs; lia|fold cs; lia|]. fold cs in Ht2, Hl2, Hv2.
  cbn in Hl2. rewrite Hl1 in Hl2.
  unfold get_task. rewrite run_srv. fold st. rewrite Ek, run_upd_srv.
  rewrite (run_on_world _ _ _ _ _ _ (with_mem_ok _ _ _ Hname)).
  rewrite (bind_lift _ _ _ _ Hw1). rewrite (st_bind_ok _ _ _ _ _ Hget). rewrite run_upd_srv.
  cbn [sv_tasks set_tasks]. pose proof (sl_push_update _ t2 _ _ _ Ek) as Ek2.
  rewrite decide_False by congruence.
  pose proof (ti_cmd _ _ _ _ Ht2) as Hcmd.
  destruct (t_cmd t2) as [q|], (at_cmd (file_task name cs)) as [c|]; try done.
  2: { rewrite run_upd_srv. cbn [sv_tasks set_tasks].
       destruct (sl_remove_push _ _ _ _ Hwf Ek2) as [Hrem _]. rewrite Hrem. eexists.
       unfold mret, st_ret. do 3 f_equal. by destruct s. }
  rewrite (run_on_world _ _ _ _ es w2) by (apply with_mem_ok; rewrite Hm2; by apply mapM_load).
  destruct (add_envs_spec (task_buf_size st) (task_var_max_count st) es t2 (file_task name cs) 0) as (t3 & Hadd & Ht3);
    [done|lia|lia|done|lia| |].
  { unfold file_task. rewrite at_entries_count. cbn. rewrite zlen_nil. lia. }
  rewrite (bind_lift _ _ _ _ Hadd), run_upd_srv. cbn [sv_tasks set_tasks].
  exists k, t3. eexists _, w2. split; [reflexivity|]. split; [by apply (sl_push_update t2)|done].
Qed.
End Loading.

(** ** Starting a task *)

Section Starting.
Context {W : Type} `{!Kernel W} (config : Config) (size max : Z).
Implicit Types (s : Server) (w : world W) (t : Task) (a : atask).

(** The environment is read up to its NULL, which is missing when every place of
    [vars] is taken. *)
Lemma exec_env_spec t a :
  task_is size max t a →
  exec_env (t_buf t) (t_vars t) = if decide (zlen (at_vars a) < max) then Ok (at_vars a) else Fault OutOfBounds.
Proof.
  intros Ht. destruct (ti_vars _ _ _ _ Ht) as (ps & k & Hps & Hf). pose proof (ti_max _ _ _ _ Ht) as Hmax.
  rewrite Hps in *. rewrite zlen_app, zlen_map in Hmax.
  pose proof (Forall2_length _ _ _ Hf) as Hlen. assert (Hz : zlen (at_vars a) = zlen ps) by (unfold zlen; lia).
  rewrite Hz. clear Hps Ht Hz Hlen. revert max Hmax. induction Hf as [|p v ps vs [Hp _] _ IH]; intros n Hn.
  - cbn [map app]. rewrite zlen_nil in *. rewrite zlen_replicate in Hn.
    destruct k as [|k]; cbn; case_decide; (done || lia).
  - cbn [map app exec_env]. rewrite Hp. cbn [mbind res_bind]. rewrite zlen_cons in *.
    rewrite (IH (n - 1)) by lia. destruct (decide (zlen ps < n - 1)), (decide (1 + zlen ps < n)); try lia; done.
Qed.

(** What the child does before [execve], and the [execve]. *)
Definition child_setup (out_w err_w : Z) a : list syscall :=
  [Dup2 out_w 1; Dup2 err_w 2] ++ match at_dir a with Some d => [Chdir d] | None => [] end.
Definition child_exec a : syscall :=
  Execve (cmd_bin_path (settings config))
    (cmd_bin_path (settings config) :: bytes_of_string "-c" :: match at_cmd a with Some c => [c] | None => [] end)
    (at_vars a).

Definition call_failed (e : syscall * sysres) : Prop :=
  match e.1 with Chdir _ => r_ret e.2 ≠ 0 | _ => r_ret e.2 < 0 end.
Abbreviation went_well := (Forall (λ e, ¬ call_failed e)).

(** The calls of a child with their results, and the code it exits with: it stops at the
    first call of the setup that fails; it becomes the command; or the command could not
    be executed. *)
Inductive child_run (out_w err_w : Z) a : list (syscall * sysres) → option Z → Prop :=
| child_stops pre c r rest e :
    child_setup out_w err_w a = map fst pre ++ c :: rest → went_well pre → call_failed (c, r) →
    child_run out_w err_w a (pre ++ [(c, r); (Errno, e)]) (Some (r_ret e))
| child_becomes pre r :
    map fst pre = child_setup out_w err_w a → went_well pre → ¬ call_failed (child_exec a, r) →
    child_run out_w err_w a (pre ++ [(child_exec a, r)]) None
| child_refused pre r r1 r2 e :
    map fst pre = child_setup out_w err_w a → went_well pre → call_failed (child_exec a, r) →
    child_run out_w err_w a (pre ++ [(child_exec a, r); (Close out_w, r1); (Close err_w, r2); (Errno, e)])
      (Some (r_ret e)).

(** One more call: it is made, and the trace says so. *)
Lemma step_call {B} c (k : Z → ST (Server * world W) B) s w :
  ∃ r w', (on_world (call_ret c) ≫= k) (s, w) = k (r_ret r) (s, w') ∧ w_trace w' = w_trace w ++ [(c, r)].
Proof.
  exists (kcall c (w_os w)).1. eexists.
  split; [|shelve]. apply run_on_world. unfold call_ret, mbind, st_bind. rewrite run_call. reflexivity.
  Unshelve. done.
Qed.

Lemma last_calls s w :
  ∃ e w', exit_errno (s, w) = Ok (Some (r_ret e), (s, w')) ∧ w_trace w' = w_trace w ++ [(Errno, e)].
Proof.
  unfold exit_errno. destruct (step_call Errno (λ code, mret (Some code)) s w) as (e & w' & E & T).
  exists e, w'. by rewrite E.
Qed.

Ltac step_run :=
  match goal with
  | |- context [(on_world (call_ret ?c) ≫= ?k) (?s, ?w)] =>
      let r := fresh "r" in let w' := fresh "w" in let E := fresh "E" in let T := fresh "T" in
      destruct (step_call c k s w) as (r & w' & E & T); rewrite E; clear E
  end.

(** The world of the goal is the one of the run; its trace is put together. *)
Ltac stop_run :=
  try match goal with
  | |- context [exit_errno (?s, ?w)] =>
      let e := fresh "e" in let w' := fresh "w" in let E := fresh "E" in let T := fresh "T" in
      destruct (last_calls s w) as (e & w' & E & T); rewrite E; clear E
  end;
  eexists _, _, _; split; [reflexivity|];
  split; [repeat match goal with H : w_trace ?x = _ |- context [w_trace ?x] => rewrite H; clear H end;
          rewrite <- !app_assoc; reflexivity|].
Ltac went_well := repeat constructor; unfold call_failed; cbn; (done || lia).

(** C16: a task's child process redirects its output to the two pipes, changes into the
    task's directory, if it has one, and executes the configured shell with "-c", the
    task's command and exactly the task's variables as environment.  It stops at the
    first of these calls that fails, and exits with [errno]; an [execve] that succeeds
    is the last call it makes. *)
Theorem child_process_follows_plan out_w err_w t a s w :
  task_is size max t a → zlen (at_vars a) < max →
  ∃ code tr w',
    child_process config out_w err_w t (s, w) = Ok (code, (s, w')) ∧ w_trace w' = w_trace w ++ tr ∧
    child_run out_w err_w a tr code.
Proof.
  intros Ht Hn. unfold child_process. step_run.
  destruct (Z.ltb_spec (r_ret r) 0); [stop_run; eapply (child_stops _ _ _ []); [reflexivity|went_well|done]|].
  step_run. destruct (Z.ltb_spec (r_ret r0) 0).
  { stop_run. eapply (child_stops _ _ _ [_]); [reflexivity|went_well|done]. }
  rewrite (bind_lift _ _ _ _ (opt_str_at _ _ _ (ti_cmd _ _ _ _ Ht))),
    (bind_lift _ _ _ _ (opt_str_at _ _ _ (ti_dir _ _ _ _ Ht))).
  assert (Henv : exec_env (t_buf t) (t_vars t) = Ok (at_vars a)) by (by rewrite (exec_env_spec t a), decide_True).
  destruct (at_dir a) as [d|] eqn:Hdir; [step_run|rewrite run_mret].
  - destruct (decide (r_ret r1 ≠ 0)) as [Hd|Hd].
    { stop_run. eapply (child_stops _ _ _ [_; _] _ _ []); [unfold child_setup; by rewrite Hdir|went_well|done]. }
    rewrite (bind_lift _ _ _ _ Henv). step_run. destruct (Z.ltb_spec (r_ret r2) 0); [do 2 step_run|]; stop_run.
    + apply (child_refused _ _ _ [_; _; _]); [unfold child_setup; by rewrite Hdir|went_well|done].
    + apply (child_becomes _ _ _ [_; _; _]); [unfold child_setup; by rewrite Hdir|went_well|]. unfold call_failed. cbn. lia.
  - rewrite decide_False by (intros Hx; by apply Hx).
    rewrite (bind_lift _ _ _ _ Henv). step_run. destruct (Z.ltb_spec (r_ret r1) 0); [do 2 step_run|]; stop_run.
    + apply (child_refused _ _ _ [_; _]); [unfold child_setup; by rewrite Hdir|went_well|done].
    + apply (child_becomes _ _ _ [_; _]); [unfold child_setup; by rewrite Hdir|went_well|]. unfold call_failed. cbn. lia.
Qed.

(** The calls a pipe takes. *)
Definition pipe_calls (rd wr : Z) (tr : list (syscall * sysres)) : Prop :=
  ∃ r1 r2 r3 rest, tr = [(Pipe, r1); (Getfl rd, r2); (Setfl_nonblock rd (r_ret r2), r3)] ∧ r_fds r1 = rd :: wr :: rest.

Lemma make_pipe_calls s w :
  post (s, w) make_pipe (λ r sw', sw'.1 = s ∧
    match r with None => True | Some (rd, wr) => ∃ tr, w_trace sw'.2 = w_trace w ++ tr ∧ pipe_calls rd wr tr end).
Proof.
  unfold make_pipe. pcase; [by pone|]. apply call_inv in H as [_ T1].
  destruct (r_fds a) as [|rd [|wr rest]] eqn:Efds; [by pone..|].
  do 2 pone. unfold socket_set_nonblock in H. st_inv. apply call_ret_inv in E as (r2 & -> & _ & T2).
  destruct (decide (r_ret r2 = -1)); st_inv; [by pcase; pone|].
  apply call_ret_inv in H as (r3 & -> & _ & T3). pcase; pone; [done|]. split; [done|]. cbn [snd].
  exists [(Pipe, a); (Getfl rd, r2); (Setfl_nonblock rd (r_ret r2), r3)].
  rewrite T3, T2, T1, <- !app_assoc. split; [done|]. by eexists _, _, _, _.
Qed.

(** A string copied to the front of a zeroed array. *)
Lemma cstr_copied_zeros n x b : no_nul x → zlen x + 1 ≤ n → memcpy (zeros n) 0 x = Ok b → cstr b 0 = Ok x.
Proof.
  intros Hx Hn (_ & _ & ->)%memcpy_inv. rewrite upd_0. apply cstr_sub; [done..|].
  pose proof (zlen_nonneg x). unfold sub, zeros. rewrite drop_0, drop_replicate.
  replace (Z.to_nat (zlen x + 1)) with (length x + 1)%nat by (unfold zlen; lia). rewrite take_app_add.
  by destruct (Z.to_nat n - length x)%nat eqn:E; [unfold zlen in *; lia|].
Qed.

(** C22: a launch that reports success has made two pipes, forked and recorded the
    child: a process entry with its pid, the reading ends of the pipes and the task's
    name, and nothing else changed.  These are all the calls it makes: the writing ends
    of the pipes stay open in the server. *)
Theorem server_task_launch_records t a s w :
  task_is size max t a → zlen (at_name a) + 1 ≤ task_name_size (settings config) →
  post (s, w) (server_task_launch config t) (λ z sw', z = 0 →
    ∃ out_r out_w err_r err_w tr1 tr2 child now p,
      w_trace sw'.2 = w_trace w ++ tr1 ++ tr2 ++ [(Fork, child); (Time, now)] ∧
      pipe_calls out_r out_w tr1 ∧ pipe_calls err_r err_w tr2 ∧ 0 < r_ret child ∧
      p_pid p = r_ret child ∧ p_start_time p = r_ret now ∧ p_out_fd_r p = out_r ∧ p_err_fd_r p = err_r ∧
      cstr (p_task_name p) 0 = Ok (at_name a) ∧
      sw'.1 = set_processes (sl_push p (sv_processes s)).2 s).
Proof.
  intros Ht Hname. unfold server_task_launch. pcase; [by pone|].
  pone. eapply post_mono; [apply make_pipe_calls|]. intros [[out_r out_w]|] [s1 w1] [Hs1 H1]; cbn [fst] in Hs1; subst s1;
    [|by pone]. destruct H1 as (tr1 & T1 & P1).
  pone. eapply post_mono; [apply make_pipe_calls|]. intros [[err_r err_w]|] [s1 w2] [Hs1 H2]; cbn [fst] in Hs1; subst s1;
    [|by pone]. destruct H2 as (tr2 & T2 & P2). cbn [snd] in *.
  pcase; [by pone|]. apply call_ret_inv in H as (child & -> & _ & T3). pcase.
  - pone. eapply post_mono; [apply post_true|]. intros code sw' _. by apply post_lift.
  - destruct (open_cnt_push (zero_process (task_name_size (settings config))) (sv_processes s)) as (k & l & Ek); [lia|].
    rewrite Ek. psteps. apply call_ret_inv in H as (now & -> & _ & T4). intros _.
    exists out_r, out_w, err_r, err_w, tr1, tr2, child, now, (mkProcess (r_ret now) (r_ret child) a3 out_r err_r). cbn [fst snd sv_processes set_processes].
    rewrite (sl_update_push _ _ _ _ _ Ek). split_and!; [|done|done|lia|reflexivity..| |reflexivity].
    { rewrite T4, T3, T2, T1, <- !app_assoc. done. }
    cbn [p_task_name]. pose proof (ti_name _ _ _ _ Ht) as Hn. rename H0 into Hq, H1 into Hs, H2 into Hcpy.
    destruct (t_name t) as [q|]; [|done]. destruct Hn as [Hn _]. simplify_eq/=.
    apply (cstr_copied_zeros (task_name_size (settings config))); [by eapply cstr_no_nul|done|congruence].
Qed.

End Starting.

(** ** The output of tasks *)

Section Output.
Context {W : Type} `{!Kernel W} (config : Config).
Let size := buffer_size (settings config).

Lemma clear_buf_ok n (w : world W) b a :
  w_mem w !! b = Some a → 0 ≤ n ≤ zlen a →
  clear_buf (Some (b, 0)) n w = Ok (tt, set_mem (<[b := upd a 0 (zeros n)]> (w_mem w)) w).
Proof.
  intros Hb Ha. unfold clear_buf. rewrite (bind_lift _ _ _ (b, 0)) by done.
  unfold on_mem, modify_res, store_zeros. by rewrite (store_n_ok _ _ _ a) by (rewrite ?zlen_zeros; done || lia).
Qed.

Lemma FD_ISSET_ok fd flags : 0 ≤ fd < FD_SETSIZE → FD_ISSET fd flags = Ok (bool_decide (fd ∈ flags)).
Proof.
  intros H. unfold FD_ISSET. destruct (Z.leb_spec 0 fd), (Z.ltb_spec fd FD_SETSIZE); (done || lia).
Qed.

(** A buffer of zeros that received [x]: a C string, unless [x] fills it. *)
Lemma filled_str (m : mem) b x :
  m !! b = Some (upd (zeros size) 0 x) → no_nul x → zlen x ≤ size →
  load_str m (b, 0) = if zlen x <? size then Ok x else Fault OutOfBounds.
Proof.
  intros Hb Hx Hz. pose proof (zlen_nonneg x). unfold load_str, block. cbn [fst snd]. rewrite Hb. cbn [of_option mbind res_bind].
  destruct (Z.ltb_spec (zlen x) size).
  - apply (cstr_copied_zeros size); [done|lia|]. apply memcpy_ok; rewrite ?zlen_zeros; lia.
  - unfold cstr. cbn. rewrite upd_0. replace (drop (length x) (zeros size)) with (@nil byte).
    + rewrite app_nil_r. destruct (until_nul x) eqn:E; [|by cbn; rewrite E].
      apply until_nul_split in E as [l' ->]. exfalso. apply Hx. rewrite elem_of_app, elem_of_cons. auto.
    + symmetry. apply drop_ge. unfold zeros, zlen in *. rewrite length_replicate. lia.
Qed.

Lemma log_output_ok p name b x (s : Server) (w : world W) :
  cstr (p_task_name p) 0 = Ok name → load_str (w_mem w) (b, 0) = Ok x →
  ∃ r os, log_output p (b, 0) (s, w) =
    Ok (tt, (s, mkWorld os (w_mem w) (w_trace w ++ [(Print stdout (bytes_of_string "[" ++ name ++ bytes_of_string "] " ++ x), r)]))).
Proof.
  intros Hname Hstr. unfold log_output.
  rewrite (bind_lift _ _ _ _ Hname), (run_on_world _ _ _ _ _ _ (with_mem_ok _ _ _ Hstr)).
  rewrite (run_on_world _ _ _ _ _ _ (run_call _ _)). by eexists _, _.
Qed.

(** C33: the output of a running task is logged under its name, up to one buffer at a
    time.  Output that fills the whole buffer leaves no place for the NUL that ends the
    text, and logging it reads behind the buffer. *)
Theorem server_process_print_output p name b a x (s : Server) (w : world W) :
  c_in_buf (sv_conn s) = Some (b, 0) → w_mem w !! b = Some a → zlen a = size →
  0 ≤ p_out_fd_r p < FD_SETSIZE → p_out_fd_r p ∈ c_read_flags (sv_conn s) →
  0 ≤ p_err_fd_r p < FD_SETSIZE → p_err_fd_r p ∉ c_read_flags (sv_conn s) →
  cstr (p_task_name p) 0 = Ok name →
  (kcall (Read (p_out_fd_r p) size) (w_os w)).1 = ret_data x → 0 < zlen x ≤ size → no_nul x →
  if zlen x <? size then
    ∃ r w', server_process_print config p (s, w) = Ok (tt, (s, w')) ∧
      w_trace w' = w_trace w ++ [(Read (p_out_fd_r p) size, ret_data x);
        (Print stdout (bytes_of_string "[" ++ name ++ bytes_of_string "] " ++ x), r)]
  else server_process_print config p (s, w) = Fault OutOfBounds.
Proof.
  intros Hin Hb Ha Hout Hflag Herr Hnflag Hname Hread Hx Hn.
  set (w1 := set_mem (<[b := zeros size]> (w_mem w)) w).
  assert (Hclear : clear_buf (Some (b, 0)) size w = Ok (tt, w1)).
  { rewrite (clear_buf_ok size w b a) by (done || lia). rewrite upd_0, drop_ge, app_nil_r; [done|].
    unfold zeros, zlen in *. rewrite length_replicate. lia. }
  assert (Hz : zlen (zeros size) = size) by (apply zlen_zeros; lia).
  pose proof (sys_read_ok (p_out_fd_r p) size w1 b (zeros size) x Hread) as Hr.
  rewrite Hz in Hr. specialize (Hr Hx ltac:(apply lookup_insert_eq)).
  match type of Hr with _ = Ok (_, ?w0) => set (w2 := w0) in Hr end.
  assert (Hm : w_mem w2 !! b = Some (upd (zeros size) 0 x)) by apply lookup_insert_eq.
  pose proof (filled_str (w_mem w2) b x Hm Hn ltac:(lia)) as Hstr.
  unfold server_process_print. fold size. rewrite run_srv, (bind_lift _ _ _ (b, 0)) by (by rewrite Hin).
  rewrite (run_on_world _ _ _ _ _ _ Hclear).
  rewrite (bind_lift _ _ _ true) by (rewrite FD_ISSET_ok by done; by rewrite bool_decide_eq_true_2).
  cbv beta iota.
  assert (Hread' : ∀ (k : Z → ST (Server * world W) unit), (on_world (sys_read (p_out_fd_r p) (b, 0) size) ≫= k) (s, w1) = k (zlen x) (s, w2))
    by (intros k; by apply run_on_world).
  destruct (Z.ltb_spec (zlen x) size).
  - destruct (log_output_ok p name b x s w2 Hname Hstr) as (r & os & Hlog).
    match type of Hlog with _ = Ok (_, (_, ?w0)) => set (w3 := w0) in Hlog end.
    pose proof (clear_buf_ok (zlen x) w3 b _ Hm ltac:(rewrite zlen_upd by lia; lia)) as Hc.
    eexists r, _. split.
    { rewrite (st_bind_ok _ _ (s, w1) tt (s, set_mem (<[b := upd (upd (zeros size) 0 x) 0 (zeros (zlen x))]> (w_mem w3)) w3)).
      - rewrite (bind_lift _ _ _ false) by (rewrite FD_ISSET_ok by done; by rewrite bool_decide_eq_false_2). reflexivity.
      - rewrite Hread'. rewrite Z.gtb_ltb. destruct (Z.ltb_spec 0 (zlen x)); [|lia].
        rewrite (st_bind_ok _ _ _ _ _ Hlog). unfold on_world. by rewrite Hc. }
    cbn. by rewrite <- app_assoc.
  - unfold mbind at 1, st_bind. rewrite Hread', Z.gtb_ltb. destruct (Z.ltb_spec 0 (zlen x)); [|lia].
    unfold log_output, mbind at 1, st_bind. rewrite (bind_lift _ _ _ _ Hname).
    unfold mbind at 1, st_bind, on_world at 1, with_mem. by rewrite Hstr.
Qed.
End Output.

(** ** An agent at work *)

(** A message as it lies in [in_buf]. *)
Definition demo_message (ty : Z) (l : list wtoken) : list byte :=
  let w := wire ty (zlen l) l in int_le (zlen w + 8) ++ w ++ zeros 4.
Definition demo_run_web : list byte :=
  demo_message PROTOCOL_MSG_TASK_RUN
    [(PROTOCOL_TOKEN_ARG, bytes_of_string "web"); (PROTOCOL_TOKEN_VAR, bytes_of_string "A=1"); (PROTOCOL_TOKEN_NONE, [])].

(** A workspace with a task "web". *)
Definition demo_ws_lines : list aline :=
  [LSection (bytes_of_string "web"); LEntry s_cmd (bytes_of_string "make");
   LEntry s_wait (bytes_of_string "build"); LEntry (bytes_of_string "X") (bytes_of_string "5")].
Definition demo_ws : list byte := print_lines demo_ws_lines.

(** Two pipes, a child with pid 99, the time. *)
Definition demo_launch : list sysres :=
  [ret_fds [10; 11]; ret 0; ret 0; ret_fds [12; 13]; ret 0; ret 0; ret 99; ret 1000].

(** A task in a slot of 16 bytes and two variables. *)
Definition demo_atask : atask :=
  mkATask (bytes_of_string "web") (Some (bytes_of_string "make")) None (Some (bytes_of_string "build")) [].
Definition demo_task : Task :=
  mkTask 15 0 (Some 4) None (Some 9) (Some 0)
    (bytes_of_string "web" ++ [NUL] ++ bytes_of_string "make" ++ [NUL] ++ bytes_of_string "build" ++ zeros 2) [None; None].

Lemma demo_task_is : task_is 16 2 demo_task demo_atask.
Proof. split; try (by vm_compute). by exists [], 2%nat. Qed.

(** An agent with one queued task and two clients. *)
Definition demo_tasks : slots Task := (sl_push demo_task (sl_new 2)).2.
Definition demo_server : Server :=
  mkServer true (mkConn 3 9999 {[7; 10]} ∅ (Some (10%positive, 0)) (Some (20%positive, 0)))
    (bytes_of_string "ws" ++ zeros 254) (empty_stream 30) [7; 8] (sl_new 5) demo_tasks.
Definition demo_server_mem (inbox : list byte) : mem :=
  {[10%positive := upd (zeros 1024) 0 inbox; 20%positive := zeros 1024; 21%positive := bytes_of_string "web" ++ [NUL];
    22%positive := bytes_of_string "A=1" ++ [NUL]]}.

Lemma demo_tasks_say :
  tasks_say 16 2 demo_tasks (λ i, if decide (i = 0) then Some demo_atask else None).
Proof.
  intros i. case_decide as Hi; [subst; exact demo_task_is|].
  destruct (sl_get demo_tasks i) as [t|] eqn:E; [|done]. apply sl_get_Some in E as [? E].
  destruct (Z.to_nat i) as [|[|n]] eqn:En; [lia|done|done].
Qed.

Lemma demo_tasks_wf : slots_wf demo_tasks.
Proof. by apply sl_push_wf, sl_new_wf. Qed.

Lemma server_eval_packet_answers_witness
    (w := mkWorld ([mkRes 8 demo_ws []; ret 0] ++ demo_launch ++ [ret 50; ret 0]) (demo_server_mem demo_run_web) []) :
  match server_eval_packet demo_config_server (mkPacket 7 0 60 (10%positive, 0)) (demo_server, w) with
  | Ok (z, (s', w')) =>
      z = 0 ∧ sv_clients s' = [8] ∧
      ∃ q ty text, outcome demo_config_server demo_server q 0 ty text s' ∧
        told (mkPacket 7 0 60 (10%positive, 0)) ty text w w'
  | Fault _ => False
  end.
Proof.
  run_demo E. match type of E with _ = Ok (?z, _) => assert (z = 0) as -> by (vm_compute in E; by injection E) end.
  split; [done|].
  apply (server_eval_packet_answers demo_config_server) in E as ((r & ts & q & ty & text & _ & _ & H1 & H2) & H3 & _);
    [|done|done|exact demo_tasks_wf|].
  - split; [exact H3|]. by exists q, ty, text.
  - exists 20%positive, (zeros 1024). split_and!; [done|done|]. by rewrite zlen_zeros.
Defined.

(** A client connects, asks for the task and gets it started. *)
Lemma run_as_server_invariant_witness :
  match run_as_server 2 demo_config_server
          (mkWorld ([ret 3; ret 1; ret 1; ret 0; ret 0; ret 0; ret 0; ret 0; mkRes 1 (bytes_of_string "ws") []; ret 1; ret 1; ret 1; ret 1] ++
              [mkRes 1 [] [3]; ret 7; ret 0; ret 0; ret 0; ret 0] ++
              [mkRes 1 [] [7]; ret_data demo_run_web; mkRes 8 demo_ws []; ret 0] ++ demo_launch ++ [ret 50; ret 0; ret 0])
             ∅ []) with
  | Ok (r, (w)) => match r with inr s => server_ok config_default_settings s | inl _ => False end
  | Fault _ => False
  end.
Proof.
  match goal with |- match ?m with _ => _ end => destruct m as [[[z|s] w]|f] eqn:E; [by vm_compute in E| |by vm_compute in E] end.
  apply (run_as_server_invariant demo_config_server) in E; [exact E|by split].
Defined.

Lemma server_check_task_queue_picks_witness (w := mkWorld demo_launch (demo_server_mem []) []) :
  server_check_task_queue demo_config_server (bytes_of_string "build") 5 (demo_server, w) =
  start_queued demo_config_server demo_server w 0 demo_task.
Proof.
  apply (server_check_task_queue_picks (W := list sysres) demo_config_server 16 2 _ (bytes_of_string "build") ltac:(decided)
    demo_server w demo_tasks_say) with (a := demo_atask); try done.
  - by exists [].
  - intros j b Hj. by rewrite decide_False by lia.
Defined.

Lemma get_task_loads_witness :
  ∃ k t tasks w',
    get_task demo_config_server (Some (21%positive, 0)) [(22%positive, 0)]
      (demo_server, mkWorld [mkRes 8 demo_ws []] (demo_server_mem []) []) = Ok (Some k, (set_tasks tasks demo_server, w')) ∧
    sl_push t demo_tasks = (Some k, tasks) ∧
    task_is 1024 30 t (mkATask (bytes_of_string "web") (Some (bytes_of_string "make")) None
      (Some (bytes_of_string "build")) [bytes_of_string "X=5"; bytes_of_string "A=1"]).
Proof.
  apply (get_task_loads demo_config_server (21%positive, 0) (bytes_of_string "web") [(22%positive, 0)]
    [bytes_of_string "A=1"] (bytes_of_string "ws") demo_ws_lines demo_server
    (mkWorld [mkRes 8 demo_ws []] (demo_server_mem []) [])); try (by vm_compute).
  - exact demo_tasks_wf.
  - by repeat constructor.
  - apply print_lines_file. decided.
Defined.

(** The shell is not there: error 2. *)
Lemma child_process_follows_plan_witness :
  ∃ code tr w',
    child_process demo_config_server 11 13 demo_task
      (demo_server, mkWorld [ret 1; ret 2; ret (-1); ret 0; ret 0; ret 2] ∅ []) = Ok (code, (demo_server, w')) ∧
    w_trace w' = [] ++ tr ∧ child_run demo_config_server 11 13 demo_atask tr code.
Proof.
  exact (child_process_follows_plan demo_config_server 16 2 11 13 _ _ demo_server
    (mkWorld [ret 1; ret 2; ret (-1); ret 0; ret 0; ret 2] ∅ []) demo_task_is eq_refl).
Defined.

Lemma server_task_launch_records_witness :
  match server_task_launch demo_config_server demo_task (demo_server, mkWorld demo_launch ∅ []) with
  | Ok (_, (s, w)) => ∃ p, p_pid p = 99 ∧ cstr (p_task_name p) 0 = Ok (bytes_of_string "web") ∧
      s = set_processes (sl_push p (sl_new 5)).2 demo_server
  | Fault _ => False
  end.
Proof.
  run_demo E. destruct (server_task_launch_records demo_config_server 16 2 demo_task demo_atask demo_server
    (mkWorld demo_launch ∅ []) demo_task_is ltac:(done) _ _ E) as (out_r & out_w & err_r & err_w & tr1 & tr2 & child & now & p & H).
  { vm_compute in E. by injection E as <-. }
  destruct H as (Ht & (? & ? & ? & ? & -> & _) & (? & ? & ? & ? & -> & _) & _ & Hp & _ & _ & _ & Hn & Hs).
  exists p. split; [|by split]. rewrite Hp. cbn [snd] in Ht. vm_compute in E. injection E as _ _ <-.
  cbn in Ht. by simplify_eq.
Defined.

Lemma server_process_print_output_witness :
  ∃ r w', server_process_print demo_config_server (mkProcess 0 99 (bytes_of_string "web" ++ [NUL]) 10 12)
      (demo_server, mkWorld [ret_data (bytes_of_string "done")] (demo_server_mem []) []) = Ok (tt, (demo_server, w')) ∧
    w_trace w' = [(Read 10 1024, ret_data (bytes_of_string "done")); (Print stdout (bytes_of_string "[web] done"), r)].
Proof.
  apply (server_process_print_output demo_config_server (mkProcess 0 99 (bytes_of_string "web" ++ [NUL]) 10 12)
    (bytes_of_string "web") 10%positive (upd (zeros 1024) 0 []) (bytes_of_string "done") demo_server
    (mkWorld [ret_data (bytes_of_string "done")] (demo_server_mem []) [])); try (by vm_compute); try decided.
Defined.
