(* ===== verification/Reply.v ===== *)
(** The server's answer on its way to the client: what [server_send] hands to the
    socket, and what the client prints when it reads that. *)

From S2P Require Import Prelude CString Memory Store Protocol Os Config Net Client Ini IniSpec IniFile Task Server ServerLogic Answer.

(** ** The client's side *)

Definition verdict (ty : Z) : list byte :=
  bytes_of_string (if decide (ty = PROTOCOL_MSG_ERR) then "Error: " else "Success: ").
Definition outlet (ty : Z) : output := if decide (ty = PROTOCOL_MSG_ERR) then stderr else stdout.

Section ClientSide.
Context {W : Type} `{!Kernel W}.

Lemma load_first_token ts m text :
  Forall2 (means m) (take 1 (ts_tokens ts)) [(PROTOCOL_TOKEN_ARG, text)] →
  ∃ t p, rd (ts_tokens ts) 0 = Ok t ∧ t_value t = Some p ∧ load_str m p = Ok text.
Proof.
  destruct (ts_tokens ts) as [|t toks]; cbn; intros H; [by apply Forall2_nil_inv_l in H|].
  apply Forall2_cons in H as [[_ (p & Hp & Hs)] _]. by exists t, p.
Qed.

Lemma poll_response_prints config conn ts (w : world W) b a text ty x behind :
  let size := buffer_size (settings config) in
  let polled := kcall (Poll (c_socket conn) (client_timeout_ms (settings config))) (w_os w) in
  let bytes := int_le x ++ wire ty 1 [(PROTOCOL_TOKEN_ARG, text)] ++ behind in
  c_in_buf conn = Some (b, 0) → w_mem w !! b = Some a → zlen bytes ≤ zlen a →
  0 < r_ret polled.1 → (kcall (Read (c_socket conn) size) polled.2).1 = ret_data bytes →
  no_nul text → 0 ≤ ty < 2 ^ 32 → 1 ≤ zlen (ts_tokens ts) ≤ INT_MAX →
  ∃ ts' w' tr, poll_response config conn ts w = Ok ((0, ts'), w') ∧ w_trace w' = w_trace w ++ tr ∧
    map fst tr = [Poll (c_socket conn) (client_timeout_ms (settings config)); Read (c_socket conn) size] ++
      if decide (quiet (args config) = 0) then [Print (outlet ty) (verdict ty ++ text ++ [Byte.x0a])] else [].
Proof.
  intros size polled bytes Hbuf Hb Hz Hpoll Hread Hn Hty Hcap. subst size.
  assert (Hlen : 0 < zlen bytes).
  { unfold bytes. rewrite zlen_app, zlen_int_le.
    pose proof (zlen_nonneg (wire ty 1 [(PROTOCOL_TOKEN_ARG, text)] ++ behind)). lia. }
  unfold poll_response. unfold mbind at 1, st_bind. rewrite call_ret_eq. fold polled.
  rewrite Z.gtb_ltb. destruct (Z.ltb_spec 0 (r_ret polled.1)); [|lia].
  rewrite (bind_lift _ _ _ (b, 0)) by (by rewrite Hbuf).
  unfold mbind at 1, st_bind. rewrite (sys_read_ok _ _ _ b a bytes) by (done || lia). cbn [w_mem w_os w_trace].
  rewrite Z.gtb_ltb. destruct (Z.ltb_spec 0 (zlen bytes)); [|lia].
  set (m1 := <[b := upd a 0 bytes]> (w_mem w)).
  assert (Hm1 : m1 !! b = Some (upd a 0 bytes)) by apply lookup_insert_eq.
  destruct (protocol_read_padded ty 1 [(PROTOCOL_TOKEN_ARG, text)] ts b 0 (buffer_size (settings config)) m1
              (upd a 0 bytes) x 0 Hm1) as (ts' & Hr & Ht & _ & Hf); [|by repeat constructor|done..|].
  { change (zeros 0) with (@nil byte). rewrite app_nil_r. pose proof (holds_upd a 0 bytes) as Hh.
    unfold bytes in Hh. rewrite app_assoc in Hh. unfold bytes. rewrite app_assoc. eapply holds_app_l, Hh; [lia|].
    rewrite <- app_assoc. fold bytes. lia. }
  match goal with |- context [(with_mem ?g ≫= ?k0) ?w0] =>
    set (w1 := w0); set (k := k0); assert (Hrun : (with_mem g ≫= k) w1 = k (0, ts') w1) by (by apply bind_with_mem)
  end.
  rewrite Hrun. unfold k. clear Hrun k. rewrite decide_True by done.
  destruct (load_first_token ts' m1 text Hf) as (t & p & Hrd & Hv & Hs).
  unfold msg_type in Ht. rewrite Z.mod_small in Ht by done.
  rewrite (bind_with_mem _ _ w1 (outlet ty, verdict ty ++ text ++ [Byte.x0a])).
  2: { change (w_mem w1) with m1. unfold response_text. rewrite Hrd. cbn [mbind res_bind]. rewrite Hv, Hs, Ht.
       cbn [mbind res_bind]. unfold outlet, verdict. by case_decide. }
  unfold client_print, w1. case_decide.
  - unfold mbind, st_bind. rewrite call_eq. eexists _, _, _. split; [reflexivity|]. cbn [w_trace].
    rewrite <- !app_assoc. split; reflexivity.
  - eexists _, _, _. split; [reflexivity|]. cbn [w_trace]. rewrite <- !app_assoc. split; reflexivity.
Qed.
End ClientSide.

(** C12: an answer of the server is what the client prints.  [server_send] hands one
    message to the client's socket; a client whose socket is readable and delivers
    this message prints "Success: " to the standard output or "Error: " to the error
    output, by the answer's type, and the text, unless it is quiet; it reads once and
    returns 0. *)
Theorem reply_reaches_client {W W'} `{!Kernel W, !Kernel W'} config sock ty msg text b a (s : Server) (w : world W) :
  0 ≤ ts_length (sv_stream s) ≤ zlen (ts_tokens (sv_stream s)) → 1 ≤ zlen (ts_tokens (sv_stream s)) →
  load_str (w_mem w) msg = Ok text → msg.1 ≠ b →
  c_out_buf (sv_conn s) = Some (b, 0) → w_mem w !! b = Some a →
  zlen text + 18 ≤ zlen a ≤ INT_MAX → 0 ≤ ty < 2 ^ 32 →
  ∃ bytes,
    (∃ ts m, server_send config sock ty msg (s, w) =
       ('(sent, w') ← socket_send sock bytes w; Ok (sent, (set_stream ts s, set_mem m w')))) ∧
    zlen bytes = zlen text + 18 ∧
    ∀ config' conn ts' (w' : world W') b' a',
      let size := buffer_size (settings config') in
      let timeout := client_timeout_ms (settings config') in
      let polled := kcall (Poll (c_socket conn) timeout) (w_os w') in
      c_in_buf conn = Some (b', 0) → w_mem w' !! b' = Some a' → zlen bytes ≤ zlen a' →
      1 ≤ zlen (ts_tokens ts') ≤ INT_MAX →
      0 < r_ret polled.1 → (kcall (Read (c_socket conn) size) polled.2).1 = ret_data bytes →
      ∃ ts'' w'' tr, poll_response config' conn ts' w' = Ok ((0, ts''), w'') ∧ w_trace w'' = w_trace w' ++ tr ∧
        map fst tr = [Poll (c_socket conn) timeout; Read (c_socket conn) size] ++
          if decide (quiet (args config') = 0) then [Print (outlet ty) (verdict ty ++ text ++ [Byte.x0a])] else [].
Proof.
  intros Hlen Hcap Hmsg Hne Hout Hb Ha Hty.
  pose proof (load_str_inv _ _ _ Hmsg) as (_ & _ & _ & Hn).
  exists (answer_bytes ty text (sub a (14 + zlen text) 4)). split; [by destruct Hlen; eapply server_send_message|].
  split.
  { unfold answer_bytes, sent_message. rewrite zlen_app, zlen_int_le, zlen_app, zlen_wire.
    pose proof (zlen_nonneg text). rewrite zlen_sub by lia.
    unfold payload, enc. cbn. rewrite app_nil_r, zlen_cons, zlen_app, zlen_cons, zlen_nil. lia. }
  intros config' conn ts' w' b' a' size timeout polled Hin Hb' Hz Hcap' Hpoll Hread.
  unfold answer_bytes, sent_message in *. by eapply (poll_response_prints config' conn ts' w' b' a' text ty).
Qed.

(** An answer "ok" and a client that receives it. *)
Definition demo_agent : Server :=
  mkServer true (mkConn 3 9999 ∅ ∅ None (Some (20%positive, 0))) (zeros 256) (empty_stream 30) [7] (sl_new 5) (sl_new 5).
Definition demo_answer_mem : mem := {[20%positive := zeros 64; 21%positive := bytes_of_string "ok" ++ [NUL]]}.

Lemma reply_reaches_client_witness :
  ∃ bytes ts w'' tr,
    poll_response demo_config_server (mkConn 4 9999 ∅ ∅ (Some (1%positive, 0)) None) (empty_stream 30)
      (mkWorld [ret 1; ret_data bytes] {[1%positive := zeros 64]} []) = Ok ((0, ts), w'') ∧
    w_trace w'' = [] ++ tr ∧
    map fst tr = [Poll 4 5000; Read 4 1024; Print stdout (bytes_of_string "Success: ok" ++ [Byte.x0a])].
Proof.
  destruct (reply_reaches_client (W := quota) (W' := list sysres) demo_config_server 7 PROTOCOL_MSG_SUCCESS
      (21%positive, 0) (bytes_of_string "ok") 20 (zeros 64) demo_agent (mkWorld (mkQuota 100) demo_answer_mem []))
    as (bytes & _ & Hz & H); [by vm_compute..|].
  destruct (H demo_config_server (mkConn 4 9999 ∅ ∅ (Some (1%positive, 0)) None) (empty_stream 30)
      (mkWorld [ret 1; ret_data bytes] {[1%positive := zeros 64]} []) 1%positive (zeros 64))
    as (ts & w'' & tr & E & T & M); [done|done| |by vm_compute|done|done|].
  { rewrite Hz. by vm_compute. }
  exists bytes, ts, w'', tr. split; [exact E|]. split; [exact T|exact M].
Defined.
