(* ===== verification/ServerLive.v ===== *)
(** Progress of the agent: one pass over the clients reads every ready socket once,
    although answering a message moves clients within the stack. *)

From S2P Require Import Prelude CString Memory Store Protocol Os Config Net Client Frame Ini Task Server ServerLogic ServerFrame ServerSpec.
From S2P Require Stack.

(** ** What a trace has read *)

Definition read_fd (e : syscall * sysres) : option Z :=
  match e.1 with Read fd _ => Some fd | _ => None end.

(** The descriptors, in order. *)
Definition reads (tr : list (syscall * sysres)) : list Z := omap read_fd tr.

Lemma reads_app tr tr' : reads (tr ++ tr') = reads tr ++ reads tr'.
Proof. apply omap_app. Qed.

Lemma reads_frame {W} `{!Kernel W} :
  frame (λ c, negb (is_read c)) (λ w w' : world W, reads (w_trace w') = reads (w_trace w)).
Proof.
  split; [done|by intros; etrans|done|]. intros c w Hc. unfold after. destruct (kcall c (w_os w)) as [r os]. cbn [w_trace].
  rewrite reads_app. destruct c; try done; cbn; by rewrite app_nil_r.
Qed.

Lemma plain_quiet : allows_plain (allowed := λ c, negb (is_read c)).
Proof. by intros c -> _. Qed.

(** ** One pass over the clients *)

(** Removing a client by moving the last one into its place leaves the clients below
    it alone. *)
Lemma remove_client_below n l :
  (n < length l)%nat →
  take n (remove_client (Z.of_nat n) l) = take n l ∧ (n ≤ length (remove_client (Z.of_nat n) l))%nat.
Proof.
  intros Hn. unfold remove_client, zlen.
  destruct (Z.leb_spec 0 (Z.of_nat n)), (Z.ltb_spec (Z.of_nat n) (Z.of_nat (length l))); try lia. cbn [andb].
  rewrite Nat2Z.id. unfold Stack.swap_remove. destruct (last l) as [y|]; [|by split; [|lia]]. split.
  - rewrite take_take, Nat.min_l by lia. by rewrite take_insert_ge by lia.
  - rewrite length_take, length_insert. lia.
Qed.

Section Pass.
Context {W : Type} `{!Kernel W} (config : Config).
Let st := settings config.
Hypothesis Hst : settings_ok st.
Implicit Types (s : Server) (w : world W).

Definition ready (conn : Connection) (sock : Z) : Prop := sock ∈ c_read_flags conn.
#[local] Instance ready_dec conn sock : Decision (ready conn sock).
Proof. unfold ready. apply _. Defined.

(** What serving the client at place [n] leaves: the clients below, the connection,
    and one more read when its socket is ready. *)
Record served (n : nat) (sock : Z) s w s' w' : Prop := {
  sd_ok : server_ok st s';
  sd_below : take n (sv_clients s') = take n (sv_clients s);
  sd_length : (n ≤ length (sv_clients s'))%nat;
  sd_conn : sv_conn s' = sv_conn s;
  sd_reads : reads (w_trace w') = reads (w_trace w) ++ if decide (ready (sv_conn s) sock) then [sock] else [];
}.

Lemma sys_read_reads fd p n w z w' :
  sys_read fd p n w = Ok (z, w') → reads (w_trace w') = reads (w_trace w) ++ [fd].
Proof.
  intros H. unfold sys_read in H. apply st_bind_inv in H as (r & w1 & [_ T1]%call_inv & H).
  assert (w_trace w' = w_trace w1) as ->; [|by rewrite T1, reads_app].
  destruct (r_ret r <? 1); [by st_inv|]. apply st_bind_inv in H as (u & w2 & H2 & H).
  unfold on_mem, modify_res in H2. apply bind_ok in H2 as (w3 & H2 & H3). apply bind_ok in H2 as (m & _ & H2).
  st_inv. done.
Qed.

Lemma serve_client_served n sock s w :
  server_ok st s → sv_clients s !! n = Some sock →
  post (s, w) (serve_client config (Z.of_nat n)) (λ _ sw', served n sock s w sw'.1 sw'.2).
Proof.
  intros Hok Hn. pose proof (lookup_lt_Some _ _ _ Hn) as Hlt. pose proof (so_sockets _ _ Hok) as Hs.
  assert (1 ≤ sock) by (by eapply (Forall_lookup_1 _ _ _ _ Hs)).
  assert (Hrd : rd (sv_clients s) (Z.of_nat n) = Ok sock) by (apply rd_ok; [lia|by rewrite Nat2Z.id]).
  destruct (remove_client_below n (sv_clients s) Hlt) as [Hb Hl].
  intros [] [s' w'] Hrun.
  assert (Hok' : server_ok st s') by (by apply (serve_client_ok config Hst _ s w Hok _ _ Hrun)).
  revert Hrun. unfold serve_client. rewrite run_srv, (bind_lift _ _ _ _ Hrd), decide_False, run_srv by lia. intros Hrun.
  apply st_bind_inv in Hrun as (b & sw & Hb0 & Hrun). unfold lift in Hb0. apply bind_ok in Hb0 as (b' & Hset & Hb0).
  simplify_eq. assert (Hready : b = bool_decide (ready (sv_conn s) sock)).
  { unfold FD_ISSET in Hset. by destruct (_ && _); simplify_eq. }
  subst b. case_bool_decide as Hr; [|st_inv; split; try done; [cbn; lia|cbn; by rewrite decide_False, app_nil_r]].
  apply st_bind_inv in Hrun as (p & sw & Hp & Hrun). unfold lift in Hp. apply bind_ok in Hp as (p' & Hp & Hp').
  simplify_eq. apply st_bind_inv in Hrun as (z & [s1 w1] & Hread & Hrun).
  unfold on_world in Hread. apply bind_ok in Hread as ([z' w2] & Hread & E). simplify_eq.
  apply sys_read_reads in Hread. destruct (z >? 0); [|case_decide].
  - apply st_bind_inv in Hrun as (z' & [s2 w2] & Heval & Hrun). st_inv. pose proof (fr_eval_packet reads_frame plain_quiet _ _ _ _ _ Heval) as Hq.
    apply eval_packet_evaluated in Heval; [|apply Hst|apply Hst|apply Hok]. destruct Heval as [Hc Hconn _ _ _ _ _].
    cbn [fst snd pk_client] in *. split; rewrite ?Hc; try done. by rewrite decide_True, Hq.
  - rewrite run_upd_srv in Hrun. apply st_bind_inv in Hrun as (r & [s2 w2] & Hclose & Hrun). st_inv.
    pose proof (fr_on_world _ (fr_call_ret reads_frame (Close sock) eq_refl) _ _ _ Hclose) as Hq.
    unfold on_world in Hclose. apply bind_ok in Hclose as ([r' w3] & _ & E). simplify_eq. cbn [fst snd] in *.
    split; try done. by rewrite decide_True, Hq.
  - st_inv. split; try done; [cbn; lia|]. by rewrite decide_True.
Qed.

Lemma for_down_S n (step : Z → ST (Server * world W) unit) sw :
  for_down (S n) step sw = (step (Z.of_nat n) ≫= λ _, for_down n step) sw.
Proof.
  unfold for_down, mbind at 3, st_bind. cbn [count_down]. by destruct (step (Z.of_nat n) sw) as [[[] sw']|].
Qed.

Lemma post_run {S A} (m m' : ST S A) sw Q : m sw = m' sw → post sw m' Q → post sw m Q.
Proof. unfold post. by intros ->. Qed.

(** The clients [l] below place [n] are still there. *)
Lemma pass_reads l conn n s w :
  server_ok st s → sv_conn s = conn → take n (sv_clients s) = take n l →
  (n ≤ length l)%nat → (n ≤ length (sv_clients s))%nat →
  post (s, w) (for_down n (serve_client config))
    (λ _ sw', reads (w_trace sw'.2) = reads (w_trace w) ++ filter (ready conn) (reverse (take n l))).
Proof.
  revert s w. induction n as [|n IH]; intros s w Hok Hconn Htake Hl Hlen.
  { intros [] sw' H. unfold for_down in H. cbn in H. simplify_eq. cbn. by rewrite app_nil_r. }
  destruct (lookup_lt_is_Some_2 l n) as [sock Hn]; [lia|].
  assert (Hn' : sv_clients s !! n = Some sock) by (rewrite <- (lookup_take_lt (sv_clients s) (S n)), Htake, lookup_take_lt by lia; done).
  apply (post_run _ _ _ _ (for_down_S n _ _)).
  pone. eapply post_mono; [by apply (serve_client_served n sock)|]. intros [] [s1 w1] [Hok1 Hb1 Hl1 Hc1 Hr1]. cbn [fst snd] in *.
  eapply post_mono; [apply IH; [done|congruence| |lia|done]|].
  { rewrite Hb1. transitivity (take n (take (S n) (sv_clients s))); [by rewrite take_take, Nat.min_l by lia|].
    by rewrite Htake, take_take, Nat.min_l by lia. }
  intros [] [s2 w2] Hr2. cbn [fst snd] in *. rewrite Hr2, Hr1, <- app_assoc, Hconn. f_equal.
  rewrite (take_S_r _ _ _ Hn), reverse_app, filter_app. by f_equal.
Qed.

(** C17: one pass over the client stack serves everyone: the descriptors it reads are
    exactly the ready sockets of the clients the pass started with, each once, from the
    last client to the first, although every answered client is removed on the way by
    moving the last one into its place. *)
Theorem serve_clients_reads s w :
  server_ok st s →
  post (s, w) (for_down (length (sv_clients s)) (serve_client config))
    (λ _ sw', reads (w_trace sw'.2) = reads (w_trace w) ++ filter (ready (sv_conn s)) (reverse (sv_clients s))).
Proof.
  intros Hok. pose proof (pass_reads (sv_clients s) (sv_conn s) (length (sv_clients s)) s w Hok) as H.
  rewrite (take_ge (sv_clients s)) in H by done. by apply H.
Qed.
End Pass.

(** Three clients, the first and the last with something to say. *)
Definition demo_busy : Server :=
  mkServer true (mkConn 3 9999 {[7; 9]} ∅ (Some (10%positive, 0)) (Some (20%positive, 0)))
    (zeros 256) (empty_stream 30) [7; 8; 9] (sl_new 5) (sl_new 5).

Lemma demo_busy_ok : server_ok config_default_settings demo_busy.
Proof. split; try done; [by apply table_new..|]. by repeat constructor. Qed.

Definition demo_busy_world : world (list sysres) :=
  mkWorld [ret_data demo_run_web; mkRes 8 [] []; ret 0; ret 60; ret 0; ret 0; ret 0] (demo_server_mem []) [].

Lemma serve_clients_reads_witness :
  match for_down (length (sv_clients demo_busy)) (serve_client demo_config_server) (demo_busy, demo_busy_world) with
  | Ok (_, (_, w)) => reads (w_trace w) = [9; 7]
  | Fault _ => False
  end.
Proof.
  run_demo E.
  rewrite (serve_clients_reads (W := list sysres) demo_config_server ltac:(by split) demo_busy demo_busy_world demo_busy_ok _ _ E).
  by vm_compute.
Defined.
