(* ===== verification/Lifecycle.v ===== *)
(** Tasks from request to end: what a request to run a task leads to, what happens to
    the queue when a process has finished, and how the workspace is set. *)

From S2P Require Import Prelude CString Memory Store Protocol Os Config Net Client Ini IniSpec IniFile Task Server ServerLogic Answer ServerSpec Reply.

(** ** A finished process *)

Section Finished.
Context {W : Type} `{!Kernel W} (config : Config) (size max : Z) (says : Z → option atask).
Implicit Types (s : Server) (w : world W).

Lemma open_cnt_remove {A} (l : slots A) i x : sl_get l i = Some x → open_cnt (sl_remove_at i l).2 = 1 + open_cnt l.
Proof. intros H. unfold sl_remove_at, open_cnt. rewrite H. cbn. apply zlen_cons. Qed.

Lemma call_step {B} c (k : Z → ST (Server * world W) B) s w :
  (on_world (call_ret c) ≫= k) (s, w) =
  k (r_ret (kcall c (w_os w)).1)
    (s, mkWorld (kcall c (w_os w)).2 (w_mem w) (w_trace w ++ [(c, (kcall c (w_os w)).1)])).
Proof. unfold call_ret. apply run_on_world. unfold mbind, st_bind. by rewrite run_call. Qed.

(** The server without the process of slot [i]. *)
Definition without i s : Server := set_processes (sl_remove_at i (sv_processes s)).2 s.

(** Collecting the process of slot [i]: the calls, then the queue. *)
Lemma check_process_collects i p name s w :
  sl_get (sv_processes s) i = Some p → cstr (p_task_name p) 0 = Ok name →
  r_ret (kcall (Waitpid (p_pid p)) (w_os w)).1 ≠ 0 →
  ∃ w' tr,
    check_process config i (s, w) =
    ('(_, sw) ← server_check_task_queue config name (length name) (without i s, w'); Ok (tt, sw)) ∧
    w_mem w' = w_mem w ∧ w_trace w' = w_trace w ++ tr ∧
    map fst tr = [Waitpid (p_pid p)] ++ (if 0 <? r_ret (kcall (Waitpid (p_pid p)) (w_os w)).1 then [Time] else []) ++
      [Close (p_out_fd_r p); Close (p_err_fd_r p)].
Proof.
  intros Hp Hname Hw. unfold check_process. rewrite run_srv, Hp, call_step, decide_True by done.
  rewrite (bind_lift _ _ _ _ Hname), Z.gtb_ltb.
  assert (Hrun : ∀ (m : ST (Server * world W) Z) sw, (m ≫= λ _, mret tt) sw = ('(_, sw) ← m sw; Ok (tt, sw)))
    by (intros m sw; unfold mbind at 1, st_bind; by destruct (m sw) as [[? ?]|]).
  destruct (0 <? _); [rewrite call_step|rewrite run_mret]; rewrite !call_step, run_upd_srv, Hrun;
    (eexists _, _; split; [reflexivity|]; split; [reflexivity|]; split; [cbn [w_trace]; by rewrite <- !app_assoc|done]).
Qed.

(** C11: the queue moves on.  When a process is found to have ended, its pipes are
    closed, its slot becomes free, and a stored task that waits for it, or for nothing,
    is started at once, whatever else is stored: that of the highest slot. *)
Theorem finished_process_starts_next i p name j t a s w :
  sl_get (sv_processes s) i = Some p → cstr (p_task_name p) 0 = Ok name →
  r_ret (kcall (Waitpid (p_pid p)) (w_os w)).1 ≠ 0 →
  tasks_say size max (sv_tasks s) says → sl_get (sv_tasks s) j = Some t → says j = Some a →
  releases name a → (∀ k b, j < k → says k = Some b → ¬ releases name b) →
  ∃ w' tr,
    check_process config i (s, w) = ('(_, sw) ← start_queued config (without i s) w' j t; Ok (tt, sw)) ∧
    w_trace w' = w_trace w ++ tr ∧ Close (p_out_fd_r p) ∈ map fst tr ∧ Close (p_err_fd_r p) ∈ map fst tr ∧
    sl_get (sv_processes (without i s)) i = None ∧ 1 ≤ open_cnt (sv_processes (without i s)).
Proof.
  intros Hp Hname Hw Hsays Ht Ha Hrel Hlast.
  destruct (check_process_collects i p name s w Hp Hname Hw) as (w' & tr & E & _ & T & M).
  assert (Ho : 1 ≤ open_cnt (sv_processes (without i s))).
  { cbn. rewrite (open_cnt_remove _ _ _ Hp). unfold open_cnt. pose proof (zlen_nonneg (sl_free (sv_processes s))). lia. }
  exists w', tr. rewrite E.
  rewrite (check_queue_first config size max says name (cstr_no_nul _ _ _ Hname) (without i s) w' Hsays j t a Ho Ht Ha Hrel Hlast).
  split; [done|]. split; [done|]. rewrite M. split; [set_solver|]. split; [set_solver|]. split; [|done].
  cbn. unfold sl_remove_at. rewrite Hp. cbn. unfold sl_get in *. destruct (0 <=? i); [|done]. cbn.
  destruct (sl_cells (sv_processes s) !! Z.to_nat i) eqn:E0; [|done].
  by rewrite list_lookup_insert_eq by by eapply lookup_lt_Some.
Qed.
End Finished.

(** ** Answers are always given *)

Section Answering.
Context {W : Type} `{!Kernel W, !KernelOk W} (config : Config).
Implicit Types (s : Server) (w : world W).

(** A server that can answer texts of up to [n] bytes. *)
Record can_answer (n : Z) s w : Prop := {
  ca_length : 0 ≤ ts_length (sv_stream s) ≤ zlen (ts_tokens (sv_stream s));
  ca_tokens : 1 ≤ zlen (ts_tokens (sv_stream s));
  ca_out : ∃ b a, c_out_buf (sv_conn s) = Some (b, 0) ∧ w_mem w !! b = Some a ∧ n + 18 ≤ zlen a ≤ INT_MAX;
}.

Lemma respond_text_total packet ty text n s w :
  can_answer n s w → no_nul text → zlen text ≤ n →
  ∃ z s' w', respond_text config packet ty text (s, w) = Ok (z, (s', w')) ∧ answered packet ty text s w s' w'.
Proof.
  intros [Hlen Hcap (b & a & Hout & Hb & Ha)] Hn Hz.
  enough (∃ z s' w', respond_text config packet ty text (s, w) = Ok (z, (s', w'))) as (z & s' & w' & E).
  { exists z, s', w'. split; [exact E|]. destruct (respond_text_post config packet ty text s w _ _ E) as [Hd Hsay].
    split; [exact Hd|]. apply (said_told _ _ _ _ w); [done|]. apply Hsay; [|done]. exists b, a. split_and!; [done..|lia]. }
  unfold respond_text, with_text. rewrite (run_on_world _ _ _ _ (w_mem w) w) by done.
  set (b' := fresh (dom (w_mem w) : gset positive)).
  set (w1 := set_mem (<[b' := text ++ [NUL]]> (w_mem w)) w).
  rewrite (run_on_world _ _ _ _ tt w1) by done.
  assert (Hb' : b' ≠ b) by (intros He; apply (is_fresh (dom (w_mem w) : gset positive));
    fold b'; rewrite He; by apply (elem_of_dom_2 _ _ a)).
  assert (Hmsg : load_str (w_mem w1) (b', 0) = Ok text).
  { unfold load_str, block. cbn. rewrite lookup_insert_eq. cbn. by apply (cstr_at _ 0 _ []). }
  assert (Hb1 : w_mem w1 !! b = Some a) by (cbn; by rewrite lookup_insert_ne).
  destruct (server_send_message config (pk_socket packet) ty (b', 0) text b a s w1) as (ts & m & Hsend);
    [lia|done|done|done|done|done|lia|].
  destruct (send_loop_spec (length (answer_bytes ty text (sub a (14 + zlen text) 4))) (pk_socket packet)
    (answer_bytes ty text (sub a (14 + zlen text) 4)) 0 w1) as (sent & tr & os & Hloop & _); [zlia|zlia|].
  assert (Hs : socket_send (pk_socket packet) (answer_bytes ty text (sub a (14 + zlen text) 4)) w1 =
    Ok (0 + sent, mkWorld os (w_mem w1) (w_trace w1 ++ tr))) by exact Hloop.
  rewrite Hs in Hsend. cbn [mbind res_bind] in Hsend.
  unfold server_respond. unfold mbind at 1, st_bind. rewrite (st_bind_ok _ _ _ _ _ Hsend), call_step, run_upd_srv.
  destruct (0 + sent <? 1); (eexists _, _, _; reflexivity).
Qed.
Lemma respond_fmt_total packet ty before p arg after n s w :
  can_answer n s w → load_str (w_mem w) p = Ok arg →
  no_nul (bytes_of_string before) → no_nul (bytes_of_string after) →
  zlen (bytes_of_string before) + zlen arg + zlen (bytes_of_string after) ≤ n →
  ∃ s' w', respond_fmt config packet ty before (Some p) after (s, w) = Ok (tt, (s', w')) ∧
    answered packet ty (answer_text config before (Some arg) after) s w s' w'.
Proof.
  intros Hca Hp Hbef Haft Hz. pose proof (load_str_inv _ _ _ Hp) as (_ & _ & _ & Harg).
  set (text := take (Z.to_nat (buffer_size (settings config) - 1)) (bytes_of_string before ++ arg ++ bytes_of_string after)).
  destruct (respond_text_total packet ty text n s w Hca) as (z & s' & w' & E & Ha).
  - intros Hin. apply elem_of_take in Hin as (k & Hin & _). apply list_elem_of_lookup_2 in Hin. unfold no_nul in *. set_solver.
  - unfold text, zlen in *. rewrite length_take, !length_app. lia.
  - exists s', w'. split; [|done]. unfold respond_fmt. rewrite (run_on_world _ _ _ _ _ _ (with_mem_ok _ _ _ Hp)).
    fold text. by rewrite (st_bind_ok _ _ _ _ _ E).
Qed.

(** C28: setting the workspace.  A path that cannot be read is refused and changes
    nothing; a readable path shorter than the workspace buffer becomes the active
    workspace; a longer one is copied beyond the end of the buffer.  In the first two
    cases the client is told so, and nothing else is sent. *)
Theorem eval_workspace_set_stores packet p path s w :
  load_str (w_mem w) p = Ok path → can_answer (zlen (sv_workspace s) + 26) s w →
  let run := eval_workspace_set config packet (Some p) (s, w) in
  if decide (r_ret (kcall (Access path) (w_os w)).1 ≠ 0) then
    ∃ s' w', run = Ok (-1, (s', w')) ∧
      answered packet PROTOCOL_MSG_ERR (bytes_of_string "Workspace not found") s w s' w'
  else if zlen path <? zlen (sv_workspace s) then
    ∃ ws s' w', run = Ok (0, (s', w')) ∧
      answered packet PROTOCOL_MSG_SUCCESS (answer_text config "Workspace '" (Some path) "' set as active")
        (set_workspace ws s) w s' w' ∧
      zlen ws = zlen (sv_workspace s) ∧ cstr ws 0 = Ok path
  else run = Fault OutOfBounds.
Proof.
  intros Hp Hca. cbv zeta. pose proof (load_str_inv _ _ _ Hp) as (_ & _ & _ & Hn).
  pose proof (zlen_nonneg path). pose proof (zlen_nonneg (sv_workspace s)).
  assert (Hx : zlen (path ++ [NUL]) = zlen path + 1) by (by rewrite zlen_app).
  unfold eval_workspace_set.
  set (w1 := mkWorld (kcall (Access path) (w_os w)).2 (w_mem w) (w_trace w ++ [(Access path, (kcall (Access path) (w_os w)).1)])).
  assert (Hacc : ∀ k : Z → ST (Server * world W) Z,
    ((path ← on_world (with_mem (λ m, load_str m p)); on_world (call_ret (Access path))) ≫= k) (s, w) =
    k (r_ret (kcall (Access path) (w_os w)).1) (s, w1)).
  { intros k. unfold mbind at 1, st_bind. rewrite (run_on_world _ _ _ _ _ _ (with_mem_ok _ _ _ Hp)).
    pose proof (call_step (Access path) k s w) as Hc. unfold mbind in Hc. exact Hc. }
  rewrite Hacc. clear Hacc.
  assert (Hq : quiet_run w w1) by (split; [done|]; eexists; split; [reflexivity|by repeat constructor]). assert (Hca1 : ∀ ws, zlen ws = zlen (sv_workspace s) → can_answer (zlen (sv_workspace s) + 26) (set_workspace ws s) w1).
  { intros ws _. by destruct Hca. }
  case_decide as Hok.
  - destruct (respond_text_total packet PROTOCOL_MSG_ERR (bytes_of_string "Workspace not found") (zlen (sv_workspace s) + 26) s w1)
      as (z & s' & w' & E & Ha); [by destruct Hca|decided|change (19 ≤ zlen (sv_workspace s) + 26); lia|].
    exists s', w'. split; [by rewrite (st_bind_ok _ _ _ _ _ E)|by eapply answered_later].
  - rewrite (bind_lift _ _ _ p) by done.
    rewrite (run_on_world _ _ _ _ path w1) by (by apply with_mem_ok). rewrite run_srv.
    destruct (Z.ltb_spec (zlen path) (zlen (sv_workspace s))) as [Hlt|Hge].
    + rewrite (bind_lift _ _ _ (upd (sv_workspace s) 0 (path ++ [NUL]))) by (apply memcpy_ok; lia). rewrite run_upd_srv.
      set (ws := upd (sv_workspace s) 0 (path ++ [NUL])).
      assert (Hz : zlen ws = zlen (sv_workspace s)) by (apply zlen_upd; lia).
      destruct (respond_fmt_total packet PROTOCOL_MSG_SUCCESS "Workspace '" p path "' set as active" _ _ w1 (Hca1 ws Hz))
        as (s' & w' & E & Ha); [done|decided|decided|change (11 + zlen path + 15 ≤ zlen (sv_workspace s) + 26); lia|].
      exists ws, s', w'. split; [by rewrite (st_bind_ok _ _ _ _ _ E)|]. split; [by eapply answered_later|]. split; [done|].
      apply (cstr_at _ 0 _ (drop (length (path ++ [NUL])) (sv_workspace s))); [done|done|].
      unfold ws. rewrite upd_0, drop_0, <- app_assoc. done.
    + unfold mbind at 1, st_bind. unfold lift. by rewrite memcpy_oob by lia.
Qed.
End Answering.

(** ** A request to run a task *)

Section Requests.
Context {W : Type} `{!Kernel W, !KernelOk W} (config : Config) (size max : Z).
Implicit Types (s : Server) (w : world W).

Definition named (processes : slots TaskProcess) : Prop :=
  ∀ i p, sl_get processes i = Some p → ∃ x, cstr (p_task_name p) 0 = Ok x.
Definition runs (processes : slots TaskProcess) (x : list byte) : Prop :=
  ∃ i p, sl_get processes i = Some p ∧ cstr (p_task_name p) 0 = Ok x.

Lemma wait_loop_spec n processes x :
  named processes → no_nul x →
  ∃ z, wait_loop n processes x = Ok z ∧
    (z ≠ 0 ↔ ∃ i p, i < Z.of_nat n ∧ sl_get processes i = Some p ∧ cstr (p_task_name p) 0 = Ok x).
Proof.
  intros Hnamed Hx. induction n as [|n (z & IH & Hz)]; cbn [wait_loop].
  { exists 0. split; [done|]. split; [done|]. intros (i & p & Hi & [? _]%sl_get_Some & _). lia. }
  assert (Hup : ∀ i, i < Z.of_nat (S n) ↔ i < Z.of_nat n ∨ i = Z.of_nat n) by lia.
  destruct (sl_get processes (Z.of_nat n)) as [p|] eqn:Ep.
  - destruct (Hnamed _ _ Ep) as [y Hy]. rewrite Hy. cbn [mbind res_bind].
    rewrite str_eq_spec; [|by eapply cstr_no_nul|done]. case_bool_decide as Heq.
    + exists 1. split; [done|]. split; [|done]. intros _. exists (Z.of_nat n), p. subst. split; [lia|done].
    + exists z. split; [done|]. rewrite Hz. split; [intros (i & q & ? & ?); exists i, q; split; [lia|done]|].
      intros (i & q & [Hi| ->]%Hup & Hq & Hc); [by exists i, q|]. congruence.
  - exists z. split; [done|]. rewrite Hz. split; [intros (i & q & ? & ?); exists i, q; split; [lia|done]|].
    intros (i & q & [Hi| ->]%Hup & Hq & Hc); [by exists i, q|]. congruence.
Qed.

Definition must_wait (a : atask) (processes : slots TaskProcess) : Prop :=
  match at_wait a with None => False | Some x => runs processes x end.

Lemma wait_match_spec t a s w :
  task_is size max t a → named (sv_processes s) →
  ∃ z, server_task_wait_match t (s, w) = Ok (z, (s, w)) ∧ (z ≠ 0 ↔ must_wait a (sv_processes s)).
Proof.
  intros Ht Hn. unfold server_task_wait_match, must_wait. pose proof (ti_wait _ _ _ _ Ht) as Hw.
  rewrite (bind_lift _ _ _ _ (opt_str_at _ _ _ Hw)). destruct (at_wait a) as [x|]; [|by exists 0].
  destruct (t_wait t) as [q|]; [|done]. destruct Hw as [Hw _].
  destruct (wait_loop_spec (capacity (sv_processes s)) (sv_processes s) x Hn) as (z & Hz & Hiff); [by eapply cstr_no_nul|].
  exists z. rewrite run_srv. unfold lift. rewrite Hz. split; [done|]. rewrite Hiff. split.
  - intros (i & p & _ & ?). by exists i, p.
  - intros (i & p & Hp & Hc). exists i, p. split; [|done]. apply sl_get_Some in Hp as [? Hp].
    apply lookup_lt_Some in Hp. unfold capacity. lia.
Qed.

(** A launch leaves the memory and what is needed to answer alone. *)
Lemma launch_can_answer t n s w :
  can_answer n s w →
  post (s, w) (server_task_launch config t) (λ z sw', can_answer n sw'.1 sw'.2 ∧ quiet_run w sw'.2 ∧
    sv_tasks sw'.1 = sv_tasks s ∧ (z ≠ 0 → sw'.1 = s)).
Proof.
  intros Hca z [s' w'] Hrun. pose proof (launch_quiet config t s w _ _ Hrun) as Hq. cbn [fst snd] in *.
  pose proof (qr_mem _ _ Hq) as Hmem. cbn [w_mem] in Hmem.
  destruct (launch_post config t s w _ _ Hrun) as [[_ Hs]|(-> & p & Hs & _)]; cbn [fst snd] in *; subst s';
    (split; [|done]); destruct Hca; split; try done; cbn; by rewrite Hmem.
Qed.

(** C4: what a request to run a stored task leads to.  When the task waits for a
    running process it stays stored and the client is told that it was put in the queue;
    otherwise it is launched.  After a successful launch the client is told that it was
    started, and its slot is free again.  After a failed launch the client is told of the
    failure, as an error, but the task stays stored: it will be started when another
    process has finished.  In each case one message is sent, of that type and with that
    text, and the client's socket is closed after it. *)
Theorem eval_task_run_outcomes packet p name envs key t a s w s1 w1 :
  get_task config (Some p) envs (s, w) = Ok (Some key, (s1, w1)) →
  sl_get (sv_tasks s1) key = Some t → task_is size max t a → named (sv_processes s1) →
  load_str (w_mem w1) p = Ok name → can_answer (zlen name + 27) s1 w1 →
  let run := eval_task_run config packet (Some p) envs (s, w) in
  (must_wait a (sv_processes s1) → ∃ s' w', run = Ok (0, (s', w')) ∧
     answered packet PROTOCOL_MSG_SUCCESS (answer_text config "Task '" (Some name) "' put in queue") s1 w s' w' ∧
     sl_get (sv_tasks s') key = Some t) ∧
  (¬ must_wait a (sv_processes s1) → ∀ z s2 w2, server_task_launch config t (s1, w1) = Ok (z, (s2, w2)) →
     ∃ s' w',
       if decide (z = 0) then
         run = Ok (0, (set_tasks (sl_remove_at key (sv_tasks s')).2 s', w')) ∧ sv_tasks s' = sv_tasks s1 ∧
         answered packet PROTOCOL_MSG_SUCCESS (answer_text config "Task '" (Some name) "' started succesfully") s2 w s' w'
       else
         run = Ok (-1, (s', w')) ∧ s2 = s1 ∧ sl_get (sv_tasks s') key = Some t ∧
         answered packet PROTOCOL_MSG_ERR (answer_text config "Failed to run task '" (Some name) "'") s2 w s' w').
Proof.
  intros Hget Hkey Ht Hnamed Hp Hca. cbv zeta. unfold eval_task_run.
  pose proof (get_task_quiet config _ _ _ _ _ _ Hget) as Hq. cbn [snd] in Hq.
  destruct (wait_match_spec t a s1 w1 Ht Hnamed) as (v & Hv & Hiff).
  assert (Hrun : ∀ (k : option Z → ST (Server * world W) Z), (get_task config (Some p) envs ≫= k) (s, w) = k (Some key) (s1, w1))
    by (intros k; by apply st_bind_ok).
  rewrite Hrun, run_srv, (bind_lift _ _ _ t) by (by rewrite Hkey). rewrite (st_bind_ok _ _ _ _ _ Hv).
  split; intros Hw.
  - rewrite decide_True by (by apply Hiff).
    destruct (respond_fmt_total config packet PROTOCOL_MSG_SUCCESS "Task '" p name "' put in queue" _ s1 w1 Hca Hp)
      as (s' & w' & E & Ha); [decided|decided|change (6 + zlen name + 14 ≤ zlen name + 27); lia|].
    exists s', w'. rewrite (st_bind_ok _ _ _ _ _ E). split; [done|]. split; [by eapply answered_later|].
    by rewrite (an_server _ _ _ _ (an_dismissed _ _ _ _ _ _ _ Ha)).
  - rewrite decide_False by (by rewrite Hiff). intros z s2 w2 Hlaunch.
    destruct (launch_can_answer t _ s1 w1 Hca _ _ Hlaunch) as (Hca2 & Hq2 & Htasks & Hs2). cbn [fst snd] in *.
    rewrite <- (qr_mem _ _ Hq2) in Hp. assert (Hq12 : quiet_run w w2) by (by transitivity w1). rewrite (st_bind_ok _ _ _ _ _ Hlaunch). destruct (decide (z = 0)) as [Hz|Hz].
    + subst z. rewrite decide_False by (by intros []).
      destruct (respond_fmt_total config packet PROTOCOL_MSG_SUCCESS "Task '" p name "' started succesfully" _ s2 w2 Hca2 Hp)
        as (s' & w' & E & Ha); [decided|decided|change (6 + zlen name + 21 ≤ zlen name + 27); lia|].
      exists s', w'. rewrite (st_bind_ok _ _ _ _ _ E), run_upd_srv. split; [done|]. split; [|by eapply answered_later].
      by rewrite (an_server _ _ _ _ (an_dismissed _ _ _ _ _ _ _ Ha)).
    + rewrite decide_True by done. specialize (Hs2 Hz). subst s2.
      destruct (respond_fmt_total config packet PROTOCOL_MSG_ERR "Failed to run task '" p name "'" _ s1 w2 Hca2 Hp)
        as (s' & w' & E & Ha); [decided|decided|change (20 + zlen name + 1 ≤ zlen name + 27); lia|].
      exists s', w'. rewrite (st_bind_ok _ _ _ _ _ E). split_and!; [done..| |by eapply answered_later].
      by rewrite (an_server _ _ _ _ (an_dismissed _ _ _ _ _ _ _ Ha)).
Qed.
End Requests.

(** ** An agent whose process slots are taken *)

(** A kernel that finds a workspace with the task "web" and takes whatever is sent. *)
Record desk := mkDesk {}.
#[export] Instance desk_kernel : Kernel desk := λ c w,
  match c with
  | Fopen _ => (mkRes 8 demo_ws [], w)
  | Pipe => (ret_fds [10; 11], w)
  | Fork => (ret 99, w)
  | Waitpid pid => (ret pid, w)
  | Send _ data => (ret (zlen data), w)
  | _ => (ret 0, w)
  end.

#[export] Instance desk_kernel_ok : KernelOk desk.
Proof. split; intros; cbn in *; lia. Qed.

Definition demo_small : Config :=
  mkConfig (args demo_config_server) (mkSettings 5 5 30 256 (bytes_of_string "/bin/sh") 32 2 256 30 3 5000 5 0 66666 1000 1024).
Definition demo_full : Server :=
  mkServer true (sv_conn demo_server) (sv_workspace demo_server) (empty_stream 30) [7; 8] (sl_new 0) (sl_new 2).
Definition demo_desk : world desk := mkWorld mkDesk (demo_server_mem []) [].

Definition demo_loaded_text : list byte :=
  bytes_of_string "web" ++ [NUL] ++ bytes_of_string "make" ++ [NUL] ++ bytes_of_string "build" ++ [NUL] ++ bytes_of_string "X=5".
Definition demo_loaded : Task := mkTask 19 1 (Some 4) None (Some 9) (Some 0) (demo_loaded_text ++ zeros 14) [Some 15; None].
Definition demo_full_loaded : Server := set_tasks (Slots [Some demo_loaded; None] [1]) demo_full.
Definition demo_desk_loaded : world desk :=
  mkWorld mkDesk (demo_server_mem []) [(Fopen (bytes_of_string "ws"), mkRes 8 demo_ws []); (Close 8, ret 0)].

Lemma demo_load :
  get_task demo_small (Some (21%positive, 0)) [] (demo_full, demo_desk) = Ok (Some 0, (demo_full_loaded, demo_desk_loaded)).
Proof. by vm_compute. Qed.

Lemma demo_loaded_is :
  task_is 32 2 demo_loaded (mkATask (bytes_of_string "web") (Some (bytes_of_string "make")) None
    (Some (bytes_of_string "build")) [bytes_of_string "X=5"]).
Proof. split; try (by vm_compute). exists [15], 1%nat. split; [done|]. by constructor. Qed.

Lemma demo_full_can_answer n (w : world desk) : n ≤ 1000 → w_mem w = demo_server_mem [] → can_answer n demo_full w.
Proof. intros Hn Hm. split; [done|done|]. exists 20%positive, (zeros 1024). rewrite Hm. split_and!; [done|done| |done]. rewrite zlen_zeros; lia. Qed.

Lemma eval_task_run_outcomes_witness :
  ∃ s' w', eval_task_run demo_small (mkPacket 7 0 60 (10%positive, 0)) (Some (21%positive, 0)) [] (demo_full, demo_desk) =
      Ok (-1, (s', w')) ∧ sl_get (sv_tasks s') 0 = Some demo_loaded ∧
    answered (mkPacket 7 0 60 (10%positive, 0)) PROTOCOL_MSG_ERR (bytes_of_string "Failed to run task 'web'")
      demo_full_loaded demo_desk s' w'.
Proof.
  destruct (eval_task_run_outcomes demo_small 32 2 (mkPacket 7 0 60 (10%positive, 0)) (21%positive, 0) (bytes_of_string "web")
    [] 0 demo_loaded _ demo_full demo_desk demo_full_loaded demo_desk_loaded demo_load eq_refl demo_loaded_is) as [_ H].
  - intros i p [_ H]%sl_get_Some. by rewrite lookup_nil in H.
  - done.
  - destruct (demo_full_can_answer 30 demo_desk_loaded) as [? ? ?]; [done|done|]. by split.
  - destruct (H ltac:(intros (i & p & [_ Hi]%sl_get_Some & _); by rewrite lookup_nil in Hi) (-1) demo_full_loaded demo_desk_loaded eq_refl)
      as (s' & w' & Hrun & _ & Hs & Ha).
    exists s', w'. exact (conj Hrun (conj Hs Ha)).
Defined.

(** "build" has ended; "web" waits for it. *)
Definition demo_process : TaskProcess := mkProcess 0 98 (bytes_of_string "build" ++ [NUL]) 10 12.
Definition demo_building : Server :=
  mkServer true (sv_conn demo_server) (sv_workspace demo_server) (empty_stream 30) [7; 8]
    (sl_push demo_process (sl_new 1)).2 demo_tasks.

Lemma finished_process_starts_next_witness :
  ∃ w' tr,
    check_process demo_config_server 0 (demo_building, demo_desk) =
    ('(_, sw) ← start_queued demo_config_server (without 0 demo_building) w' 0 demo_task; Ok (tt, sw)) ∧
    w_trace w' = [] ++ tr ∧ Close 10 ∈ map fst tr ∧ Close 12 ∈ map fst tr.
Proof.
  destruct (finished_process_starts_next (W := desk) demo_config_server 16 2 (λ i, if decide (i = 0) then Some demo_atask else None)
    0 demo_process (bytes_of_string "build") 0 demo_task demo_atask demo_building demo_desk)
    as (w' & tr & E & T & C1 & C2 & _); [reflexivity|reflexivity|discriminate|exact demo_tasks_say|reflexivity|reflexivity|by exists []| |].
  - intros k b Hk. by rewrite decide_False by lia.
  - exists w', tr. exact (conj E (conj T (conj C1 C2))).
Defined.

Lemma eval_workspace_set_stores_witness :
  ∃ ws s' w',
    eval_workspace_set demo_config_server (mkPacket 7 0 60 (10%positive, 0)) (Some (21%positive, 0)) (demo_full, demo_desk) =
      Ok (0, (s', w')) ∧
    answered (mkPacket 7 0 60 (10%positive, 0)) PROTOCOL_MSG_SUCCESS (bytes_of_string "Workspace 'web' set as active")
      (set_workspace ws demo_full) demo_desk s' w' ∧
    zlen ws = 256 ∧ cstr ws 0 = Ok (bytes_of_string "web").
Proof.
  pose proof (eval_workspace_set_stores demo_config_server (mkPacket 7 0 60 (10%positive, 0)) (21%positive, 0)
    (bytes_of_string "web") demo_full demo_desk eq_refl (demo_full_can_answer (zlen (sv_workspace demo_full) + 26) demo_desk ltac:(done) eq_refl)) as H.
  cbv zeta in H. rewrite decide_False in H by (intros Hx; by apply Hx). exact H.
Defined.
