(* ===== verification/Main.v ===== *)
(** The program (src/main.c): the arena under every allocation, the configuration,
    the log, and the mode it runs in. *)

From S2P Require Import Prelude Alloc Arena CString Memory Protocol Os Log Config Net Client Store Server.

Definition ALLOC_PAGE_SIZE : Z := 65536.
Definition ALLOC_PAGE_COUNT : Z := 2.

(** [sizeof(Config)]: 56 bytes of [Args], 72 of [Settings]. *)
Definition SIZEOF_CONFIG : Z := 128.

Definition SIGINT : Z := 2.
Definition SIGTERM : Z := 15.
Definition SIGPIPE : Z := 13.

(** main.c defines [ALLOC_FUNC] as [arena_alloc]: the kernel of the program is the
    operating system with the arena in front of [malloc].  (An arena that has to grow
    and cannot ends the process; main.c locks it, so that it never grows.) *)
#[export] Instance arena_kernel {heap W} `{!Libc heap} `{!Kernel W} : Kernel (arena heap * W) := λ c s,
  match c with
  | Malloc n =>
      match arena_alloc (size_t n) s.1 with
      | Ok (Some b, a) => (mkRes (b_addr b) (b_bytes b) [], (a, s.2))
      | Ok (None, a) => (mkRes 0 [] [], (a, s.2))
      | Fault _ => (mkRes 0 [] [], s)
      end
  | _ => let '(r, os) := kcall c s.2 in (r, (s.1, os))
  end.

Definition help_text : list byte := bytes_of_string
"Usage:
  dpatch [-pfld] 
	Run as agent
  dpatch [-pwq] <run|r> name [-e...]
	Run a task with given name through a dpatch agent
  dpatch [-pwq] <set|s> path/to/file.ini
	Set active workspace to given file path in a dpatch agent
  dpatch [-pwq] <task|t> <name>
	Get task info with given task name from a dpatch agent
  dpatch [-pwq] <workspace|ws|w>
	Get active workspace info from a dpatch agent
  dpatch [-pwq] <process|proc> <name>
	Get ongoing processes info with given task name from a dpatch agent

Options:
  -p PORT		Set the port to serve/connect to (default: 9999)
  -f /file/path		Set a file to load as workspace in agent (default: none)
  -l /file/path		Set a file to write logs into (default: none)
  -w /dir/path		Run given command when changes are noticed in given directory (ie. watch)
  -q 			Quiet mode (no logging to terminal)
  -d 			Run as a separate detached process
  -e KEY=VALUE		Set an environment variable for a task
  -h 			See quick help".

(** The [int]s of a block. *)
Definition ints_of (n : Z) (bs : list byte) : list Z :=
  map (λ i, int_of_le (sub bs (4 * i) 4)) (seqZ 0 n).

Section Main.
Context {heap : Type} `{!Libc heap} {W : Type} `{!Kernel W}.
Abbreviation osw := (arena heap * W)%type.

(** The state: [__log_output_fd] and the world, which holds [__arena_root]. *)
Abbreviation MM := (ST (option Z * world osw)).

Definition in_world {A} (m : ST (world osw) A) : MM A := λ '(fd, w), '(a, w) ← m w; Ok (a, (fd, w)).
Definition set_arena (a : arena heap) (w : world osw) : world osw :=
  mkWorld (a, (w_os w).2) (w_mem w) (w_trace w).
Definition on_arena {A} (f : arena heap → res (A * arena heap)) : MM A := λ '(fd, w),
  '(x, a) ← f (w_os w).1; Ok (x, (fd, set_arena a w)).

(** [finish]: the code the process exits with, in the state it leaves. *)
Definition finish (sig : Z) : MM (option Z) :=
  _ ← log_close;
  _ ← on_arena (λ a, Ok (arena_free a));
  mret (Some sig).

Definition print_help : ST (world osw) unit := _ ← call (Print stdout help_text); mret tt.

(** [config_init]: a failed allocation exits at once. *)
Definition main_config (argc : Z) (argv : list (option addr)) : MM Config :=
  c ← in_world (call_ret (Malloc SIZEOF_CONFIG));
  if decide (c = 0) then lift (config_init false None ∅ argc argv)
  else
    i ← in_world (call (Malloc (4 * argc)));
    let indices := if decide (r_ret i = 0) then None else Some (ints_of argc (r_data i)) in
    in_world (with_mem (λ m, config_init true indices m argc argv)).

(** The two modes (there is no other, so the default of the switch is not reached); [n] bounds the iterations of the server and the polls of a watching
    client, [None] stands for a process that still runs. *)
Definition run_mode_of (n : nat) (config : Config) (argv : list (option addr)) : ST (world osw) (option Z) :=
  match run_mode (args config) with
  | RUNMODE_SERVER =>
      r ← run_as_server n config;
      match r with inl ret_code => mret (Some ret_code) | inr _ => mret None end
  | RUNMODE_CMD =>
      let count := protocol_token_count (settings config) in
      p ← call_ret (Malloc (SIZEOF_TOKENSTREAM + SIZEOF_TOKEN * count));
      ts ← lift (protocol_tokenstream_alloc (bool_decide (p ≠ 0)) 0 count);
      run_cmd n config argv ts
  end.

(** [main]: the exit code, or [None] while it runs. *)
Definition main (n : nat) (argc : Z) (argv : list (option addr)) : MM (option Z) :=
  _ ← on_arena (arena_init ALLOC_PAGE_SIZE ALLOC_PAGE_COUNT 1);
  config ← main_config argc argv;
  log_file ← (match log_file (args config) with
              | None => mret None
              | Some p => s ← in_world (with_mem (λ m, load_str m p)); mret (Some s)
              end);
  _ ← log_init log_file;
  if decide (help (args config) ≠ 0) then _ ← in_world print_help; mret (Some 1)
  else
    (* [daemonize] is empty *)
    _ ← in_world (call_ret (Signal SIGINT));
    _ ← in_world (call_ret (Signal SIGTERM));
    _ ← in_world (call_ret (Signal SIGPIPE));
    ret_code ← in_world (run_mode_of n config argv);
    match ret_code with None => mret None | Some ret_code => finish ret_code end.

End Main.
