(* ===== verification/MainSpec.v ===== *)
(** The whole program and its memory: the arena stays in order through every run, what
    is granted is accounted for and bounded, and it is given back when the program
    finishes. *)

From S2P Require Import Prelude Alloc Arena CString Memory Protocol Os Log Config Net Client Frame Store Task Server ServerFrame Main.

(** ** The arena behind the program *)

Section ArenaOrder.
Context {heap : Type} `{!Libc heap, !LibcOk heap}.

Lemma prealloc_live fuel size count lock i next h rs h' :
  libc_inv h → 0 ≤ size < 2 ^ 64 - ARENA_HEADER → prealloc fuel size count lock i next h = Ok (rs, h') →
  ∃ new, map region_extent rs = region_extent next :: new ∧ live h' ≡ₚ new ++ live h.
Proof.
  revert i next h rs. induction fuel as [|fuel IH]; intros i next h rs Hh Hs H; cbn [prealloc] in H;
    (destruct (i >=? count); [simplify_eq; exists []; by destruct (lock =? 0)|]); [done|].
  destruct (_arena_create size h) as [[r|] h1] eqn:Hc; [|done].
  apply bind_ok in H as ([rest h2] & H & E). simplify_eq.
  apply create_some in Hc as (Hi & _ & _ & _ & _ & Hl); [|done..].
  apply IH in H as (new & Hm & Hlive); [|done..]. rewrite Hl in Hlive.
  exists (region_extent r :: new). cbn. rewrite Hm. split; [done|]. rewrite Hlive. by rewrite Permutation_middle.
Qed.

(** The arena main.c works with: [count] locked pages of [size] bytes on top of what
    was allocated before. *)
Record in_order (size count : Z) (before : heap) (a : arena heap) : Prop := {
  io_wf : arena_wf a;
  io_locked : locked a;
  io_count : zlen (root a) = count;
  io_total : total_bytes (root a) = count * size;
  io_live : live (libc a) ≡ₚ map region_extent (root a) ++ live before;
}.

Lemma init_in_order size count a c a' :
  libc_inv (libc a) → 0 ≤ size < 2 ^ 64 - ARENA_HEADER → 0 < count →
  arena_init size count 1 a = Ok (c, a') → in_order size count (libc a) a'.
Proof.
  intros Hh Hs Hc H. pose proof (arena_init_spec _ _ _ _ _ _ Hh Hs H) as (_ & Hwf & Hp & Hlen & r & Hr & He).
  pose proof (pages_bytes _ _ Hp) as [_ Ht]. split; [done|exists r; split; [done|naive_solver lia]|lia|rewrite Ht, Hlen, Z.max_r by lia; done|].
  unfold arena_init in H. destruct (_arena_create size (libc a)) as [[r0|] h] eqn:Ec; [|done].
  apply create_some in Ec as (Hi & _ & _ & _ & _ & Hl); [|done..].
  destruct (count >? 0) eqn:E; [|lia]. apply bind_ok in H as ([rs h'] & H & E2). simplify_eq.
  apply prealloc_live in H as (new & Hm & Hlive); [|done..]. cbn [root libc]. rewrite Hm, Hlive, Hl.
  cbn. by rewrite Permutation_middle.
Qed.

Lemma alloc_in_order size count before n a :
  0 ≤ n → in_order size count before a →
  ∃ r a', arena_alloc n a = Ok (r, a') ∧ in_order size count before a' ∧
    used_bytes (root a') = used_bytes (root a) + match r with Some _ => n | None => 0 end.
Proof.
  intros Hn [Hwf Hl Hc Ht Hlive]. destruct (locked_alloc n a Hwf Hl Hn) as (r & a' & H & Hl' & Hh & Hlen & Ht' & Hu).
  exists r, a'. split; [done|]. destruct (arena_alloc_post n a r a' Hwf Hn H) as [Hwf' Hb].
  split; [|destruct r as [b|]; [|done]; destruct Hb as (Hb & _); cbn in Hu; rewrite Hb, zlen_zeros in Hu by done; done].
  split; [done|done|unfold zlen in *; lia|lia|]. rewrite Hh, Hlive. f_equiv.
  enough (map region_extent (root a') = map region_extent (root a)) as -> by done.
  rewrite arena_alloc_eq in H by done. unfold arena_alloc_spec, first_fit in H.
  destruct (root a) as [|r0 rs] eqn:Hroot; [simplify_eq; by rewrite Hroot|]. destruct (n >? r_size r0); [simplify_eq; by rewrite Hroot|].
  rewrite <- Hroot in *. destruct (list_find _ (root a)) as [[i ri]|] eqn:Hf.
  - apply list_find_Some in Hf as (Hi & _). cbn in H. simplify_eq. cbn [root]. by apply (map_extent_insert _ i ri).
  - destruct Hl as (l & Hlast & He). rewrite Hlast in H. rewrite (proj2 (Z.eqb_neq _ _) He) in H. cbn in H. by simplify_eq.
Qed.

(** An arena in order never hands out more than its pages hold. *)
Lemma in_order_used size count before a : in_order size count before a → used_bytes (root a) ≤ count * size.
Proof. intros [[Hok _ _] _ _ <- _]. by apply used_le_total. Qed.

Lemma free_in_order size count before a :
  in_order size count before a →
  ∃ a', arena_free a = (ARENA_OK, a') ∧ root a' = [] ∧ live (libc a') ≡ₚ live before.
Proof.
  intros [[_ _ Hi] (r & Hr & _) _ _ Hlive]. unfold arena_free. destruct (root a) as [|r0 rs] eqn:E; [done|].
  eexists. split; [done|]. split; [done|]. cbn [libc]. rewrite <- E in *. by apply free_all.
Qed.

End ArenaOrder.

(** ** What a run has been granted *)

Definition granted_by (e : syscall * sysres) : Z :=
  match e.1 with Malloc n => if decide (r_ret e.2 = 0) then 0 else size_t n | _ => 0 end.
Definition granted (tr : list (syscall * sysres)) : Z := sumZ (map granted_by tr).

Definition connects_by (e : syscall * sysres) : Z := if is_connect e.1 then 1 else 0.
Definition connects (tr : list (syscall * sysres)) : Z := sumZ (map connects_by tr).

Lemma sumZ_snoc l z : sumZ (l ++ [z]) = sumZ l + z.
Proof. unfold sumZ. induction l as [|x l IH]; cbn [foldr app]; lia. Qed.

Lemma granted_snoc tr e : granted (tr ++ [e]) = granted tr + granted_by e.
Proof. unfold granted. rewrite map_app. apply sumZ_snoc. Qed.

Lemma connects_snoc tr e : connects (tr ++ [e]) = connects tr + connects_by e.
Proof. unfold connects. rewrite map_app. apply sumZ_snoc. Qed.

Lemma size_t_nonneg n : 0 ≤ size_t n.
Proof. unfold size_t. apply Z.mod_pos_bound. lia. Qed.

Lemma granted_by_nonneg e : 0 ≤ granted_by e.
Proof. unfold granted_by. destruct (e.1); try done. pose proof (size_t_nonneg size). by case_decide. Qed.

(** Every connection is paid for with the buffer that was allocated for it. *)
Section Paid.
Context {W : Type} `{!Kernel W}.
Implicit Types w : world W.
Let paid w w' := 1024 * connects (w_trace w') + granted (w_trace w) ≤ 1024 * connects (w_trace w) + granted (w_trace w').

Lemma paid_frame : frame (λ c, negb (is_connect c)) paid.
Proof.
  unfold paid. split; [intros; cbn [w_trace set_mem] in *; lia..|]. intros c w Hc. unfold after. destruct (kcall c (w_os w)) as [r os].
  cbn [w_trace]. rewrite granted_snoc, connects_snoc. pose proof (granted_by_nonneg (c, r)).
  unfold connects_by. cbn [fst]. destruct (is_connect c); [done|lia].
Qed.

Lemma plain_paid : allows_plain (allowed := λ c, negb (is_connect c)).
Proof. by intros c _ ->. Qed.

Lemma mmalloc_granted n w b w' :
  0 ≤ n < 2 ^ 64 → mmalloc_block n w = Ok (Some b, w') →
  granted (w_trace w') = granted (w_trace w) + n ∧ connects (w_trace w') = connects (w_trace w).
Proof.
  intros Hn H. unfold mmalloc_block in H. apply st_bind_inv in H as (r & w1 & [_ T]%call_inv & H). case_decide; [by st_inv|].
  unfold get, modify in H. st_inv. cbn [w_trace set_mem]. rewrite T, granted_snoc, connects_snoc.
  unfold granted_by. cbn [fst snd]. rewrite decide_False by done. unfold size_t. rewrite Z.mod_small by done.
  unfold connects_by. cbn. lia.
Qed.

(** One connection may be outstanding. *)
Let owing w w' := 1024 * connects (w_trace w') + granted (w_trace w) ≤ 1024 * connects (w_trace w) + granted (w_trace w') + 1024.

Lemma paid_owing {A} (m : ST (world W) A) : respects paid (λ w, w) m → respects owing (λ w, w) m.
Proof. intros H w a w' Hm. specialize (H _ _ _ Hm). unfold paid, owing in *. lia. Qed.

Lemma owing_bind {A B} (m : ST (world W) A) (k : A → ST (world W) B) :
  respects paid (λ w, w) m → (∀ a, respects owing (λ w, w) (k a)) → respects owing (λ w, w) (m ≫= k).
Proof.
  intros Hm Hk w b w' (a & w1 & H1 & H2)%st_bind_inv. specialize (Hm _ _ _ H1). specialize (Hk _ _ _ _ H2).
  unfold paid, owing in *. lia.
Qed.

Lemma owing_connect {A} fd port (k : Z → ST (world W) A) :
  (∀ z w a w', k z w = Ok (a, w') → w' = w) → respects owing (λ w, w) (call_ret (Connect fd port) ≫= k).
Proof.
  intros Hk w b w' (z & w1 & (r & _ & _ & T)%call_ret_inv & H2)%st_bind_inv. apply Hk in H2 as ->.
  unfold owing. rewrite T, granted_snoc, connects_snoc. unfold granted_by, connects_by. cbn. lia.
Qed.

Lemma paid_connection config :
  buffer_size (settings config) = 1024 → respects paid (λ w, w) (connection_init config).
Proof.
  intros Hsize. unfold connection_init. apply (fr_bind paid_frame); [by apply (fr_call_ret paid_frame)|]. intros s.
  destruct (s <? 0); [apply (fr_mret paid_frame)|].
  intros w [z conn] w' ([b|] & w1 & Hm & H)%st_bind_inv.
  2: { st_inv. by apply (fr_mmalloc paid_frame _ plain_paid) in Hm. }
  rewrite Hsize in Hm. apply mmalloc_granted in Hm as [Hg Hc]; [|done].
  enough (owing w1 w') by (unfold paid, owing in *; lia). revert H. apply (owing_bind (mmalloc_block _) _).
  { apply (fr_mmalloc paid_frame), plain_paid. }
  intros out_buf. apply owing_bind; [by apply (fr_call_ret paid_frame)|]. intros o.
  destruct (o <? 0); [apply paid_owing, (fr_mret paid_frame)|].
  apply owing_bind; [apply (fr_timeouts paid_frame), plain_paid|]. intros [|]; [apply paid_owing, (fr_mret paid_frame)|].
  case_decide.
  - apply paid_owing. repeat (fr_step paid_frame || done).
  - apply owing_connect. intros c w2 a w3 Hr. by destruct (c <? 0); st_inv.
Qed.
End Paid.

(** ** The shape of a run *)

Section Shape.
Context {heap : Type} `{!Libc heap} {W : Type} `{!Kernel W}.
Abbreviation osw := (arena heap * W)%type.
Abbreviation MM := (ST (option Z * world osw)).
Context {allowed : syscall → bool} {R : world osw → world osw → Prop} (Hfr : frame allowed R).
Context (Hc : allows_plain (allowed := allowed)) (Hread : ∀ fd n, allowed (Read fd n) = true).
Hypothesis Hconn : ∀ config, settings config = config_default_settings → respects R (λ w, w) (connection_init config).

(** Operations on the log and the world keep what the frame keeps. *)
Abbreviation ok := (respects R (@snd (option Z) (world osw))).

Lemma ok_in_world {A} (m : ST (world osw) A) : respects R (λ w, w) m → ok (in_world m).
Proof.
  intros Hm [fd w] a [fd' w'] H. unfold in_world in H. apply bind_ok in H as ([b w1] & H1 & H). simplify_eq/=. by eapply Hm.
Qed.

Lemma ok_log_call c : allowed c = true → ok (log_call c).
Proof.
  intros Ha [fd w] a [fd' w'] H. unfold log_call in H. apply bind_ok in H as ([b w1] & H1 & H). simplify_eq/=.
  by eapply (fr_call_ret Hfr c).
Qed.

Lemma ok_set_log fd : ok (set_log fd).
Proof. intros [fd0 w] a [fd' w'] H. unfold set_log, modify in H. simplify_eq/=. apply (fr_refl _ _ Hfr). Qed.

Ltac main_step :=
  lazymatch goal with
  | |- respects _ _ (in_world _) => apply ok_in_world
  | |- respects _ _ (log_call _) => apply ok_log_call
  | |- respects _ _ (set_log _) => apply ok_set_log
  | _ => fr_step Hfr
  end || by apply Hc.

Lemma ok_config argc argv : ok (main_config argc argv).
Proof. unfold main_config. repeat main_step. Qed.

Lemma ok_log_init path : ok (log_init path).
Proof. unfold log_init. repeat main_step. Qed.

Lemma ok_run n config argv : settings config = config_default_settings → respects R (λ w, w) (run_mode_of n config argv).
Proof.
  intros Hst. unfold run_mode_of.
  repeat (main_step || apply (fr_run_as_server Hfr Hc config Hread (Hconn _ Hst)) ||
          apply (fr_run_cmd Hfr Hc Hread config (Hconn _ Hst))).
Qed.

Lemma main_config_settings argc argv s c s' : main_config argc argv s = Ok (c, s') → settings c = config_default_settings.
Proof.
  assert (Hi : ∀ ok indices m c, config_init ok indices m argc argv = Ok c → settings c = config_default_settings).
  { intros ok indices m c0 H. unfold config_init in H. destruct ok; [|done]. apply bind_ok in H as (a & _ & H). by simplify_eq. }
  unfold main_config. intros (a & s1 & _ & H)%st_bind_inv. case_decide.
  - unfold lift in H. apply bind_ok in H as (c0 & H & E). by simplify_eq.
  - apply st_bind_inv in H as (i & s2 & _ & H). destruct s2 as [fd w]. unfold in_world, with_mem in H.
    apply bind_ok in H as ([c0 w'] & H & E). simplify_eq. apply bind_ok in H as (c1 & H & E). simplify_eq. by eapply Hi.
Qed.

(** What [main] does behind [arena_init]: a run inside the frame, which ends with the
    help text, is not over, or is followed by [finish]. *)
Lemma main_shape n argc argv (w w' : world osw) r fd' :
  main n argc argv (None, w) = Ok (r, (fd', w')) →
  ∃ c a w2 fd2, arena_init ALLOC_PAGE_SIZE ALLOC_PAGE_COUNT 1 (w_os w).1 = Ok (c, a) ∧ R (set_arena a w) w2 ∧
    ((fd', w') = (fd2, w2) ∧ (r = None ∨ r = Some 1 ∧ ∃ tr x, w_trace w' = tr ++ [(Print stdout help_text, x)]) ∨
     ∃ code, finish code (fd2, w2) = Ok (r, (fd', w'))).
Proof.
  intros H. unfold main in H. apply st_bind_inv in H as (c & [fd0 w0] & Hinit & H).
  unfold on_arena in Hinit. apply bind_ok in Hinit as ([c' a0] & Hinit & E). simplify_eq.
  exists c, a0. generalize dependent (set_arena a0 w). intros w0 H.
  assert (Htrans : ∀ w1 w2, R w0 w1 → R w1 w2 → R w0 w2) by (intros; by eapply (fr_trans _ _ Hfr)).
  apply st_bind_inv in H as (config & [fd1 w1] & Hcfg & H). pose proof (main_config_settings _ _ _ _ _ Hcfg) as Hst.
  apply ok_config in Hcfg as R1. cbn in R1.
  apply st_bind_inv in H as (path & [fd2 w2] & Hp & H).
  assert (Hpath : ok (match log_file (args config) with None => mret None
    | Some p => s ← in_world (with_mem (λ m, load_str m p)); mret (Some s) end)) by repeat main_step.
  apply Hpath in Hp as R2. cbn in R2.
  apply st_bind_inv in H as (z & [fd3 w3] & Hl & H). apply ok_log_init in Hl as R3. cbn in R3.
  assert (R13 : R w0 w3) by eauto. clear R1 R2 R3 Hpath Hp Hl Hcfg.
  case_decide.
  - apply st_bind_inv in H as ([] & [fd4 w4] & Hh & H). unfold mret, st_ret in H. simplify_eq.
    unfold in_world in Hh. apply bind_ok in Hh as ([[] w6] & Hh & E). simplify_eq.
    unfold print_help in Hh. apply st_bind_inv in Hh as (x & w7 & Hcall & Hh). unfold mret, st_ret in Hh. simplify_eq.
    apply (fr_sys Hfr) in Hcall as R4; [|by apply Hc]. apply call_inv in Hcall as [_ Ht].
    exists w', fd'. split; [done|]. split; [by eauto|]. left. split; [done|]. right. by eauto.
  - do 3 (apply st_bind_inv in H as (? & [? ?] & Hs & H); apply ok_in_world in Hs; [|by apply (fr_call_ret Hfr), Hc];
      cbn [snd] in Hs; apply (Htrans _ _ R13) in Hs; clear R13; rename Hs into R13).
    apply st_bind_inv in H as (ret & [fd9 w9] & Hr & H). apply (ok_in_world _ (ok_run _ _ _ Hst)) in Hr. cbn [snd] in Hr.
    exists w9, fd9. split; [done|]. split; [by eauto|]. destruct ret as [code|]; [right; by exists code|].
    unfold mret, st_ret in H. simplify_eq. left. split; [done|by left].
Qed.

(** [finish] closes the log and gives the arena back. *)
Lemma finish_shape code fd (w w' : world osw) r fd' :
  finish code (fd, w) = Ok (r, (fd', w')) →
  ∃ w1, R w w1 ∧ r = Some code ∧ fd' = None ∧ w' = set_arena (arena_free (w_os w1).1).2 w1.
Proof.
  intros H. unfold finish in H. apply st_bind_inv in H as ([] & [fd1 w1] & Hlog & H).
  assert (Hk : ok log_close) by (unfold log_close; repeat main_step).
  specialize (Hk _ _ _ Hlog). cbn [snd] in Hk. exists w1. split; [done|].
  assert (fd1 = None) as ->.
  { unfold log_close in Hlog. apply st_bind_inv in Hlog as (o & s1 & Hg & Hlog). unfold get in Hg. simplify_eq/=.
    destruct o as [o|]; st_inv; [|done]. unfold set_log, modify in Hlog. by simplify_eq. }
  unfold mbind, st_bind, on_arena in H. cbn in H. destruct (arena_free (w_os w1).1) as [code' a].
  cbn in H. unfold mret, st_ret in H. by simplify_eq.
Qed.
End Shape.

(** ** What the program does with memory *)

Section Runs.
Context {heap : Type} `{!Libc heap, !LibcOk heap} {W : Type} `{!Kernel W} (before : heap).
Abbreviation osw := (arena heap * W)%type.

(** The two pages in order, and everything that was granted taken from them. *)
Definition accounted (w : world osw) : Prop :=
  in_order ALLOC_PAGE_SIZE ALLOC_PAGE_COUNT before (w_os w).1 ∧ granted (w_trace w) ≤ used_bytes (root (w_os w).1).

Lemma accounted_frame : frame (λ _, true) (keeping accounted).
Proof.
  apply frame_keeping; [done|]. intros c [[a os] m tr] _ [Ha Hg]. unfold accounted in *. cbn [w_os w_trace fst] in *.
  unfold after, kcall, arena_kernel. cbn [w_os w_mem w_trace fst snd].
  assert (Hother : ∀ r os', (∀ n, c ≠ Malloc n) → accounted (mkWorld (a, os') m (tr ++ [(c, r)]))).
  { intros r os' Hc. split; [done|]. cbn [w_trace w_os fst]. rewrite granted_snoc. unfold granted_by. cbn [fst].
    destruct c; try lia. by destruct (Hc size). }
  destruct c; try (destruct (kcall _ os) as [r os']; by apply Hother). clear Hother.
  destruct (alloc_in_order _ _ _ _ _ (size_t_nonneg size) Ha) as (r & a' & -> & Ha' & Hu).
  pose proof (size_t_nonneg size).
  destruct r as [b|]; (split; [done|]); cbn [w_trace w_os fst]; rewrite granted_snoc; unfold granted_by; cbn [fst snd r_ret];
    case_decide; lia.
Qed.

Lemma accounted_plain : allows_plain (allowed := λ _, true).
Proof. done. Qed.

Lemma accounted_connection config : respects (keeping accounted) (λ w, w) (connection_init config).
Proof. by apply (fr_connection_init accounted_frame). Qed.

Lemma accounted_granted w : accounted w → granted (w_trace w) ≤ 131072.
Proof. intros [Ha Hg]. pose proof (in_order_used _ _ _ _ Ha) as Hu. change (granted (w_trace w) ≤ 2 * 65536). unfold ALLOC_PAGE_COUNT, ALLOC_PAGE_SIZE in *. lia. Qed.

Lemma accounted_start c a (w : world osw) :
  libc_inv before → (w_os w).1 = Arena [] before → w_trace w = [] →
  arena_init ALLOC_PAGE_SIZE ALLOC_PAGE_COUNT 1 (w_os w).1 = Ok (c, a) → accounted (set_arena a w).
Proof.
  intros Hi Ha Ht H. rewrite Ha in H. apply init_in_order in H; [|done|by vm_compute|done]. cbn [libc] in H.
  split; [done|]. cbn [w_trace set_arena w_os fst]. rewrite Ht. destruct H as [[Hok _ _] _ _ _ _].
  change (0 ≤ used_bytes (root a)). clear -Hok. unfold used_bytes. induction Hok as [|r rs [? _ _ _ _] _ IH]; cbn; lia.
Qed.

(** C13: the program's memory from start to end.  While it runs, the arena consists of
    its two locked pages, in order, and [malloc] is not called again; everything the
    program is ever granted fits into these 128 KiB, since nothing is given back before
    the end.  Whichever mode ran, when the program finishes the log is closed and all
    memory is back with the C library.  (Asking for help exits without that.) *)
Theorem main_memory n argc argv (w : world osw) r fd' w' :
  libc_inv before → (w_os w).1 = Arena [] before → w_trace w = [] →
  main n argc argv (None, w) = Ok (r, (fd', w')) →
  let a := (w_os w').1 in
  granted (w_trace w') ≤ 131072 ∧
  (is_Some r ∧ fd' = None ∧ root a = [] ∧ live (libc a) ≡ₚ live before ∨
   (r = None ∨ r = Some 1 ∧ ∃ tr x, w_trace w' = tr ++ [(Print stdout help_text, x)]) ∧
   in_order ALLOC_PAGE_SIZE ALLOC_PAGE_COUNT before a).
Proof.
  intros Hi Ha Ht H a.
  destruct (main_shape accounted_frame accounted_plain (λ _ _, eq_refl) (λ config _, accounted_connection config) _ _ _ _ _ _ _ H)
    as (c & a0 & w2 & fd2 & Hinit & Hk & Hend).
  specialize (Hk (accounted_start _ _ _ Hi Ha Ht Hinit)).
  destruct Hend as [[[= -> ->] Hr]|[code Hf]]; [split; [by apply accounted_granted|right; split; [done|apply Hk]]|].
  apply (finish_shape accounted_frame accounted_plain) in Hf as (w1 & Hk1 & -> & -> & ->). specialize (Hk1 Hk).
  split; [exact (accounted_granted _ Hk1)|]. left. destruct (free_in_order _ _ _ _ (proj1 Hk1)) as (a' & Hfree & Hroot & Hlive).
  unfold a. cbn [set_arena w_os fst]. rewrite Hfree. by split_and!.
Qed.

(** C25: the program connects at most 128 times in its life.  Each connection takes at
    least 1024 bytes that are never given back, so a watching client stops with an error
    after at most that many changes, however small. *)
Theorem main_connects n argc argv (w : world osw) r fd' w' :
  libc_inv before → (w_os w).1 = Arena [] before → w_trace w = [] →
  main n argc argv (None, w) = Ok (r, (fd', w')) →
  1024 * connects (w_trace w') ≤ granted (w_trace w') ∧ connects (w_trace w') ≤ 128.
Proof.
  intros Hi Ha Ht H.
  assert (Hg : granted (w_trace w') ≤ 131072).
  { destruct (main_shape accounted_frame accounted_plain (λ _ _, eq_refl) (λ config _, accounted_connection config) _ _ _ _ _ _ _ H)
      as (c & a0 & w2 & fd2 & Hinit & Hk & Hend).
    specialize (Hk (accounted_start _ _ _ Hi Ha Ht Hinit)).
    destruct Hend as [[[= -> ->] _]|[code Hf]]; [by apply accounted_granted|].
    apply (finish_shape accounted_frame accounted_plain) in Hf as (w1 & Hk1 & _ & _ & ->).
    exact (accounted_granted _ (Hk1 Hk)). }
  enough (1024 * connects (w_trace w') ≤ granted (w_trace w')) by lia.
  destruct (main_shape (paid_frame (W := osw)) plain_paid (λ _ _, eq_refl) (λ config Hst, paid_connection (W := osw) config ltac:(by rewrite Hst)) _ _ _ _ _ _ _ H)
    as (c & a0 & w2 & fd2 & _ & Hk & Hend). cbn [w_trace set_arena] in Hk. rewrite Ht in Hk. cbn in Hk.
  destruct Hend as [[[= -> ->] _]|[code Hf]]; [lia|].
  apply (finish_shape (paid_frame (W := osw)) plain_paid) in Hf as (w1 & Hk1 & _ & _ & ->). cbn [w_trace set_arena]. lia.
Qed.
End Runs.

(** ** The program asked for help, and the agent that finds its port taken *)

Definition demo_start (script : list sysres) (words : list (list byte)) : world (arena BumpHeap.heap * list sysres) :=
  mkWorld (Arena [] (BumpHeap.empty 1000000), script)
    (list_to_map (zip (map Pos.of_succ_nat (seq 0 (length words))) (map (λ w, w ++ [NUL]) words))) [].

Definition demo_taken : world (arena BumpHeap.heap * list sysres) :=
  demo_start [ret 0; ret 0; ret 0; ret 3; ret (-1); ret (-1)] [].

Lemma demo_heap_inv : libc_inv (BumpHeap.empty 1000000).
Proof. split; [cbn; lia|]. cbn. split; [constructor|done]. Qed.

Lemma main_memory_witness :
  match main 1 1 [None] (None, demo_taken) with
  | Ok (r, (fd, w)) => r = Some (-1) ∧ fd = None ∧ root (w_os w).1 = [] ∧ live (libc (w_os w).1) ≡ₚ []
  | Fault _ => False
  end.
Proof.
  run_demo E. assert (o = Some (-1)) as -> by (vm_compute in E; by injection E).
  destruct (main_memory (BumpHeap.empty 1000000) 1 1 [None] demo_taken (Some (-1)) _ _ demo_heap_inv eq_refl eq_refl E)
    as [_ [[_ H]|[[?|[? _]] _]]]; [by split|done|done].
Defined.

(** "dpatch run web" against an agent that accepts the connection. *)
Definition demo_run : world (arena BumpHeap.heap * list sysres) :=
  demo_start [ret 0; ret 0; ret 0; ret 3; ret 0; ret 0; ret 0; ret 0] [bytes_of_string "run"; bytes_of_string "web"].

Lemma main_connects_witness :
  match main 1 3 [None; Some (1%positive, 0); Some (2%positive, 0); None] (None, demo_run) with
  | Ok (_, (_, w)) => 1024 * connects (w_trace w) ≤ granted (w_trace w) ∧ connects (w_trace w) ≤ 128
  | Fault _ => False
  end.
Proof.
  run_demo E.
  exact (main_connects (BumpHeap.empty 1000000) 1 3 _ demo_run _ _ _ demo_heap_inv eq_refl eq_refl E).
Defined.

Example demo_run_connects :
  match main 1 3 [None; Some (1%positive, 0); Some (2%positive, 0); None] (None, demo_run) with
  | Ok (r, (_, w)) => (r, connects (w_trace w)) = (Some (-1), 1)
  | Fault _ => False
  end.
Proof. vm_compute. reflexivity. Qed.
