(* ===== verification/Startup.v ===== *)
(** Starting the agent: with the default settings everything it allocates fits into the
    first page of the arena, so that it reaches its loop whenever its sockets do. *)

From S2P Require Import Prelude Alloc Arena CString Memory Protocol Os Log Config Net Client Store Task Server ServerLogic Main MainSpec.

(** ** Room in the first page *)

Section Room.
Context {heap : Type} `{!Libc heap, !LibcOk heap}.

Definition room (a : arena heap) : Z := match root a with r :: _ => r_size r - r_current r | [] => -1 end.

Lemma alloc_room n k a :
  0 ≤ n → arena_wf a → n + k ≤ room a → 0 ≤ k →
  ∃ b a', arena_alloc n a = Ok (Some b, a') ∧ 0 < b_addr b ∧ arena_wf a' ∧ k ≤ room a'.
Proof.
  intros Hn Hwf Hroom Hk.
  assert (∃ b a', arena_alloc n a = Ok (Some b, a') ∧ k ≤ room a') as (b & a' & H & Hr).
  { rewrite arena_alloc_eq by done. unfold arena_alloc_spec, room in *. destruct Hwf as [Hok _ _].
    destruct (root a) as [|r rs] eqn:E; [lia|]. apply Forall_cons in Hok as [[? _ _ _ _] _].
    destruct (Z.gtb_spec n (r_size r)); [lia|]. unfold first_fit. cbn [list_find].
    rewrite decide_True by (unfold has_room; lia). cbn. eexists _, _. split; [done|]. cbn. lia. }
  exists b, a'. split; [done|]. destruct (arena_alloc_post n a _ a' Hwf Hn H) as [Hwf' (_ & Hb & _)]. split_and!; (done || lia).
Qed.

Lemma init_room size count c a a' :
  libc_inv (libc a) → 0 ≤ size < 2 ^ 64 - ARENA_HEADER → 0 < count →
  arena_init size count 1 a = Ok (c, a') → arena_wf a' ∧ room a' = size.
Proof.
  intros Hh Hs Hc H. pose proof (arena_init_spec _ _ _ _ _ _ Hh Hs H) as (_ & Hwf & Hp & Hlen & _). split; [done|].
  unfold room. destruct (root a') as [|r rs]; [cbn in Hlen; unfold zlen in *; cbn in *; lia|].
  apply Forall_cons in Hp as [[Hsz Hcur] _]. lia.
Qed.
End Room.

(** ** The agent's allocations and calls *)

Section Start.
Context {heap : Type} `{!Libc heap, !LibcOk heap} {W : Type} `{!Kernel W}.
Abbreviation osw := (arena heap * W)%type.
Implicit Types w : world osw.

(** The calls that set up a listening socket succeed. *)
Definition willing : Prop := ∀ c (os : W),
  match c with
  | Socket => 0 ≤ r_ret (kcall c os).1
  | Setsockopt _ _ _ | Bind _ _ | Listen _ _ => r_ret (kcall c os).1 = 0
  | _ => True
  end.
Hypothesis Hwill : willing.

Definition fits (n : Z) w : Prop := arena_wf (w_os w).1 ∧ n ≤ room (w_os w).1.

Lemma start_call {B} c (k : Z → ST (world osw) B) w :
  (∀ n, c ≠ Malloc n) →
  ∃ w', (call_ret c ≫= k) w = k (r_ret (kcall c (w_os w).2).1) w' ∧ ∀ n, fits n w → fits n w'.
Proof.
  intros Hc. destruct w as [[a os] m tr]. unfold call_ret, call, mbind, st_bind, kcall at 1, arena_kernel. cbn [w_os fst snd w_mem w_trace].
  destruct c; try (destruct (kcall _ os) as [r os']; eexists; split; [reflexivity|done]). by destruct (Hc size).
Qed.

Lemma start_malloc n k w :
  0 ≤ n < 2 ^ 64 → 0 ≤ k → fits (n + k) w →
  ∃ r w', call (Malloc n) w = Ok (r, w') ∧ r_ret r ≠ 0 ∧ fits k w'.
Proof.
  intros Hn Hk [Hwf Hr]. destruct w as [[a os] m tr]. unfold call, kcall, arena_kernel. cbn [w_os fst snd w_mem w_trace] in *.
  assert (size_t n = n) as -> by (unfold size_t; by rewrite Z.mod_small).
  destruct (alloc_room n k a) as (b & a' & -> & Hb & Hwf' & Hr'); [lia|done|done|done|].
  eexists _, _. split; [reflexivity|]. split; [cbn; lia|done].
Qed.

Lemma start_malloc_ret {B} n k (f : Z → ST (world osw) B) w :
  0 ≤ n < 2 ^ 64 → 0 ≤ k → fits (n + k) w →
  ∃ p w', (call_ret (Malloc n) ≫= f) w = f p w' ∧ p ≠ 0 ∧ fits k w'.
Proof.
  intros Hn Hk Hf. destruct (start_malloc n k w Hn Hk Hf) as (r & w' & E & Hp & Hf').
  exists (r_ret r), w'. split; [|done]. unfold call_ret, mbind, st_bind. by rewrite E.
Qed.

Lemma start_buffer {B} n k (f : option addr → ST (world osw) B) w :
  0 ≤ n < 2 ^ 64 → 0 ≤ k → fits (n + k) w →
  ∃ p w', (mmalloc_block n ≫= f) w = f (Some p) w' ∧ fits k w'.
Proof.
  intros Hn Hk Hf. destruct (start_malloc n k w Hn Hk Hf) as (r & w' & E & Hp & Hf').
  eexists _, _. split; [apply st_bind_ok; unfold mmalloc_block; rewrite (st_bind_ok _ _ _ _ _ E), decide_False by done; reflexivity|].
  done.
Qed.
(** One call that is no allocation; [H] says that it keeps what fits. *)
Ltac start_next H :=
  match goal with
  | |- context [(call_ret ?c ≫= ?k) ?w] =>
      let w' := fresh "w" in let E := fresh "E" in
      destruct (start_call c k w ltac:(done)) as (w' & E & H); rewrite E; clear E
  end.

Ltac start_zero H :=
  start_next H;
  match goal with |- context [kcall ?c ?os] => pose proof (Hwill c os) as Hz; cbn in Hz; rewrite Hz; clear Hz end;
  cbv beta; try (change (0 <? 0) with false; cbv iota).

Lemma start_timeouts {B} sock secs (k : bool → ST (world osw) B) w :
  ∃ w', (set_timeouts sock secs ≫= k) w = k false w' ∧ ∀ n, fits n w → fits n w'.
Proof.
  enough (∃ w', set_timeouts sock secs w = Ok (false, w') ∧ ∀ n, fits n w → fits n w') as (w' & E & H).
  { exists w'. split; [by apply st_bind_ok|done]. }
  unfold set_timeouts, socket_set_timeout. start_zero H1. rewrite decide_True by done. start_zero H2.
  rewrite bool_decide_eq_false_2 by (intros Hx; by apply Hx). eexists. split; [done|]. auto.
Qed.

Lemma start_connection {B} config k (f : Z * Connection → ST (world osw) B) w :
  settings config = config_default_settings → run_mode (args config) = RUNMODE_SERVER →
  0 ≤ k → fits (2048 + k) w →
  ∃ conn w', (connection_init config ≫= f) w = f (1, conn) w' ∧ fits k w'.
Proof.
  intros Hst Hmode Hk Hf.
  enough (∃ conn w', connection_init config w = Ok ((1, conn), w') ∧ fits k w') as (conn & w' & E & Hf').
  { exists conn, w'. split; [by apply st_bind_ok|done]. }
  unfold connection_init. rewrite Hst. change (buffer_size config_default_settings) with 1024.
  start_next H1. pose proof (Hwill Socket (w_os w).2) as Hs. cbn in Hs.
  destruct (Z.ltb_spec (r_ret (kcall Socket (w_os w).2).1) 0); [lia|].
  match goal with |- context [(mmalloc_block 1024 ≫= ?g) ?w1] =>
    destruct (start_buffer 1024 (1024 + k) g w1) as (p & w2 & E2 & H2); [lia|lia|apply H1; by replace (1024 + (1024 + k)) with (2048 + k) by lia|]; rewrite E2; clear E2 end.
  match goal with |- context [(mmalloc_block 1024 ≫= ?g) ?w1] =>
    destruct (start_buffer 1024 k g w1) as (q & w3 & E3 & H3); [lia|done|done|]; rewrite E3; clear E3 end.
  start_zero H4.
  match goal with |- context [(set_timeouts ?a ?b ≫= ?g) ?w1] =>
    destruct (start_timeouts a b g w1) as (w5 & E5 & H5); rewrite E5; clear E5 end.
  rewrite Hmode, decide_True by done. start_zero H6. start_zero H7. eexists _, _. split; [reflexivity|]. auto.
Qed.

(** One allocation of [n] bytes that leaves room for [k]. *)
Ltac start_alloc n k :=
  match goal with
  | Hf : fits _ ?w |- context [(call_ret (Malloc ?m) ≫= ?g) ?w] =>
      let p := fresh "p" in let w' := fresh "w" in let E := fresh "E" in let H := fresh "H" in
      change m with n; destruct (start_malloc_ret n k g w) as (p & w' & E & ? & H);
      [lia|lia|by match type of Hf with fits ?x _ => replace (n + k) with x by lia end|]; rewrite E; clear E
  end.

(** The agent comes up: its state before the first iteration. *)
Lemma start_server config k w :
  settings config = config_default_settings → run_mode (args config) = RUNMODE_SERVER →
  0 ≤ k → fits (11122 + k) w → ∃ s w', server_start config w = Ok (inr s, w') ∧ fits k w'.
Proof.
  intros Hst Hmode Hk Hf. unfold server_start. rewrite Hst.
  match goal with |- context [(connection_init _ ≫= ?g) _] =>
    destruct (start_connection config (9074 + k) g w Hst Hmode) as (conn & w1 & E & H1);
    [lia|by replace (2048 + (9074 + k)) with (11122 + k) by lia|]; rewrite E; clear E end.
  change (1 <? 1) with false. cbv beta iota.
  destruct (start_malloc 256 (8818 + k) w1) as (r & w2 & E2 & Hr & H2);
    [lia|lia|by replace (256 + (8818 + k)) with (9074 + k) by lia|].
  change (workspace_buf_size config_default_settings) with 256. rewrite (st_bind_ok _ _ _ _ _ E2). clear E2.
  start_alloc 496 (8322 + k). rewrite bool_decide_eq_true_2 by done.
  match goal with |- context [lift ?m] => assert (Hts : ∃ ts, m = Ok (Some ts)) by (eexists; reflexivity) end.
  destruct Hts as [ts Hts]. rewrite (bind_lift _ _ _ _ Hts). clear Hts.
  start_alloc 152 (8170 + k). start_alloc 1505 (6665 + k). start_alloc 6665 k.
  rewrite decide_False by naive_solver. eexists _, _. split; [reflexivity|done].
Qed.
(** ** From the start of the process *)

Lemma run_in_world {A B} (m : ST (world osw) A) (k : A → ST (option Z * world osw) B) fd w a w' :
  m w = Ok (a, w') → (in_world m ≫= k) (fd, w) = k a (fd, w').
Proof. intros H. unfold mbind at 1, st_bind, in_world. by rewrite H. Qed.

Lemma start_signal sig w : ∃ z w', call_ret (Signal sig) w = Ok (z, w') ∧ ∀ n, fits n w → fits n w'.
Proof.
  destruct w as [[a os] m tr]. unfold call_ret, call, mbind, st_bind, kcall, arena_kernel. cbn [w_os fst snd w_mem w_trace].
  destruct (kcall (Signal sig) os) as [r os']. eexists _, _. split; [reflexivity|done].
Qed.

(** The configuration of a command line without words. *)
Lemma start_config argv k fd w :
  0 ≤ k → fits (132 + k) w →
  ∃ config w', main_config 1 argv (fd, w) = Ok (config, (fd, w')) ∧ fits k w' ∧
    settings config = config_default_settings ∧ run_mode (args config) = RUNMODE_SERVER ∧
    log_file (args config) = None ∧ help (args config) = 0.
Proof.
  intros Hk Hf. unfold main_config. change SIZEOF_CONFIG with 128. change (4 * 1) with 4.
  destruct (start_malloc 128 (4 + k) w) as (r & w1 & E1 & Hr & H1); [lia|lia|by replace (128 + (4 + k)) with (132 + k) by lia|].
  rewrite (run_in_world _ _ _ _ (r_ret r) w1) by (unfold call_ret; by rewrite (st_bind_ok _ _ _ _ _ E1)).
  rewrite decide_False by done.
  destruct (start_malloc 4 k w1) as (r' & w2 & E2 & Hr' & H2); [lia|lia|done|].
  rewrite (run_in_world _ _ _ _ r' w2) by done. cbv zeta. rewrite decide_False by done.
  eexists _, w2. split; [reflexivity|]. by split_and!.
Qed.

(** C14: "dpatch" without arguments becomes an agent.  When the C library grants the two
    pages and the socket calls succeed, the program reaches the run loop of the agent:
    with the default settings no allocation on the way can fail. *)
Theorem agent_starts before argv c a w :
  libc_inv before → (w_os w).1 = Arena [] before →
  arena_init ALLOC_PAGE_SIZE ALLOC_PAGE_COUNT 1 (Arena [] before) = Ok (c, a) →
  ∃ w', main 0 1 argv (None, w) = Ok (None, (None, w')) ∧ ALLOC_PAGE_SIZE - 11254 ≤ room (w_os w').1.
Proof.
  intros Hi Hw Ha. destruct (init_room ALLOC_PAGE_SIZE ALLOC_PAGE_COUNT c (Arena [] before) a) as [Hwf Hroom]; [done|by vm_compute|done|done|].
  unfold main. rewrite (st_bind_ok _ _ _ c (None, set_arena a w)) by (unfold on_arena; by rewrite Hw, Ha).
  assert (Hf : fits (132 + (65536 - 132)) (set_arena a w)) by (split; [exact Hwf|change (65536 ≤ room a); rewrite Hroom; by vm_compute]).
  destruct (start_config argv (65536 - 132) None (set_arena a w)) as (config & w1 & E1 & H1 & Hst & Hmode & Hlog & Hhelp); [lia|done|].
  rewrite (st_bind_ok _ _ _ _ _ E1), Hlog. clear E1.
  rewrite (st_bind_ok _ _ _ None (None, w1)) by done. rewrite (st_bind_ok _ _ _ 0 (None, w1)) by done.
  rewrite decide_False by (rewrite Hhelp; intros Hx; by apply Hx).
  destruct (start_signal SIGINT w1) as (z1 & w2 & E2 & H2). rewrite (run_in_world _ _ _ _ _ _ E2).
  destruct (start_signal SIGTERM w2) as (z2 & w3 & E3 & H3). rewrite (run_in_world _ _ _ _ _ _ E3).
  destruct (start_signal SIGPIPE w3) as (z3 & w4 & E4 & H4). rewrite (run_in_world _ _ _ _ _ _ E4).
  destruct (start_server config (65536 - 132 - 11122) w4 Hst Hmode) as (s & w5 & E5 & H5); [lia|auto|].
  exists w5. split; [|apply H5]. rewrite (run_in_world _ _ _ _ None w5); [done|].
  unfold run_mode_of. rewrite Hmode. unfold mbind, st_bind, run_as_server. rewrite E5. cbn. done.
Qed.
End Start.

(** A kernel that lets everything succeed. *)
Lemma quota_willing : willing (W := quota).
Proof. by intros [] os. Qed.

Lemma agent_starts_witness :
  ∃ w', main 0 1 [None; None] (None, mkWorld (Arena [] (BumpHeap.empty 1000000), mkQuota 0) ∅ []) = Ok (None, (None, w')) ∧
    54282 ≤ room (w_os w').1.
Proof.
  assert (Hok : match arena_init ALLOC_PAGE_SIZE ALLOC_PAGE_COUNT 1 (Arena [] (BumpHeap.empty 1000000)) with
                | Ok _ => true | Fault _ => false end = true) by (vm_compute; reflexivity).
  destruct (arena_init ALLOC_PAGE_SIZE ALLOC_PAGE_COUNT 1 (Arena [] (BumpHeap.empty 1000000))) as [[c a]|f] eqn:E; [|discriminate Hok].
  exact (agent_starts quota_willing (BumpHeap.empty 1000000) [None; None] c a
    (mkWorld (Arena [] (BumpHeap.empty 1000000), mkQuota 0) ∅ []) demo_heap_inv eq_refl E).
Defined.
